(* ===== verification/_CoqProject ===== *)
-Q . S2P
Prelude.v
RustStd.v
Error.v
Flags.v
Keys.v
SlateDb.v
MemDb.v
ChunkStore.v
ChunkLayout.v
ChunkManager.v
ChunkManagerSpec.v
ChunkProps.v
FileMetadata.v
FileSpec.v
FileHandle.v
FileHandleSpec.v
HandleReads.v
FileRefinement.v
HandleSafety.v
HandleSystem.v
FileProps.v
Transactions.v
DatabaseMetadata.v
Locality.v
DatabaseSpec.v
DatabaseOps.v
DatabaseProps.v
SharedStore.v
SerialLogic.v
SerialOps.v
SerialHistory.v
SharedMem.v
SerialProps.v
Cache.v
ObjectStore.v
FileSystem.v
VolumeSpec.v
GroupSpec.v
FileSystemSpec.v
FileSystemOps.v
GroupFrame.v
VolumeRun.v
MemFs.v
SyncProps.v
FileSystemProps.v
ClientTasks.v
ClientSafety.v
ClientLinear.v
ClientProps.v
Durability.v
VolumeSteps.v
VolumeRefinement.v
VolumeProps.v
IoMetrics.v
IoMetricsProps.v
IoLayer.v
IoLayerProps.v
Ffi.v
FfiSpec.v
FfiProps.v
FfiVolume.v
FfiVolumeProps.v
TestKit.v
ChunkTests.v
DataTests.v
HandleTests.v
FileSystemTests.v
FfiTests.v
MetricsTests.v
