(* ===== verification/Prelude.v ===== *)
(** * Verification of the SlateDB-backed DuckDB filesystem (rust/src)

    The crate stores DuckDB's files in SlateDB, a key-value store over object
    storage.  A path has a group, the database it belongs to; every group has
    one SlateDB database; in it, a catalog maps paths to file IDs, a metadata
    record per file keeps its size and layout, and the bytes are cut into
    chunks.  DuckDB calls the crate through a C ABI.

      C ABI (ffi.rs) -> filesystem (fs.rs) -> catalog (database_metadata.rs)
                     \-> file handle (file_handle.rs) -> chunk manager
                         (chunk_manager.rs) -> chunk store (chunk_store.rs)
      filesystem -> OpenDAL through slatedb_object_store.rs and
                    opendal_io_metrics_layer.rs; cache.rs, io_metrics.rs

    ** How the code is modelled

    The embedding is shallow and executable.  A call returns a [res] (the two
    constructors of [Result], or a panic) and threads its state explicitly
    ([M E S A] in this file): the receiver, the buffers it writes, the world.
    u64 and usize are [Z] with their wrap-around, saturation and checks written
    out; byte strings are [list byte]; shared interior-mutable objects are part
    of the state.  Async code runs to completion call by call: [try_join_all]
    becomes a sequence of reads, and a lock is held by one call at a time;
    ClientTasks.v splits the calls that share clients at their awaits.

    What is not under rust/src is a parameter with its documented behaviour as
    laws: SlateDB ([SlateDb], [DbReadOps] and their law classes in SlateDb.v:
    snapshots, atomic batches and transactions, scans in key order, calls that
    can fail and say nothing about a store that is not [up]; [SlateDbLocal] and
    [SlateDbApart]: a call touches its own database only, commits and flushes
    are durable); the log of commits that the tasks of a database share
    ([SharedWorld], [SharedStore] in SharedStore.v); its builders ([SlateDbOpen]; [SlateDbOpenApart]: opening a
    database depends on no other); the protobuf codec of the metadata record
    ([MetadataCodec] in FileMetadata.v, a round trip); the clock; OpenDAL and its
    S3 builder ([Opendal], [OpendalService], [OpendalForwarded], [ObjectStore]);
    tokio's runtime ([FfiEnv]).
    MemDb.v and MemFs.v implement these interfaces in memory, with fault
    injection and writes that are lost until they are flushed, and SharedMem.v with a schedule of other tasks' commits; they
    discharge the laws, and the examples, witnesses and tests run there.

    ** Files

    - Prelude.v: this file, results and state, machine integers, byte slices;
      RustStd.v: the standard library on bytes, hexadecimal, UTF-8, strings.
    - Error.v (error.rs, error_struct.rs), Flags.v (flags.rs), Keys.v
      (keys.rs), FileMetadata.v (file_metadata.rs, util.rs).
    - SlateDb.v, MemDb.v: the interface of the store and its memory instance.
    - ChunkStore.v (chunk_store.rs); ChunkLayout.v, ChunkManager.v
      (chunk_manager.rs), with ChunkManagerSpec.v and ChunkProps.v.
    - FileSpec.v: a file as a list of bytes with a position; FileHandle.v
      (file_handle.rs), FileHandleSpec.v (each operation), HandleReads.v,
      FileRefinement.v (programs), HandleSafety.v (the states a handle can
      reach), HandleSystem.v (several handles at once), FileProps.v.
    - Transactions.v: reasoning about serializable transactions;
      DatabaseMetadata.v (database_metadata.rs), Locality.v (what the calls on
      a database respect, for any relation between the worlds of a step),
      DatabaseSpec.v, DatabaseOps.v, DatabaseProps.v.
    - SharedStore.v: a database as a log of commits to which other tasks append
      between any two calls of the store; SerialLogic.v (assertions on the
      contents at the commit point of a transaction), SerialOps.v (the
      operations of the catalog), SerialHistory.v (executions of many tasks),
      SharedMem.v, SerialProps.v.
    - FileSystem.v (fs.rs), GroupSpec.v (names and groups), FileSystemSpec.v
      (clients), FileSystemOps.v (opens), GroupFrame.v (what an operation leaves
      of the other groups), MemFs.v, FileSystemProps.v; SyncProps.v: what a sync
      leaves in the object store; Durability.v: a file from open to reopen.
    - ClientTasks.v: the calls of fs.rs that change what is shared
      ([read_client], [write_db]) as tasks that stop at every await;
      ClientSafety.v (mutual exclusion, bounds), ClientLinear.v (the order of
      the returns), ClientProps.v.
    - VolumeSpec.v: a filesystem as a map from paths to synced bytes with a table
      of open files; VolumeRun.v (programs of commands, the relation),
      VolumeSteps.v (each command), VolumeRefinement.v (programs, restarts),
      VolumeProps.v.
    - Cache.v (cache.rs), ObjectStore.v (slatedb_object_store.rs), IoMetrics.v
      (io_metrics.rs) and IoMetricsProps.v, IoLayer.v
      (opendal_io_metrics_layer.rs) and IoLayerProps.v.
    - Ffi.v (ffi.rs), FfiSpec.v (a file as a C caller sees it), FfiProps.v;
      FfiVolume.v (C programs on a filesystem and its handles),
      FfiVolumeProps.v.
    - TestKit.v (assertions, the faulty store of chunk_store.rs), ChunkTests.v,
      DataTests.v, HandleTests.v, FileSystemTests.v (with test_utils.rs),
      FfiTests.v, MetricsTests.v: the unit tests of the crate as programs.

    ** What is proved

    - The whole filesystem: from a filesystem that was just opened, every
      program of opens, handle operations, closes, removals, moves and lookups,
      in any number of databases, shows what the volume shows
      ([filesystem_refines_volume]); whenever the process dies, a filesystem
      opened on the same databases is the volume with every file as last synced
      ([synced_files_survive_a_crash]); and a C program gets the statuses,
      counts and bytes of the volume ([c_programs_refine_volume]).  These ask of
      the program that a path has one handle at a time, is not removed or moved
      while it is open, and that no database with a handle opened for reading
      before it had a writer gets one ([admissible]; what such a handle shows is
      SlateDB's business), and of the store that it answers.
    - Refinement, one file: a program of handle operations shows what the same
      program on a plain file shows ([handle_refines_file]), and so does a
      program of C calls, buffers and statuses included
      ([c_calls_refine_file]); calls on handles of different files may interleave in any way
      ([interleaved_handles_refine_files]).
    - Well-formedness: the invariant of a handle survives errors, panics and
      the writes of other clients ([handle_stays_well_formed]).
    - Durability: after a successful sync the object store holds the file, a
      failed one loses nothing and can be repeated, a file that is written and closed is there to be read
      ([sync_is_durable], [failed_sync_loses_nothing],
      [written_file_survives_reopening]).
    - Catalog: an invariant of every reachable database, the effect of each
      operation down to the last key, atomicity under failures ([catalog_invariant],
      [move_file_moves], [remove_file_removes], [updates_are_atomic]).
    - Concurrent catalog calls: removals, moves and opens in any number of tasks,
      among syncs of open handles, are strictly serializable, and fail only for
      a conflicting commit ([concurrent_catalog_calls_serialize]); concurrent
      creates get different file IDs ([concurrent_creates_get_distinct_ids]).  A
      lookup outside a transaction is not atomic: an open can fail while
      another task replaces its path ([open_during_move_fails]).
    - Concurrency: any number of requests for clients, interleaved at their
      awaits in any way and with anything else that happens in the store, open
      at most one writer and one reader per group
      ([concurrent_calls_share_clients]), behave as if made one after the other
      ([concurrent_calls_linearize]) and return ([concurrent_calls_return]).
    - Filesystem: one writer per database, reads that change nothing, databases
      that stay apart, companions that share one, a complete shutdown; each
      operation also on stores that fail.
    - Chunks: tiling of ranges, reads, writes, truncation and flushing against
      the bytes a manager shows, key codec and order, coalescing.
    - Errors and panics: the only panic of a handle is a read that starts past
      the end of a short chunk ([panics_iff_short_read]); through the C ABI it
      is a status, and after a sequential read the handle is lost
      ([short_read_poisons_handle]); no C call unwinds ([calls_report_status]).
    - Configuration, caches and statistics: accepted S3 and cache settings, the
      FNV-1a cache IDs ([stable_hash_bytes]), Welford's recurrence against the
      two-pass statistics, requests recorded exactly once, the errors of
      conditional gets ([conditional_get_reports]: as documented, except for a
      negative condition that fails beside a positive one).
    - Tests: the crate's unit tests pass on the model (a lemma of
      their files evaluates each).

    ** Fuel

    Three loops have no structural argument and take fuel, always computed by
    their caller: splitting a range into chunks has one step per byte at most
    ([split_tiles_range] shows it never runs out), a hexadecimal number has at
    most 16 digits, and a scan is drained with one step more than the rows it
    can still return ([iter_bound], whose law is in SlateDb.v).

    ** Not modelled

    What happens inside a call of SlateDB: opening a database is one step of a
    task, and so is each get, put and commit; which transactions conflict is
    part of the store's laws.  Calls on a handle run one at a time, as its lock
    makes them.  Handles of different files and a handle and the catalog are
    interleaved call by call ([interleaved_handles_refine_files],
    [catalog_invariant]); only the transactions of the catalog are interleaved
    call by call of the store.  Futures that are dropped before they complete.
    Allocations of more than isize::MAX bytes, which panic: a chunk of that size.
    Payloads of panics that are not strings: none of the modelled panics has one.
    [Debug] of wrappers, the crate's module
    declarations and build script.  Three tests: the fake S3 server (its test
    runs on the memory store), the metrics layer under an OpenDAL operator, the
    downcast of an error source.  The C++ side (src/slatedb_file_system.cpp) and the
    header it includes.  Source locations of errors: all but error.rs passes
    [unknown_location].  Sharing of the metrics between threads. *)

From Stdlib Require Export ZArith Lia.
From Stdlib Require Strings.Byte.
From stdpp Require Export base numbers list gmap strings sorting pretty.

#[global] Open Scope Z_scope.

Declare Scope rust_scope.
Delimit Scope rust_scope with rust.
#[global] Open Scope rust_scope.

(** Facts about the keys of the store: which are distinct, which family each
    belongs to. *)
Create HintDb keys.

(** ** Results, panics and state

    [res E A] is the outcome of a Rust call of type [Result<A, E>]: the two
    constructors of [Result], and the third way such a call can end, a panic.
    [M E S A] is a call that also updates a state [S]: the receiver of a
    [&mut self] method, a [&mut] buffer, the outside world, or a pair of
    them.  A failing or panicking call keeps the state it reached. *)

Inductive res (E A : Type) : Type :=
  | Ok (a : A)
  | Err (e : E)
  | Panic (msg : string).
Arguments Ok {E A} a.
Arguments Err {E A} e.
Arguments Panic {E A} msg.

Definition is_panic {E A} (r : res E A) : bool :=
  match r with Panic _ => true | _ => false end.

Definition res_bind {E A B} (r : res E A) (f : A -> res E B) : res E B :=
  match r with
  | Ok a => f a
  | Err e => Err e
  | Panic p => Panic p
  end.

(** [Result::map_err], and the conversion [?] applies to the error. *)
Definition map_err {E F A} (f : E -> F) (r : res E A) : res F A :=
  match r with
  | Ok a => Ok a
  | Err e => Err (f e)
  | Panic p => Panic p
  end.

(** [Option::ok_or_else]. *)
Definition ok_or {E A} (e : E) (o : option A) : res E A :=
  match o with Some a => Ok a | None => Err e end.

Definition M (E S A : Type) : Type := S -> res E A * S.

Definition ret {E S A} (a : A) : M E S A := fun s => (Ok a, s).
Definition bind {E S A B} (m : M E S A) (f : A -> M E S B) : M E S B :=
  fun s =>
    match m s with
    | (Ok a, s') => f a s'
    | (Err e, s') => (Err e, s')
    | (Panic p, s') => (Panic p, s')
    end.

(** A pure outcome inside a stateful call (the [?] operator). *)
Definition lift {E S A} (r : res E A) : M E S A := fun s => (r, s).
Definition get_state {E S} : M E S S := fun s => (Ok s, s).
Definition put_state {E S} (s : S) : M E S unit := fun _ => (Ok tt, s).

(** Update the state by a step that can fail; a failing step leaves it. *)
Definition update {E S} (f : S -> res E S) : M E S unit :=
  fun s =>
    match f s with
    | Ok s' => (Ok tt, s')
    | Err e => (Err e, s)
    | Panic p => (Panic p, s)
    end.
Definition modify {E S} (f : S -> S) : M E S unit := fun s => (Ok tt, f s).

(** [for x in l { body(x)?; }], [iter().map(f).collect::<Result<Vec<_>>>()]. *)
Fixpoint for_each {E S A} (l : list A) (body : A -> M E S unit) : M E S unit :=
  match l with
  | [] => ret tt
  | x :: l => bind (body x) (fun _ => for_each l body)
  end.
Fixpoint map_m {E S A B} (l : list A) (f : A -> M E S B) : M E S (list B) :=
  match l with
  | [] => ret []
  | x :: l => bind (f x) (fun y => bind (map_m l f) (fun ys => ret (y :: ys)))
  end.
Fixpoint map_res {E A B} (l : list A) (f : A -> res E B) : res E (list B) :=
  match l with
  | [] => Ok []
  | x :: l => res_bind (f x) (fun y => res_bind (map_res l f) (fun ys => Ok (y :: ys)))
  end.

(** A call that touches only one part of a paired state. *)
Definition on_fst {E S T A} (m : M E S A) : M E (S * T) A :=
  fun st => let '(r, s') := m st.1 in (r, (s', st.2)).
Definition on_snd {E S T A} (m : M E T A) : M E (S * T) A :=
  fun st => let '(r, t') := m st.2 in (r, (st.1, t')).

(** A call with a local variable initialised to [x]. *)
Definition with_local {E S T A} (x : S) (m : M E (S * T) A) : M E T A :=
  fun t => let '(r, st) := m (x, t) in (r, st.2).

(** The error conversion of [?] on a stateful call. *)
Definition map_err_m {E F S A} (f : E -> F) (m : M E S A) : M F S A :=
  fun s => let '(r, s') := m s in (map_err f r, s').

Notation "'let?' x ':=' r 'in' k" := (res_bind r (fun x => k))
  (at level 10, x pattern, r at level 100, k at level 200) : rust_scope.
Notation "'let!' x ':=' m 'in' k" := (bind m (fun x => k))
  (at level 10, x pattern, m at level 100, k at level 200) : rust_scope.

(** ** Machine integers: u64, and usize on the 64-bit targets *)

Definition u64_max : Z := 2 ^ 64 - 1.
Definition is_u64 (z : Z) : Prop := 0 <= z < 2 ^ 64.
#[global] Instance is_u64_dec z : Decision (is_u64 z).
Proof. unfold is_u64. apply _. Defined.

(** Release builds wrap on overflow. *)
Definition wrap64 (z : Z) : Z := z mod 2 ^ 64.
Definition checked_add (a b : Z) : option Z :=
  if a + b <? 2 ^ 64 then Some (a + b) else None.
Definition saturating_add (a b : Z) : Z := Z.min (a + b) u64_max.
Definition saturating_sub (a b : Z) : Z := Z.max 0 (a - b).
Definition saturating_mul (a b : Z) : Z := Z.min (a * b) u64_max.

(** ** Byte slices *)

Abbreviation byte := Corelib.Init.Byte.byte.
Abbreviation x00 := Corelib.Init.Byte.x00.

#[global] Instance byte_eq_decision : EqDecision byte := Stdlib.Strings.Byte.byte_eq_dec.
#[global] Instance byte_countable : Countable byte :=
  inj_countable Stdlib.Strings.Byte.to_N Stdlib.Strings.Byte.of_N Stdlib.Strings.Byte.of_to_N.
#[global] Instance byte_inhabited : Inhabited byte := populate x00.

Definition zlen {A} (l : list A) : Z := Z.of_nat (length l).

(** The byte at a position; positions outside the list read as zero. *)
Definition zbyte (l : list byte) (i : Z) : byte :=
  if i <? 0 then x00 else nth (Z.to_nat i) l x00.

Definition zeros (n : Z) : list byte := replicate (Z.to_nat n) x00.

(** [l[a..b]]: panics unless [a <= b <= len]. *)
Definition slice_range {E} (l : list byte) (a b : Z) : res E (list byte) :=
  if (0 <=? a) && (a <=? b) && (b <=? zlen l)
  then Ok (take (Z.to_nat (b - a)) (drop (Z.to_nat a) l))
  else Panic "slice index out of range".

(** [l] with the bytes from [off] on overwritten by [d]. *)
Definition splice (l : list byte) (off : Z) (d : list byte) : list byte :=
  take (Z.to_nat off) l ++ d ++ drop (Z.to_nat off + length d) l.

(** [l[a..b].copy_from_slice(src)]: panics out of range or when the lengths
    differ. *)
Definition copy_from_slice {E} (l : list byte) (a b : Z) (src : list byte)
  : res E (list byte) :=
  if (0 <=? a) && (a <=? b) && (b <=? zlen l) then
    if zlen src =? b - a then Ok (splice l a src)
    else Panic "source slice length does not match destination slice length"
  else Panic "slice index out of range".

(** [Vec::resize(n, 0)]. *)
Definition vec_resize (l : list byte) (n : Z) : list byte :=
  if n <=? zlen l then take (Z.to_nat n) l else l ++ zeros (n - zlen l).

(** [Vec::truncate(n)]. *)
Definition vec_truncate (l : list byte) (n : Z) : list byte :=
  take (Z.to_nat n) l.

(** The list [f a, f (a+1), ..., f (a+n-1)]. *)
Definition tabulate (f : Z -> byte) (a n : Z) : list byte := f <$> seqZ a n.

(** ** Lemmas: results and the state monad *)

Lemma res_bind_ok {E A B} (r : res E A) (f : A -> res E B) b :
  res_bind r f = Ok b -> exists a, r = Ok a /\ f a = Ok b.
Proof. destruct r; simpl; intros; try done. by eexists. Qed.

Lemma bind_ok {E S A B} (m : M E S A) (f : A -> M E S B) s b s' :
  bind m f s = (Ok b, s') -> exists a s1, m s = (Ok a, s1) /\ f a s1 = (Ok b, s').
Proof.
  unfold bind. destruct (m s) as [[a|e|p] s1]; intros; try done.
  by exists a, s1.
Qed.

(** Split a run of a sequence of calls into its runs. *)
Ltac inv_bind :=
  repeat match goal with
  | H : bind _ _ _ = (Ok _, _) |- _ =>
      let a := fresh "a" in let s := fresh "s" in
      let Hm := fresh "Hm" in
      apply bind_ok in H as (a & s & Hm & H); simpl in Hm, H
  | H : res_bind _ _ = Ok _ |- _ =>
      let a := fresh "a" in let Hm := fresh "Hm" in
      apply res_bind_ok in H as (a & Hm & H); simpl in Hm, H
  | H : ret _ _ = (_, _) |- _ => unfold ret in H
  | H : lift _ _ = (_, _) |- _ => unfold lift in H
  | H : (_, _) = (_, _) |- _ => simplify_eq H; intros; subst
  end.

(** ** Lemmas: bytes at positions *)

Create HintDb bytes.
Create Rewrite HintDb bytes.

Lemma zlen_nonneg {A} (l : list A) : 0 <= zlen l.
Proof. unfold zlen. lia. Qed.
#[export] Hint Resolve zlen_nonneg : core.

Lemma zlen_nil {A} : zlen (@nil A) = 0.
Proof. done. Qed.
Lemma zlen_app {A} (l k : list A) : zlen (l ++ k) = zlen l + zlen k.
Proof. unfold zlen. rewrite length_app. lia. Qed.
Lemma zlen_take {A} (l : list A) n :
  0 <= n -> zlen (take (Z.to_nat n) l) = Z.min n (zlen l).
Proof. unfold zlen. rewrite length_take. lia. Qed.
Lemma zlen_drop {A} (l : list A) n :
  0 <= n -> zlen (drop (Z.to_nat n) l) = Z.max 0 (zlen l - n).
Proof. unfold zlen. rewrite length_drop. lia. Qed.
Lemma zlen_zeros n : zlen (zeros n) = Z.max 0 n.
Proof. unfold zlen, zeros. rewrite length_replicate. lia. Qed.
Lemma zlen_tabulate f a n : zlen (tabulate f a n) = Z.max 0 n.
Proof. unfold zlen, tabulate. rewrite length_fmap, length_seqZ. lia. Qed.
Lemma zlen_splice l off d :
  0 <= off -> off + zlen d <= zlen l -> zlen (splice l off d) = zlen l.
Proof.
  unfold splice, zlen. rewrite !length_app, length_take, length_drop. lia.
Qed.
#[export] Hint Rewrite @zlen_nil @zlen_app zlen_zeros zlen_tabulate : bytes.

Lemma zbyte_lookup l i : 0 <= i -> zbyte l i = default x00 (l !! Z.to_nat i).
Proof.
  intros Hi. unfold zbyte. destruct (Z.ltb_spec i 0); [lia|].
  apply nth_lookup.
Qed.

Lemma zbyte_neg l i : i < 0 -> zbyte l i = x00.
Proof. intros Hi. unfold zbyte. by destruct (Z.ltb_spec i 0); [|lia]. Qed.

Lemma zbyte_ge l i : zlen l <= i -> zbyte l i = x00.
Proof.
  unfold zlen. intros Hi. rewrite zbyte_lookup by lia.
  by rewrite lookup_ge_None_2 by lia.
Qed.

Lemma zbyte_nil i : zbyte [] i = x00.
Proof.
  unfold zbyte. destruct (Z.ltb_spec i 0); [done|].
  by destruct (Z.to_nat i).
Qed.

Lemma zbyte_zeros n i : zbyte (zeros n) i = x00.
Proof.
  destruct (decide (i < 0)); [by apply zbyte_neg|].
  rewrite zbyte_lookup by lia. unfold zeros.
  destruct (_ !! _) eqn:Hl; [|done]. by apply lookup_replicate in Hl as [-> _].
Qed.

Lemma zbyte_app l k i :
  zbyte (l ++ k) i = if decide (i < zlen l) then zbyte l i else zbyte k (i - zlen l).
Proof.
  unfold zlen. case_decide.
  - destruct (decide (i < 0)); [by rewrite !zbyte_neg|].
    rewrite !zbyte_lookup by lia. by rewrite lookup_app_l by lia.
  - rewrite !zbyte_lookup by lia. rewrite lookup_app_r by lia. do 2 f_equal. lia.
Qed.

Lemma zbyte_take l n i :
  zbyte (take (Z.to_nat n) l) i = if decide (i < n) then zbyte l i else x00.
Proof.
  destruct (decide (i < 0)); [rewrite !zbyte_neg by done; by case_decide|].
  rewrite !zbyte_lookup by lia. case_decide.
  - by rewrite lookup_take_lt by lia.
  - by rewrite lookup_take_ge by lia.
Qed.

Lemma zbyte_drop l n i :
  0 <= n -> 0 <= i -> zbyte (drop (Z.to_nat n) l) i = zbyte l (n + i).
Proof.
  intros. rewrite !zbyte_lookup by lia. rewrite lookup_drop. do 2 f_equal. lia.
Qed.

Lemma zbyte_splice l off d i :
  0 <= off -> off + zlen d <= zlen l ->
  zbyte (splice l off d) i =
    if decide (off <= i < off + zlen d) then zbyte d (i - off) else zbyte l i.
Proof.
  intros Ho Hl. unfold splice. rewrite !zbyte_app, zlen_take by done.
  replace (Z.to_nat off + length d)%nat with (Z.to_nat (off + zlen d))
    by (unfold zlen; lia).
  rewrite (Z.min_l off) by (pose proof (zlen_nonneg d); lia).
  pose proof (zlen_nonneg d).
  destruct (decide (i < off)).
  { rewrite zbyte_take. rewrite decide_True by done. by rewrite decide_False by lia. }
  destruct (decide (i - off < zlen d)).
  { by rewrite decide_True by lia. }
  rewrite decide_False by lia. rewrite zbyte_drop by lia. f_equal. lia.
Qed.

Lemma zbyte_tabulate f a n i :
  0 <= i < n -> zbyte (tabulate f a n) i = f (a + i).
Proof.
  intros Hi. rewrite zbyte_lookup by lia. unfold tabulate.
  rewrite list_lookup_fmap, lookup_seqZ_lt by lia. simpl. f_equal. lia.
Qed.

Lemma zbyte_resize l n i :
  0 <= n -> i < n -> zbyte (vec_resize l n) i = zbyte l i.
Proof.
  intros Hn Hi. unfold vec_resize. destruct (Z.leb_spec n (zlen l)).
  - rewrite zbyte_take. by rewrite decide_True by done.
  - rewrite zbyte_app. case_decide; [done|].
    rewrite zbyte_zeros. by rewrite zbyte_ge by lia.
Qed.

Lemma zlen_resize l n : 0 <= n -> zlen (vec_resize l n) = n.
Proof.
  intros Hn. unfold vec_resize. pose proof (zlen_nonneg l).
  destruct (Z.leb_spec n (zlen l)).
  - rewrite zlen_take by done. lia.
  - autorewrite with bytes. lia.
Qed.

(** Two lists of the same length with the same bytes are equal. *)
Lemma zbyte_ext (l k : list byte) :
  zlen l = zlen k -> (forall i, 0 <= i < zlen l -> zbyte l i = zbyte k i) -> l = k.
Proof.
  unfold zlen. intros Hlen Hb.
  apply list_eq_same_length with (n := length l); [lia..|].
  intros i x y Hi Hx Hy.
  specialize (Hb (Z.of_nat i) ltac:(lia)).
  rewrite !zbyte_lookup in Hb by lia. rewrite !Nat2Z.id in Hb.
  by rewrite Hx, Hy in Hb.
Qed.

Lemma tabulate_ext f g a n :
  (forall p, a <= p < a + n -> f p = g p) -> tabulate f a n = tabulate g a n.
Proof.
  intros Hfg. apply zbyte_ext; [by autorewrite with bytes|].
  intros i Hi. autorewrite with bytes in Hi. rewrite !zbyte_tabulate by lia.
  apply Hfg. lia.
Qed.

(** A list is the table of its own bytes. *)
Lemma tabulate_zbyte l : tabulate (zbyte l) 0 (zlen l) = l.
Proof.
  pose proof (zlen_nonneg l).
  apply zbyte_ext; autorewrite with bytes; [lia|].
  intros i Hi. rewrite zbyte_tabulate by lia. done.
Qed.

(** ** Lemmas: slicing *)

Lemma slice_range_ok {E} (l : list byte) a b :
  0 <= a -> a <= b -> b <= zlen l ->
  slice_range (E:=E) l a b = Ok (take (Z.to_nat (b - a)) (drop (Z.to_nat a) l)).
Proof.
  intros. unfold slice_range.
  destruct (Z.leb_spec 0 a), (Z.leb_spec a b), (Z.leb_spec b (zlen l)); simpl; done || lia.
Qed.

Lemma slice_range_panics {E} (l : list byte) a b :
  zlen l < b -> slice_range (E:=E) l a b = Panic "slice index out of range".
Proof.
  intros. unfold slice_range. destruct (Z.leb_spec b (zlen l)); [lia|].
  by rewrite andb_false_r.
Qed.

Lemma copy_from_slice_ok {E} (l : list byte) a b src :
  0 <= a -> b <= zlen l -> zlen src = b - a ->
  copy_from_slice (E:=E) l a b src = Ok (splice l a src).
Proof.
  intros. pose proof (zlen_nonneg src). unfold copy_from_slice.
  destruct (Z.leb_spec 0 a), (Z.leb_spec a b), (Z.leb_spec b (zlen l)); simpl; try lia.
  by destruct (Z.eqb_spec (zlen src) (b - a)); [|lia].
Qed.

Lemma zlen_slice {A} (l : list A) a b :
  0 <= a -> a <= b -> b <= zlen l ->
  zlen (take (Z.to_nat (b - a)) (drop (Z.to_nat a) l)) = b - a.
Proof. intros. rewrite zlen_take, zlen_drop by lia. lia. Qed.

Lemma zbyte_slice l a b i :
  0 <= a -> 0 <= i < b - a ->
  zbyte (take (Z.to_nat (b - a)) (drop (Z.to_nat a) l)) i = zbyte l (a + i).
Proof.
  intros. rewrite zbyte_take. rewrite decide_True by lia. by apply zbyte_drop; lia.
Qed.

(** ** Lemmas: machine integers *)

Lemma wrap64_small z : is_u64 z -> wrap64 z = z.
Proof. intros H. apply Z.mod_small, H. Qed.
Lemma wrap64_u64 z : is_u64 (wrap64 z).
Proof. unfold is_u64, wrap64. apply Z.mod_pos_bound. lia. Qed.
#[export] Hint Resolve wrap64_u64 : core.

Lemma checked_add_Some a b c :
  checked_add a b = Some c -> c = a + b /\ a + b < 2 ^ 64.
Proof. unfold checked_add. destruct (Z.ltb_spec (a + b) (2 ^ 64)); naive_solver. Qed.
Lemma checked_add_None a b : checked_add a b = None -> 2 ^ 64 <= a + b.
Proof. unfold checked_add. by destruct (Z.ltb_spec (a + b) (2 ^ 64)). Qed.

(** ** Lemmas: lists *)

Lemma NoDup_fmap_filter {A B} (f : A -> B) (P : A -> Prop) `{!forall x, Decision (P x)} l :
  NoDup (f <$> l) -> NoDup (f <$> filter P l).
Proof.
  induction l as [|x l IH]; [done|]. rewrite fmap_cons, NoDup_cons, filter_cons.
  intros [Hx Hl]. case_decide; [|by auto].
  rewrite fmap_cons, NoDup_cons. split; [|by auto].
  intros (y & Hy & [_ Hin]%list_elem_of_filter)%list_elem_of_fmap.
  apply Hx. rewrite Hy. by apply list_elem_of_fmap_2.
Qed.
