(* ===== verification/RustStd.v ===== *)
(** * The parts of Rust's standard library the crate uses

    [&str], [String] and [Vec<u8>] are lists of bytes (a [&str] holds the
    UTF-8 bytes of its text).  This file models the byte order of slices, hexadecimal
    formatting and parsing, big-endian conversion, UTF-8 validation and the
    string methods, and proves the round trips and order facts the key
    encoding rests on. *)

From Stdlib Require Strings.Byte Strings.String.
From S2P Require Import Prelude.

(** ** Bytes and their values *)

Definition byte_val (b : byte) : Z := Z.of_N (Byte.to_N b).
Definition byte_of (z : Z) : byte := default x00 (Byte.of_N (Z.to_N (z mod 256))).

(** The bytes of a literal, Rust's [b"..."] and [str::as_bytes]. *)
Definition bytes_of (s : string) : list byte :=
  Stdlib.Strings.String.list_byte_of_string s.
Definition text (l : list byte) : string :=
  Stdlib.Strings.String.string_of_list_byte l.

Lemma byte_val_bounds b : 0 <= byte_val b < 256.
Proof.
  unfold byte_val. pose proof (Byte.to_N_bounded b). lia.
Qed.

Lemma byte_of_val b : byte_of (byte_val b) = b.
Proof.
  unfold byte_of. rewrite Z.mod_small by apply byte_val_bounds.
  unfold byte_val. rewrite N2Z.id. by rewrite Byte.of_to_N.
Qed.

Lemma byte_val_of z : byte_val (byte_of z) = z mod 256.
Proof.
  unfold byte_of, byte_val. pose proof (Z.mod_pos_bound z 256 ltac:(lia)) as Hz.
  destruct (Byte.of_N _) as [b|] eqn:Hb; simpl.
  - apply Byte.to_of_N in Hb. rewrite Hb. lia.
  - apply Byte.of_N_None_iff in Hb. lia.
Qed.

#[global] Instance byte_val_inj : Inj (=) (=) byte_val.
Proof. intros a b Hab. by rewrite <-(byte_of_val a), Hab, byte_of_val. Qed.

(** ** The order of byte slices: [Ord for [u8]], lexicographic *)

Fixpoint bytes_compare (a b : list byte) : comparison :=
  match a, b with
  | [], [] => Eq
  | [], _ :: _ => Lt
  | _ :: _, [] => Gt
  | x :: a, y :: b =>
      match byte_val x ?= byte_val y with
      | Eq => bytes_compare a b
      | c => c
      end
  end.

Definition bytes_le (a b : list byte) : Prop := bytes_compare a b <> Gt.
Definition bytes_lt (a b : list byte) : Prop := bytes_compare a b = Lt.
#[global] Instance bytes_le_dec a b : Decision (bytes_le a b).
Proof. unfold bytes_le. apply _. Defined.
#[global] Instance bytes_lt_dec a b : Decision (bytes_lt a b).
Proof. unfold bytes_lt. apply _. Defined.

Lemma bytes_compare_refl a : bytes_compare a a = Eq.
Proof. induction a as [|x a IH]; simpl; [done|]. by rewrite Z.compare_refl. Qed.

Lemma bytes_compare_eq a b : bytes_compare a b = Eq -> a = b.
Proof.
  revert b. induction a as [|x a IH]; intros [|y b]; simpl; try done.
  destruct (Z.compare_spec (byte_val x) (byte_val y)) as [Hxy| |]; try done.
  apply (inj byte_val) in Hxy as ->. intros ?%IH. by subst.
Qed.

Lemma bytes_compare_antisym a b : bytes_compare b a = CompOpp (bytes_compare a b).
Proof.
  revert b. induction a as [|x a IH]; intros [|y b]; simpl; try done.
  rewrite (Z.compare_antisym (byte_val x)).
  destruct (byte_val x ?= byte_val y) eqn:?; simpl; auto.
Qed.

Lemma bytes_le_trans a b c : bytes_le a b -> bytes_le b c -> bytes_le a c.
Proof.
  unfold bytes_le. revert b c.
  induction a as [|x a IH]; intros [|y b] [|z c]; simpl; try done.
  destruct (Z.compare_spec (byte_val x) (byte_val y)) as [Hxy|Hxy|Hxy]; try done.
  - rewrite Hxy. destruct (byte_val y ?= byte_val z); eauto.
  - destruct (Z.compare_spec (byte_val y) (byte_val z)) as [Hyz|Hyz|Hyz]; try done.
    + rewrite <-Hyz. intros _ _. by rewrite (proj2 (Z.compare_lt_iff _ _) Hxy).
    + intros _ _. by rewrite (proj2 (Z.compare_lt_iff _ _) (Z.lt_trans _ _ _ Hxy Hyz)).
Qed.

#[global] Instance bytes_le_partial_order : PartialOrder bytes_le.
Proof.
  split; [split|].
  - intros a. unfold bytes_le. by rewrite bytes_compare_refl.
  - intros a b c. apply bytes_le_trans.
  - intros a b Hab Hba. unfold bytes_le in *. rewrite bytes_compare_antisym in Hba.
    destruct (bytes_compare a b) eqn:Hc; simpl in *; try done.
    by apply bytes_compare_eq.
Qed.
#[global] Instance bytes_le_total : Total bytes_le.
Proof.
  intros a b. unfold bytes_le. rewrite (bytes_compare_antisym a b).
  destruct (bytes_compare a b); simpl; auto.
Qed.

Lemma bytes_compare_app p a b : bytes_compare (p ++ a) (p ++ b) = bytes_compare a b.
Proof. induction p as [|x p IH]; simpl; [done|]. by rewrite Z.compare_refl. Qed.

(** Everything between two extensions of a prefix has that prefix. *)
Lemma bytes_between_prefix p a b k :
  bytes_le (p ++ a) k -> bytes_le k (p ++ b) -> exists c, k = p ++ c.
Proof.
  unfold bytes_le. revert k. induction p as [|x p IH]; intros k; simpl.
  { intros _ _. by exists k. }
  destruct k as [|y k]; [done|]. simpl.
  rewrite (Z.compare_antisym (byte_val x)).
  destruct (Z.compare_spec (byte_val x) (byte_val y)) as [Hxy|Hxy|Hxy]; simpl; try done.
  apply (inj byte_val) in Hxy as <-. intros H1 H2.
  destruct (IH k H1 H2) as [c ->]. by exists c.
Qed.

(** Fixed-width big-endian digits: at equal length a differing more
    significant part decides. *)
Lemma bytes_compare_snoc a b x y :
  length a = length b ->
  bytes_compare (a ++ [x]) (b ++ [y]) =
    match bytes_compare a b with
    | Eq => byte_val x ?= byte_val y
    | c => c
    end.
Proof.
  revert b. induction a as [|u a IH]; intros [|v b]; simpl; intros Hlen; try done.
  - by destruct (byte_val x ?= byte_val y).
  - destruct (byte_val u ?= byte_val v); auto.
Qed.

Lemma bytes_compare_app_length a b x y :
  length a = length b ->
  bytes_compare (a ++ x) (b ++ y) =
    match bytes_compare a b with
    | Eq => bytes_compare x y
    | c => c
    end.
Proof.
  revert b. induction a as [|u a IH]; intros [|v b]; simpl; intros Hlen; try done.
  destruct (byte_val u ?= byte_val v); auto.
Qed.

(** ** Big-endian integers: [u64::to_be_bytes], [u64::from_be_bytes] *)

Fixpoint be_bytes (n : nat) (z : Z) : list byte :=
  match n with
  | O => []
  | S n => be_bytes n (z / 256) ++ [byte_of z]
  end.
Definition to_be_bytes (z : Z) : list byte := be_bytes 8 z.
Definition from_be_bytes (l : list byte) : Z :=
  foldl (fun acc b => acc * 256 + byte_val b) 0 l.

Lemma length_be_bytes n z : length (be_bytes n z) = n.
Proof.
  revert z. induction n as [|n IH]; intros z; simpl; [done|].
  rewrite length_app, IH. simpl. lia.
Qed.

Lemma from_be_bytes_be n z : from_be_bytes (be_bytes n z) = z mod 256 ^ Z.of_nat n.
Proof.
  unfold from_be_bytes. revert z. induction n as [|n IH]; intros z.
  { simpl. by rewrite Z.mod_1_r. }
  simpl be_bytes. rewrite foldl_app, IH. cbn [foldl]. rewrite byte_val_of.
  rewrite Nat2Z.inj_succ, Z.pow_succ_r by lia.
  rewrite Z.rem_mul_r by (lia || (apply Z.pow_pos_nonneg; lia)). lia.
Qed.

Lemma from_to_be_bytes z : is_u64 z -> from_be_bytes (to_be_bytes z) = z.
Proof. intros Hz. unfold to_be_bytes. rewrite from_be_bytes_be. by apply Z.mod_small. Qed.

Lemma from_be_bytes_bound l : 0 <= from_be_bytes l < 256 ^ zlen l.
Proof.
  unfold from_be_bytes, zlen. induction l as [|b l IH] using rev_ind; [simpl; lia|].
  rewrite foldl_app, length_app. simpl length. cbn [foldl].
  pose proof (byte_val_bounds b).
  rewrite Nat2Z.inj_add, Z.pow_add_r by lia. simpl (256 ^ Z.of_nat 1). lia.
Qed.

Lemma be_from_be_bytes l : be_bytes (length l) (from_be_bytes l) = l.
Proof.
  unfold from_be_bytes. induction l as [|b l IH] using rev_ind; [done|].
  rewrite foldl_app, length_app, Nat.add_comm. cbn [foldl length Nat.add be_bytes].
  pose proof (byte_val_bounds b). f_equal.
  - rewrite Z.div_add_l, (Z.div_small (byte_val b)), Z.add_0_r by lia. exact IH.
  - f_equal. rewrite <-(byte_of_val b) at 2. unfold byte_of. do 3 f_equal.
    rewrite Z.add_comm, Z_mod_plus_full. done.
Qed.

(** ** Hexadecimal: the formatter's [{:016x}] and [u64::from_str_radix(_, 16)] *)

(** A digit of [LowerHex]. *)
Definition hex_digit (d : Z) : byte := byte_of (if d <? 10 then 48 + d else 87 + d).

(** The digits of a positive number without leading zeros. *)
Fixpoint hex_digits (fuel : nat) (z : Z) : list byte :=
  match fuel with
  | O => []
  | S fuel =>
      if z =? 0 then [] else hex_digits fuel (z / 16) ++ [hex_digit (z mod 16)]
  end.

(** [format!("{z:x}")]; a u64 has at most 16 digits. *)
Definition lower_hex (z : Z) : list byte :=
  if z =? 0 then [hex_digit 0] else hex_digits 16 z.

(** [format!("{z:016x}")]: padded with zeros to sixteen columns. *)
Definition hex16 (z : Z) : list byte :=
  let digits := lower_hex z in
  replicate (16 - length digits) (hex_digit 0) ++ digits.

(** The same as a fixed-width representation. *)
Fixpoint hex_fixed (n : nat) (z : Z) : list byte :=
  match n with
  | O => []
  | S n => hex_fixed n (z / 16) ++ [hex_digit (z mod 16)]
  end.

Lemma hex_fixed_0 n : hex_fixed n 0 = replicate n (hex_digit 0).
Proof.
  induction n as [|n IH]; simpl; [done|].
  change (0 / 16) with 0. rewrite IH. rewrite <-replicate_cons_app. done.
Qed.

Lemma hex_digits_fixed n z :
  0 <= z < 16 ^ Z.of_nat n ->
  (length (hex_digits n z) <= n)%nat /\
  replicate (n - length (hex_digits n z)) (hex_digit 0) ++ hex_digits n z = hex_fixed n z.
Proof.
  revert z. induction n as [|n IH]; intros z Hz; [done|].
  cbn [hex_digits hex_fixed]. destruct (Z.eqb_spec z 0) as [->|Hnz].
  { cbn [length]. split; [lia|]. rewrite Nat.sub_0_r, app_nil_r.
    symmetry. apply (hex_fixed_0 (S n)). }
  rewrite Nat2Z.inj_succ, Z.pow_succ_r in Hz by lia.
  destruct (IH (z / 16)) as [Hlen Heq].
  { split; [apply Z.div_pos; lia|]. apply Z.div_lt_upper_bound; lia. }
  rewrite length_app. cbn [length]. split; [lia|].
  replace (S n - (length (hex_digits n (z / 16)) + 1))%nat
    with (n - length (hex_digits n (z / 16)))%nat by lia.
  by rewrite app_assoc, Heq.
Qed.

Lemma hex16_fixed z : is_u64 z -> hex16 z = hex_fixed 16 z.
Proof.
  intros Hz. unfold hex16, lower_hex. destruct (Z.eqb_spec z 0) as [->|Hnz]; [done|].
  apply hex_digits_fixed, Hz.
Qed.

Lemma length_hex_fixed n z : length (hex_fixed n z) = n.
Proof.
  revert z. induction n as [|n IH]; intros z; simpl; [done|].
  rewrite length_app, IH. simpl. lia.
Qed.

Lemma hex_digit_val d :
  0 <= d < 16 -> byte_val (hex_digit d) = if d <? 10 then 48 + d else 87 + d.
Proof.
  intros Hd. unfold hex_digit. rewrite byte_val_of. apply Z.mod_small.
  destruct (Z.ltb_spec d 10); lia.
Qed.

Lemma hex_digit_compare a b :
  0 <= a < 16 -> 0 <= b < 16 ->
  (byte_val (hex_digit a) ?= byte_val (hex_digit b)) = (a ?= b).
Proof.
  intros Ha Hb. rewrite !hex_digit_val by done.
  destruct (Z.ltb_spec a 10), (Z.ltb_spec b 10);
    destruct (Z.compare_spec a b);
    first [apply Z.compare_eq_iff | apply Z.compare_lt_iff | apply Z.compare_gt_iff]; lia.
Qed.

(** Fixed-width hexadecimal sorts like the numbers. *)
Lemma hex_fixed_compare n a b :
  0 <= a < 16 ^ Z.of_nat n -> 0 <= b < 16 ^ Z.of_nat n ->
  bytes_compare (hex_fixed n a) (hex_fixed n b) = (a ?= b).
Proof.
  revert a b. induction n as [|n IH]; intros a b Ha Hb.
  { simpl in *. symmetry. apply Z.compare_eq_iff. lia. }
  cbn [hex_fixed]. rewrite Nat2Z.inj_succ, Z.pow_succ_r in Ha, Hb by lia.
  rewrite bytes_compare_snoc by (by rewrite !length_hex_fixed).
  rewrite IH by (split; [apply Z.div_pos; lia | apply Z.div_lt_upper_bound; lia]).
  pose proof (Z.mod_pos_bound a 16 ltac:(lia)). pose proof (Z.mod_pos_bound b 16 ltac:(lia)).
  pose proof (Z.div_mod a 16 ltac:(lia)). pose proof (Z.div_mod b 16 ltac:(lia)).
  rewrite hex_digit_compare by done.
  destruct (Z.compare_spec (a / 16) (b / 16));
    [destruct (Z.compare_spec (a mod 16) (b mod 16))|..]; symmetry;
    first [apply Z.compare_eq_iff | apply Z.compare_lt_iff | apply Z.compare_gt_iff]; lia.
Qed.

(** [char::to_digit(16)]. *)
Definition to_digit16 (b : byte) : option Z :=
  let v := byte_val b in
  if (48 <=? v) && (v <=? 57) then Some (v - 48)
  else if (97 <=? v) && (v <=? 102) then Some (v - 87)
  else if (65 <=? v) && (v <=? 70) then Some (v - 55)
  else None.

(** [core::num::IntErrorKind], as far as [u64::from_str_radix] reports it. *)
Inductive parse_int_error := EmptyInput | InvalidDigit | PosOverflow.

(** The digit loop: an invalid digit is reported before an overflow. *)
Fixpoint parse_hex_digits (acc : Z) (l : list byte) : parse_int_error + Z :=
  match l with
  | [] => inr acc
  | b :: l =>
      match to_digit16 b with
      | None => inl InvalidDigit
      | Some d =>
          if acc * 16 + d <? 2 ^ 64 then parse_hex_digits (acc * 16 + d) l
          else inl PosOverflow
      end
  end.

Definition byte_plus : byte := byte_of 43.
Definition byte_minus : byte := byte_of 45.

Definition u64_from_str_radix16 (l : list byte) : parse_int_error + Z :=
  match l with
  | [] => inl EmptyInput
  | [b] => if bool_decide (b = byte_plus \/ b = byte_minus) then inl InvalidDigit
           else parse_hex_digits 0 [b]
  | b :: rest => if bool_decide (b = byte_plus) then parse_hex_digits 0 rest
                 else parse_hex_digits 0 l
  end.

Lemma to_digit16_hex_digit d : 0 <= d < 16 -> to_digit16 (hex_digit d) = Some d.
Proof.
  intros Hd. unfold to_digit16. rewrite hex_digit_val by done.
  destruct (Z.ltb_spec d 10).
  - destruct (Z.leb_spec 48 (48 + d)), (Z.leb_spec (48 + d) 57); simpl; try lia.
    f_equal. lia.
  - destruct (Z.leb_spec 48 (87 + d)), (Z.leb_spec (87 + d) 57); simpl; try lia.
    destruct (Z.leb_spec 97 (87 + d)), (Z.leb_spec (87 + d) 102); simpl; try lia.
    f_equal. lia.
Qed.

Lemma parse_hex_digits_snoc acc l d a :
  parse_hex_digits acc l = inr a -> 0 <= d < 16 -> a * 16 + d < 2 ^ 64 ->
  parse_hex_digits acc (l ++ [hex_digit d]) = inr (a * 16 + d).
Proof.
  revert acc. induction l as [|b l IH]; intros acc Hp Hd Ha; simpl in *.
  - simplify_eq. rewrite to_digit16_hex_digit by done.
    by destruct (Z.ltb_spec (a * 16 + d) (2 ^ 64)); [|lia].
  - destruct (to_digit16 b); [|done]. destruct (_ <? _); [|done]. auto.
Qed.

Lemma parse_hex_fixed n z :
  0 <= z < 16 ^ Z.of_nat n -> z < 2 ^ 64 -> parse_hex_digits 0 (hex_fixed n z) = inr z.
Proof.
  revert z. induction n as [|n IH]; intros z Hz Hm.
  { simpl in *. f_equal. lia. }
  cbn [hex_fixed]. rewrite Nat2Z.inj_succ, Z.pow_succ_r in Hz by lia.
  pose proof (Z.mod_pos_bound z 16 ltac:(lia)). pose proof (Z.div_mod z 16 ltac:(lia)).
  rewrite (Z.div_mod z 16) at 3 by lia. rewrite (Z.mul_comm 16).
  apply parse_hex_digits_snoc; [|done|lia].
  apply IH; [|lia]. split; [apply Z.div_pos; lia | apply Z.div_lt_upper_bound; lia].
Qed.

Lemma hex_fixed_digits n z b :
  b ∈ hex_fixed n z -> exists d, 0 <= d < 16 /\ b = hex_digit d.
Proof.
  revert z. induction n as [|n IH]; intros z Hb; simpl in Hb.
  { by apply not_elem_of_nil in Hb. }
  apply elem_of_app in Hb as [Hb|Hb]; [eauto|].
  apply list_elem_of_singleton in Hb as ->. exists (z mod 16).
  split; [apply Z.mod_pos_bound; lia|done].
Qed.

(** Digits are ASCII, and neither separators nor signs. *)
Lemma hex_digit_range d :
  0 <= d < 16 -> 48 <= byte_val (hex_digit d) <= 102 /\ byte_val (hex_digit d) <> 47.
Proof. intros Hd. rewrite hex_digit_val by done. destruct (Z.ltb_spec d 10); lia. Qed.

Lemma u64_parse_hex_fixed z : is_u64 z -> u64_from_str_radix16 (hex_fixed 16 z) = inr z.
Proof.
  intros Hz.
  pose proof (length_hex_fixed 16 z) as Hlen.
  pose proof (parse_hex_fixed 16 z Hz (proj2 Hz)) as Hp.
  pose proof (hex_fixed_digits 16 z) as Hd.
  destruct (hex_fixed 16 z) as [|b [|b' rest]]; [done..|].
  unfold u64_from_str_radix16. rewrite bool_decide_false; [done|].
  destruct (Hd b ltac:(set_solver)) as (d & Hd1 & ->). intros Hplus.
  pose proof (f_equal byte_val Hplus) as Hv. pose proof (hex_digit_range d Hd1).
  unfold byte_plus in Hv. rewrite byte_val_of in Hv. change (43 mod 256) with 43 in Hv. lia.
Qed.

(** ** UTF-8 validation: [str::from_utf8] *)

Definition in_range (lo hi : Z) (b : byte) : bool :=
  (lo <=? byte_val b) && (byte_val b <=? hi).
Definition is_cont : byte -> bool := in_range 128 191.

Fixpoint utf8_valid (l : list byte) : bool :=
  match l with
  | [] => true
  | b :: l1 =>
      if byte_val b <? 128 then utf8_valid l1
      else
        match l1 with
        | [] => false
        | b1 :: l2 =>
            if in_range 194 223 b then is_cont b1 && utf8_valid l2
            else
              match l2 with
              | [] => false
              | b2 :: l3 =>
                  if in_range 224 239 b then
                    (if byte_val b =? 224 then in_range 160 191 b1
                     else if byte_val b =? 237 then in_range 128 159 b1
                     else is_cont b1) && is_cont b2 && utf8_valid l3
                  else
                    match l3 with
                    | [] => false
                    | b3 :: l4 =>
                        in_range 240 244 b &&
                        (if byte_val b =? 240 then in_range 144 191 b1
                         else if byte_val b =? 244 then in_range 128 143 b1
                         else is_cont b1) && is_cont b2 && is_cont b3 && utf8_valid l4
                    end
              end
        end
  end.

Lemma utf8_valid_ascii l : (forall b, b ∈ l -> byte_val b < 128) -> utf8_valid l = true.
Proof.
  induction l as [|b l IH]; intros Hl; [done|]. cbn [utf8_valid].
  destruct (Z.ltb_spec (byte_val b) 128) as [_|Hge].
  - apply IH. intros b' Hb'. apply Hl. set_solver.
  - specialize (Hl b ltac:(set_solver)). lia.
Qed.

(** ** String methods *)

Definition byte_slash : byte := byte_of 47.
Definition byte_percent : byte := byte_of 37.

Definition starts_with (l p : list byte) : bool := bool_decide (take (length p) l = p).
Definition ends_with_byte (l : list byte) (b : byte) : bool :=
  bool_decide (last l = Some b).

(** [str::strip_suffix]. *)
Definition strip_suffix (l s : list byte) : option (list byte) :=
  let n := (length l - length s)%nat in
  if bool_decide ((length s <= length l)%nat /\ drop n l = s) then Some (take n l) else None.

(** [str::replace(char, &str)]. *)
Definition replace_byte (l : list byte) (b : byte) (by_ : list byte) : list byte :=
  l ≫= fun c => if bool_decide (c = b) then by_ else [c].

(** [str::rsplit(sep).next()]: the part after the last separator; the
    iterator always yields at least one part. *)
Definition rsplit_next (l : list byte) (sep : byte) : option (list byte) :=
  Some (foldl (fun acc b => if bool_decide (b = sep) then [] else acc ++ [b]) [] l).

Lemma starts_with_app p l : starts_with (p ++ l) p = true.
Proof. unfold starts_with. by rewrite take_app_length, bool_decide_true. Qed.

Lemma starts_with_iff l p : starts_with l p = true <-> exists k, l = p ++ k.
Proof.
  split.
  - unfold starts_with. rewrite bool_decide_eq_true. intros Hp.
    exists (drop (length p) l). rewrite <-Hp at 1. by rewrite take_drop.
  - intros [k ->]. apply starts_with_app.
Qed.

Lemma strip_suffix_Some l s r : strip_suffix l s = Some r <-> l = r ++ s.
Proof.
  unfold strip_suffix. split.
  - case_bool_decide as Hs; [|done]. destruct Hs as [Hlen Hd]. intros [= <-].
    rewrite <-Hd at 2. by rewrite take_drop.
  - intros ->. rewrite length_app.
    replace (length r + length s - length s)%nat with (length r) by lia.
    rewrite bool_decide_true.
    + by rewrite take_app_length.
    + split; [lia|]. by rewrite drop_app_length.
Qed.

Lemma rsplit_foldl_app (sep : byte) t acc :
  sep ∉ t ->
  foldl (fun acc b => if bool_decide (b = sep) then [] else acc ++ [b]) acc t = acc ++ t.
Proof.
  revert acc. induction t as [|b t IH]; intros acc Ht; cbn [foldl]; [by rewrite app_nil_r|].
  rewrite bool_decide_false by set_solver. rewrite IH by set_solver.
  by rewrite <-app_assoc.
Qed.

Lemma rsplit_next_app p (sep : byte) t :
  sep ∉ t -> rsplit_next (p ++ sep :: t) sep = Some t.
Proof.
  intros Ht. unfold rsplit_next. rewrite foldl_app. cbn [foldl].
  rewrite bool_decide_true by done. by rewrite rsplit_foldl_app.
Qed.
