(* ===== verification/Error.v ===== *)
(** * Errors (rust/src/error.rs, rust/src/error_struct.rs)

    The error type of every operation, its stable codes and its retry status,
    and the conversions [?] applies to foreign errors.  A source error
    ([anyhow::Error]) is kept as the text it displays.  [#[track_caller]]
    passes the call site as the argument [caller]; the other files pass
    [unknown_location], so line numbers are not modelled there. *)

From S2P Require Import Prelude.

#[local] Open Scope string_scope.

(** ** error_struct.rs *)

Inductive ErrorStatus := Temporary | Permanent.
#[global] Instance ErrorStatus_eq_dec : EqDecision ErrorStatus.
Proof. solve_decision. Defined.

Definition display_status (s : ErrorStatus) : string :=
  match s with Temporary => "temporary" | Permanent => "permanent" end.

(** [core::panic::Location]. *)
Record Location := { loc_file : string; loc_line : Z; loc_column : Z }.
Definition unknown_location : Location :=
  {| loc_file := ""; loc_line := 0; loc_column := 0 |}.

Record ErrorStruct := {
  message : string;
  status : ErrorStatus;
  source : option string;
  location : option string
}.

Definition error_struct_new (caller : Location) (msg : string) (s : ErrorStatus)
  : ErrorStruct :=
  {| message := msg;
     status := s;
     source := None;
     location := Some (loc_file caller +:+ ":" +:+ pretty (loc_line caller)
                       +:+ ":" +:+ pretty (loc_column caller)) |}.

(** Panics when a source is already set. *)
Definition with_source (self : ErrorStruct) (src : string) : res Empty_set ErrorStruct :=
  match source self with
  | Some _ => Panic "the source error has been set"
  | None => Ok {| message := message self; status := status self;
                  source := Some src; location := location self |}
  end.

Definition display_error_struct (e : ErrorStruct) : string :=
  message e +:+ " (" +:+ display_status (status e) +:+ ")"
  +:+ match location e with Some l => " at " +:+ l | None => "" end
  +:+ match source e with Some s => ", caused by: " +:+ s | None => "" end.

(** ** error.rs *)

Inductive ErrorCode :=
  | CodeMetadataDecode | CodeFileNotFound | CodeFileAlreadyExists
  | CodeReadOnlyViolation | CodeSlateDb | CodeInvalidArgument | CodeIo.

(** The [#[repr(i32)]] discriminants. *)
Definition error_code_i32 (c : ErrorCode) : Z :=
  match c with
  | CodeMetadataDecode => 1
  | CodeFileNotFound => 2
  | CodeFileAlreadyExists => 3
  | CodeReadOnlyViolation => 4
  | CodeSlateDb => 5
  | CodeInvalidArgument => 6
  | CodeIo => 7
  end.

Inductive Error :=
  | MetadataDecode (e : ErrorStruct)
  | FileNotFound (e : ErrorStruct)
  | FileAlreadyExists (e : ErrorStruct)
  | ReadOnlyViolation (e : ErrorStruct)
  | SlateDbError (e : ErrorStruct)
  | InvalidArgument (e : ErrorStruct)
  | IoError (e : ErrorStruct).

Abbreviation Result A := (res Error A).

Definition metadata_decode (caller : Location) (msg : string) : Error :=
  MetadataDecode (error_struct_new caller msg Permanent).

Definition metadata_decode_with_source (caller : Location) (msg src : string)
  : res Empty_set Error :=
  let? e := with_source (error_struct_new caller msg Permanent) src in
  Ok (MetadataDecode e).

Definition file_not_found (caller : Location) (path : string) : Error :=
  FileNotFound (error_struct_new caller ("file not found: " +:+ path) Permanent).

Definition read_only_violation (caller : Location) (msg : string) : Error :=
  ReadOnlyViolation (error_struct_new caller msg Permanent).

Definition invalid_argument (caller : Location) (msg : string) : Error :=
  InvalidArgument (error_struct_new caller msg Permanent).

Definition io_with_source (caller : Location) (msg src : string) : res Empty_set Error :=
  let? e := with_source (error_struct_new caller msg Permanent) src in
  Ok (IoError e).

Definition code (self : Error) : ErrorCode :=
  match self with
  | MetadataDecode _ => CodeMetadataDecode
  | FileNotFound _ => CodeFileNotFound
  | FileAlreadyExists _ => CodeFileAlreadyExists
  | ReadOnlyViolation _ => CodeReadOnlyViolation
  | SlateDbError _ => CodeSlateDb
  | InvalidArgument _ => CodeInvalidArgument
  | IoError _ => CodeIo
  end.

(** The payload every variant carries. *)
Definition error_inner (self : Error) : ErrorStruct :=
  match self with
  | MetadataDecode inner | FileNotFound inner | FileAlreadyExists inner
  | ReadOnlyViolation inner | SlateDbError inner | InvalidArgument inner
  | IoError inner => inner
  end.

Definition error_status (self : Error) : ErrorStatus := status (error_inner self).

(** Each variant displays its payload ([#[error("{0}")]]). *)
Definition display_error (self : Error) : string := display_error_struct (error_inner self).

(** Return an error built by a constructor that could panic. *)
Definition raise {A} (e : res Empty_set Error) : Result A :=
  match e with
  | Ok e => Err e
  | Err v => match v with end
  | Panic p => Panic p
  end.

(** ** Conversions *)

(** [slatedb::ErrorKind], as far as the crate distinguishes it; the
    enumeration is non-exhaustive, [OtherKind] stands for the rest. *)
Inductive SlateDbErrorKind := KindUnavailable | KindTransaction | KindData | OtherKind.
Record slatedb_error := { slatedb_kind : SlateDbErrorKind; slatedb_display : string }.

Definition from_slatedb_error (caller : Location) (src : slatedb_error)
  : res Empty_set Error :=
  let status := match slatedb_kind src with
                | KindUnavailable | KindTransaction => Temporary
                | _ => Permanent
                end in
  let? e := with_source (error_struct_new caller "slatedb error" status)
              (slatedb_display src) in
  Ok (SlateDbError e).

(** [std::io::ErrorKind], as far as the crate distinguishes it. *)
Inductive io_error_kind := Interrupted | WouldBlock | TimedOut | OtherIo.
Record io_error := { io_kind : io_error_kind; io_display : string }.

Definition from_io_error (caller : Location) (src : io_error) : res Empty_set Error :=
  let status := match io_kind src with
                | Interrupted | WouldBlock | TimedOut => Temporary
                | _ => Permanent
                end in
  let? e := with_source (error_struct_new caller "io error" status) (io_display src) in
  Ok (IoError e).

Definition from_decode_error (caller : Location) (src : string) : res Empty_set Error :=
  let? e := with_source (error_struct_new caller "metadata decode error" Permanent) src in
  Ok (MetadataDecode e).

(** [?] on a result whose error has a conversion. *)
Definition try_from {E A} (f : E -> res Empty_set Error) (r : res E A) : Result A :=
  match r with
  | Ok a => Ok a
  | Err e => raise (f e)
  | Panic p => Panic p
  end.

(** [?] on a SlateDB call. *)
Definition slate {S A} (m : M slatedb_error S A) : M Error S A :=
  fun s => let '(r, s') := m s in (try_from (from_slatedb_error unknown_location) r, s').

(** ** Properties *)

Lemma try_from_ok {E A} (f : E -> res Empty_set Error) (r : res E A) a :
  try_from f r = Ok a <-> r = Ok a.
Proof.
  destruct r as [a'|e|p]; simpl; [split; congruence| |done].
  split; [|done]. by destruct (f e) as [|[]|].
Qed.

Lemma slate_ok {S A} (m : M slatedb_error S A) s a s' :
  slate m s = (Ok a, s') <-> m s = (Ok a, s').
Proof.
  unfold slate. destruct (m s) as [r s1]. rewrite !pair_equal_spec.
  by rewrite try_from_ok.
Qed.

Lemma slate_inv {S A} (m : M slatedb_error S A) s r s' :
  slate m s = (r, s') -> exists r0, m s = (r0, s') /\ forall a, r = Ok a <-> r0 = Ok a.
Proof.
  unfold slate. destruct (m s) as [r0 s1]. intros [= <- <-]. exists r0. split; [done|].
  intros a. apply try_from_ok.
Qed.

(** An error raised from SlateDB is a SlateDB error, temporary exactly for the
    kinds a retry can cure. *)
Lemma slate_err {S A} (m : M slatedb_error S A) s e s' :
  slate m s = (Err e, s') ->
  exists src, m s = (Err src, s') /\ code e = CodeSlateDb /\
    (error_status e = Temporary <->
     slatedb_kind src = KindUnavailable \/ slatedb_kind src = KindTransaction).
Proof.
  unfold slate. destruct (m s) as [[a|src|p] s1]; simpl; intros H; simplify_eq.
  exists src. split_and!; [done..|]. unfold error_status. simpl.
  destruct (slatedb_kind src); simpl; naive_solver.
Qed.

(** The codes of the C ABI are non-zero and tell the variants apart. *)
Lemma error_code_i32_inj c d : error_code_i32 c = error_code_i32 d -> c = d.
Proof. by destruct c, d. Qed.
Lemma error_code_i32_range c : 1 <= error_code_i32 c <= 7.
Proof. destruct c; simpl; lia. Qed.
