(* ===== verification/Flags.v ===== *)
(** * Open flags (rust/src/flags.rs) *)

From S2P Require Import Prelude Error.

#[local] Open Scope string_scope.

Record FileOpenFlags := {
  read : bool;
  write : bool;
  create : bool;
  append : bool;
  truncate_existing : bool
}.

Definition read_only : FileOpenFlags :=
  {| read := true; write := false; create := false; append := false;
     truncate_existing := false |}.
Definition read_write : FileOpenFlags :=
  {| read := true; write := true; create := false; append := false;
     truncate_existing := false |}.
Definition open_or_create : FileOpenFlags :=
  {| read := true; write := true; create := true; append := false;
     truncate_existing := false |}.
Definition create_or_truncate : FileOpenFlags :=
  {| read := false; write := true; create := true; append := false;
     truncate_existing := true |}.
Definition append_flags : FileOpenFlags :=
  {| read := false; write := true; create := true; append := true;
     truncate_existing := false |}.

Definition validate (self : FileOpenFlags) : Result unit :=
  let reject reason :=
    Err (invalid_argument unknown_location ("invalid file open flags: " +:+ reason)) in
  if negb (read self) && negb (write self) then
    reject "at least one of read or write must be set"
  else if create self && negb (write self) then
    reject "create requires write access"
  else if append self && negb (write self) then
    reject "append requires write access"
  else if truncate_existing self && negb (create self) then
    reject "truncate existing requires create"
  else Ok tt.

Definition ensure (granted : bool) (operation : string) (file_id : Z) : Result unit :=
  if granted then Ok tt
  else Err (invalid_argument unknown_location
              ("cannot " +:+ operation +:+ " file_id " +:+ pretty file_id
               +:+ ": not opened for that access")).

Definition ensure_readable (self : FileOpenFlags) (file_id : Z) : Result unit :=
  ensure (read self) "read" file_id.

Definition ensure_writable (self : FileOpenFlags) (file_id : Z) : Result unit :=
  if write self then Ok tt
  else Err (read_only_violation unknown_location
              ("cannot write to file_id " +:+ pretty file_id
               +:+ ": not opened for that access")).

(** ** Properties *)

Lemma validate_ok f :
  validate f = Ok tt <->
    (read f || write f) = true /\ (create f -> write f) /\ (append f -> write f) /\
    (truncate_existing f -> create f).
Proof. destruct f as [[] [] [] [] []]; simpl; naive_solver. Qed.

Lemma ensure_readable_ok f id : ensure_readable f id = Ok tt <-> read f = true.
Proof. unfold ensure_readable, ensure. by destruct (read f). Qed.
Lemma ensure_writable_ok f id : ensure_writable f id = Ok tt <-> write f = true.
Proof. unfold ensure_writable. by destruct (write f). Qed.

Lemma validate_inv f :
  validate f = Ok tt \/ exists e, validate f = Err e /\ code e = CodeInvalidArgument.
Proof. destruct f as [[] [] [] [] []]; cbn; eauto. Qed.
