(* ===== verification/Keys.v ===== *)
(** * Key encoding (rust/src/keys.rs)

    Every SlateDB holds three families of keys: chunks, [c/<file_id>/<index>],
    metadata, [m/<file_id>], and paths, [p/<path>] (database_metadata.rs). *)

From S2P Require Import Prelude RustStd.

Inductive Prefix := Chunk | Metadata.

Definition prefix_as_str (self : Prefix) : list byte :=
  match self with
  | Chunk => bytes_of "c/"
  | Metadata => bytes_of "m/"
  end.

(** [c/<file_id:016x>/]. *)
Definition chunk_prefix (file_id : Z) : list byte :=
  prefix_as_str Chunk ++ hex16 file_id ++ bytes_of "/".

(** [c/<file_id:016x>/<chunk_index:016x>]. *)
Definition chunk_key (file_id chunk_index : Z) : list byte :=
  chunk_prefix file_id ++ hex16 chunk_index.

(** [m/<file_id:016x>]. *)
Definition metadata_key (file_id : Z) : list byte :=
  prefix_as_str Metadata ++ hex16 file_id.

(** ** The encoding is fixed-width *)

Lemma chunk_prefix_fixed f :
  is_u64 f -> chunk_prefix f = bytes_of "c/" ++ hex_fixed 16 f ++ bytes_of "/".
Proof. intros Hf. unfold chunk_prefix. by rewrite hex16_fixed. Qed.

Lemma chunk_key_fixed f i :
  is_u64 f -> is_u64 i -> chunk_key f i = chunk_prefix f ++ hex_fixed 16 i.
Proof. intros Hf Hi. unfold chunk_key. by rewrite (hex16_fixed i). Qed.

Lemma metadata_key_fixed f :
  is_u64 f -> metadata_key f = bytes_of "m/" ++ hex_fixed 16 f.
Proof. intros Hf. unfold metadata_key. by rewrite hex16_fixed. Qed.

Lemma hex_fixed_inj a b :
  is_u64 a -> is_u64 b -> hex_fixed 16 a = hex_fixed 16 b -> a = b.
Proof.
  intros Ha Hb Heq. apply Z.compare_eq_iff.
  rewrite <-(hex_fixed_compare 16) by done. rewrite Heq. apply bytes_compare_refl.
Qed.

Lemma length_chunk_prefix f : is_u64 f -> length (chunk_prefix f) = 19%nat.
Proof.
  intros Hf. rewrite chunk_prefix_fixed by done.
  by rewrite !length_app, length_hex_fixed.
Qed.

Lemma chunk_prefix_app_inj f g a b :
  is_u64 f -> is_u64 g -> chunk_prefix f ++ a = chunk_prefix g ++ b -> f = g /\ a = b.
Proof.
  intros Hf Hg Heq. apply app_inj_1 in Heq as [Hp ->]; [|by rewrite !length_chunk_prefix].
  split; [|done]. rewrite !chunk_prefix_fixed in Hp by done.
  apply app_inj_1 in Hp as [_ Hp]; [|done].
  apply app_inj_1 in Hp as [Hp _]; [|by rewrite !length_hex_fixed].
  by apply hex_fixed_inj.
Qed.

Lemma chunk_key_inj f g i j :
  is_u64 f -> is_u64 g -> is_u64 i -> is_u64 j ->
  chunk_key f i = chunk_key g j -> f = g /\ i = j.
Proof.
  intros Hf Hg Hi Hj. rewrite !chunk_key_fixed by done. intros Heq.
  apply chunk_prefix_app_inj in Heq as [-> Heq]; [|done..].
  split; [done|]. by apply hex_fixed_inj.
Qed.

Lemma metadata_key_inj f g :
  is_u64 f -> is_u64 g -> metadata_key f = metadata_key g -> f = g.
Proof.
  intros Hf Hg. rewrite !metadata_key_fixed by done. intros Heq.
  apply (inj _) in Heq. by apply hex_fixed_inj.
Qed.

(** ** Order and prefixes *)

Lemma chunk_key_compare f i j :
  is_u64 f -> is_u64 i -> is_u64 j ->
  bytes_compare (chunk_key f i) (chunk_key f j) = (i ?= j).
Proof.
  intros Hf Hi Hj. rewrite !chunk_key_fixed by done.
  rewrite bytes_compare_app. by apply hex_fixed_compare.
Qed.

Lemma chunk_key_le f i j :
  is_u64 f -> is_u64 i -> is_u64 j -> bytes_le (chunk_key f i) (chunk_key f j) <-> i <= j.
Proof. intros. unfold bytes_le. rewrite chunk_key_compare by done. done. Qed.

Lemma chunk_key_starts_with f g i :
  is_u64 f -> is_u64 g -> starts_with (chunk_key f i) (chunk_prefix g) = true <-> f = g.
Proof.
  intros Hf Hg. rewrite starts_with_iff. split.
  - intros [k Hk]. by apply chunk_prefix_app_inj in Hk as [? _].
  - intros ->. by eexists.
Qed.

(** A key between two chunk keys of a file extends that file's prefix. *)
Lemma between_chunk_keys f i j k :
  bytes_le (chunk_key f i) k -> bytes_le k (chunk_key f j) ->
  starts_with k (chunk_prefix f) = true.
Proof. intros H1 H2. apply starts_with_iff. by eapply bytes_between_prefix. Qed.

(** The chunk keys of one file are ordered by index, and those of a smaller
    file come first. *)
Lemma chunk_key_order f g i j :
  is_u64 f -> is_u64 g -> is_u64 i -> is_u64 j ->
  bytes_lt (chunk_key f i) (chunk_key g j) <-> f < g \/ f = g /\ i < j.
Proof.
  intros Hf Hg Hi Hj. unfold bytes_lt.
  destruct (decide (f = g)) as [->|Hne].
  { rewrite chunk_key_compare by done. rewrite Z.compare_lt_iff. lia. }
  rewrite !chunk_key_fixed, !chunk_prefix_fixed, <-!app_assoc, bytes_compare_app by done.
  rewrite bytes_compare_app_length by (by rewrite !length_hex_fixed).
  rewrite hex_fixed_compare by done.
  destruct (Z.compare_spec f g); naive_solver lia.
Qed.

(** ** The families are disjoint *)

Definition family (k : list byte) : option byte := head k.

Lemma family_chunk f i : family (chunk_key f i) = Some (byte_of 99).
Proof. done. Qed.
Lemma family_metadata f : family (metadata_key f) = Some (byte_of 109).
Proof. done. Qed.

Lemma chunk_key_ne_metadata_key f i g : chunk_key f i <> metadata_key g.
Proof. intros Heq. apply (f_equal family) in Heq. done. Qed.
