(* ===== verification/SlateDb.v ===== *)
(** * The SlateDB interface the crate calls, and what it relies on

    SlateDB is a third-party crate: its operations are the fields of the
    classes below, parameters of every definition that uses them, and the
    documented behaviour the crate relies on is stated as the laws of
    separate classes.  [W] is the state of everything outside the crate.
    Two worlds are equivalent ([≡]) when no database, reader or transaction
    can be told apart in them; [up w] says that the store answers in [w].

    MemDb.v gives a world in memory that satisfies the laws. *)

From S2P Require Import Prelude RustStd Error.

(** The contents of a database. *)
Abbreviation kv := (gmap (list byte) (list byte)).

Record KeyValue := { kv_key : list byte; kv_value : list byte }.

(** The fields of [ScanOptions] the crate sets. *)
Record ScanOptions := {
  read_ahead_bytes : Z;
  max_fetch_tasks : Z;
  cache_blocks : bool
}.

(** A [WriteBatch] is the sequence of its operations. *)
Inductive WriteOp :=
  | Put (k v : list byte)
  | Delete (k : list byte).
Abbreviation WriteBatch := (list WriteOp).

Definition apply_op (m : kv) (o : WriteOp) : kv :=
  match o with
  | Put k v => <[k := v]> m
  | Delete k => delete k m
  end.
Definition apply_batch (m : kv) (b : WriteBatch) : kv := foldl apply_op m b.

(** [l] lists the rows of [m] whose key satisfies [P], in key order. *)
Record listing (m : kv) (P : list byte -> Prop) (l : list KeyValue) : Prop := {
  listing_sorted : StronglySorted bytes_lt (kv_key <$> l);
  listing_elem k v : {| kv_key := k; kv_value := v |} ∈ l <-> m !! k = Some v /\ P k
}.

(** ** Read operations: the trait [DbReadOps] of [Db], [DbReader] and [DbTransaction] *)

Class DbReadOps (W D : Type) := {
  ScanIter : Type;
  db_get : D -> list byte -> M slatedb_error W (option (list byte));
  (** [scan_with_options(first..=last, options)]. *)
  db_scan_with_options :
    D -> list byte -> list byte -> ScanOptions -> M slatedb_error W ScanIter;
  (** [scan_prefix(prefix, ..)]. *)
  db_scan_prefix : D -> list byte -> M slatedb_error W ScanIter;
  iter_next : M slatedb_error (ScanIter * W) (option KeyValue);
  (** A bound on the rows an iterator has left. *)
  iter_bound : ScanIter -> nat
}.
Arguments ScanIter W D {_}.

(** ** Database, writer and transaction operations *)

Inductive IsolationLevel := Snapshot | SerializableSnapshot.

Class SlateDb (W Db Txn : Type) := {
  db_write : Db -> WriteBatch -> M slatedb_error W unit;
  db_flush : Db -> M slatedb_error W unit;
  db_begin : Db -> IsolationLevel -> M slatedb_error W Txn;
  txn_put : Txn -> list byte -> list byte -> M slatedb_error W unit;
  txn_delete : Txn -> list byte -> M slatedb_error W unit;
  txn_commit : Txn -> M slatedb_error W unit
}.

(** ** Documented behaviour *)

Class World (W : Type) := {
  world_equiv :: Equiv W;
  world_equivalence :: Equivalence (≡@{W});
  up : W -> Prop
}.

(** A call that reads: from any world equivalent to [w0] it leaves an
    equivalent one, it succeeds when the store is up, and what it returns
    satisfies [Q]. *)
Definition reads {W E A} `{World W} (w0 : W) (m : M E W A) (Q : A -> Prop) : Prop :=
  forall w r w', w ≡ w0 -> m w = (r, w') ->
  w' ≡ w0 /\ (up w -> up w' /\ exists a, r = Ok a) /\ (forall a, r = Ok a -> Q a).

Class DbReadLaws (W D : Type) `{World W} `{DbReadOps W D} := {
  db_view : W -> D -> kv;
  db_view_proper :: Proper ((≡) ==> (=) ==> (=)) db_view;
  (** The rows an iterator has yet to yield: those of the view it was opened on. *)
  iter_rows : ScanIter W D -> list KeyValue;
  iter_rows_bound it : (length (iter_rows it) <= iter_bound it)%nat;
  db_get_spec w d k : reads w (db_get d k) (fun v => v = db_view w d !! k);
  db_scan_spec w d first last options :
    reads w (db_scan_with_options d first last options)
      (fun it => listing (db_view w d) (fun k => bytes_le first k /\ bytes_le k last)
                   (iter_rows it));
  db_scan_prefix_spec w d prefix :
    reads w (db_scan_prefix d prefix)
      (fun it => listing (db_view w d) (fun k => starts_with k prefix = true)
                   (iter_rows it));
  iter_next_spec w0 w it r it' w' :
    w ≡ w0 -> iter_next (it, w) = (r, (it', w')) ->
    w' ≡ w0 /\ (up w -> up w' /\ exists o, r = Ok o) /\
    (forall o, r = Ok o ->
       match o with
       | Some row => iter_rows it = row :: iter_rows it'
       | None => iter_rows it = []
       end)
}.

(** What the write operations promise: a batch is atomic and a transaction is
    a buffer of writes over the view it started from.  A failed write or
    commit may or may not have been applied. *)
Class SlateDbLaws (W Db Txn : Type) `{World W} `{DbReadOps W Db} `{!DbReadLaws W Db}
    `{DbReadOps W Txn} `{!DbReadLaws W Txn} `{SlateDb W Db Txn} := {
  (** The database of a transaction and the writes it has buffered. *)
  txn_db : Txn -> Db;
  txn_ops : W -> Txn -> WriteBatch;
  txn_ops_proper :: Proper ((≡) ==> (=) ==> (=)) txn_ops;

  db_write_spec w d b r w' :
    db_write d b w = (r, w') ->
    (up w -> r = Ok tt /\ up w') /\
    (forall d', d' <> d -> db_view w' d' = db_view w d') /\
    match r with
    | Ok _ => db_view w' d = apply_batch (db_view w d) b
    | _ => db_view w' d = db_view w d \/ db_view w' d = apply_batch (db_view w d) b
    end;
  db_flush_spec w d r w' :
    db_flush d w = (r, w') ->
    (up w -> r = Ok tt /\ up w') /\ (forall d' : Db, db_view w' d' = db_view w d');
  db_begin_spec w d level r w' :
    db_begin d level w = (r, w') ->
    (up w -> up w' /\ exists t, r = Ok t) /\
    (forall d' : Db, db_view w' d' = db_view w d') /\
    (forall t, r = Ok t ->
       txn_db t = d /\ txn_ops w' t = [] /\ db_view w' t = db_view w d);
  txn_put_spec w t k v r w' :
    txn_put t k v w = (r, w') ->
    (up w -> r = Ok tt /\ up w') /\
    (forall d : Db, db_view w' d = db_view w d) /\
    (r = Ok tt ->
       txn_ops w' t = txn_ops w t ++ [Put k v] /\
       db_view w' t = apply_op (db_view w t) (Put k v));
  txn_delete_spec w t k r w' :
    txn_delete t k w = (r, w') ->
    (up w -> r = Ok tt /\ up w') /\
    (forall d : Db, db_view w' d = db_view w d) /\
    (r = Ok tt ->
       txn_ops w' t = txn_ops w t ++ [Delete k] /\
       db_view w' t = apply_op (db_view w t) (Delete k));
  txn_commit_spec w t r w' :
    txn_commit t w = (r, w') ->
    (up w -> r = Ok tt /\ up w') /\
    (forall d, d <> txn_db t -> db_view w' d = db_view w d) /\
    match r with
    | Ok _ => db_view w' (txn_db t) = apply_batch (db_view w (txn_db t)) (txn_ops w t)
    | _ => db_view w' (txn_db t) = db_view w (txn_db t) \/
           db_view w' (txn_db t) = apply_batch (db_view w (txn_db t)) (txn_ops w t)
    end
}.

(** The system clock: [SystemTime::now().duration_since(UNIX_EPOCH)] in
    milliseconds, [None] before the epoch. *)
Class Clock (W : Type) := millis_since_epoch : W -> option N * W.
Class ClockLaws (W : Type) `{World W} `{Clock W} := {
  clock_spec w : (millis_since_epoch w).2 ≡ w;
  clock_up w : up w -> up (millis_since_epoch w).2
}.

(** ** Composing read-only calls *)

Section reads.
Context {W E : Type} `{World W}.

Lemma reads_ret {A} (w0 : W) (a : A) (Q : A -> Prop) : Q a -> reads (E:=E) w0 (ret a) Q.
Proof.
  intros Ha w r w' Hw Hr. unfold ret in Hr. simplify_eq.
  split_and!; [done|eauto|]. by intros ? [= <-].
Qed.

Lemma reads_bind {A B} (w0 : W) (m : M E W A) (f : A -> M E W B) P Q :
  reads w0 m P -> (forall a, P a -> reads w0 (f a) Q) -> reads w0 (bind m f) Q.
Proof.
  intros Hm Hf w r w' Hw Hr. unfold bind in Hr.
  destruct (m w) as [r1 w1] eqn:Hm1.
  destruct (Hm w r1 w1 Hw Hm1) as (Hw1 & Hup & HP).
  destruct r1 as [a|e|p]; simplify_eq.
  - destruct (Hf a (HP a eq_refl) w1 r w' Hw1 Hr) as (? & Hup' & ?).
    split_and!; [done| |done]. intros [Hu _]%Hup. by apply Hup'.
  - split_and!; [done| |done]. by intros (_ & ? & ?)%Hup.
  - split_and!; [done| |done]. by intros (_ & ? & ?)%Hup.
Qed.

Lemma reads_mono {A} (w0 : W) (m : M E W A) (P Q : A -> Prop) :
  reads w0 m P -> (forall a, P a -> Q a) -> reads w0 m Q.
Proof.
  intros Hm HPQ w r w' Hw Hr. destruct (Hm w r w' Hw Hr) as (? & ? & ?).
  split_and!; eauto.
Qed.

Lemma reads_equiv {A} (w0 w1 : W) (m : M E W A) (Q : A -> Prop) :
  w0 ≡ w1 -> reads w0 m Q -> reads w1 m Q.
Proof.
  intros Hw Hm w r w' Hw' Hr.
  destruct (Hm w r w' ltac:(by rewrite Hw') Hr) as (? & ? & ?).
  split_and!; [by rewrite <-Hw|done..].
Qed.

Lemma reads_up {A} (w0 : W) (m : M E W A) Q :
  up w0 -> reads w0 m Q -> exists a w', m w0 = (Ok a, w') /\ w' ≡ w0 /\ up w' /\ Q a.
Proof.
  intros Hu Hm. destruct (m w0) as [r w'] eqn:Hr.
  destruct (Hm w0 r w' ltac:(done) Hr) as (? & Hup & HQ).
  destruct (Hup Hu) as (? & a & ->). exists a, w'. eauto.
Qed.

Lemma reads_ok {A} (w0 : W) (m : M E W A) Q a w' :
  reads w0 m Q -> m w0 = (Ok a, w') -> w' ≡ w0 /\ Q a.
Proof. intros Hm Hr. destruct (Hm w0 (Ok a) w' ltac:(done) Hr) as (? & _ & ?). eauto. Qed.
End reads.

Lemma reads_slate {W A} `{World W} (w0 : W) (m : M slatedb_error W A) Q :
  reads w0 m Q -> reads w0 (slate m) Q.
Proof.
  intros Hm w r w' Hw Hr. unfold slate in Hr. destruct (m w) as [r1 w1] eqn:Hm1.
  simplify_eq. destruct (Hm w r1 w' Hw Hm1) as (? & Hup & HQ). split_and!; [done|..].
  - intros (? & a & ->)%Hup. split; [done|]. by exists a.
  - intros a Ha%try_from_ok. eauto.
Qed.

(** ** Applying a batch *)

Lemma apply_batch_app m b c : apply_batch m (b ++ c) = apply_batch (apply_batch m b) c.
Proof. apply foldl_app. Qed.

Definition op_key (o : WriteOp) : list byte :=
  match o with Put k _ | Delete k => k end.
Definition op_value (o : WriteOp) : option (list byte) :=
  match o with Put _ v => Some v | Delete _ => None end.

Lemma lookup_apply_op m o k :
  apply_op m o !! k = if decide (op_key o = k) then op_value o else m !! k.
Proof.
  destruct o; simpl; [rewrite lookup_insert|rewrite lookup_delete]; by case_decide.
Qed.

Lemma lookup_apply_batch_ne m b k :
  (forall o, o ∈ b -> op_key o <> k) -> apply_batch m b !! k = m !! k.
Proof.
  revert m. induction b as [|o b IH]; intros m Hb; simpl; [done|].
  rewrite IH by set_solver. rewrite lookup_apply_op.
  by rewrite decide_False by set_solver.
Qed.

(** When the keys of a batch are distinct, each key takes the value its
    operation gives it. *)
Lemma lookup_apply_batch m b o :
  NoDup (op_key <$> b) -> o ∈ b -> apply_batch m b !! op_key o = op_value o.
Proof.
  revert m. induction b as [|o' b IH]; intros m Hnd Ho; simpl.
  { by apply not_elem_of_nil in Ho. }
  rewrite fmap_cons, NoDup_cons in Hnd. destruct Hnd as [Hno Hnd].
  apply elem_of_cons in Ho as [->|Ho]; [|by apply IH].
  rewrite lookup_apply_batch_ne.
  - rewrite lookup_apply_op. by rewrite decide_True.
  - intros o Ho Heq. apply Hno. rewrite <-Heq. by apply list_elem_of_fmap_2.
Qed.

(** ** Listings *)

Lemma listing_NoDup m P l : listing m P l -> NoDup (kv_key <$> l).
Proof.
  intros [Hs _]. induction Hs as [|k ks Hs IH Hk]; constructor; [|done].
  intros Hin. rewrite Forall_forall in Hk. specialize (Hk k Hin).
  unfold bytes_lt in Hk. by rewrite bytes_compare_refl in Hk.
Qed.
