(* ===== verification/MemDb.v ===== *)
(** * A world in memory

    Databases are finite maps named by their path.  A database has the
    contents its writer sees and those the store holds durably, which a reader
    reads: a write changes the first, a flush or a commit makes all of it
    durable.  A transaction is a copy of the map with a log of its writes, and
    one fault can be scheduled some operations ahead, as the crate's
    [FaultyChunkStore] test double does.  This world satisfies the laws of
    SlateDb.v; the examples of the other files run in it. *)

From S2P Require Import Prelude RustStd Error SlateDb.

Record MemTxn := { mt_view : kv; mt_ops : WriteBatch }.

Record MemWorld := {
  mw_dbs : gmap (list byte) kv;
  mw_durable : gmap (list byte) kv;
  mw_txns : gmap nat MemTxn;
  mw_next : nat;
  (** How often a writer of a database was opened. *)
  mw_epochs : gmap (list byte) nat;
  (** [Some n]: the operation after the next [n] fails. *)
  mw_fail_in : option nat;
  mw_clock : option N
}.

Record MDb := { mdb_path : list byte }.
Record MReader := { mreader_path : list byte }.
Record MTxn := { mtxn_id : nat; mtxn_db : MDb }.

Definition mem_world (dbs : gmap (list byte) kv) : MemWorld :=
  {| mw_dbs := dbs; mw_durable := dbs; mw_txns := ∅; mw_next := 0; mw_epochs := ∅; mw_fail_in := None; mw_clock := Some 0%N |}.

Definition set_fault (w : MemWorld) (f : option nat) : MemWorld :=
  {| mw_dbs := mw_dbs w; mw_durable := mw_durable w; mw_txns := mw_txns w; mw_next := mw_next w; mw_epochs := mw_epochs w;
     mw_fail_in := f; mw_clock := mw_clock w |}.
Definition set_dbs (w : MemWorld) (dbs : gmap (list byte) kv) : MemWorld :=
  {| mw_dbs := dbs; mw_durable := mw_durable w; mw_txns := mw_txns w; mw_next := mw_next w;
     mw_epochs := mw_epochs w; mw_fail_in := mw_fail_in w; mw_clock := mw_clock w |}.
Definition set_durable (w : MemWorld) (dbs : gmap (list byte) kv) : MemWorld :=
  {| mw_dbs := mw_dbs w; mw_durable := dbs; mw_txns := mw_txns w; mw_next := mw_next w;
     mw_epochs := mw_epochs w; mw_fail_in := mw_fail_in w; mw_clock := mw_clock w |}.
Definition set_txns (w : MemWorld) (txns : gmap nat MemTxn) : MemWorld :=
  {| mw_dbs := mw_dbs w; mw_durable := mw_durable w; mw_txns := txns; mw_next := S (mw_next w); mw_epochs := mw_epochs w;
     mw_fail_in := mw_fail_in w; mw_clock := mw_clock w |}.

Definition mem_fault : slatedb_error :=
  {| slatedb_kind := KindUnavailable; slatedb_display := "injected store fault" |}.

(** An operation that the scheduled fault may hit. *)
Definition faulty {S A} (op : S * MemWorld -> A * (S * MemWorld))
    : M slatedb_error (S * MemWorld) A :=
  fun '(s, w) =>
    match mw_fail_in w with
    | Some O => (Err mem_fault, (s, set_fault w None))
    | Some (S n) => let '(a, sw) := op (s, set_fault w (Some n)) in (Ok a, sw)
    | None => let '(a, sw) := op (s, w) in (Ok a, sw)
    end.
Definition faulty_w {A} (op : MemWorld -> A * MemWorld) : M slatedb_error MemWorld A :=
  with_local tt (faulty (fun '(u, w) => let '(a, w') := op w in (a, (u, w')))).

(** The rows of a map whose key satisfies a predicate, in key order. *)
Definition row_le (p q : list byte * list byte) : Prop := bytes_le p.1 q.1.
#[global] Instance row_le_dec : RelDecision row_le.
Proof. intros p q. unfold row_le. apply _. Defined.
#[global] Instance row_le_trans : Transitive row_le.
Proof. intros p q r. unfold row_le. apply bytes_le_trans. Qed.
#[global] Instance row_le_total : Total row_le.
Proof. intros p q. unfold row_le. apply total, _. Qed.

Definition mem_rows (m : kv) (P : list byte -> Prop) `{forall k, Decision (P k)}
    : list KeyValue :=
  (fun p => {| kv_key := p.1; kv_value := p.2 |}) <$>
  merge_sort row_le (filter (fun p => P p.1) (map_to_list m)).

Definition mem_contents (w : MemWorld) (path : list byte) : kv :=
  default ∅ (mw_dbs w !! path).
Definition mem_stored (w : MemWorld) (path : list byte) : kv :=
  default ∅ (mw_durable w !! path).
Definition mem_txn (w : MemWorld) (t : MTxn) : MemTxn :=
  default {| mt_view := ∅; mt_ops := [] |} (mw_txns w !! mtxn_id t).

(** Reads of any handle whose contents [view] gives. *)
Section mem_reads.
Context {D : Type} (view : MemWorld -> D -> kv).
#[local] Instance mem_read_ops : DbReadOps MemWorld D := {|
  ScanIter := list KeyValue;
  db_get d k := faulty_w (fun w => (view w d !! k, w));
  db_scan_with_options d first last _ :=
  faulty_w (fun w =>
  (mem_rows (view w d) (fun k => bytes_le first k /\ bytes_le k last), w));
  db_scan_prefix d prefix :=
  faulty_w (fun w => (mem_rows (view w d) (fun k => starts_with k prefix = true), w));
  iter_next :=
  faulty (fun '(rows, w) =>
  match rows with
  | [] => (None, ([], w))
  | row :: rows => (Some row, (rows, w))
  end);
  iter_bound := length
  |}.
End mem_reads.

#[global] Instance mem_db_ops : DbReadOps MemWorld MDb :=
  mem_read_ops (fun w d => mem_contents w (mdb_path d)).
#[global] Instance mem_reader_ops : DbReadOps MemWorld MReader :=
  mem_read_ops (fun w d => mem_stored w (mreader_path d)).
#[global] Instance mem_txn_ops : DbReadOps MemWorld MTxn :=
  mem_read_ops (fun w t => mt_view (mem_txn w t)).

Definition mem_txn_write (t : MTxn) (o : WriteOp) : M slatedb_error MemWorld unit :=
  faulty_w (fun w =>
    let tx := mem_txn w t in
    (tt, set_txns w (<[mtxn_id t := {| mt_view := apply_op (mt_view tx) o;
                                       mt_ops := mt_ops tx ++ [o] |}]> (mw_txns w)))).

Definition mem_update (w : MemWorld) (d : MDb) (b : WriteBatch) : MemWorld :=
  set_dbs w (<[mdb_path d := apply_batch (mem_contents w (mdb_path d)) b]> (mw_dbs w)).

(** What the writer sees becomes durable. *)
Definition mem_flush (w : MemWorld) (d : MDb) : MemWorld :=
  set_durable w (<[mdb_path d := mem_contents w (mdb_path d)]> (mw_durable w)).

#[global] Instance mem_slatedb : SlateDb MemWorld MDb MTxn := {|
    db_write d b := faulty_w (fun w => (tt, mem_update w d b));
    db_flush d := faulty_w (fun w => (tt, mem_flush w d));
    db_begin d _ :=
      faulty_w (fun w =>
        let t := {| mtxn_id := mw_next w; mtxn_db := d |} in
        (t, set_txns w (<[mw_next w := {| mt_view := mem_contents w (mdb_path d);
                                          mt_ops := [] |}]> (mw_txns w))));
    txn_put t k v := mem_txn_write t (Put k v);
    txn_delete t k := mem_txn_write t (Delete k);
    txn_commit t := faulty_w (fun w => (tt, mem_flush (mem_update w (mtxn_db t) (mt_ops (mem_txn w t))) (mtxn_db t)))
  |}.

#[global] Instance mem_clock : Clock MemWorld := fun w => (mw_clock w, w).

(** ** The laws hold *)

Definition mem_equiv (w w' : MemWorld) : Prop :=
  mw_dbs w = mw_dbs w' /\ mw_durable w = mw_durable w' /\ mw_txns w = mw_txns w' /\ mw_epochs w = mw_epochs w'.
Lemma mem_equiv_equivalence : Equivalence mem_equiv.
Proof. split; unfold mem_equiv; repeat intro; naive_solver congruence. Qed.

#[global] Instance mem_world_laws : World MemWorld := {|
    world_equiv := mem_equiv;
    world_equivalence := mem_equiv_equivalence;
    up w := mw_fail_in w = None
  |}.

Lemma listing_mem_rows m P `{!forall k, Decision (P k)} : listing m P (mem_rows m P).
Proof.
  unfold mem_rows.
  set (f := fun p : list byte * list byte => P p.1).
  pose proof (merge_sort_Permutation row_le (filter f (map_to_list m))) as Hperm.
  split.
  - rewrite <-list_fmap_compose. unfold compose. simpl.
    assert (Hnd : NoDup (fst <$> merge_sort row_le (filter f (map_to_list m)))).
    { rewrite Hperm. apply NoDup_fmap_filter, NoDup_fst_map_to_list. }
    pose proof (StronglySorted_merge_sort row_le (filter f (map_to_list m))) as Hs.
    revert Hnd. clear Hperm. induction Hs as [|p l Hs IH Hp]; intros Hnd; simpl; constructor.
    + apply IH. by inversion Hnd.
    + rewrite fmap_cons, NoDup_cons in Hnd. destruct Hnd as [Hnp _].
      apply Forall_forall. intros k (q & -> & Hq)%list_elem_of_fmap.
      pose proof (proj1 (Forall_forall _ _) Hp q Hq) as Hle. unfold row_le, bytes_le, bytes_lt in *.
      destruct (bytes_compare p.1 q.1) eqn:Hc; [|done|done].
      apply bytes_compare_eq in Hc. destruct Hnp. rewrite Hc. by apply list_elem_of_fmap_2.
  - intros k v. rewrite list_elem_of_fmap. split.
    + intros ([k' v'] & [= -> ->] & Hin). rewrite Hperm in Hin.
      apply list_elem_of_filter in Hin as [Hf Hin]. split; [|done].
      by apply elem_of_map_to_list.
    + intros [Hm Hk]. exists (k, v). split; [done|]. rewrite Hperm.
      apply list_elem_of_filter. split; [done|]. by apply elem_of_map_to_list.
Qed.

(** What a faulty operation can do: run on the world with the fault moved one
    operation closer, or fail and clear the fault. *)
Lemma faulty_inv {S A} (op : S * MemWorld -> A * (S * MemWorld)) s w r s' w' :
  faulty op (s, w) = (r, (s', w')) ->
  (exists f a, op (s, set_fault w f) = (a, (s', w')) /\ r = Ok a /\ (up w -> f = None)) \/
  (r = Err mem_fault /\ s' = s /\ w' = set_fault w None /\ ~ up w).
Proof.
  unfold faulty, up; simpl. destruct (mw_fail_in w) as [[|n]|] eqn:Hf.
  - intros [= <- <- <-]. by right.
  - destruct (op _) as [a [s1 w1]] eqn:Hop. intros [= <- <- <-].
    left. exists (Some n), a. naive_solver.
  - destruct (op _) as [a [s1 w1]] eqn:Hop. intros [= <- <- <-].
    left. exists None, a. split; [|done]. rewrite <-Hop. do 2 f_equal.
    destruct w; simpl in *. by subst.
Qed.

Lemma faulty_w_inv {A} (op : MemWorld -> A * MemWorld) w r w' :
  faulty_w op w = (r, w') ->
  (exists f a, op (set_fault w f) = (a, w') /\ r = Ok a /\ (up w -> f = None)) \/
  (r = Err mem_fault /\ w' = set_fault w None /\ ~ up w).
Proof.
  unfold faulty_w, with_local. destruct (faulty _ (tt, w)) as [r1 [u1 w1]] eqn:Hf.
  intros [= <- <-]. apply faulty_inv in Hf as [(f & a & Hop & -> & Hu)|(-> & -> & -> & Hu)].
  - left. exists f, a. destruct (op (set_fault w f)). by simplify_eq.
  - by right.
Qed.

Lemma set_fault_equiv w f : set_fault w f ≡ w.
Proof. done. Qed.

#[global] Instance mem_contents_proper : Proper ((≡) ==> (=) ==> (=)) mem_contents.
Proof. intros w w' (Hd & _) p ? <-. unfold mem_contents. by rewrite Hd. Qed.
#[global] Instance mem_txn_proper : Proper ((≡) ==> (=) ==> (=)) mem_txn.
Proof. intros w w' (_ & _ & Ht & _) t ? <-. unfold mem_txn. by rewrite Ht. Qed.

Lemma mem_read_spec {A} (op : MemWorld -> A) (w0 : MemWorld) (Q : A -> Prop) :
  (forall w, w ≡ w0 -> Q (op w)) -> reads w0 (faulty_w (fun w => (op w, w))) Q.
Proof.
  intros HQ w r w' Hw Hr.
  apply faulty_w_inv in Hr as [(f & a & Hop & -> & Hu)|(-> & -> & Hu)].
  - injection Hop as <- <-. split_and!.
    + by rewrite set_fault_equiv.
    + intros Hup. split; [|by eexists]. by rewrite (Hu Hup).
    + intros a' [= <-]. apply HQ. by rewrite set_fault_equiv.
  - split_and!; [done|done|]. by intros.
Qed.

Section mem_read_laws.
Context {D : Type} (view : MemWorld -> D -> kv) (Hview : Proper ((≡) ==> (=) ==> (=)) view).
#[local] Existing Instance mem_read_ops.

#[local] Program Instance mem_read_laws :
  @DbReadLaws MemWorld D _ (mem_read_ops view) := {|
  db_view := view;
  iter_rows := fun it => it
  |}.
Next Obligation. intros it. done. Qed.
Next Obligation. intros w d k. apply mem_read_spec. intros w' Hw.
by rewrite (Hview w' w Hw d d eq_refl). Qed.
Next Obligation.
intros w d first last options. apply mem_read_spec. intros w' Hw.
rewrite (Hview w' w Hw d d eq_refl). apply listing_mem_rows.
Qed.
Next Obligation.
intros w d prefix. apply mem_read_spec. intros w' Hw.
rewrite (Hview w' w Hw d d eq_refl). apply listing_mem_rows.
Qed.
Next Obligation.
intros w0 w it r it' w' Hw Hn. unfold iter_next, mem_read_ops in Hn.
apply faulty_inv in Hn as [(f & a & Hop & -> & Hu)|(-> & -> & -> & Hu)].
- destruct it as [|row it]; simplify_eq; (split_and!;
  [by rewrite set_fault_equiv | | by intros ? [= <-]]);
  (intros Hup; split; [by rewrite (Hu Hup)|eauto]).
- split_and!; [done|done|]. by intros.
Qed.
End mem_read_laws.

#[global] Instance mem_db_laws : DbReadLaws MemWorld MDb.
Proof. apply mem_read_laws. intros w w' Hw d ? <-. by rewrite Hw. Defined.
#[global] Instance mem_reader_laws : DbReadLaws MemWorld MReader.
Proof.
  apply mem_read_laws. intros w w' (_ & Hd & _) d ? <-. unfold mem_stored. by rewrite Hd.
Defined.
#[global] Instance mem_txn_laws : DbReadLaws MemWorld MTxn.
Proof. apply mem_read_laws. intros w w' Hw d ? <-. by rewrite Hw. Defined.

Lemma mem_contents_update w d b p :
  mem_contents (mem_update w d b) p =
    if decide (mdb_path d = p) then apply_batch (mem_contents w p) b else mem_contents w p.
Proof.
  unfold mem_contents at 1, mem_update; simpl. rewrite lookup_insert.
  by case_decide; simplify_eq.
Qed.

Lemma mdb_path_ne (d d' : MDb) : d' <> d -> mdb_path d <> mdb_path d'.
Proof. destruct d, d'; simpl. naive_solver. Qed.

(** A write replaces what one database shows in one step. *)
Lemma mem_update_spec (op : MemWorld -> MemWorld) (db : MDb) (ops : WriteBatch) w r w' :
  (forall f, mw_dbs (op (set_fault w f)) = mw_dbs (mem_update w db ops)) ->
  (forall f, mw_fail_in (op (set_fault w f)) = f) ->
  faulty_w (fun w => (tt, op w)) w = (r, w') ->
  (up w -> r = Ok tt /\ up w') /\
  (forall d' : MDb, d' <> db -> db_view w' d' = db_view w d') /\
  match r with
  | Ok _ => db_view w' db = apply_batch (db_view w db) ops
  | _ => db_view w' db = db_view w db \/
         db_view w' db = apply_batch (db_view w db) ops
  end.
Proof.
  intros Hop Hf Hr. apply faulty_w_inv in Hr as [(f & a & [= <- <-] & -> & Hu)|(-> & -> & Hu)].
  - assert (Hv : forall p, mem_contents (op (set_fault w f)) p = mem_contents (mem_update w db ops) p).
    { intros p. unfold mem_contents. by rewrite Hop. }
    split_and!.
    + intros Hup. split; [done|]. unfold up. cbn. by rewrite Hf, (Hu Hup).
    + intros d' Hd'. simpl. rewrite Hv, mem_contents_update.
      by rewrite decide_False by (by apply mdb_path_ne).
    + simpl. rewrite Hv, mem_contents_update. by rewrite decide_True.
  - split_and!; [done|done|]. by left.
Qed.

Lemma mem_txn_write_spec t o w r w' :
  mem_txn_write t o w = (r, w') ->
  (up w -> r = Ok tt /\ up w') /\
  (forall d : MDb, db_view w' d = db_view w d) /\
  (r = Ok tt ->
     mt_ops (mem_txn w' t) = mt_ops (mem_txn w t) ++ [o] /\
     db_view w' t = apply_op (db_view w t) o).
Proof.
  intros Hr. apply faulty_w_inv in Hr as [(f & a & [= <- <-] & -> & Hu)|(-> & -> & Hu)].
  - split_and!; [|done|].
    + intros Hup. split; [done|]. by rewrite (Hu Hup).
    + intros _. simpl. unfold mem_txn. simpl. by rewrite lookup_insert_eq.
  - by split_and!.
Qed.

#[global] Program Instance mem_slatedb_laws : SlateDbLaws MemWorld MDb MTxn := {|
    txn_db := mtxn_db;
    txn_ops w t := mt_ops (mem_txn w t)
  |}.
Next Obligation. intros w w' Hw t ? <-. by rewrite Hw. Qed.
Next Obligation.
  intros w d b r w' Hr. by apply (mem_update_spec (fun w => mem_update w d b)).
Qed.
Next Obligation.
  intros w d r w' Hr.
  apply faulty_w_inv in Hr as [(f & a & [= <- <-] & -> & Hu)|(-> & -> & Hu)]; [|by split].
  split; [|done]. intros Hup. split; [done|]. by rewrite (Hu Hup).
Qed.
Next Obligation.
  intros w d level r w' Hr.
  apply faulty_w_inv in Hr as [(f & a & [= <- <-] & -> & Hu)|(-> & -> & Hu)].
  - split_and!; [|done|].
    + intros Hup. split; [|eauto]. by rewrite (Hu Hup).
    + intros t [= <-]. split; [done|]. simpl. unfold mem_txn. simpl.
      by rewrite lookup_insert_eq.
  - split_and!; [done|done|]. by intros.
Qed.
Next Obligation. intros. by apply mem_txn_write_spec. Qed.
Next Obligation. intros. by apply mem_txn_write_spec. Qed.
Next Obligation.
  intros w t r w' Hr.
  by apply (mem_update_spec (fun w => mem_flush (mem_update w (mtxn_db t) (mt_ops (mem_txn w t)))
    (mtxn_db t))).
Qed.

#[global] Instance mem_clock_laws : ClockLaws MemWorld.
Proof. split; done. Qed.
