(* ===== verification/ChunkStore.v ===== *)
(** * Chunk stores (rust/src/chunk_store.rs)

    The trait [ChunkStore], the interface the chunk manager reads through, as
    a class with its laws; its two implementations, over the writing client
    [Db] and over the read-only [DbReader]; and the proof that they keep the
    laws.  The loop that drains a scan is bounded by the number of rows the
    iterator has left, which is enough for it to end. *)

From S2P Require Import Prelude RustStd Error SlateDb.

Definition SCAN_MAX_FETCH_TASKS : Z := 4.

(** ** The trait *)

Class ChunkStore (W S : Type) := {
  cs_get : S -> list byte -> M Error W (option (list byte));
  cs_scan_inclusive :
    S -> list byte -> list byte -> Z -> M Error W (list (list byte * list byte));
  cs_keys_with_prefix : S -> list byte -> M Error W (list (list byte))
}.

(** What the documentation of the trait promises. *)
Class ChunkStoreLaws (W S : Type) `{World W} `{ChunkStore W S} := {
  cs_view : W -> S -> kv;
  cs_view_proper :: Proper ((≡) ==> (=) ==> (=)) cs_view;
  cs_get_spec w s k : reads w (cs_get s k) (fun v => v = cs_view w s !! k);
  cs_scan_inclusive_spec w s first last read_ahead :
    reads w (cs_scan_inclusive s first last read_ahead)
      (fun pairs =>
         StronglySorted bytes_lt pairs.*1 /\
         forall k v, (k, v) ∈ pairs <->
           cs_view w s !! k = Some v /\ bytes_le first k /\ bytes_le k last);
  cs_keys_with_prefix_spec w s prefix :
    reads w (cs_keys_with_prefix s prefix)
      (fun keys =>
         StronglySorted bytes_lt keys /\
         forall k, k ∈ keys <->
           is_Some (cs_view w s !! k) /\ starts_with k prefix = true)
}.

(** ** Reads through a SlateDB client *)

Section client.
Context {W D : Type} `{DbReadOps W D}.

(** [while let Some(kv) = iter.next().await? { acc.push(f(kv)) }]. *)
Fixpoint collect_rows {A} (fuel : nat) (f : KeyValue -> A) (acc : list A)
    : M Error (ScanIter W D * W) (list A) :=
  match fuel with
  | O => lift (Panic "iterator yields more rows than its bound")
  | S fuel =>
      let! o := slate iter_next in
      match o with
      | Some kv => collect_rows fuel f (acc ++ [f kv])
      | None => ret acc
      end
  end.

Definition drain {A} (iter : ScanIter W D) (f : KeyValue -> A) : M Error W (list A) :=
  with_local iter (collect_rows (S (iter_bound iter)) f []).

Definition client_get (db : D) (key : list byte) : M Error W (option (list byte)) :=
  slate (db_get db key).

Definition client_scan_inclusive (db : D) (first last : list byte) (read_ahead : Z)
    : M Error W (list (list byte * list byte)) :=
  let options := {| read_ahead_bytes := read_ahead;
                    max_fetch_tasks := SCAN_MAX_FETCH_TASKS;
                    cache_blocks := true |} in
  let! iter := slate (db_scan_with_options db first last options) in
  drain iter (fun kv => (kv_key kv, kv_value kv)).

Definition client_keys_with_prefix (db : D) (prefix : list byte)
    : M Error W (list (list byte)) :=
  let! iter := slate (db_scan_prefix db prefix) in
  drain iter kv_key.

Context `{World W} `{!DbReadLaws W D}.

Lemma collect_rows_spec {A} (f : KeyValue -> A) fuel acc w0 w it r it' w' :
  (length (iter_rows it) < fuel)%nat -> w ≡ w0 ->
  collect_rows fuel f acc (it, w) = (r, (it', w')) ->
  w' ≡ w0 /\ (up w -> up w' /\ exists l, r = Ok l) /\
  (forall l, r = Ok l -> l = acc ++ (f <$> iter_rows it)).
Proof.
  revert acc w it. induction fuel as [|fuel IH]; intros acc w it Hfuel Hw Hr; [lia|].
  cbn [collect_rows] in Hr. unfold bind, slate in Hr.
  destruct (iter_next (it, w)) as [r1 [it1 w1]] eqn:Hn.
  destruct (iter_next_spec w0 w it r1 it1 w1 Hw Hn) as (Hw1 & Hup & Hrow).
  destruct r1 as [[row|]|e|p]; simpl in Hr.
  - specialize (Hrow _ eq_refl). simpl in Hrow. rewrite Hrow in Hfuel |- *.
    simpl in Hfuel. destruct (IH (acc ++ [f row]) w1 it1 ltac:(lia) Hw1 Hr) as (? & Hup' & Hl).
    split_and!; [done| |].
    + intros [Hu _]%Hup. by apply Hup'.
    + intros l Hok. rewrite (Hl l Hok), fmap_cons, <-app_assoc. done.
  - specialize (Hrow _ eq_refl). simpl in Hrow. rewrite Hrow. unfold ret in Hr.
    simplify_eq. split_and!; [done| |].
    + intros [Hu _]%Hup. eauto.
    + intros l [= <-]. by rewrite app_nil_r.
  - simplify_eq. split_and!; [done| |done]. by intros (_ & ? & ?)%Hup.
  - simplify_eq. split_and!; [done| |done]. by intros (_ & ? & ?)%Hup.
Qed.

Lemma drain_spec {A} w (it : ScanIter W D) (f : KeyValue -> A) :
  reads w (drain it f) (fun l => l = f <$> iter_rows it).
Proof.
  intros w1 r w' Hw Hr. unfold drain, with_local in Hr.
  destruct (collect_rows _ f [] (it, w1)) as [r1 [it1 w2]] eqn:Hc. simplify_eq.
  eapply collect_rows_spec in Hc; [|pose proof (iter_rows_bound it); lia|done].
  destruct Hc as (? & ? & Hl). by split_and!.
Qed.

Lemma client_get_spec w db k : reads w (client_get db k) (fun v => v = db_view w db !! k).
Proof. apply reads_slate, db_get_spec. Qed.

Lemma client_scan_inclusive_spec w db first last n :
  reads w (client_scan_inclusive db first last n)
  (fun pairs =>
  StronglySorted bytes_lt pairs.*1 /\
  forall k v, (k, v) ∈ pairs <->
  db_view w db !! k = Some v /\ bytes_le first k /\ bytes_le k last).
Proof.
  eapply reads_bind; [apply reads_slate, db_scan_spec|]. intros it [Hs Hel].
  eapply reads_mono; [apply drain_spec|]. intros pairs ->. split.
  - rewrite <-list_fmap_compose. exact Hs.
  - intros k v. rewrite <-Hel, list_elem_of_fmap. split.
    + intros ([k' v'] & [= -> ->] & Hin). done.
    + intros Hin. by exists {| kv_key := k; kv_value := v |}.
Qed.

Lemma client_keys_with_prefix_spec w db prefix :
  reads w (client_keys_with_prefix db prefix)
  (fun keys =>
  StronglySorted bytes_lt keys /\
  forall k, k ∈ keys <->
  is_Some (db_view w db !! k) /\ starts_with k prefix = true).
Proof.
  eapply reads_bind; [apply reads_slate, db_scan_prefix_spec|]. intros it [Hs Hel].
  eapply reads_mono; [apply drain_spec|]. intros keys ->. split; [done|].
  intros k. rewrite list_elem_of_fmap. split.
  - intros ([k' v'] & -> & Hin). apply Hel in Hin as [Hv ?]. split; [by eexists|done].
  - intros [[v Hv] Hk]. exists {| kv_key := k; kv_value := v |}.
    split; [done|]. by apply Hel.
Qed.
End client.

(** ** The implementations *)

Record SlateDbChunkStore (Db : Type) := { store_db : Db }.
Arguments store_db {Db}.
Arguments Build_SlateDbChunkStore {Db}.
Record SlateDbReaderChunkStore (Reader : Type) := { store_reader : Reader }.
Arguments store_reader {Reader}.
Arguments Build_SlateDbReaderChunkStore {Reader}.

#[global] Instance slatedb_chunk_store {W Db} `{DbReadOps W Db}
    : ChunkStore W (SlateDbChunkStore Db) := {|
    cs_get self := client_get (store_db self);
    cs_scan_inclusive self := client_scan_inclusive (store_db self);
    cs_keys_with_prefix self := client_keys_with_prefix (store_db self)
  |}.

#[global] Instance slatedb_reader_chunk_store {W Reader} `{DbReadOps W Reader}
    : ChunkStore W (SlateDbReaderChunkStore Reader) := {|
    cs_get self := client_get (store_reader self);
    cs_scan_inclusive self := client_scan_inclusive (store_reader self);
    cs_keys_with_prefix self := client_keys_with_prefix (store_reader self)
  |}.

#[global] Instance slatedb_chunk_store_laws {W Db} `{World W} `{DbReadOps W Db}
    `{!DbReadLaws W Db} : ChunkStoreLaws W (SlateDbChunkStore Db).
Proof.
  refine {| cs_view w s := db_view w (store_db s) |}.
  - intros w w' Hw s ? <-. by apply db_view_proper.
  - intros. apply client_get_spec.
  - intros. apply client_scan_inclusive_spec.
  - intros. apply client_keys_with_prefix_spec.
Defined.

#[global] Instance slatedb_reader_chunk_store_laws {W Reader} `{World W}
    `{DbReadOps W Reader} `{!DbReadLaws W Reader}
  : ChunkStoreLaws W (SlateDbReaderChunkStore Reader).
Proof.
  refine {| cs_view w s := db_view w (store_reader s) |}.
  - intros w w' Hw s ? <-. by apply db_view_proper.
  - intros. apply client_get_spec.
  - intros. apply client_scan_inclusive_spec.
  - intros. apply client_keys_with_prefix_spec.
Defined.

(** [Arc<dyn ChunkStore>] holds either implementation. *)
Inductive DynChunkStore (S1 S2 : Type) :=
  | DynLeft (s : S1)
  | DynRight (s : S2).
Arguments DynLeft {S1 S2}.
Arguments DynRight {S1 S2}.

#[global] Instance dyn_chunk_store {W S1 S2} `{ChunkStore W S1} `{ChunkStore W S2}
    : ChunkStore W (DynChunkStore S1 S2) := {|
    cs_get self := match self with DynLeft s => cs_get s | DynRight s => cs_get s end;
    cs_scan_inclusive self :=
      match self with
      | DynLeft s => cs_scan_inclusive s
      | DynRight s => cs_scan_inclusive s
      end;
    cs_keys_with_prefix self :=
      match self with
      | DynLeft s => cs_keys_with_prefix s
      | DynRight s => cs_keys_with_prefix s
      end
  |}.

#[global] Instance dyn_chunk_store_laws {W S1 S2} `{World W} `{ChunkStore W S1}
    `{ChunkStore W S2} `{!ChunkStoreLaws W S1} `{!ChunkStoreLaws W S2}
  : ChunkStoreLaws W (DynChunkStore S1 S2).
Proof.
  refine {| cs_view w s :=
              match s with DynLeft s => cs_view w s | DynRight s => cs_view w s end |}.
  - intros w w' Hw s ? <-. by destruct s; apply cs_view_proper.
  - intros w [s|s]; exact (cs_get_spec w s).
  - intros w [s|s]; exact (cs_scan_inclusive_spec w s).
  - intros w [s|s]; exact (cs_keys_with_prefix_spec w s).
Defined.
