(* ===== verification/ChunkLayout.v ===== *)
(** * Chunk layout: [split_into_chunks] of rust/src/chunk_manager.rs

    A file is cut at [chunk_base_offset + k * chunk_size]; chunk 0 holds the
    bytes before the base offset when there are any.  The specification is
    arithmetic, [chunk_of] and [off_of]; the theorems say that the loop ends
    within one iteration per byte, and that its slices tile the range. *)

From S2P Require Import Prelude.

Record ChunkSlice := {
  chunk_idx : Z;
  buf_offset : Z;
  chunk_offset : Z;
  slice_len : Z
}.

Section layout.
Context (chunk_size chunk_base_offset : Z).

(** The chunk of a position, the offset in it, and the bytes from there to
    the end of the chunk. *)
Definition locate {E} (position : Z) : res E (Z * Z * Z) :=
  if position <? chunk_base_offset then
    Ok (0, position, chunk_base_offset - position)
  else
    let aligned := position - chunk_base_offset in
    if chunk_size =? 0 then
      Panic "attempt to calculate the remainder with a divisor of zero"
    else
      let off := aligned mod chunk_size in
      Ok (wrap64 (aligned / chunk_size + (if chunk_base_offset =? 0 then 0 else 1)),
          off, chunk_size - off).

(** The loop [while covered < len]; one unit of fuel per iteration. *)
Fixpoint split_loop {E} (fuel : nat) (len offset covered : Z) (slices : list ChunkSlice)
    : res E (list ChunkSlice) :=
  if covered <? len then
    match fuel with
    | O => Panic "split_into_chunks: out of fuel"
    | S fuel =>
        let position := wrap64 (offset + covered) in
        let? (idx, off, available) := locate position in
        let n := Z.min (len - covered) available in
        split_loop fuel len offset (covered + n)
          (slices ++ [{| chunk_idx := idx; buf_offset := covered;
                         chunk_offset := off; slice_len := n |}])
    end
  else Ok slices.

Definition split_into_chunks {E} (len offset : Z) : res E (list ChunkSlice) :=
  split_loop (Z.to_nat len) len offset 0 [].

(** ** Specification *)

(** What [validated_chunk_size] guarantees. *)
Record wf_layout : Prop := {
  wf_size : 0 < chunk_size < 2 ^ 64;
  wf_base : 0 <= chunk_base_offset < chunk_size
}.

Definition capacity (i : Z) : Z :=
  if (i =? 0) && negb (chunk_base_offset =? 0) then chunk_base_offset else chunk_size.
Definition chunk_start (i : Z) : Z :=
  if chunk_base_offset =? 0 then i * chunk_size
  else if i =? 0 then 0 else chunk_base_offset + (i - 1) * chunk_size.
Definition chunk_of (p : Z) : Z :=
  if p <? chunk_base_offset then 0
  else (p - chunk_base_offset) / chunk_size + (if chunk_base_offset =? 0 then 0 else 1).
Definition off_of (p : Z) : Z :=
  if p <? chunk_base_offset then p else (p - chunk_base_offset) mod chunk_size.

(** The slices cover [covered .. len] of the buffer one after the other. *)
Fixpoint tiles (offset covered len : Z) (l : list ChunkSlice) : Prop :=
  match l with
  | [] => covered = len
  | s :: l =>
      buf_offset s = covered /\
      chunk_idx s = chunk_of (offset + covered) /\
      chunk_offset s = off_of (offset + covered) /\
      slice_len s =
      Z.min (len - covered) (capacity (chunk_idx s) - off_of (offset + covered)) /\
      0 < slice_len s /\
      tiles offset (covered + slice_len s) len l
  end.

Context (Hwf : wf_layout).

Lemma capacity_pos i : 0 < capacity i.
Proof.
  destruct Hwf. unfold capacity.
  destruct (Z.eqb_spec i 0), (Z.eqb_spec chunk_base_offset 0); simpl; lia.
Qed.

Lemma capacity_le i : capacity i <= chunk_size.
Proof. destruct Hwf. unfold capacity. destruct (_ && _); lia. Qed.

Lemma chunk_start_succ i : 0 <= i -> chunk_start (i + 1) = chunk_start i + capacity i.
Proof.
  intros Hi. unfold chunk_start, capacity.
  destruct (Z.eqb_spec chunk_base_offset 0); simpl.
  { rewrite andb_false_r. lia. }
  destruct (Z.eqb_spec (i + 1) 0); [lia|]. destruct (Z.eqb_spec i 0); simpl; lia.
Qed.

Lemma chunk_start_mono i j : 0 <= i -> i <= j -> chunk_start i <= chunk_start j.
Proof.
  intros Hi Hj. replace j with (i + Z.of_nat (Z.to_nat (j - i))) by lia.
  generalize (Z.to_nat (j - i)) as n. clear j Hj.
  induction n as [|n IH]; [rewrite Z.add_0_r; lia|].
  rewrite Nat2Z.inj_succ. replace (i + Z.succ (Z.of_nat n)) with (i + Z.of_nat n + 1) by lia.
  rewrite chunk_start_succ by lia. pose proof (capacity_pos (i + Z.of_nat n)). lia.
Qed.

(** Every position is in exactly one chunk. *)
Lemma position_split p :
  0 <= p ->
  0 <= chunk_of p /\ 0 <= off_of p < capacity (chunk_of p) /\
  p = chunk_start (chunk_of p) + off_of p.
Proof.
  intros Hp. destruct Hwf as [Hs Hb]. unfold chunk_of, off_of.
  destruct (Z.ltb_spec p chunk_base_offset).
  { unfold capacity, chunk_start. simpl.
    destruct (Z.eqb_spec chunk_base_offset 0); simpl; lia. }
  set (a := p - chunk_base_offset).
  assert (0 <= a / chunk_size) by (apply Z.div_pos; lia).
  pose proof (Z.mod_pos_bound a chunk_size ltac:(lia)).
  pose proof (Z.div_mod a chunk_size ltac:(lia)).
  unfold capacity, chunk_start. destruct (Z.eqb_spec chunk_base_offset 0); simpl.
  - rewrite andb_false_r, Z.add_0_r. lia.
  - destruct (Z.eqb_spec (a / chunk_size + 1) 0); simpl; lia.
Qed.

Lemma position_unique i o :
  0 <= i -> 0 <= o < capacity i ->
  chunk_of (chunk_start i + o) = i /\ off_of (chunk_start i + o) = o.
Proof.
  intros Hi Ho. set (p := chunk_start i + o).
  assert (Hp : 0 <= p).
  { pose proof (chunk_start_mono 0 i ltac:(lia) Hi) as Hm.
    replace (chunk_start 0) with 0 in Hm
      by (unfold chunk_start; destruct (_ =? _); simpl; lia). lia. }
  destruct (position_split p Hp) as (Hc & Hof & Heq).
  destruct (Z.lt_trichotomy (chunk_of p) i) as [Hlt|[He|Hgt]].
  - pose proof (chunk_start_mono (chunk_of p + 1) i ltac:(lia) ltac:(lia)) as Hm.
    rewrite chunk_start_succ in Hm by lia. lia.
  - rewrite He in *. lia.
  - pose proof (chunk_start_mono (i + 1) (chunk_of p) ltac:(lia) ltac:(lia)) as Hm.
    rewrite chunk_start_succ in Hm by lia. lia.
Qed.

Lemma position_inj p q :
  0 <= p -> 0 <= q -> chunk_of p = chunk_of q -> off_of p = off_of q -> p = q.
Proof.
  intros Hp Hq Hc Ho. destruct (position_split p Hp) as (_ & _ & ->).
  destruct (position_split q Hq) as (_ & _ & ->). by rewrite Hc, Ho.
Qed.

Lemma position_add p d :
  0 <= p -> 0 <= d -> off_of p + d < capacity (chunk_of p) ->
  chunk_of (p + d) = chunk_of p /\ off_of (p + d) = off_of p + d.
Proof.
  intros Hp Hd Hc. destruct (position_split p Hp) as (H1 & H2 & H3).
  rewrite H3 at 1 3. rewrite <-Z.add_assoc. apply position_unique; lia.
Qed.

Lemma position_next p :
  0 <= p ->
  chunk_of (p + (capacity (chunk_of p) - off_of p)) = chunk_of p + 1 /\
  off_of (p + (capacity (chunk_of p) - off_of p)) = 0.
Proof.
  intros Hp. destruct (position_split p Hp) as (H1 & H2 & H3).
  replace (p + (capacity (chunk_of p) - off_of p)) with (chunk_start (chunk_of p + 1) + 0)
    by (rewrite chunk_start_succ by lia; lia).
  apply position_unique; [lia|]. pose proof (capacity_pos (chunk_of p + 1)). lia.
Qed.

Lemma chunk_of_mono p q : 0 <= p -> p <= q -> chunk_of p <= chunk_of q.
Proof.
  intros Hp Hq. destruct (position_split p Hp) as (? & ? & ?).
  destruct (position_split q ltac:(lia)) as (? & ? & ?).
  destruct (Z.le_gt_cases (chunk_of p) (chunk_of q)) as [|Hgt]; [done|].
  pose proof (chunk_start_mono (chunk_of q + 1) (chunk_of p) ltac:(lia) ltac:(lia)) as Hm.
  rewrite chunk_start_succ in Hm by lia. lia.
Qed.

Lemma off_of_lt p q :
  0 <= p -> 0 <= q -> chunk_of p = chunk_of q -> (off_of p < off_of q <-> p < q).
Proof.
  intros Hp Hq Hc. destruct (position_split p Hp) as (_ & _ & ?).
  destruct (position_split q Hq) as (_ & _ & ?). rewrite Hc in *. lia.
Qed.

(** Chunk indices of u64 positions are u64: the increment cannot overflow. *)
Lemma chunk_of_u64 p : is_u64 p -> is_u64 (chunk_of p).
Proof.
  intros [Hp Hp']. destruct Hwf as [Hs Hb]. split; [by apply position_split|].
  unfold chunk_of. destruct (Z.ltb_spec p chunk_base_offset); [lia|].
  destruct (Z.eqb_spec chunk_base_offset 0).
  - rewrite Z.add_0_r. apply Z.div_lt_upper_bound; nia.
  - assert ((p - chunk_base_offset) / chunk_size < 2 ^ 63); [|lia].
    apply Z.div_lt_upper_bound; lia.
Qed.

Lemma chunk_of_next_u64 p : 0 <= p < u64_max -> is_u64 (chunk_of p + 1).
Proof.
  unfold u64_max. intros Hp. destruct (chunk_of_u64 p) as [Hc _]; [split; lia|].
  destruct Hwf as [Hs Hb]. split; [lia|].
  unfold chunk_of. destruct (Z.ltb_spec p chunk_base_offset); [lia|].
  destruct (Z.eqb_spec chunk_base_offset 0).
  - assert ((p - chunk_base_offset) / chunk_size <= p - chunk_base_offset); [|lia].
    apply Z.div_le_upper_bound; nia.
  - assert ((p - chunk_base_offset) / chunk_size < 2 ^ 63); [|lia].
    apply Z.div_lt_upper_bound; lia.
Qed.

Lemma locate_spec {E} p :
  is_u64 p ->
  locate (E:=E) p = Ok (chunk_of p, off_of p, capacity (chunk_of p) - off_of p).
Proof.
  intros Hp. pose proof (chunk_of_u64 p Hp) as Hc.
  destruct Hwf as [Hs Hb], Hp as [Hp Hp']. unfold locate.
  destruct (Z.ltb_spec p chunk_base_offset).
  - unfold chunk_of, off_of, capacity. destruct (Z.ltb_spec p chunk_base_offset); [|lia].
    simpl. by destruct (Z.eqb_spec chunk_base_offset 0); [lia|].
  - destruct (Z.eqb_spec chunk_size 0); [lia|].
    unfold chunk_of, off_of, capacity in *.
    destruct (Z.ltb_spec p chunk_base_offset); [lia|].
    rewrite wrap64_small by done.
    destruct (Z.eqb_spec chunk_base_offset 0); simpl; [by rewrite andb_false_r|].
    assert (0 <= (p - chunk_base_offset) / chunk_size) by (apply Z.div_pos; lia).
    by destruct (Z.eqb_spec ((p - chunk_base_offset) / chunk_size + 1) 0); [lia|].
Qed.

(** ** The loop *)

Lemma split_loop_spec {E} fuel len offset covered acc :
  0 <= offset -> offset + len <= 2 ^ 64 -> 0 <= covered <= len ->
  len - covered <= Z.of_nat fuel ->
  exists l, split_loop (E:=E) fuel len offset covered acc = Ok (acc ++ l) /\
    tiles offset covered len l.
Proof.
  intros Ho Hlen. revert covered acc.
  induction fuel as [|fuel IH]; intros covered acc Hcov Hfuel; cbn [split_loop];
    destruct (Z.ltb_spec covered len) as [Hlt|Hge]; try lia.
  - exists []. rewrite app_nil_r. split; [done|]. simpl. lia.
  - rewrite wrap64_small by (unfold is_u64; lia).
    rewrite locate_spec by (unfold is_u64; lia). cbn [res_bind].
    destruct (position_split (offset + covered) ltac:(lia)) as (? & ? & ?).
    set (n := Z.min (len - covered)
      (capacity (chunk_of (offset + covered)) - off_of (offset + covered))).
    destruct (IH (covered + n) (acc ++ [{| chunk_idx := chunk_of (offset + covered);
      buf_offset := covered; chunk_offset := off_of (offset + covered); slice_len := n |}]))
      as (l & Hl & Htl); [lia|lia|].
    eexists (_ :: l). rewrite Hl, <-app_assoc. split; [done|].
    cbn [tiles buf_offset chunk_idx chunk_offset slice_len]. split_and!; [done..|lia|done].
  - exists []. rewrite app_nil_r. split; [done|]. simpl. lia.
Qed.

Lemma split_tiles {E} len offset :
  0 <= len -> 0 <= offset -> offset + len <= 2 ^ 64 ->
  exists l, split_into_chunks (E:=E) len offset = Ok l /\ tiles offset 0 len l.
Proof.
  intros. destruct (split_loop_spec (E:=E) (Z.to_nat len) len offset 0 [])
    as (l & Hl & Ht); try lia. by exists l.
Qed.

(** ** Consequences of tiling *)

Record slice_ok (offset len : Z) (s : ChunkSlice) : Prop := {
  slice_lo : 0 <= buf_offset s;
  slice_hi : buf_offset s + slice_len s <= len;
  slice_pos : 0 < slice_len s;
  slice_idx : chunk_idx s = chunk_of (offset + buf_offset s);
  slice_off : chunk_offset s = off_of (offset + buf_offset s);
  slice_cap : chunk_offset s + slice_len s <= capacity (chunk_idx s)
}.

Lemma tiles_bounds offset covered len l : tiles offset covered len l -> covered <= len.
Proof.
  revert covered. induction l as [|s l IH]; intros covered; simpl; [lia|].
  intros (_ & _ & _ & _ & ? & Ht). apply IH in Ht. lia.
Qed.

Lemma tiles_slice offset covered len l s :
  0 <= covered -> tiles offset covered len l -> s ∈ l ->
  slice_ok offset len s /\ covered <= buf_offset s.
Proof.
  revert covered. induction l as [|t l IH]; intros covered Hcov Ht Hs.
  { by apply not_elem_of_nil in Hs. }
  destruct Ht as (Hb & Hi & Hof & Hl & Hpos & Ht).
  apply elem_of_cons in Hs as [->|Hs].
  - pose proof (tiles_bounds _ _ _ _ Ht). split; [|lia].
    split; rewrite ?Hb; try done; lia.
  - destruct (IH (covered + slice_len t)) as [? ?]; try done; [lia|]. split; [done|lia].
Qed.

Lemma tiles_cover offset covered len l j :
  tiles offset covered len l -> covered <= j < len ->
  exists s, s ∈ l /\ buf_offset s <= j < buf_offset s + slice_len s.
Proof.
  revert covered. induction l as [|t l IH]; intros covered Ht Hj; [simpl in Ht; lia|].
  destruct Ht as (Hb & _ & _ & _ & _ & Ht).
  destruct (decide (j < covered + slice_len t)).
  - exists t. split; [by left|lia].
  - destruct (IH _ Ht ltac:(lia)) as (s & Hs & ?). exists s. split; [by right|done].
Qed.

(** Positions inside a slice are in its chunk, at consecutive offsets. *)
Lemma slice_position offset len s j :
  0 <= offset -> slice_ok offset len s -> buf_offset s <= j < buf_offset s + slice_len s ->
  chunk_of (offset + j) = chunk_idx s /\
  off_of (offset + j) = chunk_offset s + (j - buf_offset s).
Proof.
  intros Ho [Hlo Hhi Hpos Hi Hof Hcap] Hj. rewrite Hi, Hof in *.
  replace (offset + j) with (offset + buf_offset s + (j - buf_offset s)) by lia.
  apply position_add; lia.
Qed.

Lemma tiles_next offset covered len s t l :
  0 <= offset -> 0 <= covered -> tiles offset covered len (s :: t :: l) ->
  chunk_idx t = chunk_idx s + 1 /\ chunk_offset t = 0.
Proof.
  intros Ho Hcov (Hb & Hi & _ & Hl & _ & _ & Hi' & Hof' & _ & Hpos' & Ht).
  apply tiles_bounds in Ht.
  replace (slice_len s) with (capacity (chunk_idx s) - off_of (offset + covered))
    in Hi', Hof' by lia.
  rewrite Z.add_assoc, Hi in Hi', Hof'.
  destruct (position_next (offset + covered) ltac:(lia)) as [H1 H2].
  rewrite Hi', Hof', Hi. done.
Qed.

(** Consecutive slices are in consecutive chunks. *)
Lemma tiles_indices offset covered len l :
  0 <= offset -> 0 <= covered -> tiles offset covered len l ->
  chunk_idx <$> l = seqZ (chunk_of (offset + covered)) (zlen l).
Proof.
  revert covered. induction l as [|s l IH]; intros covered Ho Hcov Ht; [done|].
  pose proof Ht as (Hb & Hi & _ & _ & Hpos & Ht').
  rewrite fmap_cons. unfold zlen. cbn [length].
  rewrite (seqZ_cons _ (Z.of_nat (S (length l)))) by lia.
  rewrite <-Hi. f_equal. destruct l as [|t l]; [done|].
  rewrite (IH (covered + slice_len s) Ho ltac:(lia) Ht').
  destruct (tiles_next _ _ _ _ _ _ Ho Hcov Ht) as [Hn _].
  destruct Ht' as (_ & Hti & _). unfold zlen. f_equal; [unfold Z.succ; congruence|simpl length; lia].
Qed.

Lemma tiles_indices_NoDup offset covered len l :
  0 <= offset -> 0 <= covered -> tiles offset covered len l -> NoDup (chunk_idx <$> l).
Proof. intros Ho Hc Ht. rewrite (tiles_indices _ _ _ _ Ho Hc Ht). apply NoDup_seqZ. Qed.

Lemma tiles_indices_u64 offset len l s :
  0 <= offset -> offset + len <= 2 ^ 64 -> tiles offset 0 len l -> s ∈ l ->
  is_u64 (chunk_idx s).
Proof.
  intros Ho Hlen Ht Hs. destruct (tiles_slice _ _ _ _ _ (Z.le_refl 0) Ht Hs) as [[] _].
  rewrite slice_idx0. apply chunk_of_u64. unfold is_u64. lia.
Qed.

(** Only the first slice can start inside its chunk. *)
Lemma tiles_tail_offset offset covered len s l t :
  0 <= offset -> 0 <= covered -> tiles offset covered len (s :: l) -> t ∈ l ->
  chunk_offset t = 0.
Proof.
  revert covered s. induction l as [|u l IH]; intros covered s Ho Hcov Ht Hin.
  { by apply not_elem_of_nil in Hin. }
  pose proof (tiles_next _ _ _ _ _ _ Ho Hcov Ht) as [_ Hu].
  apply elem_of_cons in Hin as [->|Hin]; [done|].
  destruct Ht as (_ & _ & _ & _ & ? & Ht). eapply IH; [done| |done|done]. lia.
Qed.

Lemma tiles_head offset covered len l :
  tiles offset covered len l -> covered < len ->
  exists s l', l = s :: l' /\ buf_offset s = covered /\
  chunk_idx s = chunk_of (offset + covered) /\ chunk_offset s = off_of (offset + covered).
Proof. destruct l as [|s l]; simpl; [lia|]. intros (? & ? & ? & _) _. eauto 6. Qed.
End layout.
