(* ===== verification/ChunkManager.v ===== *)
(** * The chunk manager (rust/src/chunk_manager.rs): state and operations

    A [ChunkManager] maps the bytes of one file to chunks of a SlateDB and
    stages changes in [pending] until a sync.  This file holds its definitions; the
    theorems are in ChunkManagerSpec.v. *)

From S2P Require Import Prelude RustStd Error Keys SlateDb ChunkStore ChunkLayout.


Definition MAX_SCAN_READ_AHEAD_BYTES : Z := 4 * 1024 * 1024.

Inductive PendingChunk :=
  | Written (chunk : list byte)
  | Deleted.

Record ChunkManager (S : Type) := {
  store : S;
  file_id : Z;
  chunk_size : Z;
  chunk_base_offset : Z;
  (** A [BTreeMap]. *)
  pending : gmap Z PendingChunk
}.
Arguments store {S}. Arguments file_id {S}. Arguments chunk_size {S}.
Arguments chunk_base_offset {S}. Arguments pending {S}.
Arguments Build_ChunkManager {S}.

(** ** Free functions *)

Definition scan_read_ahead_bytes (first last chunk_size : Z) : Z :=
  let chunk_count := saturating_add (saturating_sub last first) 1 in
  Z.max 1 (Z.min (saturating_mul chunk_count chunk_size) MAX_SCAN_READ_AHEAD_BYTES).

(** Copy the part of [chunk] that [slice] selects into [buf]. *)
Definition copy_chunk_into (buf : list byte) (slice : ChunkSlice) (chunk : list byte)
    : Result (list byte) :=
  let available :=
    Z.min (saturating_sub (zlen chunk) (chunk_offset slice)) (slice_len slice) in
  let dst := buf_offset slice in
  let? _ := slice_range buf dst (dst + available) in
  let? src := slice_range chunk (chunk_offset slice) (chunk_offset slice + available) in
  copy_from_slice buf dst (dst + available) src.

(** One step of the loop: extend the last group or open a new one. *)
Definition coalesce_step (groups : list (Z * Z)) (chunk_idx : Z) : list (Z * Z) :=
  match last groups with
  | Some (first, last_idx) =>
      if bool_decide (checked_add last_idx 1 = Some chunk_idx)
      then take (pred (length groups)) groups ++ [(first, chunk_idx)]
      else groups ++ [(chunk_idx, chunk_idx)]
  | None => groups ++ [(chunk_idx, chunk_idx)]
  end.
Definition coalesce_chunk_indices (chunk_indices : list Z) : list (Z * Z) :=
  foldl coalesce_step [] chunk_indices.

Definition display_parse_int_error (e : parse_int_error) : string :=
  match e with
  | EmptyInput => "cannot parse integer from empty string"
  | InvalidDigit => "invalid digit found in string"
  | PosOverflow => "number too large to fit in target type"
  end.

(** The text of the standard library's [Utf8Error] is not modelled. *)
Definition parse_chunk_idx (key : list byte) : Result Z :=
  if utf8_valid key then
    let? chunk_idx :=
      ok_or (metadata_decode unknown_location ("invalid chunk key: " +:+ text key))
        (rsplit_next key byte_slash) in
    match u64_from_str_radix16 chunk_idx with
    | inr idx => Ok idx
    | inl src =>
        raise (metadata_decode_with_source unknown_location
               ("invalid chunk index in key: " +:+ text key) (display_parse_int_error src))
    end
  else raise (metadata_decode_with_source unknown_location
              "chunk key is not valid utf-8" "invalid utf-8 sequence").

(** The entries of a [BTreeMap<u64, _>] in key order. *)
Definition entry_le {A} (p q : Z * A) : Prop := p.1 <= q.1.
#[global] Instance entry_le_dec {A} : RelDecision (@entry_le A).
Proof. intros p q. unfold entry_le. apply _. Defined.
Definition btree_entries {A} (m : gmap Z A) : list (Z * A) :=
  merge_sort entry_le (map_to_list m).

(** ** The manager *)

Section manager.
Context {W S : Type} `{ChunkStore W S}.

Definition new (store : S) (file_id chunk_size chunk_base_offset : Z) : ChunkManager S :=
  {| store := store; file_id := file_id; chunk_size := chunk_size;
     chunk_base_offset := chunk_base_offset; pending := ∅ |}.

Definition set_pending (self : ChunkManager S) (p : gmap Z PendingChunk)
    : ChunkManager S :=
  {| store := store self; file_id := file_id self; chunk_size := chunk_size self;
     chunk_base_offset := chunk_base_offset self; pending := p |}.

Definition has_pending_changes (self : ChunkManager S) : bool :=
  negb (bool_decide (pending self = ∅)).

Definition split_into_chunks (self : ChunkManager S) (len offset : Z)
    : Result (list ChunkSlice) :=
  ChunkLayout.split_into_chunks (chunk_size self) (chunk_base_offset self) len offset.

Definition read_chunk_from_store (self : ChunkManager S) (chunk_idx : Z)
    : M Error W (list byte) :=
  let key := chunk_key (file_id self) chunk_idx in
  let! chunk := cs_get (store self) key in
  ret (default [] chunk).

(** The staged write if any, else what is stored. *)
Definition chunk_contents (self : ChunkManager S) (chunk_idx : Z)
    : M Error W (list byte) :=
  match pending self !! chunk_idx with
  | Some (Written chunk) => ret chunk
  | Some Deleted => ret []
  | None => read_chunk_from_store self chunk_idx
  end.

Definition read_chunk_group_from_store (self : ChunkManager S) (group : Z * Z)
    : M Error W (list (Z * list byte)) :=
  let '(first, last) := group in
  if first =? last then
    let! chunk := cs_get (store self) (chunk_key (file_id self) first) in
    ret (match chunk with Some chunk => [(first, chunk)] | None => [] end)
  else
    let read_ahead := scan_read_ahead_bytes first last (chunk_size self) in
    let! scanned := cs_scan_inclusive (store self) (chunk_key (file_id self) first)
      (chunk_key (file_id self) last) read_ahead in
    lift (map_res scanned (fun '(key, chunk) =>
      let? idx := parse_chunk_idx key in Ok (idx, chunk))).

(** The groups are fetched one after the other; [try_join_all] interleaves
    them, which the reads cannot tell apart. *)
Definition read_chunks_from_store (self : ChunkManager S) (chunk_indices : list Z)
    : M Error W (gmap Z (list byte)) :=
  if bool_decide (chunk_indices = []) then ret ∅
  else
    let groups := coalesce_chunk_indices chunk_indices in
    let! fetched := map_m groups (read_chunk_group_from_store self) in
    ret (foldl (fun m p => <[p.1 := p.2]> m) ∅ (concat fetched)).

(** The loop over [keys] in [collect_persisted_chunk_indices]. *)
Fixpoint select_indices (min_chunk_idx : Z) (keys : list (list byte)) (acc : list Z)
    : Result (list Z) :=
  match keys with
  | [] => Ok acc
  | key :: keys =>
      let? idx := parse_chunk_idx key in
      select_indices min_chunk_idx keys (if min_chunk_idx <=? idx then acc ++ [idx] else acc)
  end.

Definition collect_persisted_chunk_indices (self : ChunkManager S) (min_chunk_idx : Z)
    : M Error W (list Z) :=
  let! keys := cs_keys_with_prefix (store self) (chunk_prefix (file_id self)) in
  lift (select_indices min_chunk_idx keys []).

Definition mark_chunks_deleted (self : ChunkManager S) (chunk_indices : list Z)
    : ChunkManager S :=
  set_pending self (foldl (fun m i => <[i := Deleted]> m) (pending self) chunk_indices).

(** *** read *)

(** The first loop of [read]: copy staged chunks, keep the other slices. *)
Fixpoint read_pending (self : ChunkManager S) (slices persisted : list ChunkSlice)
    : M Error (list byte) (list ChunkSlice) :=
  match slices with
  | [] => ret persisted
  | slice :: slices =>
      match pending self !! chunk_idx slice with
      | Some (Written chunk) =>
          let! _ := update (fun buf => copy_chunk_into buf slice chunk) in
          read_pending self slices persisted
      | Some Deleted => read_pending self slices persisted
      | None => read_pending self slices (persisted ++ [slice])
      end
  end.

Definition copy_persisted (chunks : gmap Z (list byte)) (slice : ChunkSlice)
    : M Error (list byte) unit :=
  match chunks !! chunk_idx slice with
  | Some chunk => update (fun buf => copy_chunk_into buf slice chunk)
  | None => ret tt
  end.

(** The state is the caller's buffer and the world. *)
Definition read (self : ChunkManager S) (offset : Z) : M Error (list byte * W) unit :=
  let! _ := on_fst (modify (fun buf => zeros (zlen buf))) in
  let! buf := on_fst get_state in
  let! slices := lift (split_into_chunks self (zlen buf) offset) in
  let! persisted := on_fst (read_pending self slices []) in
  let! chunks := on_snd (read_chunks_from_store self (chunk_idx <$> persisted)) in
  on_fst (for_each persisted (copy_persisted chunks)).

(** *** write *)

(** The body of the loop of [write]: the new contents of one chunk. *)
Definition write_slice (data : list byte) (slice : ChunkSlice)
    : M Error (ChunkManager S * W) unit :=
  let! self := on_fst get_state in
  let required_len := chunk_offset slice + slice_len slice in
  let! chunk :=
    if (chunk_offset slice =? 0) && (slice_len slice =? chunk_size self)
    then ret (zeros (chunk_size self))
    else on_snd (chunk_contents self (chunk_idx slice)) in
  let chunk := if zlen chunk <? required_len then vec_resize chunk required_len else chunk in
  let! src := lift (slice_range data (buf_offset slice) (buf_offset slice + slice_len slice)) in
  let! chunk := lift (copy_from_slice chunk (chunk_offset slice) required_len src) in
  on_fst (put_state (set_pending self (<[chunk_idx slice := Written chunk]> (pending self)))).

(** The state is the manager and the world. *)
Definition write (data : list byte) (offset : Z) : M Error (ChunkManager S * W) unit :=
  let! self := on_fst get_state in
  let! slices := lift (split_into_chunks self (zlen data) offset) in
  for_each slices (write_slice data).

(** *** truncate *)

Definition truncate (new_size : Z) : M Error (ChunkManager S * W) unit :=
  let! self := on_fst get_state in
  if new_size =? 0 then
    let! chunks_to_delete := on_snd (collect_persisted_chunk_indices self 0) in
    on_fst (put_state (mark_chunks_deleted (set_pending self ∅) chunks_to_delete))
  else
    let! slices := lift (split_into_chunks self 1 (new_size - 1)) in
    let! last_byte := lift (match slices with
                            | [] => Panic "index out of bounds"
                            | s :: _ => Ok s
                            end) in
    let last_chunk := chunk_idx last_byte in
    let last_len := chunk_offset last_byte + 1 in
    let! shortened_last_chunk :=
      match pending self !! last_chunk with
      | Some _ => ret None
      | None =>
          let! persisted := on_snd (read_chunk_from_store self last_chunk) in
          ret (if last_len <? zlen persisted then Some (vec_truncate persisted last_len)
               else None)
      end in
    let! chunks_to_delete :=
      on_snd (collect_persisted_chunk_indices self (wrap64 (last_chunk + 1))) in
    let retained := filter (fun p => p.1 <= last_chunk) (pending self) in
    let shortened :=
      match retained !! last_chunk with
      | Some (Written chunk) =>
          if last_len <? zlen chunk
          then <[last_chunk := Written (vec_truncate chunk last_len)]> retained
          else retained
      | _ =>
          match shortened_last_chunk with
          | Some chunk => <[last_chunk := Written chunk]> retained
          | None => retained
          end
      end in
    on_fst (put_state (mark_chunks_deleted (set_pending self shortened) chunks_to_delete)).

(** *** flushing *)

Definition pending_op (file_id : Z) (entry : Z * PendingChunk) : WriteOp :=
  let key := chunk_key file_id entry.1 in
  match entry.2 with
  | Written chunk => Put key chunk
  | Deleted => Delete key
  end.

Definition add_pending_to_batch (self : ChunkManager S) (batch : WriteBatch) : WriteBatch :=
  batch ++ (pending_op (file_id self) <$> btree_entries (pending self)).

Definition mark_flushed (self : ChunkManager S) : ChunkManager S := set_pending self ∅.
End manager.
