(* ===== verification/ChunkManagerSpec.v ===== *)
(** * What the chunk manager does: theorems about ChunkManager.v

    The abstraction is [byte_at]: the byte a manager shows at a position,
    from the staged change of its chunk if there is one, else from the store,
    else zero.  Reads return it, writes and truncations update it, and a
    flush moves it from the staged changes to the store without changing it.
    All theorems are against the interface [ChunkStoreLaws]. *)

From S2P Require Import Prelude RustStd Error Keys SlateDb ChunkStore ChunkLayout ChunkManager.

(** ** Keys in the store *)

(** Every key of the chunk family is the key of a chunk. *)
Definition wf_chunk_keys (m : kv) : Prop :=
  forall k, is_Some (m !! k) -> family k = Some (byte_of 99) ->
  exists f i, is_u64 f /\ is_u64 i /\ k = chunk_key f i.

Lemma wf_chunk_keys_empty : wf_chunk_keys ∅.
Proof. intros k. rewrite lookup_empty. by intros []. Qed.

(** A write keeps this unless it puts a malformed key of the family. *)
Definition op_chunk_keys (o : WriteOp) : Prop :=
  match o with
  | Put k _ => family k = Some (byte_of 99) ->
      exists f i, is_u64 f /\ is_u64 i /\ k = chunk_key f i
  | Delete _ => True
  end.

Lemma wf_chunk_keys_batch m b :
  Forall op_chunk_keys b -> wf_chunk_keys m -> wf_chunk_keys (apply_batch m b).
Proof.
  intros Hb. revert m. induction Hb as [|o b Ho _ IH]; intros m Hm; [done|].
  apply IH. intros k Hk Hfam. rewrite lookup_apply_op in Hk. case_decide as Heq; [|by apply Hm].
  subst k. destruct o as [k v|k]; simpl in *; [by apply Ho|by destruct Hk].
Qed.

Lemma chunk_key_ascii f i b :
  is_u64 f -> is_u64 i -> b ∈ chunk_key f i -> byte_val b < 128.
Proof.
  intros Hf Hi. rewrite chunk_key_fixed, chunk_prefix_fixed by done.
  assert (Hhex : forall z, b ∈ hex_fixed 16 z -> byte_val b < 128).
  { intros z (d & Hd & ->)%hex_fixed_digits. pose proof (hex_digit_range d Hd). lia. }
  rewrite !elem_of_app. intros [[Hb|[Hb|Hb]]|Hb]; [|by eauto| |by eauto].
  - repeat (apply elem_of_cons in Hb as [->|Hb]; [vm_compute; done|]).
    by apply not_elem_of_nil in Hb.
  - repeat (apply elem_of_cons in Hb as [->|Hb]; [vm_compute; done|]).
    by apply not_elem_of_nil in Hb.
Qed.

(** The index is read back from the key. *)
Lemma parse_chunk_key f i : is_u64 f -> is_u64 i -> parse_chunk_idx (chunk_key f i) = Ok i.
Proof.
  intros Hf Hi. unfold parse_chunk_idx.
  rewrite utf8_valid_ascii by (intros b; by apply chunk_key_ascii).
  rewrite chunk_key_fixed, chunk_prefix_fixed by done.
  change (bytes_of "/") with [byte_slash]. rewrite <-!app_assoc. cbn [app].
  rewrite (app_assoc (bytes_of "c/")).
  rewrite rsplit_next_app.
  - cbn [ok_or res_bind]. by rewrite u64_parse_hex_fixed.
  - intros (d & Hd & Heq)%hex_fixed_digits. pose proof (hex_digit_range d Hd) as [_ Hne].
    apply Hne. rewrite <-Heq. done.
Qed.

Lemma between_chunk_keys_inv (m : kv) f a b k :
  wf_chunk_keys m -> is_u64 f -> is_u64 a -> is_u64 b -> is_Some (m !! k) ->
  bytes_le (chunk_key f a) k -> bytes_le k (chunk_key f b) ->
  exists i, a <= i <= b /\ k = chunk_key f i.
Proof.
  intros Hm Hf Ha Hb Hk H1 H2.
  pose proof (between_chunk_keys f a b k H1 H2) as Hpre.
  destruct (Hm k Hk) as (g & i & Hg & Hi & ->).
  { apply starts_with_iff in Hpre as [c ->]. done. }
  apply chunk_key_starts_with in Hpre as ->; [|done..].
  apply chunk_key_le in H1; [|done..]. apply chunk_key_le in H2; [|done..].
  by exists i.
Qed.

Lemma chunk_prefix_inv (m : kv) f k :
  wf_chunk_keys m -> is_u64 f -> is_Some (m !! k) -> starts_with k (chunk_prefix f) = true ->
  exists i, is_u64 i /\ k = chunk_key f i.
Proof.
  intros Hm Hf Hk Hpre. destruct (Hm k Hk) as (g & i & Hg & Hi & ->).
  { apply starts_with_iff in Hpre as [c ->]. done. }
  apply chunk_key_starts_with in Hpre as ->; [|done..]. by exists i.
Qed.

(** ** Coalescing *)

(** The indices of a group. *)
Definition group_range (g : Z * Z) : list Z := seqZ g.1 (g.2 - g.1 + 1).

Lemma group_range_snoc a b : a <= b -> group_range (a, b + 1) = group_range (a, b) ++ [b + 1].
Proof.
  intros Hab. unfold group_range; simpl.
  replace (b + 1 - a + 1) with ((b - a + 1) + 1) by lia.
  rewrite seqZ_app by lia. f_equal. rewrite seqZ_cons by lia. simpl. f_equal. lia.
Qed.

Lemma last_snoc_inv {A} (l : list A) x :
  last l = Some x -> l = take (pred (length l)) l ++ [x].
Proof.
  intros Hl. apply last_Some in Hl as [k ->].
  rewrite length_app. simpl. replace (pred (length k + 1)) with (length k) by lia.
  by rewrite take_app_length.
Qed.

(** The groups are ranges that list exactly the given indices, in order. *)
Lemma coalesce_ranges l :
  Forall is_u64 l ->
  concat (group_range <$> coalesce_chunk_indices l) = l /\
  Forall (fun g => g.1 <= g.2 /\ is_u64 g.1 /\ is_u64 g.2) (coalesce_chunk_indices l).
Proof.
  unfold coalesce_chunk_indices.
  induction l as [|x l IH] using rev_ind; intros Hl; [done|].
  apply Forall_app in Hl as [Hl Hx]. rewrite Forall_singleton in Hx.
  destruct (IH Hl) as [Hc Hg]. rewrite foldl_app. cbn [foldl].
  set (gs := foldl _ _ _) in *. unfold coalesce_step.
  assert (Hnew : concat (group_range <$> gs ++ [(x, x)]) = l ++ [x] /\
                 Forall (fun g => g.1 <= g.2 /\ is_u64 g.1 /\ is_u64 g.2) (gs ++ [(x, x)])).
  { rewrite fmap_app, concat_app, Hc. split.
    - simpl. unfold group_range. simpl. by rewrite Z.sub_diag.
    - apply Forall_app. split; [done|]. by rewrite Forall_singleton. }
  destruct (last gs) as [[a b]|] eqn:Hlast; [|done].
  case_bool_decide as Hadj; [|done].
  apply checked_add_Some in Hadj as [-> Hadj].
  apply last_snoc_inv in Hlast. rewrite Hlast in Hc, Hg.
  rewrite fmap_app, concat_app in Hc. simpl in Hc. rewrite app_nil_r in Hc.
  apply Forall_app in Hg as [Hg Hlg]. rewrite Forall_singleton in Hlg. simpl in Hlg.
  rewrite fmap_app, concat_app. simpl. rewrite app_nil_r, group_range_snoc by lia.
  rewrite app_assoc, Hc. split; [done|].
  apply Forall_app. split; [done|]. rewrite Forall_singleton. simpl. naive_solver lia.
Qed.

Lemma coalesce_elem l i :
  Forall is_u64 l ->
  i ∈ l <-> exists g, g ∈ coalesce_chunk_indices l /\ g.1 <= i <= g.2.
Proof.
  intros Hl. destruct (coalesce_ranges l Hl) as [Hc Hg]. rewrite <-Hc at 1.
  rewrite list_elem_of_In, in_concat. split.
  - intros (r & Hr & Hi). apply list_elem_of_In in Hr, Hi.
    apply list_elem_of_fmap in Hr as (g & -> & Hgin). exists g. split; [done|].
    apply elem_of_seqZ in Hi. lia.
  - intros (g & Hgin & Hi). exists (group_range g).
    split; apply list_elem_of_In; [by apply list_elem_of_fmap_2|]. apply elem_of_seqZ. lia.
Qed.

(** No two groups could be one: between neighbours there is a gap. *)
Definition separated (g h : Z * Z) : Prop := g.2 + 1 < h.1.

Lemma coalesce_separated l :
  Forall is_u64 l -> StronglySorted Z.lt l -> StronglySorted separated (coalesce_chunk_indices l).
Proof.
  induction l as [|x l IH] using rev_ind; intros Hlx Hs; [constructor|].
  apply Forall_app in Hlx as [Hl Hx]. rewrite Forall_singleton in Hx.
  apply StronglySorted_app in Hs as (Hlt & Hs & _).
  specialize (IH Hl Hs). destruct (coalesce_ranges l Hl) as [_ Hg].
  assert (Hend : forall g, g ∈ coalesce_chunk_indices l -> g.1 <= g.2 < x).
  { intros g Hin. rewrite Forall_forall in Hg. destruct (Hg g Hin) as (Hle & _).
    split; [done|]. apply Hlt; [|by left]. apply (coalesce_elem l); [done|]. exists g.
    split; [done|lia]. }
  unfold coalesce_chunk_indices in *. rewrite foldl_app. cbn [foldl].
  set (gs := foldl _ _ _) in *. unfold coalesce_step.
  destruct (last gs) as [[a b]|] eqn:Hlast.
  2:{ apply last_None in Hlast. rewrite Hlast. repeat constructor. }
  apply last_snoc_inv in Hlast. rewrite Hlast in IH, Hend.
  apply StronglySorted_app in IH as (Hsep & IH & _).
  case_bool_decide as Hadj.
  - apply StronglySorted_app. split_and!; [|done|repeat constructor].
    intros g h Hin ->%list_elem_of_singleton. apply (Hsep g (a, b) Hin). by left.
  - destruct (Hend (a, b)) as [Hab Hb]; [set_solver|]. cbn in Hab, Hb.
    assert (Hgap : b + 1 < x).
    { destruct (decide (b + 1 = x)) as [<-|]; [|lia]. destruct Hadj. unfold checked_add.
      destruct Hx. by destruct (Z.ltb_spec (b + 1) (2 ^ 64)); [|lia]. }
    rewrite Hlast. apply StronglySorted_app. split_and!; [| |repeat constructor].
    + intros g h Hin ->%list_elem_of_singleton. unfold separated. cbn.
      apply elem_of_app in Hin as [Hin| ->%list_elem_of_singleton]; [|done].
      pose proof (Hsep g (a, b) Hin ltac:(by left)) as Hg1. unfold separated in Hg1. cbn in Hg1. lia.
    + apply StronglySorted_app. split_and!; [done|done|repeat constructor].
Qed.

Lemma lookup_foldl_insert {A} (l : list (Z * A)) i x :
  (forall y y', (i, y) ∈ l -> (i, y') ∈ l -> y = y') ->
  foldl (fun (m : gmap Z A) p => <[p.1 := p.2]> m) ∅ l !! i = Some x <-> (i, x) ∈ l.
Proof.
  induction l as [|[j y] l IH] using rev_ind; intros Hfun.
  { simpl. rewrite lookup_empty. split; [done|]. by intros ?%not_elem_of_nil. }
  rewrite foldl_app. cbn [foldl fst snd]. rewrite elem_of_app, list_elem_of_singleton.
  rewrite lookup_insert. case_decide as Hij.
  - subst j. split; [intros [= ->]; by right|].
    intros [Hx|[= ->]]; [|done]. f_equal.
    apply Hfun; rewrite elem_of_app, list_elem_of_singleton; [by right|by left].
  - rewrite IH; [naive_solver|]. intros. apply Hfun; rewrite elem_of_app; by left.
Qed.

Lemma lookup_foldl_deleted (l : list Z) (m : gmap Z PendingChunk) i :
  foldl (fun m i => <[i := Deleted]> m) m l !! i =
    if decide (i ∈ l) then Some Deleted else m !! i.
Proof.
  revert m. induction l as [|j l IH]; intros m; cbn [foldl].
  { by rewrite decide_False by apply not_elem_of_nil. }
  rewrite IH, lookup_insert. destruct (decide (i ∈ l)), (decide (j = i));
    rewrite ?decide_True, ?decide_False by set_solver; done.
Qed.

(** ** The bytes a manager shows *)

Section spec.
Context {W S : Type} `{World W} `{ChunkStore W S} `{!ChunkStoreLaws W S}.

(** What a chunk holds, staged changes included. *)
Definition chunk_content (w : W) (self : ChunkManager S) (i : Z) : option (list byte) :=
  match pending self !! i with
  | Some (Written chunk) => Some chunk
  | Some Deleted => None
  | None => cs_view w (store self) !! chunk_key (file_id self) i
  end.

Definition byte_at (w : W) (self : ChunkManager S) (p : Z) : byte :=
  match chunk_content w self (chunk_of (chunk_size self) (chunk_base_offset self) p) with
  | Some chunk => zbyte chunk (off_of (chunk_size self) (chunk_base_offset self) p)
  | None => x00
  end.

(** Layout and keys are in range: what [new] receives from a validated
    metadata record, and every operation keeps. *)
Record wf (self : ChunkManager S) : Prop := {
  wf_lay : wf_layout (chunk_size self) (chunk_base_offset self);
  wf_file : is_u64 (file_id self);
  wf_pending i : is_Some (pending self !! i) -> is_u64 i
}.
Definition wf_world (w : W) (self : ChunkManager S) : Prop :=
  wf_chunk_keys (cs_view w (store self)).

Lemma chunk_content_equiv w w' self i :
  w ≡ w' -> chunk_content w self i = chunk_content w' self i.
Proof.
  intros Hw. unfold chunk_content.
  by rewrite (cs_view_proper w w' Hw (store self) (store self) eq_refl).
Qed.

Lemma byte_at_equiv w w' self p : w ≡ w' -> byte_at w self p = byte_at w' self p.
Proof. intros Hw. unfold byte_at. by rewrite (chunk_content_equiv w w'). Qed.

(** ** Reading chunks from the store *)

Lemma reads_lift {A} w0 (r : Result A) a (Q : A -> Prop) :
  r = Ok a -> Q a -> reads w0 (lift r) Q.
Proof. intros -> HQ. by apply reads_ret. Qed.

Lemma reads_map_m {A B} w0 (l : list A) (f : A -> M Error W B) (P : A -> B -> Prop) :
  (forall x, x ∈ l -> reads w0 (f x) (P x)) -> reads w0 (map_m l f) (Forall2 P l).
Proof.
  induction l as [|x l IH]; intros Hf; cbn [map_m]; [by apply reads_ret; constructor|].
  eapply reads_bind; [apply Hf; by left|]. intros y Hy.
  eapply reads_bind; [apply IH; intros; apply Hf; by right|]. intros ys Hys.
  apply reads_ret. by constructor.
Qed.

Lemma read_chunk_from_store_spec w self i :
  reads w (read_chunk_from_store self i)
  (fun c => c = default [] (cs_view w (store self) !! chunk_key (file_id self) i)).
Proof.
  eapply reads_bind; [apply cs_get_spec|]. intros v ->. by apply reads_ret.
Qed.

Lemma chunk_contents_spec w self i :
  reads w (chunk_contents self i) (fun c => c = default [] (chunk_content w self i)).
Proof.
  unfold chunk_contents, chunk_content.
  destruct (pending self !! i) as [[c|]|]; [by apply reads_ret..|].
  apply read_chunk_from_store_spec.
Qed.

Lemma map_parse_chunk_keys f (rows : list (list byte * list byte)) :
  (forall k v, (k, v) ∈ rows -> exists i, is_u64 i /\ k = chunk_key f i) -> is_u64 f ->
  exists out,
  map_res rows (fun '(key, chunk) => let? idx := parse_chunk_idx key in Ok (idx, chunk))
  = Ok out /\
  forall i c, (i, c) ∈ out <-> is_u64 i /\ (chunk_key f i, c) ∈ rows.
Proof.
  intros Hrows Hf. induction rows as [|[k v] rows IH]; cbn [map_res].
  { exists []. split; [done|]. intros. rewrite !elem_of_nil. naive_solver. }
  destruct IH as (out & Hout & Hel); [intros; eapply Hrows; by right|].
  destruct (Hrows k v ltac:(by left)) as (i & Hi & ->).
  rewrite parse_chunk_key by done. cbn [res_bind]. rewrite Hout. cbn [res_bind].
  eexists. split; [done|]. intros j c. rewrite !elem_of_cons, Hel. split.
  - intros [[= -> ->]|[? ?]]; [by split; [|left]|by split; [|right]].
  - intros [Hj [[Hk ->]%pair_equal_spec|Hin]]; [|by right]. left.
    apply chunk_key_inj in Hk as [_ ->]; done.
Qed.

Lemma read_chunk_group_spec w self a b :
  wf self -> wf_world w self -> is_u64 a -> is_u64 b -> a <= b ->
  reads w (read_chunk_group_from_store self (a, b))
  (fun rows => forall i c, (i, c) ∈ rows <->
  a <= i <= b /\ cs_view w (store self) !! chunk_key (file_id self) i = Some c).
Proof.
  intros Hwf Hw Ha Hb Hab. pose proof (wf_file _ Hwf) as Hf. unfold read_chunk_group_from_store.
  destruct (Z.eqb_spec a b) as [->|Hne].
  - eapply reads_bind; [apply cs_get_spec|]. intros v ->. apply reads_ret.
    intros i c. destruct (_ !! _) as [chunk|] eqn:Hv.
    + rewrite list_elem_of_singleton. split; [intros [= -> ->]; split; [lia|done]|].
      intros [Hi Hc]. replace i with b in * by lia. congruence.
    + rewrite elem_of_nil. split; [done|]. intros [Hi Hc].
      replace i with b in * by lia. congruence.
  - eapply reads_bind; [apply cs_scan_inclusive_spec|]. intros pairs [_ Hel].
    destruct (map_parse_chunk_keys (file_id self) pairs) as (out & Hout & Hin).
    { intros k v (Hk & H1 & H2)%Hel.
      destruct (between_chunk_keys_inv _ _ _ _ _ Hw (wf_file _ Hwf) Ha Hb
        (mk_is_Some _ _ Hk) H1 H2) as (i & Hi & ->).
      exists i. split; [|done]. destruct Ha, Hb. split; lia. }
    { done. }
    eapply reads_lift; [done|]. intros i c. rewrite Hin, Hel. split.
    + intros (Hi & Hc & H1 & H2). split; [|done].
      apply chunk_key_le in H1; [|done..].
      apply chunk_key_le in H2; [|done..]. done.
    + intros [Hi Hc]. assert (is_u64 i) by (destruct Ha, Hb; split; lia).
      split_and!; [done..| |]; apply chunk_key_le; (done || lia).
Qed.

(** The fetched map holds the persisted chunks among the requested ones. *)
Lemma read_chunks_from_store_spec w self idxs :
  wf self -> wf_world w self -> Forall is_u64 idxs ->
  reads w (read_chunks_from_store self idxs)
  (fun m => forall i c, m !! i = Some c <->
  i ∈ idxs /\ cs_view w (store self) !! chunk_key (file_id self) i = Some c).
Proof.
  intros Hwf Hw Hidx. unfold read_chunks_from_store. case_bool_decide as Hnil.
  { apply reads_ret. intros i c. subst. rewrite lookup_empty, elem_of_nil. naive_solver. }
  destruct (coalesce_ranges idxs Hidx) as [_ Hg].
  eapply reads_bind.
  { apply (reads_map_m w _ _ (fun g rows => forall i c, (i, c) ∈ rows <->
      g.1 <= i <= g.2 /\ cs_view w (store self) !! chunk_key (file_id self) i = Some c)).
    intros [a b] Hin. rewrite Forall_forall in Hg. destruct (Hg _ Hin) as (? & ? & ?).
    by apply read_chunk_group_spec. }
  intros fetched Hf. apply reads_ret. intros i c.
  assert (Hrow : forall c, (i, c) ∈ concat fetched <->
    i ∈ idxs /\ cs_view w (store self) !! chunk_key (file_id self) i = Some c).
  { intros c'. rewrite list_elem_of_In, in_concat, (coalesce_elem idxs i Hidx). split.
    - intros (rows & Hrows & Hin). apply list_elem_of_In in Hrows, Hin.
      apply list_elem_of_lookup in Hrows as [n Hn].
      destruct (Forall2_lookup_r _ _ _ _ _ Hf Hn) as (g & Hgn & Hrng).
      destruct (proj1 (Hrng i c') Hin) as [Hi Hc]. split; [|done]. exists g.
      split; [by eapply list_elem_of_lookup_2|done].
    - intros [(g & Hgin & Hi) Hc]. apply list_elem_of_lookup in Hgin as [n Hn].
      destruct (Forall2_lookup_l _ _ _ _ _ Hf Hn) as (rows & Hrn & Hrng).
      exists rows. split; apply list_elem_of_In; [by eapply list_elem_of_lookup_2|].
      by apply Hrng. }
  rewrite lookup_foldl_insert; [apply Hrow|].
  intros y y' [_ Hy]%Hrow [_ Hy']%Hrow. congruence.
Qed.

(** ** Filling a buffer *)

(** Slice [s] covers position [j] of the buffer. *)
Definition covers (s : ChunkSlice) (j : Z) : Prop :=
  buf_offset s <= j < buf_offset s + slice_len s.

Lemma copy_chunk_into_ok (buf chunk : list byte) s :
  0 <= buf_offset s -> buf_offset s + slice_len s <= zlen buf -> 0 < slice_len s ->
  0 <= chunk_offset s <= zlen chunk ->
  exists buf', copy_chunk_into buf s chunk = Ok buf' /\ zlen buf' = zlen buf /\
  forall j, zbyte buf' j =
  if decide (buf_offset s <= j < buf_offset s +
           Z.min (zlen chunk - chunk_offset s) (slice_len s))
  then zbyte chunk (chunk_offset s + (j - buf_offset s)) else zbyte buf j.
Proof.
  intros Hb Hl Hp Hc. unfold copy_chunk_into, saturating_sub.
  rewrite Z.max_r by lia.
  set (n := Z.min (zlen chunk - chunk_offset s) (slice_len s)).
  rewrite (slice_range_ok buf) by lia. cbn [res_bind].
  rewrite (slice_range_ok chunk) by lia. cbn [res_bind].
  set (src := take _ (drop _ chunk)).
  assert (Hsrc : zlen src = n) by (unfold src; rewrite zlen_slice by lia; lia).
  rewrite copy_from_slice_ok by lia. eexists. split; [done|].
  split; [by apply zlen_splice; lia|]. intros j.
  rewrite zbyte_splice by lia. rewrite Hsrc. case_decide as Hj; [|done].
  unfold src. rewrite zbyte_slice by lia. done.
Qed.

(** The slicing of the source panics when the chunk ends before the slice
    starts, even though no byte would be copied. *)
Lemma copy_chunk_into_panics (buf chunk : list byte) s :
  0 <= buf_offset s -> buf_offset s + slice_len s <= zlen buf -> 0 < slice_len s ->
  zlen chunk < chunk_offset s ->
  copy_chunk_into buf s chunk = Panic "slice index out of range".
Proof.
  intros Hb Hl Hp Hc. unfold copy_chunk_into, saturating_sub.
  rewrite Z.max_l, Z.min_l by lia. rewrite (slice_range_ok buf) by lia.
  cbn [res_bind]. rewrite slice_range_panics by lia. done.
Qed.

(** Slice [s] reads a chunk with a staged change. *)
Definition staged (self : ChunkManager S) (s : ChunkSlice) : Prop :=
  is_Some (pending self !! chunk_idx s).
#[global] Instance staged_dec self s : Decision (staged self s).
Proof. unfold staged. apply _. Defined.

Section fill.
Context (w : W) (self : ChunkManager S) (offset n : Z) (slices : list ChunkSlice).
Context (Hwf : wf self) (Hoff : 0 <= offset).
Context (Htiles : tiles (chunk_size self) (chunk_base_offset self) offset 0 n slices).

Let size := chunk_size self.
Let base := chunk_base_offset self.

(** The slices in [done_] are final in [buf], the rest of it is zero. *)
Record filled (done_ : list ChunkSlice) (buf : list byte) : Prop := {
  filled_len : zlen buf = n;
  filled_done s j : s ∈ done_ -> covers s j -> zbyte buf j = byte_at w self (offset + j);
  filled_rest j : (forall s, s ∈ done_ -> ~ covers s j) -> zbyte buf j = x00
}.

Lemma in_slices s :
  s ∈ slices -> slice_ok size base offset n s.
Proof.
  intros Hs. by destruct (tiles_slice _ _ _ _ _ _ _ (Z.le_refl 0) Htiles Hs).
Qed.

Lemma covers_position s j :
  s ∈ slices -> covers s j ->
  chunk_of size base (offset + j) = chunk_idx s /\
  off_of size base (offset + j) = chunk_offset s + (j - buf_offset s).
Proof.
  intros Hs Hj. eapply slice_position; [apply Hwf|done|by apply in_slices|done].
Qed.

Lemma covers_inj s t j : s ∈ slices -> t ∈ slices -> covers s j -> covers t j -> s = t.
Proof.
  intros Hs Ht Hsj Htj.
  destruct (covers_position s j Hs Hsj) as [H1 _].
  destruct (covers_position t j Ht Htj) as [H2 _]. rewrite H1 in H2.
  pose proof (tiles_indices_NoDup _ _ (wf_lay _ Hwf) _ _ _ _ Hoff (Z.le_refl 0) Htiles) as Hnd.
  apply list_elem_of_lookup in Hs as [i Hi], Ht as [k Hk].
  assert (i = k) as <-; [|congruence].
  apply (NoDup_lookup _ _ _ (chunk_idx s) Hnd);
    rewrite list_lookup_fmap, ?Hi, ?Hk; simpl; congruence.
Qed.

(** A slice whose chunk is absent is already final: zero. *)
Lemma filled_absent done_ buf s :
  filled done_ buf -> s ∈ slices -> done_ ⊆ slices -> s ∉ done_ ->
  chunk_content w self (chunk_idx s) = None -> filled (done_ ++ [s]) buf.
Proof.
  intros [Hl Hd Hr] Hs Hsub Hns Hc. split; [done|..].
  - intros t j Ht Hj. rewrite elem_of_app, list_elem_of_singleton in Ht.
    destruct Ht as [Ht| ->]; [by eapply Hd|].
    rewrite Hr.
    + unfold byte_at. destruct (covers_position s j Hs Hj) as [Hi _].
      fold size base. by rewrite Hi, Hc.
    + intros t Ht Htj. apply Hns. by rewrite (covers_inj s t j) by auto.
  - intros j Hj. apply Hr. intros t Ht. apply Hj. set_solver.
Qed.

(** Copying a chunk makes its slice final. *)
Lemma filled_copy done_ buf s chunk :
  filled done_ buf -> s ∈ slices -> done_ ⊆ slices -> s ∉ done_ ->
  chunk_content w self (chunk_idx s) = Some chunk -> chunk_offset s <= zlen chunk ->
  exists buf', copy_chunk_into buf s chunk = Ok buf' /\ filled (done_ ++ [s]) buf'.
Proof.
  intros [Hl Hd Hr] Hs Hsub Hns Hc Hshort.
  pose proof (in_slices s Hs) as [Hlo Hhi Hpos Hidx Hof _].
  assert (0 <= chunk_offset s).
  { rewrite Hof. apply (position_split _ _ (wf_lay _ Hwf)). lia. }
  destruct (copy_chunk_into_ok buf chunk s) as (buf' & Hcopy & Hlen & Hbyte); [lia..|].
  exists buf'. split; [done|]. split; [lia|..].
  - intros t j Ht Hj. rewrite elem_of_app, list_elem_of_singleton in Ht. rewrite Hbyte.
    destruct Ht as [Ht| ->].
    + rewrite decide_False; [by eapply Hd|]. intros Hj'. apply Hns.
      rewrite (covers_inj s t j) by (auto; unfold covers; lia). done.
    + destruct (covers_position s j Hs Hj) as [Hi Ho].
      unfold byte_at. fold size base. rewrite Hi, Ho, Hc.
      case_decide as Hin; [done|].
      rewrite (zbyte_ge chunk) by (unfold covers in Hj; lia).
      apply Hr. intros t Ht Htj. apply Hns. by rewrite (covers_inj s t j) by auto.
  - intros j Hj. rewrite Hbyte. rewrite decide_False.
    + apply Hr. intros t Ht. apply Hj. set_solver.
    + intros Hj'. apply (Hj s); [set_solver|]. unfold covers. lia.
Qed.

Lemma filled_all done_ buf :
  filled done_ buf -> (forall s, s ∈ slices -> s ∈ done_) ->
  buf = tabulate (byte_at w self) offset n.
Proof.
  intros [Hl Hd Hr] Hall.
  pose proof (tiles_bounds _ _ _ _ _ _ Htiles).
  apply zbyte_ext; autorewrite with bytes; [lia|]. intros j Hj.
  rewrite zbyte_tabulate by lia.
  destruct (tiles_cover _ _ _ _ _ _ j Htiles ltac:(lia)) as (s & Hs & Hsj).
  eapply Hd; [by apply Hall|done].
Qed.

(** *** The two passes of [read] *)

Lemma slices_NoDup : NoDup slices.
Proof.
  exact (NoDup_fmap_1 chunk_idx _
    (tiles_indices_NoDup _ _ (wf_lay _ Hwf) _ _ _ _ Hoff (Z.le_refl 0) Htiles)).
Qed.

(** A slice that is final, waiting or yet to come is so only once. *)
Lemma perm_fresh (done_ l : list ChunkSlice) s :
  done_ ++ s :: l ≡ₚ slices -> s ∈ slices /\ done_ ⊆ slices /\ s ∉ done_.
Proof.
  intros Hp. pose proof slices_NoDup as Hnd. rewrite <-Hp in Hnd |- *.
  apply NoDup_app in Hnd as (_ & Hd & _).
  split_and!; [set_solver| |intros Hin; apply (Hd s Hin); by left].
  set_solver.
Qed.

Lemma read_pending_spec l done_ persisted buf :
  filled done_ buf -> done_ ++ persisted ++ l ≡ₚ slices ->
  (forall s chunk, s ∈ l -> pending self !! chunk_idx s = Some (Written chunk) ->
  chunk_offset s <= zlen chunk) ->
  exists buf', read_pending self l persisted buf =
  (Ok (persisted ++ filter (fun s => ~ staged self s) l), buf') /\
  filled (done_ ++ filter (staged self) l) buf'.
Proof.
  revert done_ persisted buf. induction l as [|s l IH];
    intros done_ persisted buf Hf Hp Hshort; cbn [read_pending].
  { rewrite !filter_nil, !app_nil_r. by eexists. }
  rewrite !filter_cons.
  destruct (perm_fresh done_ (persisted ++ l) s) as (Hs & Hsub & Hns).
  { rewrite <-Hp. by rewrite Permutation_middle. }
  destruct (pending self !! chunk_idx s) as [[chunk|]|] eqn:Hpend.
  - assert (Hst : staged self s) by (unfold staged; rewrite Hpend; eauto).
    rewrite (decide_True _ _ Hst), decide_False by tauto.
    destruct (filled_copy done_ buf s chunk) as (buf1 & Hcopy & Hf1); [done..| | |].
    { unfold chunk_content. by rewrite Hpend. }
    { apply Hshort; [by left|done]. }
    unfold bind, update. rewrite Hcopy.
    destruct (IH (done_ ++ [s]) persisted buf1 Hf1) as (buf' & Hrun & Hf').
    { rewrite <-Hp, <-app_assoc. simpl. by rewrite Permutation_middle. }
    { intros t chunk' Ht. apply Hshort. by right. }
    exists buf'. by rewrite cons_middle, app_assoc.
  - assert (Hst : staged self s) by (unfold staged; rewrite Hpend; eauto).
    rewrite (decide_True _ _ Hst), decide_False by tauto.
    destruct (IH (done_ ++ [s]) persisted buf) as (buf' & Hrun & Hf').
    { apply filled_absent; [done..|]. unfold chunk_content. by rewrite Hpend. }
    { rewrite <-Hp, <-app_assoc. simpl. by rewrite Permutation_middle. }
    { intros t chunk' Ht. apply Hshort. by right. }
    exists buf'. by rewrite cons_middle, app_assoc.
  - assert (Hst : ~ staged self s) by (unfold staged; rewrite Hpend; by intros []).
    rewrite (decide_False _ _ Hst), decide_True by done.
    destruct (IH done_ (persisted ++ [s]) buf Hf) as (buf' & Hrun & Hf').
    { by rewrite <-Hp, <-app_assoc. }
    { intros t chunk' Ht. apply Hshort. by right. }
    exists buf'. by rewrite (cons_middle _ _ (filter _ _)), app_assoc.
Qed.

(** What [read_chunks_from_store] returned for the waiting slices. *)
Definition fetched (l : list ChunkSlice) (chunks : gmap Z (list byte)) : Prop :=
  forall s, s ∈ l -> chunks !! chunk_idx s = chunk_content w self (chunk_idx s).

Lemma copy_persisted_spec chunks l done_ buf :
  filled done_ buf -> done_ ++ l ≡ₚ slices -> fetched l chunks ->
  (forall s chunk, s ∈ l -> chunks !! chunk_idx s = Some chunk ->
  chunk_offset s <= zlen chunk) ->
  exists buf', for_each l (copy_persisted chunks) buf = (Ok tt, buf') /\
  filled (done_ ++ l) buf'.
Proof.
  revert done_ buf. induction l as [|s l IH]; intros done_ buf Hf Hp Hfet Hshort;
    cbn [for_each].
  { rewrite app_nil_r. by eexists. }
  destruct (perm_fresh done_ l s Hp) as (Hs & Hsub & Hns).
  assert (Hstep : exists buf1, copy_persisted chunks s buf = (Ok tt, buf1) /\
    filled (done_ ++ [s]) buf1).
  { unfold copy_persisted. pose proof (Hfet s ltac:(by left)) as Hc.
    destruct (chunks !! chunk_idx s) as [chunk|] eqn:Hch.
    - destruct (filled_copy done_ buf s chunk) as (buf1 & Hcopy & Hf1);
        [done..|by apply Hshort; [left|]|].
      unfold update. rewrite Hcopy. eauto.
    - exists buf. split; [done|]. by apply filled_absent. }
  destruct Hstep as (buf1 & Hrun & Hf1). unfold bind at 1. rewrite Hrun.
  destruct (IH (done_ ++ [s]) buf1 Hf1) as (buf' & Hrun' & Hf').
  { by rewrite <-app_assoc. }
  { intros t Ht. apply Hfet. by right. }
  { intros t chunk Ht. apply Hshort. by right. }
  exists buf'. by rewrite cons_middle, app_assoc.
Qed.

(** Only the first slice can start past the end of its chunk. *)
Lemma slice_not_short s chunk :
  (forall c, chunk_content w self (chunk_of size base offset) = Some c ->
  off_of size base offset <= zlen c) ->
  s ∈ slices -> chunk_content w self (chunk_idx s) = Some chunk ->
  chunk_offset s <= zlen chunk.
Proof.
  intros Hshort Hs Hc. destruct slices as [|t l] eqn:Hsl.
  { by apply not_elem_of_nil in Hs. }
  apply elem_of_cons in Hs as [->|Hs].
  - destruct Htiles as (_ & Hi & Ho & _). rewrite Z.add_0_r in Hi, Ho.
    rewrite Ho. apply Hshort. by rewrite Hi in Hc.
  - rewrite (tiles_tail_offset _ _ (wf_lay _ Hwf) _ _ _ _ _ _ Hoff (Z.le_refl 0) Htiles Hs).
    apply zlen_nonneg.
Qed.

Lemma filled_zeros : 0 <= n -> filled [] (zeros n).
Proof.
  intros Hn. split.
  - autorewrite with bytes. lia.
  - by intros s j ?%not_elem_of_nil.
  - intros. apply zbyte_zeros.
Qed.

Lemma persisted_u64 l :
  offset + n <= 2 ^ 64 -> l ⊆ slices -> Forall is_u64 (chunk_idx <$> l).
Proof.
  intros Hlen Hl. apply Forall_forall. intros i (s & -> & Hs)%list_elem_of_fmap.
  eapply (tiles_indices_u64 _ _ (wf_lay _ Hwf)); [exact Hoff|done|exact Htiles|by apply Hl].
Qed.

Lemma fetched_unstaged chunks :
  (forall i c, chunks !! i = Some c <->
  i ∈ chunk_idx <$> filter (fun s => ~ staged self s) slices /\
  cs_view w (store self) !! chunk_key (file_id self) i = Some c) ->
  fetched (filter (fun s => ~ staged self s) slices) chunks.
Proof.
  intros Hch s Hs. pose proof Hs as [Hst _]%list_elem_of_filter.
  unfold chunk_content. unfold staged in Hst. rewrite <-eq_None_not_Some in Hst. rewrite Hst.
  apply option_eq. intros c. rewrite Hch. split; [by intros []|]. intros Hc.
  split; [by apply list_elem_of_fmap_2|done].
Qed.
End fill.

(** A read that starts inside a chunk that ends before its start. *)
Definition short_read (w : W) (self : ChunkManager S) (len offset : Z) : Prop :=
  0 < len /\
  exists chunk,
  chunk_content w self (chunk_of (chunk_size self) (chunk_base_offset self) offset)
  = Some chunk /\
  zlen chunk < off_of (chunk_size self) (chunk_base_offset self) offset.

#[global] Instance short_read_dec w c n offset : Decision (short_read w c n offset).
Proof.
  unfold short_read.
  destruct (chunk_content w c _) as [chunk|].
  - destruct (decide (0 < n /\ zlen chunk < off_of (chunk_size c)
      (chunk_base_offset c) offset)) as [[? ?]|Hn].
    + left. eauto.
    + right. naive_solver.
  - right. naive_solver.
Defined.

Lemma split_ok self len offset :
  wf self -> 0 <= len -> 0 <= offset -> offset + len <= 2 ^ 64 ->
  exists l, split_into_chunks self len offset = Ok l /\
  tiles (chunk_size self) (chunk_base_offset self) offset 0 len l.
Proof. intros Hwf. apply split_tiles, Hwf. Qed.

(** [read] as one run, for a buffer that splits into [slices]. *)
Lemma read_run self offset buf (w : W) slices persisted buf1 :
  split_into_chunks self (zlen buf) offset = Ok slices ->
  read_pending self slices [] (zeros (zlen buf)) = (Ok persisted, buf1) ->
  read self offset (buf, w) =
  match read_chunks_from_store self (chunk_idx <$> persisted) w with
  | (Ok chunks, w') =>
  let '(r, buf') := for_each persisted (copy_persisted chunks) buf1 in (r, (buf', w'))
  | (Err e, w') => (Err e, (buf1, w'))
  | (Panic p, w') => (Panic p, (buf1, w'))
  end.
Proof.
  intros Hsplit Hpend. unfold read, bind, on_fst, on_snd, modify, get_state, lift.
  cbn [fst snd]. rewrite zlen_zeros, Z.max_r, Hsplit by done. cbn [fst snd]. rewrite Hpend.
  cbn [fst snd]. by destruct (read_chunks_from_store _ _ w) as [[] ?].
Qed.

(** What a read of an acceptable range does: it never changes the world,
    succeeds when the store is up, and fills the buffer. *)
Lemma read_ok w self buf offset r buf' w' :
  wf self -> wf_world w self -> 0 <= offset -> offset + zlen buf <= 2 ^ 64 ->
  ~ short_read w self (zlen buf) offset ->
  read self offset (buf, w) = (r, (buf', w')) ->
  w' ≡ w /\ (up w -> r = Ok tt /\ up w') /\
  (r = Ok tt -> buf' = tabulate (byte_at w self) offset (zlen buf)).
Proof.
  intros Hwf Hw Hoff Hlen Hshort Hr. pose proof (zlen_nonneg buf) as Hn.
  destruct (split_ok self (zlen buf) offset) as (slices & Hsplit & Ht); [done..|].
  assert (Hns : forall s chunk, s ∈ slices -> chunk_content w self (chunk_idx s) = Some chunk ->
    chunk_offset s <= zlen chunk).
  { intros s chunk Hs. pose proof (in_slices self _ _ _ Ht s Hs) as [? ? ? _ _ _].
    apply (slice_not_short w self offset (zlen buf) slices Hwf Hoff Ht); [|done].
    intros c Hc. apply Z.nlt_ge. intros Hlt. apply Hshort. split; [lia|by exists c]. }
  set (P := staged self) in *. set (persisted := filter (fun s => ~ P s) slices) in *.
  assert (Hperm : filter P slices ++ persisted ≡ₚ slices) by apply filter_app_complement.
  destruct (read_pending_spec w self offset (zlen buf) slices Hwf Hoff Ht slices [] []
    (zeros (zlen buf))) as (buf1 & Hpend & Hf1).
  { apply filled_zeros; done. }
  { done. }
  { intros s chunk Hs Hp. apply Hns; [done|]. unfold chunk_content. by rewrite Hp. }
  fold P persisted in Hpend. rewrite app_nil_l in Hpend. rewrite (read_run _ _ _ _ _ _ _ Hsplit Hpend) in Hr.
  destruct (read_chunks_from_store _ _ w) as [rc w1] eqn:Hfetch.
  destruct (read_chunks_from_store_spec w self (chunk_idx <$> persisted) Hwf Hw
    (persisted_u64 self offset (zlen buf) slices Hwf Hoff Ht _ Hlen
    ltac:(intros s' [_ ?]%list_elem_of_filter; done))
    w rc w1 ltac:(done) Hfetch) as (Hw1 & Hup & Hch).
  destruct rc as [chunks|e|p]; simplify_eq.
  - pose proof (fetched_unstaged w self slices chunks (Hch _ eq_refl)) as Hfet.
    destruct (copy_persisted_spec w self offset (zlen buf) slices Hwf Hoff Ht chunks persisted
      (filter P slices) buf1 Hf1 Hperm Hfet) as (buf2 & Hcopy & Hf2).
    { intros s chunk Hs Hc. pose proof Hs as [_ Hin]%list_elem_of_filter.
      apply Hns; [done|]. by rewrite <-Hfet. }
    rewrite Hcopy in Hr. simplify_eq. split_and!; [done| |].
    + intros [? _]%Hup. done.
    + intros _. eapply filled_all; [exact Ht|exact Hf2|]. intros s. by rewrite Hperm.
  - split_and!; [done| |done]. by intros (_ & ? & ?)%Hup.
  - split_and!; [done| |done]. by intros (_ & ? & ?)%Hup.
Qed.

(** A short read panics: the copy slices the chunk past its end. *)
Lemma read_short w self buf offset :
  wf self -> wf_world w self -> 0 <= offset -> offset + zlen buf <= 2 ^ 64 -> up w ->
  short_read w self (zlen buf) offset ->
  exists buf' w', w' ≡ w /\ up w' /\
  read self offset (buf, w) = (Panic "slice index out of range", (buf', w')).
Proof.
  intros Hwf Hw Hoff Hlen Hu (Hpos & chunk & Hc & Hlt).
  destruct (split_ok self (zlen buf) offset) as (slices & Hsplit & Ht); [done||lia..|].
  destruct (tiles_head _ _ _ _ _ _ Ht Hpos) as (s & l & -> & Hb & Hi & Ho).
  rewrite Z.add_0_r in Hi, Ho. rewrite <-Hi in Hc. rewrite <-Ho in Hlt.
  destruct (in_slices self _ _ _ Ht s ltac:(by left)) as [Hlo Hhi Hsl _ _ _].
  assert (Hcopy : forall b, zlen b = zlen buf ->
    copy_chunk_into b s chunk = Panic "slice index out of range").
  { intros b Hbl. apply copy_chunk_into_panics; lia. }
  assert (Htail : forall t (c : list byte), t ∈ l -> chunk_offset t <= zlen c).
  { intros t c Hin. rewrite (tiles_tail_offset _ _ (wf_lay _ Hwf) _ _ _ _ _ _ Hoff
      (Z.le_refl 0) Ht Hin). apply zlen_nonneg. }
  destruct (decide (staged self s)) as [Hst|Hst].
  - unfold staged in Hst. unfold chunk_content in Hc.
    destruct (pending self !! chunk_idx s) as [[c|]|] eqn:Hp; simplify_eq; [|by destruct Hst].
    exists (zeros (zlen buf)), w. split_and!; [done..|].
    unfold read, bind, on_fst, modify, get_state, lift. cbn [fst snd].
    rewrite zlen_zeros, Z.max_r, Hsplit by done. cbn [fst snd read_pending].
    rewrite Hp. unfold bind, update. by rewrite Hcopy by (rewrite zlen_zeros; lia).
  - destruct (read_pending_spec w self offset (zlen buf) (s :: l) Hwf Hoff Ht (s :: l) [] []
      (zeros (zlen buf))) as (buf1 & Hpend & Hf1).
    { apply filled_zeros; done. }
    { done. }
    { intros t c [->|Hin]%elem_of_cons Hp; [|by apply Htail].
      destruct Hst. unfold staged. rewrite Hp. eauto. }
    rewrite app_nil_l in Hpend. rewrite (read_run _ _ _ _ _ _ _ Hsplit Hpend).
    set (persisted := filter (fun t => ~ staged self t) (s :: l)).
    destruct (reads_up w _ _ Hu (read_chunks_from_store_spec w self (chunk_idx <$> persisted)
      Hwf Hw (persisted_u64 self offset (zlen buf) (s :: l) Hwf Hoff Ht _ Hlen
      ltac:(intros s' [_ ?]%list_elem_of_filter; done))))
      as (chunks & w1 & Hfetch & Hw1 & Hu1 & Hch).
    rewrite Hfetch. exists buf1, w1. split_and!; [done..|].
    pose proof (fetched_unstaged w self (s :: l) chunks Hch s) as Hfet.
    unfold persisted. rewrite filter_cons_True by done. cbn [for_each].
    unfold bind, copy_persisted. rewrite Hfet, Hc.
    + unfold update. by rewrite Hcopy by apply Hf1.
    + apply list_elem_of_filter. split; [done|by left].
Qed.

(** The slices [read] goes to the store for are slices of the buffer. *)
Lemma read_pending_within (self : ChunkManager S) l persisted buf l' buf' :
  read_pending self l persisted buf = (Ok l', buf') -> l' ⊆ persisted ++ l.
Proof.
  revert persisted buf. induction l as [|s l IH]; intros persisted buf; cbn [read_pending].
  { intros [= -> ->]. set_solver. }
  destruct (pending self !! chunk_idx s) as [[chunk|]|].
  - unfold bind, update. destruct (copy_chunk_into buf s chunk); [|done..].
    intros Hl%IH. set_solver.
  - intros Hl%IH. set_solver.
  - intros Hl%IH. set_solver.
Qed.

(** A read leaves the world as it was, whatever comes of it: an error of the
    store, or a panic. *)
Lemma read_keeps_world w self buf offset r buf' w' :
  wf self -> wf_world w self -> 0 <= offset -> offset + zlen buf <= 2 ^ 64 ->
  read self offset (buf, w) = (r, (buf', w')) -> w' ≡ w.
Proof.
  intros Hwf Hw Hoff Hlen Hr. pose proof (zlen_nonneg buf) as Hn.
  destruct (split_ok self (zlen buf) offset) as (slices & Hsplit & Ht); [done..|].
  destruct (read_pending self slices [] (zeros (zlen buf))) as [[persisted|e|p] buf1] eqn:Hpend.
  2-3: unfold read, bind, on_fst, modify, get_state, lift in Hr; cbn [fst snd] in Hr;
    rewrite zlen_zeros, Z.max_r, Hsplit in Hr by done; cbn [fst snd] in Hr;
    rewrite Hpend in Hr; by simplify_eq.
  rewrite (read_run _ _ _ _ _ _ _ Hsplit Hpend) in Hr.
  apply read_pending_within in Hpend.
  destruct (read_chunks_from_store _ _ w) as [rc w1] eqn:Hfetch.
  destruct (read_chunks_from_store_spec w self (chunk_idx <$> persisted) Hwf Hw
    (persisted_u64 self offset (zlen buf) slices Hwf Hoff Ht _ Hlen Hpend)
    w rc w1 ltac:(done) Hfetch) as [Hw1 _].
  destruct rc as [chunks|e|p]; [|by simplify_eq..].
  destruct (for_each _ _ _). by simplify_eq.
Qed.

(** A read that starts on a chunk boundary is not short. *)
Lemma aligned_not_short w self len offset :
  off_of (chunk_size self) (chunk_base_offset self) offset = 0 ->
  ~ short_read w self len offset.
Proof. intros Ho (_ & chunk & _ & Hlt). rewrite Ho in Hlt. pose proof (zlen_nonneg chunk). lia. Qed.

(** ** Writing *)

(** Managers of the same file that differ in their staged changes only. *)
Definition same_file (self self' : ChunkManager S) : Prop :=
  self' = set_pending self (pending self').

Lemma same_file_refl self : same_file self self.
Proof. by destruct self. Qed.
Lemma same_file_set self p : same_file self (set_pending self p).
Proof. by destruct self. Qed.
Lemma same_file_trans a b c : same_file a b -> same_file b c -> same_file a c.
Proof. unfold same_file. intros -> ->. by destruct a. Qed.
Lemma same_file_world w a b : same_file a b -> wf_world w a -> wf_world w b.
Proof. unfold same_file, wf_world. by intros ->. Qed.

Lemma wf_insert self i c : wf self -> is_u64 i -> wf (set_pending self (<[i := c]> (pending self))).
Proof.
  intros [Hl Hf Hp] Hi. split; [done..|]. intros j. cbn [pending set_pending].
  rewrite lookup_insert_is_Some. intros [->|[_ Hj]]; [done|by apply Hp].
Qed.

Lemma chunk_content_insert w self i c j :
  chunk_content w (set_pending self (<[i := c]> (pending self))) j =
  if decide (i = j) then match c with Written b => Some b | Deleted => None end
  else chunk_content w self j.
Proof. unfold chunk_content. cbn. rewrite lookup_insert. by case_decide. Qed.

(** The new contents of one chunk. *)
Lemma write_slice_spec w0 w self data s r self' w' :
  wf self -> w ≡ w0 -> 0 <= buf_offset s -> buf_offset s + slice_len s <= zlen data ->
  0 < slice_len s -> 0 <= chunk_offset s ->
  write_slice data s (self, w) = (r, (self', w')) ->
  w' ≡ w0 /\ (up w -> r = Ok tt /\ up w') /\
  (r = Ok tt /\
  (exists chunk, self' = set_pending self (<[chunk_idx s := Written chunk]> (pending self)) /\
  forall o, 0 <= o < chunk_size self -> zbyte chunk o =
  if decide (chunk_offset s <= o < chunk_offset s + slice_len s)
  then zbyte data (buf_offset s + (o - chunk_offset s))
  else zbyte (default [] (chunk_content w0 self (chunk_idx s))) o)
  \/ r <> Ok tt /\ self' = self).
Proof.
  intros Hwf Hw Hb Hd Hl Ho Hr. unfold write_slice, bind at 1 2 in Hr.
  unfold on_fst at 1, get_state in Hr. cbn [fst snd] in Hr.
  set (whole := (chunk_offset s =? 0) && (slice_len s =? chunk_size self)) in Hr.
  set (start := if whole then zeros (chunk_size self)
    else default [] (chunk_content w0 self (chunk_idx s))).
  assert (Hstart : exists r1 w1,
    (if whole then ret (zeros (chunk_size self)) else on_snd (chunk_contents self (chunk_idx s)))
    (self, w) = (r1, (self, w1)) /\ w1 ≡ w0 /\ (up w -> up w1 /\ exists a, r1 = Ok a) /\
    (forall a, r1 = Ok a -> a = start)).
  { unfold start. destruct whole.
    - exists (Ok (zeros (chunk_size self))), w. split_and!; [done..|eauto|by intros ? [= <-]].
    - unfold on_snd. cbn [fst snd]. destruct (chunk_contents self _ w) as [r1 w1] eqn:Hc.
      exists r1, w1. split; [done|].
      by destruct (chunk_contents_spec w0 self (chunk_idx s) w r1 w1 Hw Hc). }
  destruct Hstart as (r1 & w1 & Hrun & Hw1 & Hup & Hval). rewrite Hrun in Hr.
  destruct r1 as [a|e|p]; simplify_eq.
  2-3: split_and!; [done| |by right]; by intros (_ & ? & ?)%Hup.
  rewrite (Hval _ eq_refl) in Hr.
  set (len := chunk_offset s + slice_len s) in *.
  set (grown := if zlen start <? len then vec_resize start len else start) in Hr.
  assert (Hgl : len <= zlen grown).
  { unfold grown. destruct (Z.ltb_spec (zlen start) len); [|lia]. rewrite zlen_resize; lia. }
  assert (Hgb : forall o, 0 <= o -> zbyte grown o = zbyte start o).
  { intros o Hop. unfold grown. destruct (Z.ltb_spec (zlen start) len) as [Hlt|]; [|done].
    destruct (decide (o < len)); [by apply zbyte_resize; lia|].
    rewrite !zbyte_ge; [done|lia|]. rewrite zlen_resize; lia. }
  unfold bind, lift in Hr. rewrite slice_range_ok in Hr by lia.
  rewrite copy_from_slice_ok in Hr by (rewrite ?zlen_slice; lia).
  unfold on_fst, put_state in Hr. cbn [fst snd] in Hr. simplify_eq.
  split_and!; [done| |left]. { intros [? _]%Hup. done. }
  split; [done|]. eexists. split; [done|]. intros o Hos.
  rewrite zbyte_splice by (rewrite ?zlen_slice; lia). rewrite zlen_slice by lia.
  destruct (decide (chunk_offset s <= o < chunk_offset s + slice_len s)) as [Hin|Hout].
  - rewrite !decide_True by lia. rewrite zbyte_slice by lia. done.
  - rewrite !decide_False by lia. rewrite Hgb by lia. unfold start, whole in *.
    destruct (Z.eqb_spec (chunk_offset s) 0), (Z.eqb_spec (slice_len s) (chunk_size self));
      simpl; try done. lia.
Qed.

Lemma byte_at_default w self p :
  byte_at w self p =
  zbyte (default [] (chunk_content w self (chunk_of (chunk_size self) (chunk_base_offset self) p)))
  (off_of (chunk_size self) (chunk_base_offset self) p).
Proof. unfold byte_at. destruct (chunk_content _ _ _); [done|]. by rewrite zbyte_nil. Qed.

(** Position [p >= 0] is shown from its chunk at its offset. *)
Lemma position_in_chunk self p :
  wf self -> 0 <= p ->
  0 <= off_of (chunk_size self) (chunk_base_offset self) p < chunk_size self.
Proof.
  intros Hwf Hp. destruct (position_split _ _ (wf_lay _ Hwf) p Hp) as (_ & Ho & _).
  pose proof (capacity_le _ _ (wf_lay _ Hwf)
    (chunk_of (chunk_size self) (chunk_base_offset self) p)). lia.
Qed.

Lemma byte_at_write_slice w self offset (data : list byte) s chunk p :
  wf self -> 0 <= offset ->
  slice_ok (chunk_size self) (chunk_base_offset self) offset (zlen data) s ->
  (forall o, 0 <= o < chunk_size self -> zbyte chunk o =
  if decide (chunk_offset s <= o < chunk_offset s + slice_len s)
  then zbyte data (buf_offset s + (o - chunk_offset s))
  else zbyte (default [] (chunk_content w self (chunk_idx s))) o) ->
  0 <= p ->
  byte_at w (set_pending self (<[chunk_idx s := Written chunk]> (pending self))) p =
  if decide (offset + buf_offset s <= p < offset + (buf_offset s + slice_len s))
  then zbyte data (p - offset) else byte_at w self p.
Proof.
  intros Hwf Hoff Hs Hchunk Hp. pose proof Hs as [Hlo Hhi Hpos Hidx Hof Hcap].
  rewrite !byte_at_default. rewrite chunk_content_insert. cbn [chunk_size chunk_base_offset set_pending].
  set (size := chunk_size self) in *. set (base := chunk_base_offset self) in *.
  case_decide as Heq.
  - cbn [default]. rewrite Hchunk by (by apply position_in_chunk). rewrite Heq.
    destruct (position_split size base (wf_lay _ Hwf) p Hp) as (_ & _ & Hsp).
    destruct (position_split size base (wf_lay _ Hwf) (offset + buf_offset s) ltac:(lia))
      as (_ & _ & Hsq).
    rewrite <-Hidx, <-Hof in Hsq. rewrite <-Heq in Hsp.
    destruct (decide (chunk_offset s <= off_of size base p < chunk_offset s + slice_len s)).
    + rewrite decide_True by lia. f_equal. lia.
    + by rewrite decide_False by lia.
  - rewrite decide_False; [done|]. intros Hin. apply Heq.
    destruct (slice_position size base (wf_lay _ Hwf) offset (zlen data) s (p - offset) Hoff Hs)
      as [Hc _]; [lia|].
    rewrite <-Hc. f_equal. lia.
Qed.

(** The loop of [write]: a prefix of the data is staged, all of it when the
    call succeeds. *)
Lemma write_loop_spec data offset slices covered w0 w self r self' w' :
  wf self -> w ≡ w0 -> 0 <= offset -> offset + zlen data <= 2 ^ 64 -> 0 <= covered ->
  tiles (chunk_size self) (chunk_base_offset self) offset covered (zlen data) slices ->
  for_each slices (write_slice data) (self, w) = (r, (self', w')) ->
  w' ≡ w0 /\ (up w -> r = Ok tt /\ up w') /\ same_file self self' /\ wf self' /\
  exists k, covered <= k <= zlen data /\ (r = Ok tt -> k = zlen data) /\
  forall p, 0 <= p -> byte_at w0 self' p =
  if decide (offset + covered <= p < offset + k) then zbyte data (p - offset)
  else byte_at w0 self p.
Proof.
  revert covered w self. induction slices as [|s slices IH];
    intros covered w self Hwf Hw Hoff Hlen Hcov Ht Hr; cbn [for_each] in Hr.
  { unfold ret in Hr. simplify_eq. simpl in Ht. subst covered.
    split_and!; [done..|apply same_file_refl|done|].
    exists (zlen data). split_and!; [done..|]. intros p Hp. by rewrite decide_False by lia. }
  pose proof Ht as (Hb & _ & _ & _ & Hpos & Ht').
  destruct (tiles_slice _ _ _ _ _ _ s Hcov Ht ltac:(by left)) as [Hs _].
  pose proof (tiles_bounds _ _ _ _ _ _ Ht').
  pose proof Hs as [Hlo Hhi _ Hidx Hof _].
  assert (Hco : 0 <= chunk_offset s).
  { rewrite Hof. apply (position_split _ _ (wf_lay _ Hwf)). lia. }
  unfold bind in Hr. destruct (write_slice data s (self, w)) as [r1 [self1 w1]] eqn:Hstep.
  destruct (write_slice_spec w0 w self data s r1 self1 w1 Hwf Hw Hlo Hhi Hpos Hco Hstep)
    as (Hw1 & Hup & [(-> & chunk & -> & Hchunk)|(Hne & ->)]).
  - assert (Hi : is_u64 (chunk_idx s)).
    { rewrite Hidx. apply (chunk_of_u64 _ _ (wf_lay _ Hwf)). split; lia. }
    pose proof (wf_insert self _ (Written chunk) Hwf Hi) as Hwf1.
    destruct (IH (covered + slice_len s) w1 _ Hwf1 Hw1 Hoff Hlen ltac:(lia) Ht' Hr)
      as (Hw' & Hup' & Hsame & Hwf' & k & Hk & Hok & Hbytes).
    split_and!; [done| | |done|].
    + intros [_ Hu]%Hup. by apply Hup'.
    + eapply same_file_trans; [apply same_file_set|exact Hsame].
    + exists k. split_and!; [lia..|done|]. intros p Hp. rewrite (Hbytes p Hp).
      rewrite (byte_at_write_slice w0 self offset data s chunk p Hwf Hoff Hs Hchunk Hp).
      rewrite Hb. repeat case_decide; (done || lia).
  - destruct r1 as [[]|e|p]; [done|..]; simplify_eq;
      (split_and!; [done|by intros [? _]%Hup|apply same_file_refl|done|]);
      exists (buf_offset s); (split_and!; [lia..|done|]); intros q Hq; by rewrite decide_False by lia.
Qed.

(** What [write] does to the bytes of the file. *)
Lemma write_ok data offset w self r self' w' :
  wf self -> 0 <= offset -> offset + zlen data <= 2 ^ 64 ->
  write data offset (self, w) = (r, (self', w')) ->
  w' ≡ w /\ (up w -> r = Ok tt /\ up w') /\ same_file self self' /\ wf self' /\
  exists k, 0 <= k <= zlen data /\ (r = Ok tt -> k = zlen data) /\
  forall p, 0 <= p -> byte_at w self' p =
  if decide (offset <= p < offset + k) then zbyte data (p - offset) else byte_at w self p.
Proof.
  intros Hwf Hoff Hlen Hr.
  destruct (split_ok self (zlen data) offset) as (slices & Hsplit & Ht); [done..|].
  unfold write, bind, on_fst, get_state, lift in Hr. cbn [fst snd] in Hr.
  rewrite Hsplit in Hr. cbn [fst snd] in Hr.
  eapply (write_loop_spec data offset slices 0 w) in Hr; try done.
  destruct Hr as (? & ? & ? & ? & k & ? & ? & Hbytes). split_and!; try done.
  exists k. split_and!; [lia..|done|]. intros p Hp. by rewrite Hbytes, Z.add_0_r.
Qed.

(** ** Truncating *)

Lemma select_indices_spec f min keys acc :
  is_u64 f -> (forall k, k ∈ keys -> exists i, is_u64 i /\ k = chunk_key f i) ->
  exists out, select_indices min keys acc = Ok out /\
  forall i, i ∈ out <-> i ∈ acc \/ (min <= i /\ is_u64 i /\ chunk_key f i ∈ keys).
Proof.
  intros Hf. revert acc. induction keys as [|k keys IH]; intros acc Hkeys; cbn [select_indices].
  { exists acc. split; [done|]. intros i. rewrite elem_of_nil. tauto. }
  destruct (Hkeys k ltac:(by left)) as (j & Hj & ->).
  rewrite parse_chunk_key by done. cbn [res_bind].
  destruct (IH (if min <=? j then acc ++ [j] else acc)) as (out & Hout & Hel).
  { intros k Hk. apply Hkeys. by right. }
  exists out. split; [done|]. intros i. rewrite Hel, elem_of_cons.
  assert (Heq : is_u64 i -> chunk_key f i = chunk_key f j -> i = j).
  { intros Hi Hk. by apply chunk_key_inj in Hk as [_ ->]. }
  destruct (Z.leb_spec min j); rewrite ?elem_of_app, ?list_elem_of_singleton; [naive_solver|].
  split; [naive_solver|]. intros [|(? & ? & [Hk|])]; [tauto| |tauto].
  apply Heq in Hk as ->; [lia|done].
Qed.

Lemma collect_persisted_spec w self min :
  wf self -> wf_world w self ->
  reads w (collect_persisted_chunk_indices self min)
  (fun l => forall i, i ∈ l <-> min <= i /\ is_u64 i /\
  is_Some (cs_view w (store self) !! chunk_key (file_id self) i)).
Proof.
  intros Hwf Hw. pose proof (wf_file _ Hwf) as Hf.
  eapply reads_bind; [apply cs_keys_with_prefix_spec|]. intros keys [_ Hel].
  destruct (select_indices_spec (file_id self) min keys [] Hf) as (out & Hout & Hin).
  { intros k [Hk Hpre]%Hel. by eapply chunk_prefix_inv. }
  eapply reads_lift; [exact Hout|]. intros i. rewrite Hin, elem_of_nil, Hel.
  split; [tauto|]. intros (? & ? & ?). right. split_and!; [done..|].
  by apply chunk_key_starts_with.
Qed.

Lemma pending_mark_deleted (self : ChunkManager S) l i :
  pending (mark_chunks_deleted self l) !! i =
  if decide (i ∈ l) then Some Deleted else pending self !! i.
Proof. apply lookup_foldl_deleted. Qed.

Lemma wf_mark_deleted self l :
  wf self -> (forall i, i ∈ l -> is_u64 i) -> wf (mark_chunks_deleted self l).
Proof.
  intros [Hl Hf Hp] Hin. split; [done..|]. intros i. rewrite pending_mark_deleted.
  case_decide; [by auto|]. apply Hp.
Qed.

Lemma wf_set_pending self p :
  wf self -> (forall i, is_Some (p !! i) -> is_u64 i) -> wf (set_pending self p).
Proof. intros [Hl Hf _] Hp. by split. Qed.

Lemma zbyte_shortened (c : list byte) len o :
  zbyte (if len <? zlen c then vec_truncate c len else c) o =
  if decide (o < len) then zbyte c o else x00.
Proof.
  destruct (Z.ltb_spec len (zlen c)); [apply zbyte_take|].
  case_decide; [done|]. apply zbyte_ge. lia.
Qed.

(** The staged changes after a truncation to [n > 0] bytes, the last of them
    in chunk [l] at offset [len - 1]. *)
Lemma truncate_content w self l len shortened deleted i :
  (shortened = match pending self !! l with
       | Some _ => None
       | None =>
           let c := default [] (cs_view w (store self) !! chunk_key (file_id self) l) in
           if len <? zlen c then Some (vec_truncate c len) else None
       end) ->
  (forall i, i ∈ deleted <-> l + 1 <= i /\ is_u64 i /\
  is_Some (cs_view w (store self) !! chunk_key (file_id self) i)) ->
  let retained := filter (fun p => p.1 <= l) (pending self) in
  let pend :=
  match retained !! l with
  | Some (Written chunk) =>
  if len <? zlen chunk then <[l := Written (vec_truncate chunk len)]> retained
  else retained
  | _ => match shortened with
   | Some chunk => <[l := Written chunk]> retained
   | None => retained
   end
  end in
  (forall i, is_Some (pend !! i) -> i <= l /\ (i = l \/ is_Some (pending self !! i))) /\
  (is_u64 i -> forall o,
  zbyte (default [] (chunk_content w (mark_chunks_deleted (set_pending self pend) deleted) i)) o =
  if decide (i < l \/ i = l /\ o < len)
  then zbyte (default [] (chunk_content w self i)) o else x00).
Proof.
  intros Hsh Hdel retained pend.
  assert (Hret : forall j, retained !! j = if decide (j <= l) then pending self !! j else None).
  { intros j. unfold retained. rewrite map_lookup_filter.
    destruct (pending self !! j) as [c|]; simpl; [|by case_decide].
    destruct (decide (j <= l)); [by rewrite option_guard_True|by rewrite option_guard_False]. }
  assert (Hpend : forall j, pend !! j =
    if decide (j = l) then
    match pending self !! l with
    | Some (Written chunk) => Some (Written (if len <? zlen chunk then vec_truncate chunk len
    else chunk))
    | Some Deleted => Some Deleted
    | None => Written <$> shortened
    end
    else retained !! j).
  { intros j. unfold pend. rewrite (Hret l), decide_True by lia. subst shortened.
    destruct (pending self !! l) as [[chunk|]|] eqn:Hl; cbn zeta;
      repeat match goal with |- context [if ?a <? ?b then _ else _] => destruct (a <? b) end;
      destruct (decide (j = l)) as [->|Hne]; rewrite ?lookup_insert_eq, ?lookup_insert_ne by done;
      rewrite ?Hret, ?decide_True, ?Hl by lia; done. }
  split.
  { intros j. rewrite Hpend. case_decide as Hjl; [intros _; split; [lia|by left]|].
    rewrite Hret. case_decide; [intros ?; split; [done|by right]|by intros []]. }
  intros Hi o. unfold chunk_content. rewrite pending_mark_deleted.
  cbn [pending set_pending store file_id mark_chunks_deleted].
  case_decide as Hin.
  { apply Hdel in Hin. rewrite decide_False by lia. apply zbyte_nil. }
  rewrite Hpend. destruct (decide (i = l)) as [->|Hne].
  - rewrite (decide_ext _ (o < len)) by lia. subst shortened.
    destruct (pending self !! l) as [[chunk|]|] eqn:Hl; cbn [default].
    + apply zbyte_shortened.
    + rewrite zbyte_nil. by repeat case_decide.
    + set (c := default [] (cs_view w (store self) !! _)).
      etrans; [|etrans; [apply (zbyte_shortened c len o)|by repeat case_decide]]. cbn zeta.
      destruct (len <? zlen c) eqn:Hlt; done.
  - rewrite Hret. case_decide as Hle.
    + by rewrite decide_True by lia.
    + rewrite decide_False by lia.
      destruct (cs_view w (store self) !! chunk_key (file_id self) i) eqn:Hc;
        [|apply zbyte_nil].
      destruct Hin. apply Hdel. split_and!; [lia|done|by eexists].
Qed.

(** The read of the last chunk that [truncate] makes before it changes
    anything. *)
Lemma truncate_shorten w self l len :
  exists r w',
  match pending self !! l with
  | Some _ => ret None
  | None =>
  let! persisted := on_snd (read_chunk_from_store self l) in
  ret (if len <? zlen persisted then Some (vec_truncate persisted len) else None)
  end (self, w) = (r, (self, w')) /\ w' ≡ w /\ (up w -> up w' /\ exists a, r = Ok a) /\
  (forall a, r = Ok a -> a =
  match pending self !! l with
  | Some _ => None
  | None =>
   let c := default [] (cs_view w (store self) !! chunk_key (file_id self) l) in
   if len <? zlen c then Some (vec_truncate c len) else None
  end).
Proof.
  destruct (pending self !! l) as [c|].
  { exists (Ok None), w. split_and!; [done..|eauto|by intros ? [= <-]]. }
  unfold bind, on_snd. cbn [fst snd].
  destruct (read_chunk_from_store self l w) as [r1 w1] eqn:Hr.
  destruct (read_chunk_from_store_spec w self l w r1 w1 ltac:(done) Hr) as (Hw1 & Hup & Hc).
  destruct r1 as [c|e|p]; eexists _, w1; (split; [done|]); (split_and!; [done| |]).
  - intros [? _]%Hup. eauto.
  - intros a [= <-]. by rewrite (Hc _ eq_refl).
  - by intros (_ & ? & ?)%Hup.
  - done.
  - by intros (_ & ? & ?)%Hup.
  - done.
Qed.

(** What [truncate] does to the bytes of the file; a failed call changes
    nothing. *)
(** What a truncation to [n] bytes leaves. *)
Definition truncate_post (n : Z) (w : W) (self : ChunkManager S) (r : Result unit)
    (self' : ChunkManager S) (w' : W) : Prop :=
  w' ≡ w /\ (up w -> r = Ok tt /\ up w') /\ same_file self self' /\ wf self' /\
  (r <> Ok tt -> self' = self) /\
  (r = Ok tt -> forall p, is_u64 p ->
   byte_at w self' p = if decide (p < n) then byte_at w self p else x00).

Lemma truncate_to_zero w self r self' w' :
  wf self -> wf_world w self ->
  truncate 0 (self, w) = (r, (self', w')) -> truncate_post 0 w self r self' w'.
Proof.
  intros Hwf Hw Hr. unfold truncate, bind at 1, on_fst at 1, get_state in Hr.
  cbn [fst snd] in Hr. rewrite Z.eqb_refl in Hr. unfold truncate_post.
  unfold bind at 1, on_snd at 1 in Hr. cbn [fst snd] in Hr.
  destruct (collect_persisted_chunk_indices self 0 w) as [rc w1] eqn:Hc.
  destruct (collect_persisted_spec w self 0 Hwf Hw w rc w1 ltac:(done) Hc) as (Hw1 & Hup & Hl).
  destruct rc as [l|e|p]; cycle 1; [| |unfold on_fst, put_state in Hr]; cbn in Hr; simplify_eq.
  1-2: split_and!; [done|by intros (_ & ? & ?)%Hup|apply same_file_refl|done..].
  specialize (Hl _ eq_refl). split_and!; [done| |by destruct self| |done|].
  - by intros [? _]%Hup.
  - apply wf_mark_deleted; [|by intros i (_ & ? & _)%Hl].
    apply wf_set_pending; [done|]. intros i. rewrite lookup_empty. by intros [].
  - intros _ p Hp. rewrite decide_False by (destruct Hp; lia).
    rewrite byte_at_default. unfold chunk_content. rewrite pending_mark_deleted.
    cbn [set_pending pending chunk_size chunk_base_offset mark_chunks_deleted store file_id].
    pose proof (chunk_of_u64 _ _ (wf_lay _ Hwf) p Hp) as Hi.
    case_decide as Hin; [apply zbyte_nil|]. rewrite lookup_empty.
    destruct (cs_view _ _ !! _) eqn:Hv; [|apply zbyte_nil].
    destruct Hin. apply Hl. split_and!; [apply Hi|done|by eexists].
Qed.

Lemma truncate_to_some n w self r self' w' :
  wf self -> wf_world w self -> is_u64 n -> n <> 0 ->
  truncate n (self, w) = (r, (self', w')) -> truncate_post n w self r self' w'.
Proof.
  intros Hwf Hw Hn Hne Hr. unfold truncate, bind at 1, on_fst at 1, get_state in Hr.
  cbn [fst snd] in Hr. rewrite (proj2 (Z.eqb_neq n 0)) in Hr by done. unfold truncate_post.
  assert (Hn1 : 0 <= n - 1 < u64_max) by (unfold u64_max; destruct Hn; lia).
  assert (Hn1' : is_u64 (n - 1)) by (destruct Hn; split; lia).
  destruct (split_ok self 1 (n - 1)) as (slices & Hsplit & Ht); [done|destruct Hn; lia..|].
  destruct (tiles_head _ _ _ _ _ _ Ht ltac:(lia)) as (s & t & -> & _ & Hi & Ho).
  rewrite Z.add_0_r in Hi, Ho.
  unfold bind at 1 2, lift in Hr. rewrite Hsplit, Hi, Ho in Hr.
  clear Hi Ho Hsplit Ht.
  set (size := chunk_size self) in *. set (base := chunk_base_offset self) in *.
  set (l := chunk_of size base (n - 1)) in *. set (o := off_of size base (n - 1)) in *.
  rewrite (wrap64_small (l + 1)) in Hr by (by apply (chunk_of_next_u64 _ _ (wf_lay _ Hwf))).
  pose proof (chunk_of_u64 _ _ (wf_lay _ Hwf) (n - 1) Hn1') as Hlu. fold size base l in Hlu.
  destruct (truncate_shorten w self l (o + 1)) as (r1 & w1 & Hrun & Hw1 & Hup1 & Hsh).
  unfold bind at 1 in Hr. rewrite Hrun in Hr.
  destruct r1 as [shortened|e|p]; simplify_eq.
  2-3: split_and!; [done|by intros (_ & ? & ?)%Hup1|apply same_file_refl|done..].
  unfold bind, on_snd in Hr. cbn [fst snd] in Hr.
  destruct (collect_persisted_chunk_indices self (l + 1) w1) as [rc w2] eqn:Hc.
  destruct (collect_persisted_spec w self (l + 1) Hwf Hw w1 rc w2 Hw1 Hc)
    as (Hw2 & Hup2 & Hdel).
  destruct rc as [del|e|p]; simplify_eq.
  2-3: split_and!; [done|by intros [Hu _]%Hup1; apply Hup2 in Hu as (_ & ? & ?)|
    apply same_file_refl|done..].
  specialize (Hdel _ eq_refl). unfold on_fst, put_state in Hr. cbn [fst snd] in Hr.
  injection Hr as <- <- <-. specialize (Hsh _ eq_refl).
  split_and!; [done| |by destruct self| |done|].
  - intros [Hu _]%Hup1. by apply Hup2 in Hu as [? _].
  - apply wf_mark_deleted; [|by intros i (_ & ? & _)%Hdel]. apply wf_set_pending; [done|].
    intros i [_ [->|Hp]]%(truncate_content w self l (o + 1) shortened del i Hsh Hdel);
      [done|by apply Hwf].
  - intros _ p Hp. rewrite !byte_at_default. fold size base.
    pose proof (chunk_of_u64 _ _ (wf_lay _ Hwf) p Hp) as Hpi. fold size base in Hpi.
    destruct (truncate_content w self l (o + 1) shortened del (chunk_of size base p) Hsh Hdel)
      as [_ Hb].
    etrans; [exact (Hb Hpi (off_of size base p))|].
    pose proof (chunk_of_mono _ _ (wf_lay _ Hwf) p (n - 1)) as Hm1.
    pose proof (chunk_of_mono _ _ (wf_lay _ Hwf) (n - 1) p) as Hm2.
    pose proof (off_of_lt _ _ (wf_lay _ Hwf) (n - 1) p) as Hm3.
    fold size base in Hm1, Hm2, Hm3. fold l in Hm1, Hm2, Hm3. fold o in Hm3. destruct Hp.
    destruct (decide (p < n)) as [Hlt|Hge]; [rewrite decide_True|rewrite decide_False]; lia || done.
Qed.

Lemma truncate_ok n w self r self' w' :
  wf self -> wf_world w self -> is_u64 n ->
  truncate n (self, w) = (r, (self', w')) -> truncate_post n w self r self' w'.
Proof.
  intros Hwf Hw Hn Hr. destruct (decide (n = 0)) as [->|Hne];
    [by apply truncate_to_zero|by apply truncate_to_some].
Qed.

(** ** Flushing *)

Lemma elem_btree_entries {A} (m : gmap Z A) i x : (i, x) ∈ btree_entries m <-> m !! i = Some x.
Proof. unfold btree_entries. rewrite merge_sort_Permutation. apply elem_of_map_to_list. Qed.

Lemma btree_entries_NoDup {A} (m : gmap Z A) : NoDup (btree_entries m).*1.
Proof. unfold btree_entries. rewrite merge_sort_Permutation. apply NoDup_fst_map_to_list. Qed.

(** The operations a flush writes. *)
Definition pending_ops (self : ChunkManager S) : WriteBatch :=
  pending_op (file_id self) <$> btree_entries (pending self).

Lemma elem_pending_ops self o :
  o ∈ pending_ops self <->
  exists i c, pending self !! i = Some c /\ o = pending_op (file_id self) (i, c).
Proof.
  unfold pending_ops. rewrite list_elem_of_fmap. split.
  - intros ([i c] & -> & Hin%elem_btree_entries). eauto.
  - intros (i & c & Hp & ->). exists (i, c). split; [done|]. by apply elem_btree_entries.
Qed.

Lemma op_key_pending_op f i c : op_key (pending_op f (i, c)) = chunk_key f i.
Proof. by destruct c. Qed.

Lemma pending_ops_NoDup self : wf self -> NoDup (op_key <$> pending_ops self).
Proof.
  intros Hwf. unfold pending_ops. rewrite <-list_fmap_compose.
  pose proof (btree_entries_NoDup (pending self)) as Hnd.
  assert (Hu : forall e, e ∈ btree_entries (pending self) -> is_u64 e.1).
  { intros [i c] Hin%elem_btree_entries. by apply (wf_pending _ Hwf i). }
  induction (btree_entries (pending self)) as [|[i c] l IH]; [constructor|].
  rewrite fmap_cons, NoDup_cons in Hnd. destruct Hnd as [Hi Hnd].
  rewrite fmap_cons, NoDup_cons. split.
  - intros ([j d] & Hk & Hj)%list_elem_of_fmap. unfold compose in Hk.
    rewrite !op_key_pending_op in Hk. pose proof (wf_file _ Hwf) as Hf.
    apply chunk_key_inj in Hk as [_ ->]; [|done|done|apply (Hu (i, c)); by left|
      apply (Hu (j, d)); by right].
    apply Hi. by apply (list_elem_of_fmap_2 fst l (j, d)).
  - apply IH; [done|]. intros e He. apply Hu. by right.
Qed.

(** The flush gives each chunk its staged contents. *)
Lemma lookup_flush self m i :
  wf self -> is_u64 i ->
  apply_batch m (pending_ops self) !! chunk_key (file_id self) i =
  match pending self !! i with
  | Some (Written chunk) => Some chunk
  | Some Deleted => None
  | None => m !! chunk_key (file_id self) i
  end.
Proof.
  intros Hwf Hi. destruct (pending self !! i) as [c|] eqn:Hp.
  - rewrite <-(op_key_pending_op _ i c).
    rewrite lookup_apply_batch; [by destruct c|by apply pending_ops_NoDup|].
    apply elem_pending_ops. eauto.
  - apply lookup_apply_batch_ne. intros o (j & c & Hj & ->)%elem_pending_ops Hk.
    rewrite op_key_pending_op in Hk. pose proof (wf_file _ Hwf) as Hf.
    apply chunk_key_inj in Hk as [_ ->]; [congruence|done|done| |done].
    apply (wf_pending _ Hwf). eauto.
Qed.

(** It touches only chunks of its own file. *)
Lemma lookup_flush_other self m k :
  (forall i, is_u64 i -> k <> chunk_key (file_id self) i) -> wf self ->
  apply_batch m (pending_ops self) !! k = m !! k.
Proof.
  intros Hk Hwf. apply lookup_apply_batch_ne. intros o (j & c & Hj & ->)%elem_pending_ops <-.
  rewrite op_key_pending_op in Hk. apply (Hk j); [|done]. apply (wf_pending _ Hwf). eauto.
Qed.

Lemma pending_ops_chunk_keys self : wf self -> Forall op_chunk_keys (pending_ops self).
Proof.
  intros Hwf. apply Forall_forall. intros o (i & c & Hp & ->)%elem_pending_ops.
  destruct c; simpl; [intros _|done]. exists (file_id self), i.
  split_and!; [apply Hwf|apply (wf_pending _ Hwf); eauto|done].
Qed.

(** Once its operations are in the store, dropping the staged changes does
    not change what the manager shows. *)
Lemma byte_at_flushed w w' self p :
  wf self -> is_u64 p ->
  (forall i, is_u64 i ->
  cs_view w' (store self) !! chunk_key (file_id self) i =
  apply_batch (cs_view w (store self)) (pending_ops self) !! chunk_key (file_id self) i) ->
  byte_at w' (mark_flushed self) p = byte_at w self p.
Proof.
  intros Hwf Hp Hw. unfold byte_at, chunk_content.
  cbn [mark_flushed set_pending pending store file_id chunk_size chunk_base_offset].
  pose proof (chunk_of_u64 _ _ (wf_lay _ Hwf) p Hp) as Hi.
  rewrite lookup_empty, Hw, lookup_flush by done. by destruct (pending self !! _) as [[]|].
Qed.

(** Nor does the write alone. *)
Lemma byte_at_unflushed w w' self p :
  wf self -> is_u64 p ->
  (forall i, is_u64 i ->
  cs_view w' (store self) !! chunk_key (file_id self) i =
  apply_batch (cs_view w (store self)) (pending_ops self) !! chunk_key (file_id self) i) ->
  byte_at w' self p = byte_at w self p.
Proof.
  intros Hwf Hp Hw. unfold byte_at, chunk_content.
  pose proof (chunk_of_u64 _ _ (wf_lay _ Hwf) p Hp) as Hi.
  rewrite Hw, lookup_flush by done. by destruct (pending self !! _) as [[]|].
Qed.

Lemma wf_mark_flushed self : wf self -> wf (mark_flushed self).
Proof. intros Hwf. apply wf_set_pending; [done|]. intros i. rewrite lookup_empty. by intros []. Qed.

Lemma no_pending (self : ChunkManager S) :
  has_pending_changes self = false -> pending self = ∅.
Proof. unfold has_pending_changes. by case_bool_decide. Qed.
End spec.
