(* ===== verification/ChunkProps.v ===== *)
(** * Properties of the chunk manager

    The theorems about rust/src/chunk_manager.rs that a reader should know,
    each applied at a concrete input in the memory world of MemDb.v. *)

From S2P Require Import Prelude RustStd Error Keys SlateDb MemDb ChunkStore ChunkLayout.
From S2P Require Import ChunkManager ChunkManagerSpec.

(** ** A small file for the examples: chunks of 8 bytes, the first of 3 *)

Definition ex_db : MDb := {| mdb_path := bytes_of "db" |}.
Abbreviation ExManager := (ChunkManager (SlateDbChunkStore MDb)).
Definition ex_empty : ExManager := ChunkManager.new {| store_db := ex_db |} 7 8 3.
Definition ex_stored : kv := <[chunk_key 7 1 := bytes_of "defghijk"]> ∅.
Definition ex_world : MemWorld := mem_world {[ mdb_path ex_db := ex_stored ]}.
Definition ex_manager : ExManager :=
  set_pending ex_empty (<[0 := Written (bytes_of "ab")]> (pending ex_empty)).

Lemma wf_ex_empty : wf ex_empty.
Proof. split; [done|done|]. intros i. cbn. rewrite lookup_empty. by intros []. Qed.
Lemma wf_ex_manager : wf ex_manager.
Proof. by apply wf_insert; [apply wf_ex_empty|]. Qed.
Lemma wf_ex_stored : wf_chunk_keys ex_stored.
Proof.
  apply (wf_chunk_keys_batch ∅ [Put (chunk_key 7 1) (bytes_of "defghijk")]);
    [|apply wf_chunk_keys_empty].
  apply Forall_singleton. intros _. by exists 7, 1.
Qed.
Lemma wf_ex_world m : store m = store ex_empty -> wf_world ex_world m.
Proof.
  intros Hs. unfold wf_world. rewrite Hs.
  change (wf_chunk_keys (default ∅ (({[mdb_path ex_db := ex_stored]} : gmap _ kv) !! mdb_path ex_db))).
  rewrite lookup_singleton_eq. apply wf_ex_stored.
Qed.

(** ** Layout *)

(** C28: splitting a range terminates with slices that tile it: the slices are
    in consecutive chunks starting at the chunk of the first position, each
    stays inside the capacity of its chunk, and every position of the range is
    in exactly one slice, at its own chunk and offset. *)
Theorem split_tiles_range size base len offset :
  wf_layout size base -> 0 <= len -> 0 <= offset -> offset + len <= 2 ^ 64 ->
  exists l, ChunkLayout.split_into_chunks (E:=Error) size base len offset = Ok l /\
    chunk_idx <$> l = seqZ (chunk_of size base offset) (zlen l) /\
    (forall s, s ∈ l -> 0 < slice_len s /\ 0 <= chunk_offset s /\
       chunk_offset s + slice_len s <= capacity size base (chunk_idx s)) /\
    (forall j, 0 <= j < len -> exists s, s ∈ l /\
       buf_offset s <= j < buf_offset s + slice_len s /\
       chunk_idx s = chunk_of size base (offset + j) /\
       chunk_offset s + (j - buf_offset s) = off_of size base (offset + j) /\
       forall t, t ∈ l -> buf_offset t <= j < buf_offset t + slice_len t -> t = s).
Proof.
  intros Hwf Hlen Ho Hmax.
  destruct (split_tiles size base Hwf (E:=Error) len offset Hlen Ho Hmax) as (l & Hl & Ht).
  exists l. split_and!; [done| | |].
  - rewrite (tiles_indices size base Hwf offset 0 len l Ho (Z.le_refl 0) Ht). by rewrite Z.add_0_r.
  - intros s Hs. destruct (tiles_slice _ _ _ _ _ _ _ (Z.le_refl 0) Ht Hs) as [[? ? ? ? Hof ?] _].
    split_and!; [done| |done]. rewrite Hof. apply (position_split _ _ Hwf). lia.
  - intros j Hj. destruct (tiles_cover _ _ _ _ _ _ j Ht Hj) as (s & Hs & Hsj).
    destruct (tiles_slice _ _ _ _ _ _ _ (Z.le_refl 0) Ht Hs) as [Hok _].
    destruct (slice_position size base Hwf offset len s j Ho Hok Hsj) as [Hc Hof].
    exists s. split_and!; [done|lia|lia|done|done|].
    intros t Hin Htj. destruct (tiles_slice _ _ _ _ _ _ _ (Z.le_refl 0) Ht Hin) as [Hokt _].
    destruct (slice_position size base Hwf offset len t j Ho Hokt Htj) as [Hct _].
    pose proof (tiles_indices_NoDup size base Hwf offset 0 len l Ho (Z.le_refl 0) Ht) as Hnd.
    apply list_elem_of_lookup in Hs as [i Hi], Hin as [k Hk].
    assert (i = k) as <-; [|congruence].
    apply (NoDup_lookup _ _ _ (chunk_idx s) Hnd); rewrite list_lookup_fmap, ?Hi, ?Hk; simpl;
      congruence.
Qed.

Lemma split_tiles_range_witness :
  exists l, ChunkLayout.split_into_chunks (E:=Error) 8 3 20 1 = Ok l /\
    chunk_idx <$> l = seqZ 0 (zlen l).
Proof.
  destruct (split_tiles_range 8 3 20 1) as (l & Hl & Hi & _); [by split|lia..|].
  exists l. by split.
Defined.

(** ** Reading, writing, truncating, flushing *)

Section props.
Context {W S : Type} `{World W} `{ChunkStore W S} `{!ChunkStoreLaws W S}.

(** C26: on a store that answers, [read] fills the buffer with the bytes the
    manager shows, staged changes over stored chunks over zeroes, and leaves
    the world as it is; the one exception is a read that starts inside a
    chunk that ends before its start, which panics. *)
Theorem read_shows_bytes (w : W) (self : ChunkManager S) buf offset :
  wf self -> wf_world w self -> 0 <= offset -> offset + zlen buf <= 2 ^ 64 -> up w ->
  exists r buf' w', read self offset (buf, w) = (r, (buf', w')) /\ w' ≡ w /\ up w' /\
  (~ short_read w self (zlen buf) offset ->
  r = Ok tt /\ buf' = tabulate (byte_at w self) offset (zlen buf)) /\
  (short_read w self (zlen buf) offset -> r = Panic "slice index out of range").
Proof.
  intros Hwf Hw Ho Hlen Hu.
  destruct (decide (short_read w self (zlen buf) offset)) as [Hs|Hs].
  - destruct (read_short w self buf offset Hwf Hw Ho Hlen Hu Hs) as (buf' & w' & ? & ? & Hr).
    exists (Panic "slice index out of range"), buf', w'. by split_and!.
  - destruct (read self offset (buf, w)) as [r [buf' w']] eqn:Hr.
    destruct (read_ok w self buf offset r buf' w' Hwf Hw Ho Hlen Hs Hr) as (? & Hup & Hb).
    destruct (Hup Hu) as [-> ?]. exists (Ok tt), buf', w'. split_and!; [done..|by auto|done].
Qed.

(** C24: [write] stages the data: afterwards the manager shows the data in
    its range and what it showed before elsewhere.  It succeeds whenever the
    store answers; when it fails, a prefix of the data is staged.  The store
    itself is not touched. *)
Theorem write_updates_bytes (w : W) (self : ChunkManager S) data offset r self' w' :
  wf self -> 0 <= offset -> offset + zlen data <= 2 ^ 64 ->
  write data offset (self, w) = (r, (self', w')) ->
  w' ≡ w /\ (up w -> r = Ok tt) /\ same_file self self' /\ wf self' /\
  exists k, 0 <= k <= zlen data /\ (r = Ok tt -> k = zlen data) /\
  forall p, 0 <= p -> byte_at w' self' p =
  if decide (offset <= p < offset + k) then zbyte data (p - offset) else byte_at w self p.
Proof.
  intros Hwf Ho Hlen Hr.
  destruct (write_ok data offset w self r self' w' Hwf Ho Hlen Hr)
    as (Hw & Hup & ? & ? & k & ? & ? & Hb).
  split_and!; [done|by intros [? _]%Hup|done|done|].
  exists k. split_and!; [lia..|done|]. intros p Hp. rewrite (byte_at_equiv w' w) by done. by apply Hb.
Qed.

(** C25: [truncate] cuts the bytes at the new size: those before it are kept
    and those from it on are zero.  A failed truncation keeps every staged
    change. *)
Theorem truncate_cuts_bytes (w : W) (self : ChunkManager S) n r self' w' :
  wf self -> wf_world w self -> is_u64 n ->
  truncate n (self, w) = (r, (self', w')) ->
  w' ≡ w /\ (up w -> r = Ok tt) /\ wf self' /\
  (r <> Ok tt -> self' = self) /\
  (r = Ok tt -> forall p, is_u64 p ->
  byte_at w' self' p = if decide (p < n) then byte_at w self p else x00).
Proof.
  intros Hwf Hw Hn Hr.
  destruct (truncate_ok n w self r self' w' Hwf Hw Hn Hr) as (Hw' & Hup & _ & ? & ? & Hb).
  split_and!; [done|by intros [? _]%Hup|done|done|].
  intros Hok p Hp. rewrite (byte_at_equiv w' w) by done. by apply Hb.
Qed.

(** C27: flushing moves the staged changes into the store: in a world where
    the batch has been applied, the manager shows the same bytes whether or
    not it has dropped its staged changes, and the batch touches chunks of
    this file only. *)
Theorem flush_keeps_bytes (w w' : W) (self : ChunkManager S) p :
  wf self -> is_u64 p ->
  cs_view w' (store self) = apply_batch (cs_view w (store self)) (add_pending_to_batch self []) ->
  byte_at w' (mark_flushed self) p = byte_at w self p /\ byte_at w' self p = byte_at w self p /\
  has_pending_changes (mark_flushed self) = false /\
  (wf_world w self -> wf_world w' self) /\
  forall k, (forall i, is_u64 i -> k <> chunk_key (file_id self) i) ->
  cs_view w' (store self) !! k = cs_view w (store self) !! k.
Proof.
  intros Hwf Hp Hv. unfold add_pending_to_batch in Hv. rewrite app_nil_l in Hv.
  fold (pending_ops self) in Hv. split_and!.
  - apply byte_at_flushed; [done..|]. intros. by rewrite Hv.
  - apply byte_at_unflushed; [done..|]. intros. by rewrite Hv.
  - done.
  - unfold wf_world. rewrite Hv. apply wf_chunk_keys_batch. by apply pending_ops_chunk_keys.
  - intros k Hk. rewrite Hv. by apply lookup_flush_other.
Qed.
End props.

Lemma read_shows_bytes_witness :
  exists r buf' w', read ex_manager 0 (zeros 5, ex_world) = (r, (buf', w')) /\
    buf' = tabulate (byte_at ex_world ex_manager) 0 5.
Proof.
  destruct (read_shows_bytes ex_world ex_manager (zeros 5) 0) as (r & buf' & w' & Hr & _ & _ & Hb & _);
    [apply wf_ex_manager|by apply wf_ex_world|done|done|done|].
  exists r, buf', w'. split; [done|]. apply Hb. apply aligned_not_short. by vm_compute.
Defined.

Lemma write_updates_bytes_witness :
  exists r self' w', write (bytes_of "XYZ") 2 (ex_manager, ex_world) = (r, (self', w')) /\
    r = Ok tt /\ byte_at w' self' 2 = byte_of 88.
Proof.
  pose proof (write_updates_bytes ex_world ex_manager (bytes_of "XYZ") 2) as Hw.
  destruct (write (bytes_of "XYZ") 2 (ex_manager, ex_world)) as [r [self' w']].
  destruct (Hw r self' w' wf_ex_manager ltac:(lia) ltac:(done) eq_refl)
    as (_ & Hok & _ & _ & k & _ & Hk & Hb).
  specialize (Hok eq_refl). rewrite (Hk Hok) in Hb.
  exists r, self', w'. split; [done|]. split; [done|]. by rewrite Hb.
Defined.

Lemma truncate_cuts_bytes_witness :
  exists r self' w', truncate 1 (ex_manager, ex_world) = (r, (self', w')) /\
    r = Ok tt /\ byte_at w' self' 1 = x00.
Proof.
  pose proof (truncate_cuts_bytes ex_world ex_manager 1) as Ht.
  destruct (truncate 1 (ex_manager, ex_world)) as [r [self' w']].
  destruct (Ht r self' w' wf_ex_manager (wf_ex_world _ eq_refl) ltac:(done) eq_refl)
    as (_ & Hok & _ & _ & Hb).
  specialize (Hok eq_refl). exists r, self', w'. split; [done|]. split; [done|].
  by rewrite (Hb Hok 1).
Defined.

Lemma ex_update_view (w : MemWorld) d b (s : SlateDbChunkStore MDb) :
  store_db s = d -> cs_view (mem_update w d b) s = apply_batch (cs_view w s) b.
Proof.
  intros <-. etrans; [apply mem_contents_update|]. by rewrite decide_True.
Qed.

Lemma flush_keeps_bytes_witness :
  byte_at (mem_update ex_world ex_db (add_pending_to_batch ex_manager []))
    (mark_flushed ex_manager) 1 = byte_at ex_world ex_manager 1.
Proof.
  apply (flush_keeps_bytes ex_world
    (mem_update ex_world ex_db (add_pending_to_batch ex_manager [])) ex_manager 1); [apply wf_ex_manager|done|].
  by apply ex_update_view.
Defined.

(** ** Fetching *)

(** coalescing cuts ascending indices into ranges that list exactly those
    indices in order, and no two ranges could be joined. *)
Theorem coalesce_maximal_runs l :
  Forall is_u64 l -> StronglySorted Z.lt l ->
  concat (group_range <$> coalesce_chunk_indices l) = l /\
  Forall (fun g => g.1 <= g.2) (coalesce_chunk_indices l) /\
  StronglySorted separated (coalesce_chunk_indices l).
Proof.
  intros Hl Hs. destruct (coalesce_ranges l Hl) as [Hc Hg]. split_and!.
  - done.
  - eapply Forall_impl; [exact Hg|]. by intros g [? _].
  - by apply coalesce_separated.
Qed.

Lemma coalesce_maximal_runs_witness :
  concat (group_range <$> coalesce_chunk_indices [1; 2; 3; 7]) = [1; 2; 3; 7] /\
  coalesce_chunk_indices [1; 2; 3; 7] = [(1, 3); (7, 7)].
Proof.
  split; [|by vm_compute]. apply coalesce_maximal_runs; repeat constructor; unfold is_u64; lia.
Defined.

(** the read-ahead of a range scan is the size of the range in bytes, at
    least one byte and at most four mebibytes, whatever the indices. *)
Theorem scan_read_ahead_bounded first last chunk_size :
  is_u64 first -> is_u64 last -> is_u64 chunk_size -> first <= last ->
  scan_read_ahead_bytes first last chunk_size =
    Z.max 1 (Z.min ((last - first + 1) * chunk_size) MAX_SCAN_READ_AHEAD_BYTES).
Proof.
  intros [? ?] [? ?] [? ?] Hle.
  unfold scan_read_ahead_bytes, saturating_add, saturating_sub, saturating_mul, u64_max,
    MAX_SCAN_READ_AHEAD_BYTES.
  rewrite (Z.max_r 0 (last - first)) by lia.
  destruct (decide (last - first + 1 <= 2 ^ 64 - 1)).
  - rewrite (Z.min_l (last - first + 1)) by lia.
    destruct (decide ((last - first + 1) * chunk_size <= 2 ^ 64 - 1));
      [by rewrite (Z.min_l (_ * _) (2 ^ 64 - 1)) by lia|].
    rewrite (Z.min_r (_ * _) (2 ^ 64 - 1)) by lia. lia.
  - rewrite (Z.min_r (last - first + 1)) by lia. nia.
Qed.

Lemma scan_read_ahead_bounded_witness : scan_read_ahead_bytes 3 6 100 = 400.
Proof. rewrite scan_read_ahead_bounded; [by vm_compute|by unfold is_u64; lia..|lia]. Defined.

(** C39: chunk keys parse back to their index, order as their file and index
    do, and a scan between two chunk keys of a file, or under its prefix, stays
    within the file. *)
Theorem chunk_key_codec f g i j :
  is_u64 f -> is_u64 g -> is_u64 i -> is_u64 j ->
  parse_chunk_idx (chunk_key f i) = Ok i /\
  (bytes_lt (chunk_key f i) (chunk_key g j) <-> f < g \/ f = g /\ i < j) /\
  (starts_with (chunk_key g j) (chunk_prefix f) = true <-> f = g) /\
  chunk_key f i <> metadata_key g.
Proof.
  intros Hf Hg Hi Hj. split_and!.
  - by apply parse_chunk_key.
  - by apply chunk_key_order.
  - rewrite chunk_key_starts_with by done. naive_solver.
  - apply chunk_key_ne_metadata_key.
Qed.

Lemma chunk_key_codec_witness : parse_chunk_idx (chunk_key 7 255) = Ok 255.
Proof. by apply (chunk_key_codec 7 7 255 255). Defined.
