(* ===== verification/FileMetadata.v ===== *)
(** * File metadata (rust/src/file_metadata.rs, rust/src/util.rs)

    The persisted record of a file and the checks on it.  The protobuf codec
    is generated by prost: it is a parameter, [MetadataCodec], of which the
    crate relies on the round trip only. *)

From S2P Require Import Prelude RustStd Error SlateDb ChunkLayout.

#[local] Open Scope string_scope.
#[local] Open Scope list_scope.
#[local] Open Scope Z_scope.

(** Matches DuckDB's [DEFAULT_BLOCK_ALLOC_SIZE]. *)
Definition DEFAULT_CHUNK_SIZE : Z := 256 * 1024.
(** Matches DuckDB's [SingleFileBlockManager::BLOCK_START]. *)
Definition DEFAULT_CHUNK_BASE_OFFSET : Z := 3 * 4096.

Record FileMetadata := {
  size : Z;
  modified_at_ms : Z;
  chunk_size : Z;
  chunk_base_offset : Z
}.

Class MetadataCodec := {
  encode_to_vec : FileMetadata -> list byte;
  decode : list byte -> res string FileMetadata
}.

(** The fields are [u64]. *)
Record metadata_u64 (m : FileMetadata) : Prop := {
  size_u64 : is_u64 (size m);
  modified_u64 : is_u64 (modified_at_ms m);
  chunk_size_u64 : is_u64 (chunk_size m);
  base_u64 : is_u64 (chunk_base_offset m)
}.

Class MetadataCodecLaws `{MetadataCodec} :=
  decode_encode m : metadata_u64 m -> decode (encode_to_vec m) = Ok m.

(** ** util.rs *)

(** The time in epoch milliseconds: 0 before the epoch, [u64::MAX] past it. *)
Definition current_time_millis {W} `{Clock W} (w : W) : Z * W :=
  let '(now, w') := millis_since_epoch w in
  (Z.min (Z.of_N (default 0%N now)) u64_max, w').

(** ** Operations *)

Section metadata.
Context {W : Type} `{Clock W} `{MetadataCodec}.

Definition new : M Error W FileMetadata := fun w =>
  let '(now, w') := current_time_millis w in
  (Ok {| size := 0; modified_at_ms := now; chunk_size := DEFAULT_CHUNK_SIZE;
         chunk_base_offset := DEFAULT_CHUNK_BASE_OFFSET |}, w').

Definition encode_to_bytes (self : FileMetadata) : list byte := encode_to_vec self.

Definition decode_from_bytes (bytes : list byte) : Result FileMetadata :=
  try_from (from_decode_error unknown_location) (decode bytes).
End metadata.

(** [usize::try_from] cannot fail on a 64-bit target. *)
Definition validated_chunk_size (self : FileMetadata) (file_id : Z) : Result Z :=
  if chunk_size self =? 0 then
    Err (invalid_argument unknown_location
         ("invalid chunk size for file_id " +:+ pretty file_id +:+ ": must be non-zero"))
  else if chunk_size self <=? chunk_base_offset self then
    Err (invalid_argument unknown_location
         ("invalid chunk base offset for file_id " +:+ pretty file_id +:+ ": "
          +:+ pretty (chunk_base_offset self) +:+ " must be less than "
          +:+ pretty (chunk_size self)))
  else Ok (chunk_size self).

(** ** Properties *)

(** Validation accepts exactly the layouts the chunk manager can work with. *)
Lemma validated_chunk_size_ok m id n :
  metadata_u64 m ->
  validated_chunk_size m id = Ok n <->
    n = chunk_size m /\ wf_layout (chunk_size m) (chunk_base_offset m).
Proof.
  intros [_ _ Hs Hb]. unfold validated_chunk_size, is_u64 in *.
  destruct (Z.eqb_spec (chunk_size m) 0) as [H0|H0].
  { split; [done|]. intros [_ [? ?]]. lia. }
  destruct (Z.leb_spec (chunk_size m) (chunk_base_offset m)).
  { split; [done|]. intros [_ [? ?]]. lia. }
  split; [intros [= <-]; split; [done|]; split; lia|]. by intros [-> _].
Qed.

Lemma validated_chunk_size_inv m id :
  (exists n, validated_chunk_size m id = Ok n) \/
  exists e, validated_chunk_size m id = Err e /\ code e = CodeInvalidArgument.
Proof.
  unfold validated_chunk_size. destruct (chunk_size m =? 0); [by eauto|].
  destruct (chunk_size m <=? _); eauto.
Qed.

Section properties.
Context {W : Type} `{ClockLaws W} `{MetadataCodecLaws}.

Lemma current_time_spec (w : W) :
  is_u64 (current_time_millis w).1 /\ (current_time_millis w).2 ≡ w /\
  (up w -> up (current_time_millis w).2).
Proof.
  pose proof (clock_spec w). pose proof (clock_up w).
  unfold current_time_millis, is_u64, u64_max in *.
  destruct (millis_since_epoch w) as [now w']. simpl in *. split; [lia|done].
Qed.

Lemma new_spec (w : W) :
  exists now w', new w = (Ok {| size := 0; modified_at_ms := now;
  chunk_size := DEFAULT_CHUNK_SIZE; chunk_base_offset := DEFAULT_CHUNK_BASE_OFFSET |}, w') /\
  is_u64 now /\ w' ≡ w /\ (up w -> up w').
Proof.
  pose proof (current_time_spec w) as Hn. unfold new.
  destruct (current_time_millis w) as [now w']. by exists now, w'.
Qed.

Lemma decode_encode_bytes m : metadata_u64 m -> decode_from_bytes (encode_to_bytes m) = Ok m.
Proof. intros Hm. apply try_from_ok. by apply decode_encode. Qed.
End properties.

(** ** A codec for the examples *)

Definition mem_encode (m : FileMetadata) : list byte :=
  to_be_bytes (size m) ++ to_be_bytes (modified_at_ms m) ++ to_be_bytes (chunk_size m)
  ++ to_be_bytes (chunk_base_offset m).
Definition mem_decode (l : list byte) : res string FileMetadata :=
  if bool_decide (length l = 32%nat) then
    Ok {| size := from_be_bytes (take 8 l); modified_at_ms := from_be_bytes (take 8 (drop 8 l));
          chunk_size := from_be_bytes (take 8 (drop 16 l));
          chunk_base_offset := from_be_bytes (drop 24 l) |}
  else Err "unexpected length".
#[global] Instance mem_codec : MetadataCodec :=
  {| encode_to_vec := mem_encode; decode := mem_decode |}.

#[global] Instance mem_codec_laws : MetadataCodecLaws.
Proof.
  intros m [Ha Hb Hc Hd]. destruct m as [a b c d].
  cbn [size modified_at_ms chunk_size chunk_base_offset] in *.
  unfold decode, encode_to_vec, mem_codec, mem_encode, mem_decode.
  cbn [size modified_at_ms chunk_size chunk_base_offset].
  assert (Hl : forall z, length (to_be_bytes z) = 8%nat) by (intros; apply length_be_bytes).
  rewrite bool_decide_true by (rewrite !length_app, !Hl; done).
  do 2 f_equal.
  - rewrite take_app_length' by (by rewrite Hl). by apply from_to_be_bytes.
  - rewrite drop_app_length' by (by rewrite Hl). rewrite take_app_length' by (by rewrite Hl).
    by apply from_to_be_bytes.
  - rewrite app_assoc, drop_app_length' by (by rewrite length_app, !Hl).
    rewrite take_app_length' by (by rewrite Hl). by apply from_to_be_bytes.
  - rewrite !app_assoc, drop_app_length' by (by rewrite !length_app, !Hl).
    by apply from_to_be_bytes.
Qed.
