(* ===== verification/FileSpec.v ===== *)
(** * What a file is: the abstract specification of a file handle

    A file is a list of bytes with a position.  The operations of the trait
    [FileHandle] act on it as DuckDB expects of a local file; a program is a
    sequence of them.  FileRefinement.v proves that the handles of
    rust/src/file_handle.rs implement this specification. *)

From S2P Require Import Prelude Error.

Record File := {
  bytes : list byte;
  pos : Z;
  readable : bool;
  writable : bool;
  appending : bool
}.

Inductive Op :=
  | OpPread (n offset : Z)
  | OpPwrite (data : list byte) (offset : Z)
  | OpRead (n : Z)
  | OpWrite (data : list byte)
  | OpSeek (p : Z)
  | OpReset
  | OpTruncate (n : Z)
  | OpSync
  | OpSize.

#[global] Instance op_eq_dec : EqDecision Op.
Proof. solve_decision. Defined.

(** What the caller of an operation sees. *)
Inductive Obs :=
  | OBytes (l : list byte)
  | ONum (n : Z)
  | OUnit
  | OError (c : ErrorCode).

(** The arguments are machine integers and buffers of memory. *)
Definition op_u64 (o : Op) : Prop :=
  match o with
  | OpPread n offset => is_u64 n /\ is_u64 offset
  | OpPwrite data offset => is_u64 offset
  | OpRead n | OpSeek n | OpTruncate n => is_u64 n
  | _ => True
  end.

Definition set_bytes (f : File) (l : list byte) : File :=
  {| bytes := l; pos := pos f; readable := readable f; writable := writable f;
     appending := appending f |}.
Definition set_pos (f : File) (p : Z) : File :=
  {| bytes := bytes f; pos := p; readable := readable f; writable := writable f;
     appending := appending f |}.

(** The bytes from [offset], at most [n] of them. *)
Definition read_at (l : list byte) (n offset : Z) : list byte :=
  take (Z.to_nat n) (drop (Z.to_nat offset) l).

(** Overwrite from [offset]; a gap before it is filled with zeroes. *)
Definition write_at (l d : list byte) (offset : Z) : list byte :=
  splice (vec_resize l (Z.max (zlen l) (offset + zlen d))) offset d.

Definition spec_pwrite (f : File) (data : list byte) (offset : Z) : Obs * File :=
  if negb (writable f) then (OError CodeReadOnlyViolation, f)
  else if bool_decide (data = []) then (OUnit, f)
  else if 2 ^ 64 <=? offset + zlen data then (OError CodeInvalidArgument, f)
  else (OUnit, set_bytes f (write_at (bytes f) data offset)).

Definition spec_step (o : Op) (f : File) : Obs * File :=
  match o with
  | OpPread n offset =>
      if readable f then (OBytes (read_at (bytes f) n offset), f)
      else (OError CodeInvalidArgument, f)
  | OpPwrite data offset => spec_pwrite f data offset
  | OpRead n =>
      let l := read_at (bytes f) n (pos f) in
      if bool_decide (l = []) then (OBytes [], f)
      else if readable f then (OBytes l, set_pos f (pos f + zlen l))
      else (OError CodeInvalidArgument, f)
  | OpWrite data =>
      let offset := if appending f then zlen (bytes f) else pos f in
      match spec_pwrite f data offset with
      | (OUnit, f') => (ONum (zlen data), set_pos f' (offset + zlen data))
      | e => e
      end
  | OpSeek p => (OUnit, set_pos f p)
  | OpReset => (OUnit, set_pos f 0)
  | OpTruncate n =>
      if writable f then (OUnit, set_bytes f (vec_resize (bytes f) n))
      else (OError CodeReadOnlyViolation, f)
  | OpSync => (OUnit, f)
  | OpSize => (ONum (zlen (bytes f)), f)
  end.

Fixpoint spec_run (os : list Op) (f : File) : list Obs * File :=
  match os with
  | [] => ([], f)
  | o :: os =>
      let '(x, f) := spec_step o f in
      let '(xs, f) := spec_run os f in
      (x :: xs, f)
  end.

(** ** Lemmas *)

Lemma zlen_read_at l n offset :
  0 <= n -> 0 <= offset -> zlen (read_at l n offset) = Z.min n (Z.max 0 (zlen l - offset)).
Proof. intros. unfold read_at. rewrite zlen_take, zlen_drop by done. lia. Qed.

Lemma zbyte_read_at l n offset i :
  0 <= offset -> 0 <= i < n -> zbyte (read_at l n offset) i = zbyte l (offset + i).
Proof.
  intros Ho Hi. unfold read_at. rewrite zbyte_take, decide_True by lia.
  by rewrite zbyte_drop by lia.
Qed.

Lemma zlen_write_at l d offset :
  0 <= offset -> zlen (write_at l d offset) = Z.max (zlen l) (offset + zlen d).
Proof.
  intros Ho. pose proof (zlen_nonneg d). unfold write_at.
  rewrite zlen_splice; rewrite ?zlen_resize; lia.
Qed.

Lemma zbyte_resize_all l n i :
  0 <= n -> zbyte (vec_resize l n) i = if decide (i < n) then zbyte l i else x00.
Proof.
  intros Hn. case_decide; [by apply zbyte_resize|].
  apply zbyte_ge. rewrite zlen_resize; lia.
Qed.

Lemma zbyte_write_at l d offset i :
  0 <= offset -> 0 <= i ->
  zbyte (write_at l d offset) i =
    if decide (offset <= i < offset + zlen d) then zbyte d (i - offset) else zbyte l i.
Proof.
  intros Ho Hi. pose proof (zlen_nonneg d). unfold write_at.
  rewrite zbyte_splice by (rewrite ?zlen_resize; lia).
  case_decide; [done|]. rewrite zbyte_resize_all by lia. case_decide; [done|].
  by rewrite zbyte_ge by lia.
Qed.
