(* ===== verification/FileHandle.v ===== *)
(** * File handles (rust/src/file_handle.rs): state and operations

    A [SlateFileHandle] is a position and a size over a chunk manager, with
    the flags it was opened with and the client it reads and syncs through.
    This file holds its definitions; the theorems are in FileHandleSpec.v and FileRefinement.v. *)

From S2P Require Import Prelude RustStd Error Flags Keys SlateDb ChunkStore ChunkManager.
From S2P Require Import FileMetadata FileSpec.

#[local] Open Scope string_scope.
#[local] Open Scope list_scope.
#[local] Open Scope Z_scope.

Inductive SlateFileClient (Db Reader : Type) :=
  | ReadWrite (db : Db)
  | ReadOnly (reader : Reader).
Arguments ReadWrite {Db Reader}.
Arguments ReadOnly {Db Reader}.

(** The two implementations of [ChunkStore] behind [Arc<dyn ChunkStore>]. *)
Abbreviation HandleStore Db Reader :=
  (DynChunkStore (SlateDbChunkStore Db) (SlateDbReaderChunkStore Reader)).

Record SlateFileHandle (Db Reader : Type) := {
  client : SlateFileClient Db Reader;
  file_id : Z;
  position : Z;
  size : Z;
  modified_at_ms : Z;
  chunks : ChunkManager (HandleStore Db Reader);
  metadata_dirty : bool;
  flags : FileOpenFlags
}.
Arguments client {Db Reader}. Arguments file_id {Db Reader}. Arguments position {Db Reader}.
Arguments size {Db Reader}. Arguments modified_at_ms {Db Reader}. Arguments chunks {Db Reader}.
Arguments metadata_dirty {Db Reader}. Arguments flags {Db Reader}.
Arguments Build_SlateFileHandle {Db Reader}.

Section handle.
Context {W Db Txn Reader : Type} `{SlateDb W Db Txn} `{DbReadOps W Db} `{DbReadOps W Reader}
  `{Clock W} `{MetadataCodec}.
#[local] Abbreviation Handle := (SlateFileHandle Db Reader).

(** ** The client *)

Definition chunk_store (self : SlateFileClient Db Reader) : HandleStore Db Reader :=
  match self with
  | ReadWrite db => DynLeft {| store_db := db |}
  | ReadOnly reader => DynRight {| store_reader := reader |}
  end.

Definition writer (self : SlateFileClient Db Reader) (file_id : Z) : Result Db :=
  match self with
  | ReadWrite db => Ok db
  | ReadOnly _ =>
      Err (read_only_violation unknown_location
           ("cannot sync file_id " +:+ pretty file_id
            +:+ " through a read-only SlateDB client"))
  end.

(** ** Opening *)

Definition with_chunk_store_internal (client : SlateFileClient Db Reader)
    (store : HandleStore Db Reader) (file_id : Z) (metadata : FileMetadata)
    (flags : FileOpenFlags) : Result Handle :=
  let? _ := validate flags in
  let? _ :=
    match client with
    | ReadOnly _ =>
        let? _ := ensure_readable flags file_id in
        if Flags.write flags
        then Err (read_only_violation unknown_location
                  "read-only SlateDB client cannot create a writable file handle")
        else Ok tt
    | ReadWrite _ => Ok tt
    end in
  let? chunk_size := validated_chunk_size metadata file_id in
  let position := if append flags then FileMetadata.size metadata else 0 in
  Ok {| client := client; file_id := file_id; position := position;
        size := FileMetadata.size metadata;
        modified_at_ms := FileMetadata.modified_at_ms metadata;
        chunks := ChunkManager.new store file_id chunk_size
        (FileMetadata.chunk_base_offset metadata);
        metadata_dirty := false; flags := flags |}.

Definition new (client : SlateFileClient Db Reader) (file_id : Z) (metadata : FileMetadata)
    (flags : FileOpenFlags) : Result Handle :=
  with_chunk_store_internal client (chunk_store client) file_id metadata flags.

(** ** Field updates *)

Definition set_position (self : Handle) (p : Z) : Handle :=
  {| client := client self; file_id := file_id self; position := p; size := size self;
     modified_at_ms := modified_at_ms self; chunks := chunks self;
     metadata_dirty := metadata_dirty self; flags := flags self |}.
Definition set_size (self : Handle) (n : Z) : Handle :=
  {| client := client self; file_id := file_id self; position := position self; size := n;
     modified_at_ms := modified_at_ms self; chunks := chunks self;
     metadata_dirty := metadata_dirty self; flags := flags self |}.
Definition set_chunks (self : Handle) (c : ChunkManager (HandleStore Db Reader)) : Handle :=
  {| client := client self; file_id := file_id self; position := position self;
     size := size self; modified_at_ms := modified_at_ms self; chunks := c;
     metadata_dirty := metadata_dirty self; flags := flags self |}.
Definition set_dirty (self : Handle) (t : Z) (d : bool) : Handle :=
  {| client := client self; file_id := file_id self; position := position self;
     size := size self; modified_at_ms := t; chunks := chunks self; metadata_dirty := d;
     flags := flags self |}.

(** A call on the chunk manager of the handle. *)
Definition on_chunks {A} (m : M Error (ChunkManager (HandleStore Db Reader) * W) A)
    : M Error (Handle * W) A :=
  fun '(self, w) =>
    let '(r, (c, w')) := m (chunks self, w) in (r, (set_chunks self c, w')).

(** A call on the slice [&mut buf[..n]]. *)
Definition on_prefix {A} (n : Z) (m : M Error (list byte * W) A) : M Error (list byte * W) A :=
  fun '(buf, w) =>
    let '(r, (b, w')) := m (take (Z.to_nat n) buf, w) in
    (r, (b ++ drop (Z.to_nat n) buf, w')).

Definition set_metadata_dirty : M Error (Handle * W) unit :=
  fun '(self, w) =>
    let '(now, w') := current_time_millis w in (Ok tt, (set_dirty self now true, w')).

Definition metadata (self : Handle) : FileMetadata :=
  {| FileMetadata.size := size self; FileMetadata.modified_at_ms := modified_at_ms self;
     FileMetadata.chunk_size := ChunkManager.chunk_size (chunks self);
     FileMetadata.chunk_base_offset := ChunkManager.chunk_base_offset (chunks self) |}.

Definition write_overflow (self : Handle) : Error :=
  invalid_argument unknown_location ("write overflow for file_id " +:+ pretty (file_id self)).

(** ** The trait [FileHandle] *)

Definition pread (self : Handle) (offset : Z) : M Error (list byte * W) Z :=
  let! _ := lift (ensure_readable (flags self) (file_id self)) in
  let! buf := on_fst get_state in
  if bool_decide (buf = []) || (size self <=? offset) then ret 0
  else
    let bytes_to_read := Z.min (size self - offset) (zlen buf) in
    let! _ := on_prefix bytes_to_read (ChunkManager.read (chunks self) offset) in
    ret bytes_to_read.

Definition pwrite (data : list byte) (offset : Z) : M Error (Handle * W) unit :=
  let! self := on_fst get_state in
  let! _ := lift (ensure_writable (flags self) (file_id self)) in
  if bool_decide (data = []) then ret tt
  else
    let! end_offset := lift (ok_or (write_overflow self) (checked_add offset (zlen data))) in
    let! _ := on_chunks (ChunkManager.write data offset) in
    let! _ := on_fst (modify (fun self =>
      if size self <? end_offset then set_size self end_offset else self)) in
    set_metadata_dirty.

(** The state is the handle, the caller's buffer and the world. *)
Definition read : M Error (Handle * (list byte * W)) Z :=
  let! self := on_fst get_state in
  let! buf := on_snd (on_fst get_state) in
  let available := Z.min (saturating_sub (size self) (position self)) (zlen buf) in
  if available =? 0 then ret 0
  else
    let! bytes_read := on_snd (on_prefix available (pread self (position self))) in
    let! _ := on_fst (modify (fun self =>
      set_position self (wrap64 (position self + bytes_read)))) in
    ret bytes_read.

Definition write (data : list byte) : M Error (Handle * W) Z :=
  let! self := on_fst get_state in
  let offset := if append (flags self) then size self else position self in
  let! _ := pwrite data offset in
  let! self := on_fst get_state in
  let! p := lift (ok_or (write_overflow self) (checked_add offset (zlen data))) in
  let! _ := on_fst (put_state (set_position self p)) in
  ret (zlen data).

Definition sync : M Error (Handle * W) unit :=
  let! self := on_fst get_state in
  if negb (has_pending_changes (chunks self)) && negb (metadata_dirty self) then ret tt
  else
    let batch := add_pending_to_batch (chunks self) [] in
    let batch := batch ++ [Put (metadata_key (file_id self)) (encode_to_bytes (metadata self))] in
    let! db := lift (writer (client self) (file_id self)) in
    let! _ := on_snd (slate (db_write db batch)) in
    let! _ := on_snd (slate (db_flush db)) in
    on_fst (put_state (set_dirty (set_chunks self (mark_flushed (chunks self)))
                       (modified_at_ms self) false)).

Definition seek (self : Handle) (position : Z) : Handle := set_position self position.
Definition seek_position (self : Handle) : Z := position self.
Definition reset (self : Handle) : Handle := set_position self 0.
Definition file_size (self : Handle) : Z := size self.

Definition truncate (new_size : Z) : M Error (Handle * W) unit :=
  let! self := on_fst get_state in
  let! _ := lift (ensure_writable (flags self) (file_id self)) in
  if new_size =? size self then ret tt
  else
    let! _ := if new_size <? size self then on_chunks (ChunkManager.truncate new_size)
              else ret tt in
    let! _ := on_fst (modify (fun self => set_size self new_size)) in
    set_metadata_dirty.

Definition get_last_modified_time (self : Handle) : Z := modified_at_ms self.
Definition close : M Error (Handle * W) unit := sync.
End handle.

(** ** Programs over a handle: the operations of FileSpec.v *)

Section run.
Context {W Db Txn Reader : Type} `{SlateDb W Db Txn} `{DbReadOps W Db} `{DbReadOps W Reader}
  `{Clock W} `{MetadataCodec}.
#[local] Abbreviation Handle := (SlateFileHandle Db Reader).

(** The caller reads into a zeroed buffer of [n] bytes and looks at the
    bytes the call reports. *)
Definition with_buffer (n : Z) (m : M Error (Handle * (list byte * W)) Z)
    : M Error (Handle * W) Obs :=
  fun '(self, w) =>
    match m (self, (zeros n, w)) with
    | (Ok k, (self, (buf, w))) => (Ok (OBytes (take (Z.to_nat k) buf)), (self, w))
    | (Err e, (self, (_, w))) => (Err e, (self, w))
    | (Panic p, (self, (_, w))) => (Panic p, (self, w))
    end.

Definition run_op (o : Op) : M Error (Handle * W) Obs :=
  match o with
  | OpPread n offset =>
      with_buffer n (let! self := on_fst get_state in on_snd (pread self offset))
  | OpPwrite data offset => let! _ := pwrite data offset in ret OUnit
  | OpRead n => with_buffer n read
  | OpWrite data => let! n := write data in ret (ONum n)
  | OpSeek p => let! _ := on_fst (modify (fun self => seek self p)) in ret OUnit
  | OpReset => let! _ := on_fst (modify reset) in ret OUnit
  | OpTruncate n => let! _ := truncate n in ret OUnit
  | OpSync => let! _ := sync in ret OUnit
  | OpSize => let! self := on_fst get_state in ret (ONum (file_size self))
  end.

(** What the caller sees; [None] when the call panics. *)
Definition obs (r : Result Obs) : option Obs :=
  match r with
  | Ok o => Some o
  | Err e => Some (OError (code e))
  | Panic _ => None
  end.

(** Run a program to its end; a panic stops it. *)
Fixpoint run_ops (os : list Op) (self : Handle) (w : W) : option (list Obs) * (Handle * W) :=
  match os with
  | [] => (Some [], (self, w))
  | o :: os =>
      let '(r, (self, w)) := run_op o (self, w) in
      match obs r with
      | None => (None, (self, w))
      | Some x =>
          let '(xs, s) := run_ops os self w in ((fun xs => x :: xs) <$> xs, s)
      end
  end.
End run.
