(* ===== verification/FileHandleSpec.v ===== *)
(** * What a file handle does: theorems about FileHandle.v

    A handle represents a list of bytes: its size is the length, the chunk
    manager shows the bytes, and zero past the end.  Each operation is
    described on these bytes, on every branch, whether the store answers or
    not. *)

From S2P Require Import Prelude RustStd Error Flags Keys SlateDb ChunkStore ChunkLayout.
From S2P Require Import ChunkManager ChunkManagerSpec FileMetadata FileSpec FileHandle.

Section spec.
Context {W Db Txn Reader : Type} `{World W} `{DbReadOps W Db} `{!DbReadLaws W Db}
  `{DbReadOps W Txn} `{!DbReadLaws W Txn} `{SlateDb W Db Txn} `{!SlateDbLaws W Db Txn}
  `{DbReadOps W Reader} `{!DbReadLaws W Reader} `{Clock W} `{!ClockLaws W}
  `{MetadataCodec} `{!MetadataCodecLaws}.
#[local] Abbreviation Handle := (SlateFileHandle Db Reader).

(** The invariant of a handle. *)
Record wf_handle (w : W) (h : Handle) : Prop := {
  hw_chunks : wf (chunks h);
  hw_world : wf_world w (chunks h);
  hw_store : store (chunks h) = chunk_store (client h);
  hw_id : ChunkManager.file_id (chunks h) = file_id h;
  hw_size : is_u64 (size h);
  hw_position : is_u64 (position h);
  hw_modified : is_u64 (modified_at_ms h);
  hw_read_only :
  match client h with
  | ReadWrite _ => True
  | ReadOnly _ =>
  Flags.write (flags h) = false /\ pending (chunks h) = ∅ /\ metadata_dirty h = false
  end
}.

Definition represents (w : W) (h : Handle) (l : list byte) : Prop :=
  zlen l = size h /\ forall p, is_u64 p -> byte_at w (chunks h) p = zbyte l p.

(** A handle represents one list at most. *)
Lemma represents_unique w h l l' : represents w h l -> represents w h l' -> is_u64 (size h) -> l = l'.
Proof.
  intros [Hl Hb] [Hl' Hb'] Hs. apply zbyte_ext; [congruence|]. intros i Hi.
  assert (is_u64 i) by (unfold is_u64 in *; lia). by rewrite <-Hb, <-Hb'.
Qed.

Lemma represents_equiv w w' h l : w' ≡ w -> represents w h l -> represents w' h l.
Proof. intros Hw [Hl Hb]. split; [done|]. intros p Hp. by rewrite (byte_at_equiv w' w), Hb. Qed.

Lemma wf_handle_equiv w w' h : w' ≡ w -> wf_handle w h -> wf_handle w' h.
Proof.
  intros Hw [Hc Hwo Hst ? ? ? ? ?]. split; try done. unfold wf_world in *.
  by rewrite (cs_view_proper w' w Hw (store (chunks h)) _ eq_refl).
Qed.

(** ** Reading *)

Lemma on_prefix_run {A} n (m : M Error (list byte * W) A) buf w r b w' :
  m (take (Z.to_nat n) buf, w) = (r, (b, w')) ->
  on_prefix n m (buf, w) = (r, (b ++ drop (Z.to_nat n) buf, w')).
Proof. intros Hm. unfold on_prefix. by rewrite Hm. Qed.

Lemma pread_not_readable (h : Handle) offset buf w :
  Flags.read (flags h) = false ->
  exists e, pread h offset (buf, w) = (Err e, (buf, w)) /\ code e = CodeInvalidArgument.
Proof.
  intros Hr. unfold pread, bind, lift, ensure_readable, ensure. rewrite Hr. by eexists.
Qed.

(** The range [pread] hands to the chunk manager. *)
Definition read_len (h : Handle) (n offset : Z) : Z :=
  Z.min n (Z.max 0 (size h - offset)).

Lemma pread_run (h : Handle) offset buf w :
  Flags.read (flags h) = true -> 0 <= offset ->
  pread h offset (buf, w) =
  let n := read_len h (zlen buf) offset in
  if n =? 0 then (Ok 0, (buf, w))
  else match ChunkManager.read (chunks h) offset (take (Z.to_nat n) buf, w) with
  | (Ok _, (b, w')) => (Ok n, (b ++ drop (Z.to_nat n) buf, w'))
  | (Err e, (b, w')) => (Err e, (b ++ drop (Z.to_nat n) buf, w'))
  | (Panic p, (b, w')) => (Panic p, (b ++ drop (Z.to_nat n) buf, w'))
  end.
Proof.
  intros Hr Ho. pose proof (zlen_nonneg buf) as Hn. unfold read_len. cbn zeta.
  unfold pread, bind, lift, ensure_readable, ensure. rewrite Hr.
  unfold on_fst, get_state. cbn [fst snd]. case_bool_decide as Hb; cbn [orb].
  { subst buf. change (zlen []) with 0. by rewrite Z.min_l by lia. }
  assert (0 < zlen buf) by (destruct buf; [done|unfold zlen; simpl; lia]).
  destruct (Z.leb_spec (size h) offset).
  { rewrite Z.max_l, Z.min_r by lia. done. }
  rewrite Z.max_r by lia. replace (Z.min (zlen buf) (size h - offset)) with (Z.min (size h - offset) (zlen buf)) by lia.
  destruct (Z.eqb_spec (Z.min (size h - offset) (zlen buf)) 0); [lia|].
  unfold on_prefix. by destruct (ChunkManager.read _ _ _) as [[] [b w']].
Qed.

(** [pread] returns the bytes of the file from [offset], as many as there
    are, and leaves the rest of the buffer. *)
Lemma pread_ok h l offset buf w r buf' w' :
  wf_handle w h -> represents w h l -> Flags.read (flags h) = true -> is_u64 offset ->
  ~ short_read w (chunks h) (read_len h (zlen buf) offset) offset ->
  pread h offset (buf, w) = (r, (buf', w')) ->
  let out := read_at l (zlen buf) offset in
  w' ≡ w /\ (up w -> r = Ok (zlen out) /\ up w') /\
  (forall k, r = Ok k -> k = zlen out /\ buf' = out ++ drop (length out) buf).
Proof.
  intros Hwf [Hl Hb] Hread Ho Hshort Hr out. destruct Ho as [Ho Ho'].
  pose proof (zlen_nonneg buf) as Hn. pose proof (hw_size _ _ Hwf) as [Hs Hs'].
  rewrite pread_run in Hr by done. cbn zeta in Hr.
  set (n := read_len h (zlen buf) offset) in *.
  assert (Hout : zlen out = n) by (unfold out; rewrite zlen_read_at by lia; unfold n, read_len; lia).
  assert (Hlen : length out = Z.to_nat n) by (unfold zlen in Hout; lia).
  pose proof (zlen_nonneg out) as Hout0.
  assert (Hnr : n <= zlen buf /\ (0 < n -> offset + n <= size h)) by (unfold n, read_len; lia).
  destruct (Z.eqb_spec n 0) as [Hz|Hz].
  { simplify_eq. split_and!; [done|by rewrite Hout, Hz|]. intros k [= <-]. split; [lia|].
    rewrite Hlen, Hz. destruct out; [done|by rewrite Hz in Hlen]. }
  assert (Htake : zlen (take (Z.to_nat n) buf) = n).
  { unfold n, read_len in *. rewrite zlen_take by lia. lia. }
  destruct (ChunkManager.read _ _ _) as [r1 [b w1]] eqn:Hread'.
  apply read_ok in Hread'; [|apply Hwf..|lia| |by rewrite Htake].
  2:{ rewrite Htake. unfold n, read_len. lia. }
  destruct Hread' as (Hw1 & Hup & Hbuf). rewrite Htake in Hbuf.
  destruct r1 as [[]|e|p]; simplify_eq; [|split_and!; [done|by intros [? _]%Hup|done]..].
  split_and!; [done| |].
  - intros [_ Hu]%Hup. by rewrite Hout.
  - intros k [= <-]. split; [done|]. rewrite Hlen. f_equal. rewrite Hbuf by done.
    apply zbyte_ext; autorewrite with bytes; [lia|]. intros i Hi.
    rewrite zbyte_tabulate by lia. unfold out. rewrite zbyte_read_at.
    + apply Hb. split; lia.
    + done.
    + lia.
Qed.

Lemma pread_short h offset buf w :
  wf_handle w h -> Flags.read (flags h) = true -> is_u64 offset -> up w ->
  short_read w (chunks h) (read_len h (zlen buf) offset) offset ->
  exists buf' w', w' ≡ w /\ up w' /\
  pread h offset (buf, w) = (Panic "slice index out of range", (buf', w')).
Proof.
  intros Hwf Hread [Ho Ho'] Hu Hshort. pose proof (hw_size _ _ Hwf) as [Hs Hs'].
  pose proof (zlen_nonneg buf) as Hn. rewrite pread_run by done. cbn zeta.
  set (n := read_len h (zlen buf) offset) in *.
  destruct (Z.eqb_spec n 0) as [Hz|Hz]; [destruct Hshort; lia|].
  assert (Htake : zlen (take (Z.to_nat n) buf) = n).
  { unfold n, read_len in *. rewrite zlen_take by lia. lia. }
  destruct (read_short w (chunks h) (take (Z.to_nat n) buf) offset) as (b & w' & Hw' & Hu' & Hrun);
    [apply Hwf..|done| |done|by rewrite Htake|].
  { rewrite Htake. unfold n, read_len. lia. }
  rewrite Hrun. by eexists _, w'.
Qed.

(** ** Writing *)

(** What no operation changes. *)
Definition same_handle (h h' : Handle) : Prop :=
  client h' = client h /\ file_id h' = file_id h /\ flags h' = flags h.

Lemma same_handle_refl (h : Handle) : same_handle h h.
Proof. done. Qed.

Lemma writable_client w h :
  wf_handle w h -> Flags.write (flags h) = true -> exists db, client h = ReadWrite db.
Proof.
  intros Hwf Hw. pose proof (hw_read_only _ _ Hwf) as Hro.
  destruct (client h); [eauto|]. destruct Hro as [? _]. congruence.
Qed.

(** Replacing the staged changes of a writable handle. *)
Lemma wf_set_chunks w h c :
  wf_handle w h -> Flags.write (flags h) = true -> same_file (chunks h) c -> wf c ->
  wf_handle w (set_chunks h c).
Proof.
  intros Hwf Hwr Hsame Hc. destruct (writable_client _ _ Hwf Hwr) as [db Hdb].
  destruct Hwf. split; cbn; try done.
  - by eapply same_file_world.
  - rewrite Hsame. done.
  - rewrite Hsame. done.
  - by rewrite Hdb.
Qed.

Lemma set_metadata_dirty_run (h : Handle) w :
  exists now w', set_metadata_dirty (h, w) = (Ok tt, (set_dirty h now true, w')) /\
  is_u64 now /\ w' ≡ w /\ (up w -> up w').
Proof.
  unfold set_metadata_dirty. pose proof (current_time_spec w) as Ht.
  destruct (current_time_millis w) as [now w']. by exists now, w'.
Qed.

Lemma wf_set_size_dirty w h n now :
  wf_handle w h -> Flags.write (flags h) = true -> is_u64 n -> is_u64 now ->
  wf_handle w (set_dirty (set_size h n) now true).
Proof.
  intros Hwf Hwr Hn Hnow. destruct (writable_client _ _ Hwf Hwr) as [db Hdb].
  destruct Hwf. split; cbn; try done. by rewrite Hdb.
Qed.

Lemma not_writable (h : Handle) w :
  Flags.write (flags h) = false ->
  exists e, code e = CodeReadOnlyViolation /\
  (forall data offset, pwrite data offset (h, w) = (Err e, (h, w))) /\
  (forall n, truncate n (h, w) = (Err e, (h, w))).
Proof.
  intros Hw. eexists. split; [|split; intros; unfold pwrite, truncate, bind, lift, on_fst,
    get_state, ensure_writable; cbn [fst snd]; rewrite Hw; reflexivity]. done.
Qed.

Lemma pwrite_empty (h : Handle) offset w :
  Flags.write (flags h) = true -> pwrite [] offset (h, w) = (Ok tt, (h, w)).
Proof.
  intros Hw. unfold pwrite, bind, lift, on_fst, get_state, ensure_writable. cbn [fst snd].
  by rewrite Hw.
Qed.

Lemma pwrite_overflow (h : Handle) data offset w :
  Flags.write (flags h) = true -> data <> [] -> 2 ^ 64 <= offset + zlen data ->
  exists e, code e = CodeInvalidArgument /\ pwrite data offset (h, w) = (Err e, (h, w)).
Proof.
  intros Hw Hd Ho. exists (write_overflow h). split; [done|].
  unfold pwrite, bind, lift, on_fst, get_state, ensure_writable. cbn [fst snd]. rewrite Hw.
  rewrite bool_decide_false by done. unfold checked_add.
  by destruct (Z.ltb_spec (offset + zlen data) (2 ^ 64)); [lia|].
Qed.

Lemma pwrite_run (h : Handle) data offset w :
  Flags.write (flags h) = true -> data <> [] -> offset + zlen data < 2 ^ 64 ->
  pwrite data offset (h, w) =
  match ChunkManager.write data offset (chunks h, w) with
  | (Ok _, (c, w')) =>
  set_metadata_dirty
  (set_size (set_chunks h c) (Z.max (size h) (offset + zlen data)), w')
  | (Err e, (c, w')) => (Err e, (set_chunks h c, w'))
  | (Panic p, (c, w')) => (Panic p, (set_chunks h c, w'))
  end.
Proof.
  intros Hw Hd Ho.
  unfold pwrite, bind at 1 2 3, lift, on_fst at 1, get_state, ensure_writable. cbn [fst snd].
  rewrite Hw, bool_decide_false by done. unfold checked_add.
  destruct (Z.ltb_spec (offset + zlen data) (2 ^ 64)); [|lia]. cbn [ok_or].
  unfold bind, on_chunks. destruct (ChunkManager.write _ _ _) as [[[]|e|p] [c w']]; [|done..].
  unfold on_fst, modify. cbn [fst snd size set_chunks].
  destruct (Z.ltb_spec (size h) (offset + zlen data)).
  - by rewrite Z.max_r by lia.
  - rewrite Z.max_l by lia. by destruct h.
Qed.

(** [pwrite] overwrites the bytes from [offset] and grows the file to hold
    them; a failing store leaves the size and at most a prefix written. *)
Lemma pwrite_ok h l data offset w r h' w' :
  wf_handle w h -> represents w h l -> Flags.write (flags h) = true -> is_u64 offset ->
  data <> [] -> offset + zlen data < 2 ^ 64 ->
  pwrite data offset (h, w) = (r, (h', w')) ->
  w' ≡ w /\ (up w -> r = Ok tt /\ up w') /\ wf_handle w' h' /\ same_handle h h' /\
  position h' = position h /\
  (r = Ok tt -> represents w' h' (write_at l data offset)) /\
  (r <> Ok tt -> size h' = size h /\ exists k, 0 <= k <= zlen data /\
  forall p, is_u64 p -> byte_at w' (chunks h') p =
  if decide (offset <= p < offset + k) then zbyte data (p - offset) else zbyte l p).
Proof.
  intros Hwf Hrep Hwr [Ho Ho'] Hd Hlen Hr. destruct Hrep as [Hl Hb].
  pose proof (zlen_nonneg data) as Hdn. pose proof (hw_size _ _ Hwf) as [Hs Hs'].
  rewrite pwrite_run in Hr by done.
  destruct (ChunkManager.write data offset (chunks h, w)) as [r1 [c w1]] eqn:Hw.
  apply write_ok in Hw; [|apply Hwf|done|lia].
  destruct Hw as (Hw1 & Hup & Hsame & Hc & k & Hk & Hok & Hbytes).
  pose proof (wf_set_chunks w h c Hwf Hwr Hsame Hc) as Hwfc.
  assert (Hfail : r1 <> Ok tt -> (r, (h', w')) = (r1, (set_chunks h c, w1)) ->
    w' ≡ w /\ (up w -> r = Ok tt /\ up w') /\ wf_handle w' h' /\ same_handle h h' /\
    position h' = position h /\
    (r = Ok tt -> represents w' h' (write_at l data offset)) /\
    (r <> Ok tt -> size h' = size h /\ exists k, 0 <= k <= zlen data /\
    forall p, is_u64 p -> byte_at w' (chunks h') p =
    if decide (offset <= p < offset + k) then zbyte data (p - offset) else zbyte l p)).
  { intros Hne [= -> -> ->]. split_and!; [done|by intros [? _]%Hup| |done|done|done|].
    - by apply (wf_handle_equiv w).
    - intros _. split; [done|]. exists k. split; [done|]. intros p Hp. cbn [chunks set_chunks].
      destruct Hp. rewrite (byte_at_equiv w1 w), Hbytes by done.
      case_decide; [done|]. by apply Hb. }
  destruct r1 as [[]|e|p]; [|by apply Hfail..]. clear Hfail.
  rewrite (Hok eq_refl) in Hbytes.
  destruct (set_metadata_dirty_run
    (set_size (set_chunks h c) (Z.max (size h) (offset + zlen data))) w1)
    as (now & w2 & Hrun & Hnow & Hw2 & Hu2).
  rewrite Hrun in Hr. simplify_eq. assert (Hw' : w' ≡ w) by (by rewrite Hw2).
  split_and!; [done| | |done|done| |done].
  - intros [_ Hu]%Hup. auto.
  - apply (wf_handle_equiv w); [done|]. apply wf_set_size_dirty; [done|done| |done].
    split; lia.
  - intros _. split.
    + rewrite zlen_write_at by done. cbn. lia.
    + intros p Hp. cbn [chunks set_dirty set_size set_chunks].
      rewrite (byte_at_equiv w' w) by done. pose proof Hp as [Hp0 _].
      rewrite Hbytes, zbyte_write_at by done. case_decide; [done|]. by apply Hb.
Qed.

(** ** Truncating *)

Lemma truncate_run (h : Handle) n w :
  Flags.write (flags h) = true ->
  truncate n (h, w) =
  if n =? size h then (Ok tt, (h, w))
  else if n <? size h then
  match ChunkManager.truncate n (chunks h, w) with
  | (Ok _, (c, w')) => set_metadata_dirty (set_size (set_chunks h c) n, w')
  | (Err e, (c, w')) => (Err e, (set_chunks h c, w'))
  | (Panic p, (c, w')) => (Panic p, (set_chunks h c, w'))
  end
  else set_metadata_dirty (set_size h n, w).
Proof.
  intros Hw. unfold truncate, bind at 1 2, lift, on_fst at 1, get_state, ensure_writable.
  cbn [fst snd]. rewrite Hw. destruct (n =? size h); [done|].
  unfold bind, on_chunks, on_fst, modify, ret. destruct (n <? size h); [|done].
  by destruct (ChunkManager.truncate _ _) as [[[]|e|p] [c w']].
Qed.

Lemma vec_resize_same (l : list byte) : vec_resize l (zlen l) = l.
Proof.
  unfold vec_resize. rewrite Z.leb_refl. unfold zlen. by rewrite Nat2Z.id, take_ge by lia.
Qed.

(** [truncate] cuts the file or extends it with zeroes; a failing call
    changes nothing. *)
Lemma handle_truncate_ok h l n w r h' w' :
  wf_handle w h -> represents w h l -> Flags.write (flags h) = true -> is_u64 n ->
  truncate n (h, w) = (r, (h', w')) ->
  w' ≡ w /\ (up w -> r = Ok tt /\ up w') /\ wf_handle w' h' /\ same_handle h h' /\
  position h' = position h /\
  (r = Ok tt -> represents w' h' (vec_resize l n)) /\ (r <> Ok tt -> h' = h).
Proof.
  intros Hwf [Hl Hb] Hwr Hn Hr. pose proof (hw_size _ _ Hwf) as Hs.
  rewrite truncate_run in Hr by done. destruct (Z.eqb_spec n (size h)) as [->|Hne].
  { simplify_eq. split_and!; [done..| |done]. intros _. rewrite <-Hl, vec_resize_same. done. }
  assert (Hgrow : forall c w1, wf_handle w (set_chunks h c) -> w1 ≡ w -> (up w -> up w1) ->
    (forall p, is_u64 p -> byte_at w c p = if decide (p < n) then zbyte l p else x00) ->
    set_metadata_dirty (set_size (set_chunks h c) n, w1) = (r, (h', w')) ->
    w' ≡ w /\ (up w -> r = Ok tt /\ up w') /\ wf_handle w' h' /\ same_handle h h' /\
    position h' = position h /\
    (r = Ok tt -> represents w' h' (vec_resize l n)) /\ (r <> Ok tt -> h' = h)).
  { intros c w1 Hwfc Hw1 Hu1 Hbytes Hrun.
    destruct (set_metadata_dirty_run (set_size (set_chunks h c) n) w1)
      as (now & w2 & Hrun' & Hnow & Hw2 & Hu2).
    rewrite Hrun' in Hrun. simplify_eq. assert (Hw' : w' ≡ w) by (by rewrite Hw2).
    split_and!; [done|by auto| |done|done| |done].
    - apply (wf_handle_equiv w); [done|]. by apply wf_set_size_dirty.
    - intros _. destruct Hn. split; [by apply zlen_resize|]. intros p Hp.
      cbn [chunks set_dirty set_size set_chunks].
      rewrite (byte_at_equiv w' w), Hbytes by done. by rewrite zbyte_resize_all. }
  destruct (Z.ltb_spec n (size h)).
  - destruct (ChunkManager.truncate n (chunks h, w)) as [r1 [c w1]] eqn:Ht.
    apply ChunkManagerSpec.truncate_ok in Ht; [|apply Hwf..|done].
    destruct Ht as (Hw1 & Hup & Hsame & Hc & Herr & Hbytes).
    pose proof (wf_set_chunks w h c Hwf Hwr Hsame Hc) as Hwfc.
    destruct r1 as [[]|e|p].
    2-3: rewrite Herr in Hr by done; simplify_eq; split_and!;
      [done|by intros [? _]%Hup|by apply (wf_handle_equiv w); destruct h|done|done|done|
      by destruct h].
    apply (Hgrow c w1); [done|done|by intros [_ ?]%Hup| |done].
    intros p Hp. rewrite Hbytes by done. case_decide; [by apply Hb|done].
  - apply (Hgrow (chunks h) w); [by destruct h|done|done| |by destruct h].
    intros p Hp. rewrite Hb by done. case_decide; [done|]. apply zbyte_ge. lia.
Qed.

(** ** Sequential reads and writes *)

Lemma wf_set_position w h p : wf_handle w h -> is_u64 p -> wf_handle w (set_position h p).
Proof. intros [] Hp. by split. Qed.

(** [read] is [pread] at the position, which moves past the bytes read. *)
Lemma handle_read_run (h : Handle) buf w :
  is_u64 (size h) -> is_u64 (position h) ->
  FileHandle.read (h, (buf, w)) =
  let n := read_len h (zlen buf) (position h) in
  if n =? 0 then (Ok 0, (h, (buf, w)))
  else match pread h (position h) (take (Z.to_nat n) buf, w) with
  | (Ok k, (b, w')) =>
     (Ok k, (set_position h (wrap64 (position h + k)), (b ++ drop (Z.to_nat n) buf, w')))
  | (Err e, (b, w')) => (Err e, (h, (b ++ drop (Z.to_nat n) buf, w')))
  | (Panic p, (b, w')) => (Panic p, (h, (b ++ drop (Z.to_nat n) buf, w')))
  end.
Proof.
  intros Hs Hp. unfold FileHandle.read, bind at 1 2, on_fst, on_snd, get_state, saturating_sub.
  cbn [fst snd]. unfold read_len. cbn zeta. rewrite (Z.min_comm (zlen buf)).
  destruct (_ =? 0); [done|]. unfold bind, on_prefix, modify, ret. cbn [fst snd].
  by destruct (pread _ _ _) as [[k|e|q] [b w']].
Qed.

Lemma write_run (h : Handle) data w :
  is_u64 (size h) -> is_u64 (position h) ->
  let offset := if append (flags h) then size h else position h in
  FileHandle.write data (h, w) =
  match pwrite data offset (h, w) with
  | (Ok _, (h', w')) => (Ok (zlen data), (set_position h' (offset + zlen data), w'))
  | (Err e, s) => (Err e, s)
  | (Panic p, s) => (Panic p, s)
  end.
Proof.
  intros [Hs Hs'] [Hp Hp'] offset. unfold FileHandle.write, bind at 1, on_fst at 1, get_state.
  cbn [fst snd]. fold offset. unfold bind at 1.
  destruct (pwrite data offset (h, w)) as [[[]|e|p] [h' w']] eqn:Hw; [|done..].
  unfold bind, on_fst, lift, put_state, ret. cbn [fst snd]. unfold checked_add.
  destruct (Z.ltb_spec (offset + zlen data) (2 ^ 64)) as [Hlt|Hge]; [done|].
  exfalso. assert (Hd : data <> []).
  { intros ->. rewrite zlen_nil in Hge. unfold offset in Hge. destruct (append _); lia. }
  destruct (Flags.write (flags h)) eqn:Hwr.
  - destruct (pwrite_overflow h data offset w Hwr Hd Hge) as (e & _ & He). congruence.
  - destruct (not_writable h w Hwr) as (e & _ & He & _). rewrite He in Hw. done.
Qed.

(** ** Syncing *)

(** The batch a sync writes. *)
Definition sync_batch (h : Handle) : WriteBatch :=
  pending_ops (chunks h) ++ [Put (metadata_key (file_id h)) (encode_to_bytes (metadata h))].

Definition clean (h : Handle) : bool :=
  negb (has_pending_changes (chunks h)) && negb (metadata_dirty h).

Definition flushed (h : Handle) : Handle :=
  set_dirty (set_chunks h (mark_flushed (chunks h))) (modified_at_ms h) false.

Lemma sync_run (h : Handle) w :
  sync (h, w) =
  if clean h then (Ok tt, (h, w))
  else match writer (client h) (file_id h) with
  | Ok db =>
     match slate (db_write db (sync_batch h)) w with
     | (Ok _, w1) =>
         match slate (db_flush db) w1 with
         | (Ok _, w2) => (Ok tt, (flushed h, w2))
         | (Err e, w2) => (Err e, (h, w2))
         | (Panic p, w2) => (Panic p, (h, w2))
         end
     | (Err e, w1) => (Err e, (h, w1))
     | (Panic p, w1) => (Panic p, (h, w1))
     end
  | Err e => (Err e, (h, w))
  | Panic p => (Panic p, (h, w))
  end.
Proof.
  unfold sync, bind at 1, on_fst at 1, get_state. cbn [fst snd]. fold (clean h).
  destruct (clean h); [done|]. unfold bind, lift, on_snd, on_fst, put_state. cbn [fst snd].
  destruct (writer (client h) (file_id h)) as [db|e|p]; [|done..].
  unfold add_pending_to_batch. rewrite app_nil_l. fold (pending_ops (chunks h)).
  fold (sync_batch h). destruct (slate (db_write db (sync_batch h)) w) as [[[]|e|p] w1]; [|done..].
  cbn [fst snd]. by destruct (slate (db_flush db) w1) as [[[]|e|p] w2].
Qed.

Lemma sync_batch_chunk_keys w h :
  wf_handle w h -> Forall op_chunk_keys (sync_batch h).
Proof.
  intros Hwf. apply Forall_app. split; [apply pending_ops_chunk_keys, Hwf|].
  apply Forall_singleton. done.
Qed.

(** The metadata record is no chunk, so the batch acts on chunks as the
    staged changes do. *)
Lemma lookup_sync_batch w h m i :
  wf_handle w h ->
  apply_batch m (sync_batch h) !! chunk_key (ChunkManager.file_id (chunks h)) i =
  apply_batch m (pending_ops (chunks h)) !! chunk_key (ChunkManager.file_id (chunks h)) i.
Proof.
  intros Hwf. unfold sync_batch. rewrite apply_batch_app. apply lookup_apply_batch_ne.
  intros o Ho%list_elem_of_singleton Hk. subst o. exact (chunk_key_ne_metadata_key _ _ _ (eq_sym Hk)).
Qed.

Lemma lookup_sync_metadata h m :
  apply_batch m (sync_batch h) !! metadata_key (file_id h) = Some (encode_to_bytes (metadata h)).
Proof. unfold sync_batch. rewrite apply_batch_app. apply lookup_insert_eq. Qed.

(** A world in which the batch of a sync was written, or was not. *)
Lemma sync_written w w1 h db :
  wf_handle w h -> client h = ReadWrite db ->
  db_view w1 db = apply_batch (db_view w db) (sync_batch h) ->
  wf_handle w1 h /\ wf_handle w1 (flushed h) /\
  forall l, represents w h l -> represents w1 h l /\ represents w1 (flushed h) l.
Proof.
  intros Hwf Hc Hv. pose proof Hwf as [Hcw Hwo Hst ? ? ? ? ?].
  assert (Hv' : cs_view w1 (store (chunks h)) =
    apply_batch (cs_view w (store (chunks h))) (sync_batch h)).
  { rewrite Hst, Hc. exact Hv. }
  assert (Hwo' : wf_world w1 (chunks h)).
  { unfold wf_world. rewrite Hv'. apply wf_chunk_keys_batch; [|done].
    by eapply sync_batch_chunk_keys. }
  assert (Hchunks : forall i, is_u64 i ->
    cs_view w1 (store (chunks h)) !! chunk_key (ChunkManager.file_id (chunks h)) i =
    apply_batch (cs_view w (store (chunks h))) (pending_ops (chunks h))
    !! chunk_key (ChunkManager.file_id (chunks h)) i).
  { intros i _. rewrite Hv'. by eapply lookup_sync_batch. }
  split_and!.
  - by split.
  - split; cbn; try done; [by apply wf_mark_flushed|by rewrite Hc].
  - intros l [Hl Hb]. split; (split; [done|]); intros p Hp; rewrite <-Hb by done.
    + by apply byte_at_unflushed.
    + by apply byte_at_flushed.
Qed.

Lemma wf_handle_view w w1 h db :
  wf_handle w h -> client h = ReadWrite db -> db_view w1 db = db_view w db -> wf_handle w1 h.
Proof.
  intros [] Hc Hv. split; try done. unfold wf_world in *. rewrite hw_store0, Hc in *.
  cbn in *. by rewrite Hv.
Qed.

Lemma represents_view w w1 h db l :
  wf_handle w h -> client h = ReadWrite db -> db_view w1 db = db_view w db ->
  represents w h l -> represents w1 h l.
Proof.
  intros Hwf Hc Hv [Hl Hb]. split; [done|]. intros p Hp. rewrite <-Hb by done.
  unfold byte_at, chunk_content. rewrite (hw_store _ _ Hwf), Hc. cbn. by rewrite Hv.
Qed.

Lemma sync_failed w w1 h db (r : res slatedb_error unit) :
  wf_handle w h -> client h = ReadWrite db -> r <> Ok tt ->
  match r with
  | Ok _ => db_view w1 db = apply_batch (db_view w db) (sync_batch h)
  | _ => db_view w1 db = db_view w db \/
  db_view w1 db = apply_batch (db_view w db) (sync_batch h)
  end ->
  wf_handle w1 h /\ forall l, represents w h l -> represents w1 h l.
Proof.
  intros Hwf Hc Hne Hv.
  assert (Hv' : db_view w1 db = db_view w db \/
    db_view w1 db = apply_batch (db_view w db) (sync_batch h)).
  { destruct r as [[]|? |?]; done. }
  destruct Hv' as [Hv'|Hv'].
  - split; [by eapply wf_handle_view|intros l; by eapply represents_view].
  - destruct (sync_written w w1 h db Hwf Hc Hv') as (Hwf1 & _ & Hrep1).
    split; [done|]. intros l Hl. apply (Hrep1 l Hl).
Qed.

(** A sync never changes what the handle shows, whether it succeeds or not;
    when it succeeds nothing is staged any more and, if anything was, the
    metadata record is in the database. *)
Lemma sync_any h w r h' w' :
  wf_handle w h -> sync (h, w) = (r, (h', w')) ->
  (up w -> r = Ok tt /\ up w') /\ wf_handle w' h' /\
  (forall l, represents w h l -> represents w' h' l) /\
  same_handle h h' /\ position h' = position h /\ metadata h' = metadata h /\
  (r = Ok tt -> clean h' = true /\
  (clean h = false -> forall db, client h = ReadWrite db ->
  db_view w' db = apply_batch (db_view w db) (sync_batch h))) /\
  (r <> Ok tt -> h' = h).
Proof.
  intros Hwf Hr. rewrite sync_run in Hr. destruct (clean h) eqn:Hclean.
  { simplify_eq. split_and!; done. }
  destruct (client h) as [db|reader] eqn:Hc.
  2:{ pose proof (hw_read_only _ _ Hwf) as Hro. rewrite Hc in Hro. destruct Hro as (_ & Hp & Hd).
    unfold clean, has_pending_changes in Hclean.
    rewrite Hd, Hp, bool_decide_true in Hclean by done. done. }
  cbn [writer] in Hr.
  destruct (slate (db_write db (sync_batch h)) w) as [r1 w1] eqn:Hwrite.
  apply slate_inv in Hwrite as (r10 & Hwrite & Hr1).
  destruct (db_write_spec w db _ r10 w1 Hwrite) as (Hup1 & _ & Hview).
  destruct r1 as [[]|e|p].
  2-3: injection Hr as <- <- <-;
    (destruct (sync_failed w w1 h db r10 Hwf Hc) as [? ?];
    [intros Hok; by apply Hr1 in Hok|done|]);
    split_and!; try done; by intros [Hok _]%Hup1; apply Hr1 in Hok.
  destruct r10 as [[]|e|p]; [|by (pose proof (proj1 (Hr1 tt) eq_refl))..].
  destruct (sync_written w w1 h db Hwf Hc Hview) as (Hwf1 & Hwf1' & Hrep1).
  assert (Hkeeps : forall w2 h1, db_view w2 db = db_view w1 db -> client h1 = ReadWrite db ->
    wf_handle w1 h1 -> (forall l, represents w h l -> represents w1 h1 l) ->
    wf_handle w2 h1 /\ forall l, represents w h l -> represents w2 h1 l).
  { intros w2 h1 Hv Hc1 Hwf2 Hrep2. split; [by eapply wf_handle_view|].
    intros l Hl. by eapply represents_view; [..|apply Hrep2]. }
  destruct (slate (db_flush db) w1) as [r2 w2] eqn:Hflush.
  apply slate_inv in Hflush as (r20 & Hflush & Hr2).
  destruct (db_flush_spec w1 db r20 w2 Hflush) as (Hup2 & Hview2).
  destruct r2 as [[]|e|p]; simplify_eq.
  - destruct (Hkeeps w' (flushed h)) as [? ?]; [done..|intros l Hl; apply (Hrep1 l Hl)|].
    split_and!; [|done|done|done|done|done| |done].
    + intros [_ Hu]%Hup1. split; [done|]. by apply Hup2.
    + intros _. split; [done|]. intros _ db' Hc'. cbn in Hc'. simplify_eq.
      by rewrite Hview2.
  - destruct (Hkeeps w' h') as [? ?]; [done..|intros l Hl; apply (Hrep1 l Hl)|].
    split_and!; try done. intros [_ [Hok _]%Hup2]%Hup1. by apply Hr2 in Hok.
  - destruct (Hkeeps w' h') as [? ?]; [done..|intros l Hl; apply (Hrep1 l Hl)|].
    split_and!; try done. intros [_ [Hok _]%Hup2]%Hup1. by apply Hr2 in Hok.
Qed.

(** The same on a handle that represents [l]. *)
Lemma sync_ok h l w r h' w' :
  wf_handle w h -> represents w h l -> sync (h, w) = (r, (h', w')) ->
  (up w -> r = Ok tt /\ up w') /\ wf_handle w' h' /\ represents w' h' l /\
  same_handle h h' /\ position h' = position h /\ metadata h' = metadata h /\
  (r = Ok tt -> clean h' = true /\
  (clean h = false -> forall db, client h = ReadWrite db ->
  db_view w' db = apply_batch (db_view w db) (sync_batch h))) /\
  (r <> Ok tt -> h' = h).
Proof.
  intros Hwf Hrep Hr. apply sync_any in Hr as (Hup & Hwf' & Hl & Hrest); [|done].
  do 3 (split; [by auto|]). exact Hrest.
Qed.

(** ** Refinement *)

(** The file a handle that represents [l] is. *)
Definition abs (h : Handle) (l : list byte) : File :=
  {| bytes := l; pos := position h; readable := Flags.read (flags h);
     writable := Flags.write (flags h); appending := append (flags h) |}.

(** The reads that panic: they start past the end of a short chunk. *)
Definition short_op (w : W) (h : Handle) (o : Op) : Prop :=
  match o with
  | OpPread n offset =>
      Flags.read (flags h) = true /\ short_read w (chunks h) (read_len h n offset) offset
  | OpRead n =>
      Flags.read (flags h) = true /\
      short_read w (chunks h) (read_len h n (position h)) (position h)
  | _ => False
  end.

(** Outcome [r] and state [(h', w')] are those of the specification. *)
Definition refined (o : Op) (h : Handle) (l : list byte) (r : Result Obs) (h' : Handle) (w' : W)
    : Prop :=
  exists l', obs r = Some (spec_step o (abs h l)).1 /\ abs h' l' = (spec_step o (abs h l)).2 /\
  wf_handle w' h' /\ represents w' h' l' /\ up w' /\ same_handle h h'.

Lemma abs_same h h' l :
  same_handle h h' -> position h' = position h -> abs h' l = set_bytes (abs h l) l.
Proof. unfold abs, set_bytes. by intros (_ & _ & ->) ->. Qed.
End spec.
