(* ===== verification/HandleReads.v ===== *)
(** * Reads of a handle into any buffer

    The lemmas of FileHandleSpec.v about [pread] and [read], for a buffer that
    already holds bytes: what is read overwrites its start, the rest stays. *)

From S2P Require Import Prelude Error SlateDb ChunkStore ChunkManager ChunkManagerSpec.
From S2P Require Import FileMetadata FileSpec FileHandle FileHandleSpec.
From S2P Require Flags.

#[local] Open Scope list_scope.
#[local] Open Scope Z_scope.

(** Bytes read overwrite the start of the memory. *)
Definition overwrite (l memory : list byte) : list byte := l ++ drop (length l) memory.

Section reads.
Context {W Db Txn Reader : Type} `{World W} `{DbReadOps W Db} `{!DbReadLaws W Db}
  `{DbReadOps W Txn} `{!DbReadLaws W Txn} `{SlateDb W Db Txn} `{!SlateDbLaws W Db Txn}
  `{DbReadOps W Reader} `{!DbReadLaws W Reader} `{Clock W} `{!ClockLaws W}
  `{MetadataCodec} `{!MetadataCodecLaws}.
#[local] Abbreviation Handle := (SlateFileHandle Db Reader).

Lemma pread_full (h : Handle) l offset buf w :
  wf_handle w h -> represents w h l -> up w -> Flags.read (flags h) = true -> is_u64 offset ->
  ~ short_read w (chunks h) (read_len h (zlen buf) offset) offset ->
  let out := read_at l (zlen buf) offset in
  exists w', pread h offset (buf, w) = (Ok (zlen out), (overwrite out buf, w')) /\
    w' ≡ w /\ up w'.
Proof.
  intros Hwf Hrep Hu Hread Ho Hshort out.
  destruct (pread h offset (buf, w)) as [r [b w']] eqn:Hp.
  destruct (pread_ok h l offset buf w r b w') as (Hw & Hup & Hok); [done..|].
  destruct (Hup Hu) as [-> Hu']. destruct (Hok _ eq_refl) as [_ ->]. by exists w'.
Qed.

Lemma read_at_len (h : Handle) w l n offset :
  represents w h l -> 0 <= n -> 0 <= offset ->
  let k := read_len h n offset in
  zlen (read_at l n offset) = k /\ read_at l k offset = read_at l n offset /\
  0 <= k <= n /\ (0 < k -> offset + k <= size h) /\ read_len h k offset = k.
Proof.
  intros [Hl _] Hn Ho k.
  assert (Hlen : zlen (read_at l n offset) = k).
  { rewrite zlen_read_at by lia. unfold k, read_len. lia. }
  assert (0 <= k <= n) by (unfold k, read_len; lia).
  split_and!; [done| |lia|lia|unfold k, read_len; lia|unfold k, read_len; lia].
  apply zbyte_ext; [rewrite !zlen_read_at by lia; unfold k, read_len; lia|].
  intros i Hi. rewrite zlen_read_at in Hi by lia. rewrite !zbyte_read_at by lia. done.
Qed.

Lemma zlen_zero_nil {A} (l : list A) : zlen l = 0 -> l = [].
Proof. unfold zlen. intros Hz. apply length_zero_iff_nil. lia. Qed.

(** The sequential read: it never looks at the handle's flags when there is
    nothing to read. *)
Lemma read_full (h : Handle) l buf w :
  wf_handle w h -> represents w h l -> up w -> Flags.read (flags h) = true ->
  ~ short_read w (chunks h) (read_len h (zlen buf) (position h)) (position h) ->
  let out := read_at l (zlen buf) (position h) in
  exists w', FileHandle.read (h, (buf, w)) =
      (Ok (zlen out), (set_position h (position h + zlen out), (overwrite out buf, w'))) /\
    w' ≡ w /\ up w' /\ is_u64 (position h + zlen out).
Proof.
  intros Hwf Hrep Hu Hread Hshort out.
  pose proof (hw_size _ _ Hwf) as Hs. pose proof (hw_position _ _ Hwf) as Hp.
  rewrite handle_read_run by done. cbn zeta.
  destruct (read_at_len h w l (zlen buf) (position h)) as (Hlen & Hat & Hk & Hkb & Hkk);
    [done|apply zlen_nonneg|apply Hp|].
  set (k := read_len h (zlen buf) (position h)) in *. fold out in Hlen, Hat. rewrite Hlen.
  destruct (Z.eqb_spec k 0) as [Hk0|Hk0].
  { rewrite (zlen_zero_nil out) by lia. exists w. rewrite Hk0, Z.add_0_r.
    split_and!; [by destruct h|done..]. }
  assert (Htk : zlen (take (Z.to_nat k) buf) = k) by (rewrite zlen_take; lia).
  destruct (pread_full h l (position h) (take (Z.to_nat k) buf) w) as (w' & Hrun & Hw & Hu');
    [done..|by rewrite Htk, Hkk|].
  rewrite Htk, Hat in Hrun. rewrite Hrun, Hlen.
  unfold is_u64 in *. exists w'. rewrite wrap64_small by (split; lia).
  split_and!; [|done|done|lia|lia]. do 3 f_equal. unfold overwrite, zlen in *.
  rewrite drop_ge by (rewrite length_take; lia). rewrite app_nil_r. do 2 f_equal. lia.
Qed.

Lemma read_refused (h : Handle) l buf w :
  wf_handle w h -> represents w h l -> Flags.read (flags h) = false ->
  read_at l (zlen buf) (position h) <> [] ->
  exists e, FileHandle.read (h, (buf, w)) = (Err e, (h, (buf, w))) /\
    code e = CodeInvalidArgument.
Proof.
  intros Hwf Hrep Hread Hne.
  pose proof (hw_size _ _ Hwf) as Hs. pose proof (hw_position _ _ Hwf) as Hp.
  rewrite handle_read_run by done. cbn zeta.
  destruct (read_at_len h w l (zlen buf) (position h)) as (Hlen & _);
    [done|apply zlen_nonneg|apply Hp|].
  destruct (Z.eqb_spec (read_len h (zlen buf) (position h)) 0) as [Hz|_].
  { destruct Hne. apply zlen_zero_nil. by rewrite Hlen. }
  destruct (pread_not_readable h (position h) (take (Z.to_nat (read_len h (zlen buf) (position h))) buf)
    w Hread) as (e & He & Hcode).
  rewrite He. exists e. by rewrite take_drop.
Qed.

Lemma read_nothing (h : Handle) l buf w :
  wf_handle w h -> represents w h l -> read_at l (zlen buf) (position h) = [] ->
  FileHandle.read (h, (buf, w)) = (Ok 0, (h, (buf, w))).
Proof.
  intros Hwf Hrep Hnil.
  pose proof (hw_size _ _ Hwf) as Hs. pose proof (hw_position _ _ Hwf) as Hp.
  rewrite handle_read_run by done. cbn zeta.
  destruct (read_at_len h w l (zlen buf) (position h)) as (Hlen & _);
    [done|apply zlen_nonneg|apply Hp|].
  by rewrite <-Hlen, Hnil.
Qed.

(** What a read of the handle leaves in its buffer, for the specification. *)
Definition read_agrees (x : Obs) (buf : list byte) (r : Result Z) (buf' : list byte) : Prop :=
  match r with
  | Ok n => exists out, x = OBytes out /\ n = zlen out /\ buf' = overwrite out buf /\
      zlen out <= zlen buf
  | Err e => x = OError (code e) /\ buf' = buf
  | Panic _ => False
  end.

Lemma read_at_bound l n offset : 0 <= n -> zlen (read_at l n offset) <= n.
Proof. intros Hn. unfold read_at. rewrite zlen_take by done. lia. Qed.

Lemma read_any (h : Handle) l buf w :
  wf_handle w h -> represents w h l -> up w -> ~ short_op w h (OpRead (zlen buf)) ->
  let x := spec_step (OpRead (zlen buf)) (abs h l) in
  exists r h' buf' w', FileHandle.read (h, (buf, w)) = (r, (h', (buf', w'))) /\
    read_agrees x.1 buf r buf' /\ x.2 = abs h' l /\
    wf_handle w' h' /\ represents w' h' l /\ up w' /\ w' ≡ w.
Proof.
  intros Hwf Hrep Hu Hshort. cbn [spec_step abs bytes pos readable]. cbn zeta.
  case_bool_decide as Hnil.
  { rewrite (read_nothing h l) by done. exists (Ok 0), h, buf, w. split_and!; try done.
    exists []. split_and!; [done..|apply zlen_nonneg]. }
  destruct (Flags.read (flags h)) eqn:Hread.
  - destruct (read_full h l buf w) as (w' & Hrun & Hw & Hu' & Hp);
      [done..|by intros Hs; apply Hshort|].
    rewrite Hrun. eexists _, _, _, w'. split_and!; [done| | | | |done|done].
    + eexists. split_and!; [done..|]. apply read_at_bound, zlen_nonneg.
    + done.
    + apply wf_set_position; [by eapply wf_handle_equiv|done].
    + by eapply represents_equiv.
  - destruct (read_refused h l buf w) as (e & Hrun & Hcode); [done..|].
    rewrite Hrun. exists (Err e), h, buf, w. cbn. rewrite Hcode. done.
Qed.

Lemma pread_any (h : Handle) l offset buf w :
  wf_handle w h -> represents w h l -> up w -> is_u64 offset ->
  ~ short_op w h (OpPread (zlen buf) offset) ->
  let x := spec_step (OpPread (zlen buf) offset) (abs h l) in
  exists r buf' w', pread h offset (buf, w) = (r, (buf', w')) /\
    read_agrees x.1 buf r buf' /\ x.2 = abs h l /\
    wf_handle w' h /\ represents w' h l /\ up w' /\ w' ≡ w.
Proof.
  intros Hwf Hrep Hu Ho Hshort. cbn [spec_step abs bytes pos readable].
  destruct (Flags.read (flags h)) eqn:Hread.
  - destruct (pread_full h l offset buf w) as (w' & Hrun & Hw & Hu');
      [done..|by intros Hs; apply Hshort|].
    rewrite Hrun. eexists _, _, w'. split_and!; [done| |done| | |done|done].
    + eexists. split_and!; [done..|]. apply read_at_bound, zlen_nonneg.
    + by eapply wf_handle_equiv.
    + by eapply represents_equiv.
  - destruct (pread_not_readable h offset buf w Hread) as (e & Hrun & Hcode).
    rewrite Hrun. exists (Err e), buf, w. cbn. rewrite Hcode. done.
Qed.
End reads.
