(* ===== verification/FileRefinement.v ===== *)
(** * Handles refine files

    Under the abstraction of FileHandleSpec.v every operation of a handle is
    the one of FileSpec.v, and a program on a store that answers shows what the
    specification shows.  What a sync leaves in the database, handles reopened
    on it, and handles that cannot write. *)

From S2P Require Import Prelude RustStd Error Flags Keys SlateDb ChunkStore ChunkLayout.
From S2P Require Import ChunkManager ChunkManagerSpec FileMetadata FileSpec FileHandle.
From S2P Require Import FileHandleSpec HandleReads.

Section spec.
Context {W Db Txn Reader : Type} `{World W} `{DbReadOps W Db} `{!DbReadLaws W Db}
  `{DbReadOps W Txn} `{!DbReadLaws W Txn} `{SlateDb W Db Txn} `{!SlateDbLaws W Db Txn}
  `{DbReadOps W Reader} `{!DbReadLaws W Reader} `{Clock W} `{!ClockLaws W}
  `{MetadataCodec} `{!MetadataCodecLaws}.
#[local] Abbreviation Handle := (SlateFileHandle Db Reader).

(** ** Operations *)

(** What the caller of [with_buffer] sees of a read. *)
Lemma with_buffer_agrees o n m (h h' : Handle) l w r b w' :
  m (h, (zeros n, w)) = (r, (h', (b, w'))) ->
  read_agrees (spec_step o (abs h l)).1 (zeros n) r b -> (spec_step o (abs h l)).2 = abs h' l ->
  wf_handle w' h' -> represents w' h' l -> up w' -> same_handle h h' ->
  exists r', with_buffer n m (h, w) = (r', (h', w')) /\ refined o h l r' h' w'.
Proof.
  intros Hm Hr Hf Hwf Hrep Hu Hsame. unfold with_buffer. rewrite Hm.
  destruct r as [k|e|p]; [| |done]; eexists; (split; [reflexivity|]); exists l; cbn [obs].
  - destruct Hr as (out & -> & -> & -> & _). unfold overwrite, zlen.
    rewrite Nat2Z.id, take_app_length. by split_and!.
  - destruct Hr as [-> _]. by split_and!.
Qed.

Lemma zlen_zeros_u64 n : is_u64 n -> zlen (zeros n) = n.
Proof. intros [? _]. rewrite zlen_zeros. lia. Qed.

Lemma step_pread n offset (h : Handle) l w r h' w' :
  wf_handle w h -> represents w h l -> up w -> is_u64 n -> is_u64 offset ->
  ~ short_op w h (OpPread n offset) ->
  run_op (OpPread n offset) (h, w) = (r, (h', w')) ->
  refined (OpPread n offset) h l r h' w'.
Proof.
  intros Hwf Hrep Hu Hn Ho Hshort Hr. pose proof (zlen_zeros_u64 n Hn) as Hz.
  destruct (pread_any h l offset (zeros n) w) as (r1 & b & w1 & Hrun & Hag & Hf & ? & ? & ? & _);
    [done..|by rewrite Hz|]. rewrite Hz in Hag, Hf.
  destruct (with_buffer_agrees (OpPread n offset) n
    (let! self := on_fst get_state in on_snd (pread self offset)) h h l w r1 b w1)
    as (r' & Hrun' & Href); [|done..|].
  { unfold bind, on_fst, on_snd, get_state. cbn [fst snd]. by rewrite Hrun. }
  cbn [run_op] in Hr. rewrite Hrun' in Hr. by simplify_eq.
Qed.

Lemma step_pread_panics n offset (h : Handle) w :
  wf_handle w h -> up w -> is_u64 n -> is_u64 offset -> short_op w h (OpPread n offset) ->
  exists w', w' ≡ w /\ run_op (OpPread n offset) (h, w) =
  (Panic "slice index out of range", (h, w')).
Proof.
  intros Hwf Hu [Hn _] Ho [Hread Hshort]. cbn [run_op].
  unfold with_buffer, bind, on_fst, on_snd, get_state. cbn [fst snd].
  destruct (pread_short h offset (zeros n) w) as (b & w' & Hw' & _ & Hrun); [done..| |].
  { by rewrite zlen_zeros, Z.max_r by lia. }
  rewrite Hrun. by exists w'.
Qed.

Lemma read_same_handle (h h' : Handle) buf w r b w' :
  is_u64 (size h) -> is_u64 (position h) ->
  FileHandle.read (h, (buf, w)) = (r, (h', (b, w'))) -> same_handle h h'.
Proof.
  intros Hs Hp. rewrite handle_read_run by done. cbn zeta. destruct (_ =? 0); [by intros [= _ <-]|].
  destruct (pread h _ _) as [[k|e|p] [b1 w1]]; by intros [= _ <-].
Qed.

Lemma step_read n (h : Handle) l w r h' w' :
  wf_handle w h -> represents w h l -> up w -> is_u64 n -> ~ short_op w h (OpRead n) ->
  run_op (OpRead n) (h, w) = (r, (h', w')) -> refined (OpRead n) h l r h' w'.
Proof.
  intros Hwf Hrep Hu Hn Hshort Hr. pose proof (zlen_zeros_u64 n Hn) as Hz.
  destruct (read_any h l (zeros n) w) as (r1 & h1 & b & w1 & Hrun & Hag & Hf & ? & ? & ? & _);
    [done..|by rewrite Hz|]. rewrite Hz in Hag, Hf.
  pose proof (read_same_handle h h1 (zeros n) w r1 b w1 (hw_size _ _ Hwf) (hw_position _ _ Hwf) Hrun).
  destruct (with_buffer_agrees (OpRead n) n FileHandle.read h h1 l w r1 b w1)
    as (r' & Hrun' & Href); [done..|].
  cbn [run_op] in Hr. rewrite Hrun' in Hr. by simplify_eq.
Qed.

Lemma step_read_panics n (h : Handle) w :
  wf_handle w h -> up w -> is_u64 n -> short_op w h (OpRead n) ->
  exists w', w' ≡ w /\ run_op (OpRead n) (h, w) = (Panic "slice index out of range", (h, w')).
Proof.
  intros Hwf Hu [Hn _] [Hread Hshort]. cbn [run_op]. unfold with_buffer.
  pose proof (hw_size _ _ Hwf) as [Hs Hs']. pose proof (hw_position _ _ Hwf) as [Hpo Hpo'].
  rewrite (handle_read_run _ _ _ (hw_size _ _ Hwf) (hw_position _ _ Hwf)). cbn zeta.
  rewrite zlen_zeros, Z.max_r by lia. set (k := read_len h n (position h)) in *.
  assert (Hk : 0 <= k <= n) by (unfold k, read_len; lia).
  assert (Hkk : read_len h k (position h) = k) by (unfold k, read_len; lia).
  destruct (Z.eqb_spec k 0) as [Hz|Hz]; [destruct Hshort; lia|].
  destruct (pread_short h (position h) (take (Z.to_nat k) (zeros n)) w)
    as (b & w' & Hw' & _ & Hrun); [done..|exact (hw_position _ _ Hwf)|done| |].
  { rewrite zlen_take, zlen_zeros, Z.max_r, Z.min_l by lia. by rewrite Hkk. }
  rewrite Hrun. by exists w'.
Qed.

(** The write that [pwrite] makes, as the specification has it. *)
Lemma step_pwrite_core data offset (h : Handle) l w r h' w' :
  wf_handle w h -> represents w h l -> up w -> is_u64 offset ->
  pwrite data offset (h, w) = (r, (h', w')) ->
  exists l', obs (let? _ := r in Ok OUnit) = Some (spec_pwrite (abs h l) data offset).1 /\
  abs h' l' = (spec_pwrite (abs h l) data offset).2 /\
  wf_handle w' h' /\ represents w' h' l' /\ up w' /\ same_handle h h' /\
  (r = Ok tt -> is_u64 (offset + zlen data)).
Proof.
  intros Hwf Hrep Hu Ho Hr. unfold spec_pwrite. cbn [abs writable bytes].
  pose proof (zlen_nonneg data) as Hdn.
  destruct (Flags.write (flags h)) eqn:Hwr; cbn [negb].
  2:{ destruct (not_writable h w Hwr) as (e & Hcode & He & _). rewrite He in Hr. simplify_eq.
    exists l. cbn. rewrite Hcode. split_and!; done. }
  case_bool_decide as Hd.
  { subst data. rewrite pwrite_empty in Hr by done. simplify_eq. exists l.
    rewrite zlen_nil, Z.add_0_r. split_and!; done. }
  destruct (Z.leb_spec (2 ^ 64) (offset + zlen data)) as [Hov|Hov].
  { destruct (pwrite_overflow h data offset w Hwr Hd Hov) as (e & Hcode & He).
    rewrite He in Hr. simplify_eq. exists l. cbn. rewrite Hcode. split_and!; done. }
  destruct (pwrite_ok h l data offset w r h' w' Hwf Hrep Hwr Ho Hd Hov Hr)
    as (Hw' & Hup & Hwf' & Hsame & Hpos & Hrep' & _).
  destruct (Hup Hu) as [-> Hu']. exists (write_at l data offset).
  split_and!; [done| |done|by apply Hrep'|done|done|].
  - rewrite (abs_same h h') by done. done.
  - intros _. destruct Ho. split; lia.
Qed.

Lemma step_pwrite data offset (h : Handle) l w r h' w' :
  wf_handle w h -> represents w h l -> up w -> is_u64 offset ->
  run_op (OpPwrite data offset) (h, w) = (r, (h', w')) ->
  refined (OpPwrite data offset) h l r h' w'.
Proof.
  intros Hwf Hrep Hu Ho Hr. cbn [run_op] in Hr. unfold bind in Hr.
  destruct (pwrite data offset (h, w)) as [r1 [h1 w1]] eqn:Hp.
  destruct (step_pwrite_core data offset h l w r1 h1 w1 Hwf Hrep Hu Ho Hp)
    as (l' & Hobs & Habs & ? & ? & ? & ? & _).
  exists l'. cbn [spec_step]. destruct r1; unfold ret in Hr; simplify_eq; done.
Qed.

Lemma step_write data (h : Handle) l w r h' w' :
  wf_handle w h -> represents w h l -> up w ->
  run_op (OpWrite data) (h, w) = (r, (h', w')) -> refined (OpWrite data) h l r h' w'.
Proof.
  intros Hwf Hrep Hu Hr. cbn [run_op] in Hr. unfold bind in Hr.
  rewrite (write_run _ _ _ (hw_size _ _ Hwf) (hw_position _ _ Hwf)) in Hr.
  set (offset := if append (flags h) then size h else position h) in Hr.
  assert (Ho : is_u64 offset) by
    (unfold offset; destruct (append _); [apply (hw_size _ _ Hwf)|apply (hw_position _ _ Hwf)]).
  destruct (pwrite data offset (h, w)) as [r1 [h1 w1]] eqn:Hp.
  destruct (step_pwrite_core data offset h l w r1 h1 w1 Hwf Hrep Hu Ho Hp)
    as (l' & Hobs & Habs & Hwf1 & Hrep1 & Hu1 & Hsame & Hov).
  exists l'. cbn [spec_step abs appending bytes pos]. rewrite (proj1 Hrep). fold offset.
  fold (abs h l). destruct (spec_pwrite (abs h l) data offset) as [x f].
  cbn [fst snd] in Hobs, Habs. subst f.
  destruct r1 as [[]|e|q]; unfold ret in Hr; simplify_eq; cbn in Hobs; simplify_eq.
  - cbn [fst snd obs]. split_and!; [done|done| |done|done|done].
    apply wf_set_position; [done|by apply Hov].
  - cbn. split_and!; done.
Qed.

Lemma step_truncate n (h : Handle) l w r h' w' :
  wf_handle w h -> represents w h l -> up w -> is_u64 n ->
  run_op (OpTruncate n) (h, w) = (r, (h', w')) -> refined (OpTruncate n) h l r h' w'.
Proof.
  intros Hwf Hrep Hu Hn Hr. cbn [run_op] in Hr. unfold bind in Hr. unfold refined.
  cbn [spec_step abs writable].
  destruct (Flags.write (flags h)) eqn:Hwr.
  2:{ destruct (not_writable h w Hwr) as (e & Hcode & _ & He). rewrite He in Hr. simplify_eq.
    exists l. cbn. rewrite Hcode. split_and!; done. }
  destruct (truncate n (h, w)) as [r1 [h1 w1]] eqn:Ht.
  destruct (handle_truncate_ok h l n w r1 h1 w1 Hwf Hrep Hwr Hn Ht)
    as (Hw' & Hup & Hwf' & Hsame & Hpos & Hrep' & _).
  destruct (Hup Hu) as [-> Hu']. unfold ret in Hr. simplify_eq.
  exists (vec_resize l n). split_and!; [done| |done|by apply Hrep'|done|done].
  rewrite (abs_same h h') by done. done.
Qed.

Lemma step_sync (h : Handle) l w r h' w' :
  wf_handle w h -> represents w h l -> up w ->
  run_op OpSync (h, w) = (r, (h', w')) -> refined OpSync h l r h' w'.
Proof.
  intros Hwf Hrep Hu Hr. cbn [run_op] in Hr. unfold bind in Hr.
  destruct (sync (h, w)) as [r1 [h1 w1]] eqn:Hs.
  destruct (sync_ok h l w r1 h1 w1 Hwf Hrep Hs) as (Hup & Hwf' & Hrep' & Hsame & Hpos & _).
  destruct (Hup Hu) as [-> Hu']. unfold ret in Hr. simplify_eq. exists l.
  split_and!; [done| |done..]. rewrite (abs_same h h') by done. done.
Qed.

(** Every operation on a store that answers is the operation of the
    specification, unless it is a short read. *)
Lemma step_refines o (h : Handle) l w r h' w' :
  wf_handle w h -> represents w h l -> up w -> op_u64 o -> ~ short_op w h o ->
  run_op o (h, w) = (r, (h', w')) -> refined o h l r h' w'.
Proof.
  intros Hwf Hrep Hu Ho Hshort Hr. destruct o.
  - destruct Ho. by eapply step_pread.
  - by eapply step_pwrite.
  - by eapply step_read.
  - by eapply step_write.
  - cbn in Hr. unfold ret in Hr. simplify_eq. exists l. split_and!; try done. by apply wf_set_position.
  - cbn in Hr. unfold ret in Hr. simplify_eq. exists l. split_and!; try done. by apply wf_set_position.
  - by eapply step_truncate.
  - by eapply step_sync.
  - cbn in Hr. unfold ret in Hr. simplify_eq. exists l. split_and!; try done. cbn. by rewrite (proj1 Hrep).
Qed.

#[global] Instance short_op_dec w (h : Handle) o : Decision (short_op w h o).
Proof. destruct o; cbn; apply _. Defined.

Lemma step_panics o (h : Handle) w :
  wf_handle w h -> up w -> op_u64 o -> short_op w h o ->
  exists w', w' ≡ w /\ run_op o (h, w) = (Panic "slice index out of range", (h, w')).
Proof.
  intros Hwf Hu Ho Hshort. destruct o; try done.
  - destruct Ho. by apply step_pread_panics.
  - by apply step_read_panics.
Qed.

(** A program that runs to its end shows what the specification shows. *)
Lemma run_refines os (h : Handle) l w xs h' w' :
  wf_handle w h -> represents w h l -> up w -> Forall op_u64 os ->
  run_ops os h w = (Some xs, (h', w')) ->
  exists l', xs = (spec_run os (abs h l)).1 /\ abs h' l' = (spec_run os (abs h l)).2 /\
  wf_handle w' h' /\ represents w' h' l' /\ up w'.
Proof.
  revert h l w xs. induction os as [|o os IH]; intros h l w xs Hwf Hrep Hu Hos Hr.
  { cbn in Hr. simplify_eq. exists l. split_and!; done. }
  apply Forall_cons in Hos as [Ho Hos]. cbn [run_ops] in Hr.
  destruct (run_op o (h, w)) as [r [h1 w1]] eqn:Hstep.
  destruct (decide (short_op w h o)) as [Hshort|Hshort].
  { destruct (step_panics o h w Hwf Hu Ho Hshort) as (w2 & _ & Hp).
    rewrite Hp in Hstep. by simplify_eq. }
  destruct (step_refines o h l w r h1 w1 Hwf Hrep Hu Ho Hshort Hstep)
    as (l1 & Hobs & Habs & Hwf1 & Hrep1 & Hu1 & _).
  rewrite Hobs in Hr. destruct (run_ops os h1 w1) as [ys [h2 w2]] eqn:Hrun.
  destruct ys as [ys|]; cbn in Hr; simplify_eq.
  destruct (IH h1 l1 w1 ys Hwf1 Hrep1 Hu1 Hos Hrun) as (l' & Hys & Habs' & ? & ? & ?).
  exists l'. cbn [spec_run]. destruct (spec_step o (abs h l)) as [x f]. cbn in Habs. subst f.
  destruct (spec_run os (abs h1 l1)). cbn in *. by subst.
Qed.

(** ** Opening, and what a sync leaves in the database *)

(** The chunks of file [id] in [m] hold the bytes [l] of a file with the
    metadata record [meta]. *)
Definition stored (m : kv) (id : Z) (meta : FileMetadata) (l : list byte) : Prop :=
  let cs := FileMetadata.chunk_size meta in
  let base := FileMetadata.chunk_base_offset meta in
  zlen l = FileMetadata.size meta /\
  forall p, is_u64 p ->
  zbyte (default [] (m !! chunk_key id (chunk_of cs base p))) (off_of cs base p) = zbyte l p.

(** Which handles can be opened. *)
Definition openable (client : SlateFileClient Db Reader) (meta : FileMetadata)
    (flags : FileOpenFlags) : Prop :=
  validate flags = Ok tt /\
  match client with
  | ReadOnly _ => Flags.read flags = true /\ Flags.write flags = false
  | ReadWrite _ => True
  end /\
  wf_layout (FileMetadata.chunk_size meta) (FileMetadata.chunk_base_offset meta).

Definition opened (client : SlateFileClient Db Reader) (id : Z) (meta : FileMetadata)
    (flags : FileOpenFlags) : Handle :=
  {| client := client; file_id := id;
     position := if append flags then FileMetadata.size meta else 0;
     size := FileMetadata.size meta; modified_at_ms := FileMetadata.modified_at_ms meta;
     chunks := ChunkManager.new (chunk_store client) id (FileMetadata.chunk_size meta)
     (FileMetadata.chunk_base_offset meta);
     metadata_dirty := false; flags := flags |}.

Lemma new_ok (client : SlateFileClient Db Reader) id meta flags (h : Handle) :
  metadata_u64 meta ->
  new client id meta flags = Ok h <-> openable client meta flags /\ h = opened client id meta flags.
Proof.
  intros Hm. unfold new, with_chunk_store_internal, openable.
  destruct (validate flags) as [[]|e|p]; cbn [res_bind]; [|naive_solver..].
  pose proof (fun n => validated_chunk_size_ok meta id n Hm) as Hv.
  assert (Hrest : forall b, res_bind (validated_chunk_size meta id) b = Ok h <->
    wf_layout (FileMetadata.chunk_size meta) (FileMetadata.chunk_base_offset meta) /\
    b (FileMetadata.chunk_size meta) = Ok h).
  { intros b. destruct (validated_chunk_size meta id) as [n|e|p]; cbn [res_bind].
    - destruct (proj1 (Hv n) eq_refl) as [-> Hl]. tauto.
    - split; [done|]. intros [Hl _]. by pose proof (proj2 (Hv _) (conj eq_refl Hl)).
    - split; [done|]. intros [Hl _]. by pose proof (proj2 (Hv _) (conj eq_refl Hl)). }
  destruct client as [db|reader].
  - cbn [res_bind]. rewrite Hrest. unfold opened. naive_solver.
  - unfold ensure_readable, ensure. destruct (Flags.read flags); cbn [res_bind]; [|naive_solver].
    destruct (Flags.write flags); cbn [res_bind]; [naive_solver|].
    rewrite Hrest. unfold opened. naive_solver.
Qed.

Lemma new_err (client : SlateFileClient Db Reader) id meta flags :
  (exists h, new client id meta flags = Ok h) \/
  exists e, new client id meta flags = Err e /\
  (code e = CodeInvalidArgument \/ code e = CodeReadOnlyViolation).
Proof.
  unfold new, with_chunk_store_internal.
  destruct (validate_inv flags) as [->|(e & -> & He)]; cbn [res_bind]; [|by eauto].
  destruct client as [db|reader]; cbn [res_bind].
  - destruct (validated_chunk_size_inv meta id) as [[n ->]|(e & -> & He)]; cbn [res_bind]; eauto.
  - unfold ensure_readable, ensure. destruct (Flags.read flags); cbn [res_bind]; [|by eauto].
    destruct (Flags.write flags); cbn [res_bind]; [by eauto|].
    destruct (validated_chunk_size_inv meta id) as [[n ->]|(e & -> & He)]; cbn [res_bind]; eauto.
Qed.

(** A handle that opens satisfies the invariant and represents what is
    stored. *)
Lemma opened_represents w (client : SlateFileClient Db Reader) id meta flags l :
  metadata_u64 meta -> is_u64 id -> openable client meta flags ->
  wf_chunk_keys (cs_view w (chunk_store client)) ->
  stored (cs_view w (chunk_store client)) id meta l ->
  wf_handle w (opened client id meta flags) /\ represents w (opened client id meta flags) l.
Proof.
  intros [Hs Hm ? ?] Hid (Hv & Hc & Hl) Hk [Hlen Hst]. split.
  - split; cbn; try done.
    + split; [done|done|]. intros i. cbn. rewrite lookup_empty. by intros [].
    + by destruct (append flags).
    + by destruct client as [|]; [|destruct Hc].
  - split; [done|]. intros p Hp. rewrite byte_at_default. unfold chunk_content.
    cbn [chunks opened ChunkManager.new pending store ChunkManager.file_id
      ChunkManager.chunk_size ChunkManager.chunk_base_offset].
    rewrite lookup_empty. by apply Hst.
Qed.

Lemma metadata_in_range w (h : Handle) : wf_handle w h -> metadata_u64 (metadata h).
Proof.
  intros Hwf. pose proof (wf_lay _ (hw_chunks _ _ Hwf)) as [? ?].
  split; cbn; [apply (hw_size _ _ Hwf)|apply (hw_modified _ _ Hwf)|split; lia|split; lia].
Qed.

(** What a sync writes is the file. *)
Lemma sync_stored w (h : Handle) l db :
  wf_handle w h -> represents w h l -> client h = ReadWrite db ->
  stored (apply_batch (db_view w db) (sync_batch h)) (file_id h) (metadata h) l.
Proof.
  intros Hwf [Hl Hb] Hc. split; [done|]. intros p Hp. rewrite <-Hb by done.
  rewrite byte_at_default. cbn [metadata FileMetadata.chunk_size FileMetadata.chunk_base_offset].
  rewrite <-(hw_id _ _ Hwf). rewrite (lookup_sync_batch w) by done.
  pose proof (hw_chunks _ _ Hwf) as Hcw. unfold chunk_content.
  pose proof (chunk_of_u64 _ _ (wf_lay _ Hcw) p Hp) as Hi.
  rewrite lookup_flush, (hw_store _ _ Hwf), Hc by done.
  by destruct (pending (chunks h) !! _) as [[]|].
Qed.

(** A sync writes its batch to its own database or nothing. *)
Lemma sync_view (h : Handle) w r h' w' db :
  client h = ReadWrite db -> sync (h, w) = (r, (h', w')) ->
  (forall d : Db, d <> db -> db_view w' d = db_view w d) /\
  (db_view w' db = db_view w db \/
  db_view w' db = apply_batch (db_view w db) (sync_batch h)).
Proof.
  intros Hc Hr. rewrite sync_run in Hr. destruct (clean h); [simplify_eq; by split; [|left]|].
  rewrite Hc in Hr. cbn [writer] in Hr.
  destruct (slate (db_write db (sync_batch h)) w) as [r1 w1] eqn:Hwrite.
  apply slate_inv in Hwrite as (r10 & Hwrite & _).
  destruct (db_write_spec w db _ r10 w1 Hwrite) as (_ & Hother & Hview).
  assert (Hview' : db_view w1 db = db_view w db \/
    db_view w1 db = apply_batch (db_view w db) (sync_batch h)).
  { destruct r10; [by right|done..]. }
  destruct r1 as [[]|e|p]; [|by simplify_eq..].
  destruct (slate (db_flush db) w1) as [r2 w2] eqn:Hflush.
  apply slate_inv in Hflush as (r20 & Hflush & _).
  destruct (db_flush_spec w1 db r20 w2 Hflush) as (_ & Hview2).
  assert (w' = w2) as -> by (destruct r2; by simplify_eq).
  split; [intros d Hd; by rewrite Hview2, Hother|by rewrite Hview2].
Qed.

(** The batch of a sync holds no key of another file. *)
Lemma sync_batch_other w (h : Handle) m id i :
  wf_handle w h -> is_u64 id -> is_u64 i -> id <> file_id h ->
  apply_batch m (sync_batch h) !! chunk_key id i = m !! chunk_key id i /\
  apply_batch m (sync_batch h) !! metadata_key id = m !! metadata_key id.
Proof.
  intros Hwf Hid Hi Hne. pose proof (hw_chunks _ _ Hwf) as Hcw.
  pose proof (wf_file _ Hcw) as Hf. rewrite (hw_id _ _ Hwf) in Hf.
  unfold sync_batch. rewrite apply_batch_app.
  assert (Hother : forall k, k <> metadata_key (file_id h) ->
    apply_batch (apply_batch m (pending_ops (chunks h)))
    [Put (metadata_key (file_id h)) (encode_to_bytes (metadata h))] !! k =
    apply_batch m (pending_ops (chunks h)) !! k).
  { intros k Hk. apply lookup_apply_batch_ne. by intros o ->%list_elem_of_singleton Heq. }
  split; rewrite Hother.
  - apply lookup_flush_other; [|done]. rewrite (hw_id _ _ Hwf). intros j Hj Heq.
    by apply chunk_key_inj in Heq as [? _].
  - apply chunk_key_ne_metadata_key.
  - apply lookup_flush_other; [|done]. intros j _ Heq. symmetry in Heq.
    by apply chunk_key_ne_metadata_key in Heq.
  - intros Heq. by apply metadata_key_inj in Heq.
Qed.

(** A handle that no sync can change keeps what it represents. *)
Lemma represents_frame w w' (h : Handle) l :
  wf_handle w h ->
  (forall i, is_u64 i ->
  cs_view w' (store (chunks h)) !! chunk_key (file_id h) i =
  cs_view w (store (chunks h)) !! chunk_key (file_id h) i) ->
  represents w h l -> represents w' h l.
Proof.
  intros Hwf Hv [Hl Hb]. split; [done|]. intros p Hp. rewrite <-Hb by done.
  pose proof (hw_chunks _ _ Hwf) as Hcw.
  unfold byte_at, chunk_content. rewrite (hw_id _ _ Hwf).
  by rewrite Hv by (apply chunk_of_u64; [apply wf_lay|]; done).
Qed.

(** A program that does not run to its end stops at a short read. *)
Lemma run_stops os (h : Handle) l w h' w' :
  wf_handle w h -> represents w h l -> up w -> Forall op_u64 os ->
  run_ops os h w = (None, (h', w')) ->
  exists os1 o os2 xs h1 w1, os = os1 ++ o :: os2 /\
  run_ops os1 h w = (Some xs, (h1, w1)) /\ short_op w1 h1 o.
Proof.
  revert h l w. induction os as [|o os IH]; intros h l w Hwf Hrep Hu Hos Hr; [done|].
  apply Forall_cons in Hos as [Ho Hos]. cbn [run_ops] in Hr.
  destruct (decide (short_op w h o)) as [Hshort|Hshort].
  { exists [], o, os, [], h, w. by split_and!. }
  destruct (run_op o (h, w)) as [r [h1 w1]] eqn:Hstep.
  destruct (step_refines o h l w r h1 w1 Hwf Hrep Hu Ho Hshort Hstep)
    as (l1 & Hobs & _ & Hwf1 & Hrep1 & Hu1 & _).
  rewrite Hobs in Hr. destruct (run_ops os h1 w1) as [ys [h2 w2]] eqn:Hrun.
  destruct ys as [ys|]; [done|]. cbn in Hr. simplify_eq.
  destruct (IH h1 l1 w1 Hwf1 Hrep1 Hu1 Hos Hrun) as (os1 & o' & os2 & xs & h3 & w3 & -> & Hx & Hs).
  exists (o :: os1), o', os2, ((spec_step o (abs h l)).1 :: xs), h3, w3.
  split_and!; [done| |done]. cbn [run_ops]. by rewrite Hstep, Hobs, Hx.
Qed.

(** The file [FileMetadata::new] describes, with no chunks, is empty. *)
Lemma stored_empty m id meta :
  (forall i, is_u64 i -> m !! chunk_key id i = None) -> FileMetadata.size meta = 0 ->
  wf_layout (FileMetadata.chunk_size meta) (FileMetadata.chunk_base_offset meta) ->
  stored m id meta [].
Proof.
  intros Hm Hs Hl. split; [done|]. intros p Hp.
  rewrite Hm by (by apply chunk_of_u64). by rewrite !zbyte_nil.
Qed.

(** ** Handles that cannot write *)

(** The parts of a handle that decide what it shows and what it syncs. *)
Definition same_contents (h h' : Handle) : Prop :=
  chunks h' = chunks h /\ size h' = size h /\ metadata_dirty h' = metadata_dirty h.

Lemma with_buffer_pread (h : Handle) n offset w r h' w' :
  run_op (OpPread n offset) (h, w) = (r, (h', w')) -> h' = h.
Proof.
  cbn [run_op]. unfold with_buffer, bind, on_fst, on_snd, get_state. cbn [fst snd].
  destruct (pread h offset _) as [[k|e|p] [b w1]]; by intros [= _ <- _].
Qed.

Lemma with_buffer_read (h : Handle) n w r h' w' :
  is_u64 (size h) -> is_u64 (position h) ->
  run_op (OpRead n) (h, w) = (r, (h', w')) -> same_contents h h'.
Proof.
  intros Hs Hp. cbn [run_op]. unfold with_buffer. rewrite handle_read_run by done. cbn zeta.
  destruct (_ =? 0); [by intros [= _ <- _]|].
  destruct (pread h _ _) as [[k|e|p] [b w1]]; by intros [= _ <- _].
Qed.

Lemma read_same_contents (h h' : Handle) buf w r b w' :
  is_u64 (size h) -> is_u64 (position h) ->
  FileHandle.read (h, (buf, w)) = (r, (h', (b, w'))) -> same_contents h h'.
Proof.
  intros Hs Hp. rewrite handle_read_run by done. cbn zeta. destruct (_ =? 0); [by intros [= _ <-]|].
  destruct (pread h _ _) as [[k|e|p] [b1 w1]]; by intros [= _ <-].
Qed.

Lemma read_only_contents o (h : Handle) w r h' w' :
  wf_handle w h -> Flags.write (flags h) = false -> o <> OpSync ->
  run_op o (h, w) = (r, (h', w')) -> same_contents h h'.
Proof.
  intros Hwf Hwr Hns Hr. destruct (not_writable h w Hwr) as (e & _ & Hpw & Htr). destruct o.
  - by apply with_buffer_pread in Hr as ->.
  - cbn [run_op] in Hr. unfold bind in Hr. rewrite Hpw in Hr. by simplify_eq.
  - by eapply with_buffer_read; [apply (hw_size _ _ Hwf)|apply (hw_position _ _ Hwf)|].
  - cbn [run_op] in Hr. unfold bind in Hr.
    rewrite (write_run _ _ _ (hw_size _ _ Hwf) (hw_position _ _ Hwf)), Hpw in Hr. by simplify_eq.
  - cbn in Hr. unfold ret in Hr. by simplify_eq.
  - cbn in Hr. unfold ret in Hr. by simplify_eq.
  - cbn [run_op] in Hr. unfold bind in Hr. rewrite Htr in Hr. by simplify_eq.
  - done.
  - cbn in Hr. unfold ret in Hr. by simplify_eq.
Qed.

(** ** Operations that stage *)

(** Nothing is staged since [h]: the handles differ in position only. *)
Definition unstaged (h h' : Handle) : Prop := clean h' = true -> same_contents h h'.

Lemma dirty_unstaged (h h' : Handle) : clean h' = false -> unstaged h h'.
Proof. unfold unstaged. by intros ->. Qed.

Lemma pwrite_stages (h : Handle) l data offset w r h' w' :
  wf_handle w h -> represents w h l -> up w -> is_u64 offset ->
  pwrite data offset (h, w) = (r, (h', w')) -> w' ≡ w /\ unstaged h h'.
Proof.
  intros Hwf Hrep Hu Ho Hr. destruct (Flags.write (flags h)) eqn:Hwr.
  2:{ destruct (not_writable h w Hwr) as (e & _ & He & _). rewrite He in Hr. by simplify_eq. }
  destruct (decide (data = [])) as [->|Hd].
  { rewrite pwrite_empty in Hr by done. by simplify_eq. }
  destruct (decide (offset + zlen data < 2 ^ 64)) as [Hlt|Hge].
  2:{ destruct (pwrite_overflow h data offset w Hwr Hd) as (e & _ & He); [lia|].
      rewrite He in Hr. by simplify_eq. }
  destruct (pwrite_ok h l data offset w r h' w') as (Hw & Hok & _); [done..|]. split; [done|].
  destruct (Hok Hu) as [-> _]. rewrite pwrite_run in Hr by done.
  destruct (ChunkManager.write _ _ _) as [[[]|e|p] [c w1]]; [|done..].
  destruct (set_metadata_dirty_run (set_size (set_chunks h c) (Z.max (size h) (offset + zlen data))) w1)
    as (now & w2 & Hrun & _). rewrite Hrun in Hr. simplify_eq.
  apply dirty_unstaged. unfold clean. cbn. by rewrite andb_false_r.
Qed.

Lemma truncate_stages (h : Handle) l n w r h' w' :
  wf_handle w h -> represents w h l -> up w -> is_u64 n ->
  truncate n (h, w) = (r, (h', w')) -> w' ≡ w /\ unstaged h h'.
Proof.
  intros Hwf Hrep Hu Hn Hr. destruct (Flags.write (flags h)) eqn:Hwr.
  2:{ destruct (not_writable h w Hwr) as (e & _ & _ & He). rewrite He in Hr. by simplify_eq. }
  destruct (handle_truncate_ok h l n w r h' w') as (Hw & Hok & _); [done..|]. split; [done|].
  destruct (Hok Hu) as [-> _]. rewrite truncate_run in Hr by done.
  destruct (n =? size h); [by simplify_eq|].
  assert (Hd : forall h0 w0, set_metadata_dirty (h0, w0) = (Ok tt, (h', w')) -> clean h' = false).
  { intros h0 w0 Hrun. destruct (set_metadata_dirty_run h0 w0) as (now & w2 & Hrun' & _).
    rewrite Hrun in Hrun'. simplify_eq. unfold clean. cbn. by rewrite andb_false_r. }
  apply dirty_unstaged. destruct (n <? size h); [|by eapply Hd].
  destruct (ChunkManager.truncate _ _) as [[[]|e|p] [c w1]]; [by eapply Hd|done..].
Qed.

Lemma same_contents_unstaged (h h' : Handle) : same_contents h h' -> unstaged h h'.
Proof. by intros ? _. Qed.

Lemma write_stages (h : Handle) l data w r h' w' :
  wf_handle w h -> represents w h l -> up w ->
  FileHandle.write data (h, w) = (r, (h', w')) -> w' ≡ w /\ unstaged h h'.
Proof.
  intros Hwf Hrep Hu Hr. pose proof (hw_size _ _ Hwf) as Hs. pose proof (hw_position _ _ Hwf) as Hp.
  rewrite (write_run _ _ _ Hs Hp) in Hr.
  set (offset := if append (flags h) then size h else position h) in Hr.
  assert (Ho : is_u64 offset) by (unfold offset; by destruct (append (flags h))).
  destruct (pwrite data offset (h, w)) as [r1 [h1 w1]] eqn:Hpw.
  destruct (pwrite_stages h l data offset w r1 h1 w1 Hwf Hrep Hu Ho Hpw) as [Hw Hun].
  by destruct r1; simplify_eq.
Qed.

(** The handle goes on as it was, what changed is staged in it. *)
Definition stages (w : W) (h : Handle) (w' : W) (h' : Handle) : Prop :=
  w' ≡ w /\ same_handle h h' /\ unstaged h h'.

(** Only a sync changes what the database shows. *)
Lemma op_stages o (h : Handle) l w r h' w' :
  wf_handle w h -> represents w h l -> up w -> op_u64 o -> o <> OpSync -> ~ short_op w h o ->
  run_op o (h, w) = (r, (h', w')) -> w' ≡ w /\ unstaged h h'.
Proof.
  intros Hwf Hrep Hu Ho Hns Hs Hr.
  pose proof (hw_size _ _ Hwf) as Hsz. pose proof (hw_position _ _ Hwf) as Hpo.
  assert (Hz : forall n, is_u64 n -> zlen (zeros n) = n) by (intros n [? _]; rewrite zlen_zeros; lia).
  destruct o as [n offset|data offset|n|data|p| |n| |].
  - destruct Ho as [Hn Ho]. pose proof (with_buffer_pread h n offset w r h' w' Hr) as ->.
    split; [|by apply same_contents_unstaged].
    cbn [run_op] in Hr. unfold with_buffer, bind, on_fst, on_snd, get_state in Hr. cbn [fst snd] in Hr.
    destruct (pread_any h l offset (zeros n) w) as (r1 & b & w1 & Hrun & _ & _ & _ & _ & _ & Hw);
      [done..|by rewrite Hz|].
    rewrite Hrun in Hr. by destruct r1; simplify_eq.
  - cbn [run_op] in Hr. unfold bind in Hr. destruct (pwrite _ _ _) as [r1 [h1 w1]] eqn:Hpw.
    apply (pwrite_stages h l) in Hpw; [|done..]. by destruct r1; unfold ret in Hr; simplify_eq.
  - split; [|by apply same_contents_unstaged, (with_buffer_read h n w r h' w')].
    cbn [run_op] in Hr. unfold with_buffer in Hr.
    destruct (read_any h l (zeros n) w) as (r1 & h1 & b & w1 & Hrun & _ & _ & _ & _ & _ & Hw);
      [done..|by rewrite Hz|].
    rewrite Hrun in Hr. by destruct r1; simplify_eq.
  - cbn [run_op] in Hr. unfold bind in Hr. destruct (FileHandle.write _ _) as [r1 [h1 w1]] eqn:Hpw.
    apply (write_stages h l) in Hpw; [|done..]. by destruct r1; unfold ret in Hr; simplify_eq.
  - cbn in Hr. unfold ret in Hr. simplify_eq. by split; [|apply same_contents_unstaged].
  - cbn in Hr. unfold ret in Hr. simplify_eq. by split; [|apply same_contents_unstaged].
  - cbn [run_op] in Hr. unfold bind in Hr. destruct (truncate _ _) as [r1 [h1 w1]] eqn:Htr.
    apply (truncate_stages h l) in Htr; [|done..]. by destruct r1; unfold ret in Hr; simplify_eq.
  - done.
  - cbn in Hr. unfold ret in Hr. simplify_eq. by split; [|apply same_contents_unstaged].
Qed.

Lemma op_stages_all o (h : Handle) l w r h' w' :
  wf_handle w h -> represents w h l -> up w -> op_u64 o -> o <> OpSync -> ~ short_op w h o ->
  run_op o (h, w) = (r, (h', w')) -> stages w h w' h'.
Proof.
  intros Hwf Hrep Hu Ho Hns Hs Hr. destruct (op_stages o h l w r h' w') as [Hw Hun]; [done..|].
  by destruct (step_refines o h l w r h' w') as (l' & _ & _ & _ & _ & _ & Hsame).
Qed.
End spec.
