(* ===== verification/HandleSafety.v ===== *)
(** * A handle stays well-formed, whatever happens to it

    FileRefinement.v describes a handle on a store that answers.  Here the
    store may fail, calls may return errors or panic, and other clients may
    change the database between two calls: the invariant of the handle holds
    in every state it can reach, and what identifies its file never changes. *)

From S2P Require Import Prelude RustStd Error Flags Keys SlateDb ChunkStore ChunkLayout.
From S2P Require Import ChunkManager ChunkManagerSpec FileMetadata FileSpec FileHandle.
From S2P Require Import FileHandleSpec FileRefinement.

Section safety.
Context {W Db Txn Reader : Type} `{World W} `{DbReadOps W Db} `{!DbReadLaws W Db}
  `{DbReadOps W Txn} `{!DbReadLaws W Txn} `{SlateDb W Db Txn} `{!SlateDbLaws W Db Txn}
  `{DbReadOps W Reader} `{!DbReadLaws W Reader} `{Clock W} `{!ClockLaws W}
  `{MetadataCodec} `{!MetadataCodecLaws}.
#[local] Abbreviation Handle := (SlateFileHandle Db Reader).

(** The states a handle goes through: a call with any arguments, however it
    ends, and a step of the rest of the system, which may leave the store
    failing or repaired, and may write to the database, as long as the keys
    under the chunk prefix are chunk keys. *)
Inductive reachable (s : Handle * W) : Handle * W -> Prop :=
  | reach_start : reachable s s
  | reach_call o h w : reachable s (h, w) -> op_u64 o -> reachable s (run_op o (h, w)).2
  | reach_world h w w' : reachable s (h, w) -> wf_world w' (chunks h) -> reachable s (h, w').

(** What no call changes: the client, the file, the flags and the layout. *)
Definition same_identity (h h' : Handle) : Prop :=
  same_handle h h' /\
  ChunkManager.chunk_size (chunks h') = ChunkManager.chunk_size (chunks h) /\
  ChunkManager.chunk_base_offset (chunks h') = ChunkManager.chunk_base_offset (chunks h).

(** A call kept the invariant and the identity. *)
Definition kept (h : Handle) (w' : W) (h' : Handle) : Prop :=
  wf_handle w' h' /\ same_identity h h'.

#[global] Instance same_identity_preorder : PreOrder same_identity.
Proof.
  split; [done|]. intros a b c ((Hc & Hi & Hf) & Hs & Hb) ((Hc' & Hi' & Hf') & Hs' & Hb').
  unfold same_identity, same_handle. by rewrite Hc', Hi', Hf', Hs', Hb'.
Qed.

Lemma kept_world (h : Handle) w w' : w' ≡ w -> wf_handle w h -> kept h w' h.
Proof. intros Hw Hwf. split; [by eapply wf_handle_equiv|done]. Qed.

Lemma same_file_identity (h : Handle) c :
  same_file (chunks h) c -> same_identity h (set_chunks h c).
Proof. intros Hc. split_and!; try done; cbn; by rewrite Hc. Qed.

(** ** Calls *)

Lemma pread_keeps (h : Handle) offset buf w r buf' w' :
  wf_handle w h -> is_u64 offset -> pread h offset (buf, w) = (r, (buf', w')) -> w' ≡ w.
Proof.
  intros Hwf [Ho Ho'] Hr. pose proof (zlen_nonneg buf) as Hn.
  pose proof (hw_size _ _ Hwf) as [Hs Hs'].
  destruct (Flags.read (flags h)) eqn:Hread.
  2:{ destruct (pread_not_readable h offset buf w Hread) as (e & He & _).
    rewrite He in Hr. by simplify_eq. }
  rewrite pread_run in Hr by done. cbn zeta in Hr.
  set (n := read_len h (zlen buf) offset) in *.
  assert (Hle : 0 <= n <= zlen buf /\ (0 < n -> offset + n <= size h)) by (unfold n, read_len; lia).
  destruct (Z.eqb_spec n 0); [by simplify_eq|].
  assert (Hlen : zlen (take (Z.to_nat n) buf) = n) by (rewrite zlen_take by lia; lia).
  destruct (ChunkManager.read _ _ _) as [r1 [b w1]] eqn:Hrd.
  apply read_keeps_world in Hrd; [|apply Hwf..|done|by rewrite Hlen; lia].
  by destruct r1; simplify_eq.
Qed.

Lemma read_keeps (h h' : Handle) buf w r buf' w' :
  wf_handle w h -> FileHandle.read (h, (buf, w)) = (r, (h', (buf', w'))) -> kept h w' h'.
Proof.
  intros Hwf Hr. pose proof (hw_position _ _ Hwf) as Hp.
  rewrite (handle_read_run _ _ _ (hw_size _ _ Hwf) Hp) in Hr. cbn zeta in Hr.
  destruct (_ =? 0); [simplify_eq; by apply (kept_world h' w')|].
  destruct (pread h _ _) as [r1 [b w1]] eqn:Hrd. apply pread_keeps in Hrd; [|done..].
  destruct (kept_world h w w1 Hrd Hwf) as [Hwf1 _].
  destruct r1; simplify_eq; [|by apply (kept_world h' w)..].
  split; [by apply wf_set_position|done].
Qed.

(** Reads leave the world as it is. *)
Lemma run_pread_world n offset (h : Handle) w :
  wf_handle w h -> is_u64 offset -> (run_op (OpPread n offset) (h, w)).2.2 ≡ w.
Proof.
  intros Hwf Ho. cbn [run_op]. unfold with_buffer, bind, on_fst, on_snd, get_state. cbn [fst snd].
  destruct (pread h offset (zeros n, w)) as [r [b w1]] eqn:Hr. apply pread_keeps in Hr; [|done..].
  by destruct r.
Qed.

Lemma run_read_world n (h : Handle) w : wf_handle w h -> (run_op (OpRead n) (h, w)).2.2 ≡ w.
Proof.
  intros Hwf. cbn [run_op]. unfold with_buffer. pose proof (hw_position _ _ Hwf) as Hp.
  rewrite (handle_read_run _ _ _ (hw_size _ _ Hwf) Hp). cbn zeta. destruct (_ =? 0); [done|].
  destruct (pread h _ _) as [r [b w1]] eqn:Hr. apply pread_keeps in Hr; [|done..]. by destruct r.
Qed.

(** ** A handle over a read-only client *)

Lemma read_only_clean w (h : Handle) reader :
  wf_handle w h -> client h = ReadOnly reader -> clean h = true.
Proof.
  intros Hwf Hc. pose proof (hw_read_only _ _ Hwf) as Hro. rewrite Hc in Hro.
  destruct Hro as (_ & Hp & Hd). unfold clean, has_pending_changes. by rewrite Hd, Hp, bool_decide_true.
Qed.

(** What its operations do: nothing, but for the position. *)
Lemma read_only_quiet o (h : Handle) w r h' w' reader :
  wf_handle w h -> client h = ReadOnly reader -> op_u64 o -> run_op o (h, w) = (r, (h', w')) ->
  match o with
  | OpPwrite _ _ | OpWrite _ | OpTruncate _ =>
      (exists e, r = Err e /\ code e = CodeReadOnlyViolation) /\ h' = h /\ w' = w
  | OpSync => r = Ok OUnit /\ h' = h /\ w' = w
  | OpPread _ _ | OpRead _ | OpSeek _ | OpReset | OpSize => w' ≡ w /\ same_contents h h'
  end.
Proof.
  intros Hwf Hc Ho Hr. pose proof (hw_read_only _ _ Hwf) as Hro. rewrite Hc in Hro.
  destruct Hro as (Hwr & _). destruct (not_writable h w Hwr) as (e & Hcode & Hpw & Htr).
  pose proof (fun Hns => read_only_contents o h w r h' w' Hwf Hwr Hns Hr) as Hsame.
  destruct o as [n offset|data offset|n|data|p| |n| |]; try specialize (Hsame ltac:(done)).
  - split; [|done]. pose proof (run_pread_world n offset h w Hwf (proj2 Ho)) as Hw. by rewrite Hr in Hw.
  - cbn [run_op] in Hr. unfold bind in Hr. rewrite Hpw in Hr. simplify_eq. split; [by exists e|done].
  - split; [|done]. pose proof (run_read_world n h w Hwf) as Hw. by rewrite Hr in Hw.
  - cbn [run_op] in Hr. unfold bind in Hr.
    rewrite (write_run _ _ _ (hw_size _ _ Hwf) (hw_position _ _ Hwf)), Hpw in Hr. simplify_eq.
    split; [by exists e|done].
  - split; [|done]. cbn in Hr. unfold ret in Hr. by simplify_eq.
  - split; [|done]. cbn in Hr. unfold ret in Hr. by simplify_eq.
  - cbn [run_op] in Hr. unfold bind in Hr. rewrite Htr in Hr. simplify_eq. split; [by exists e|done].
  - cbn [run_op] in Hr. unfold bind in Hr. rewrite sync_run, (read_only_clean w h reader Hwf Hc) in Hr.
    unfold ret in Hr. by simplify_eq.
  - split; [|done]. cbn in Hr. unfold ret in Hr. by simplify_eq.
Qed.

Lemma with_buffer_keeps n m (h : Handle) w :
  (forall buf r h' buf' w', m (h, (buf, w)) = (r, (h', (buf', w'))) -> kept h w' h') ->
  kept h (with_buffer n m (h, w)).2.2 (with_buffer n m (h, w)).2.1.
Proof.
  intros Hm. unfold with_buffer. destruct (m (h, (zeros n, w))) as [r [h1 [b w1]]] eqn:Hr.
  apply Hm in Hr. by destruct r.
Qed.

(** A write or truncation of the chunks of a writable handle. *)
Lemma kept_chunks (h : Handle) c w w' :
  wf_handle w h -> Flags.write (flags h) = true -> w' ≡ w -> same_file (chunks h) c -> wf c ->
  kept h w' (set_chunks h c).
Proof.
  intros Hwf Hwr Hw Hc Hwfc. split; [|by apply same_file_identity].
  apply (wf_handle_equiv w); [done|]. by apply wf_set_chunks.
Qed.

Lemma kept_dirty (h h1 : Handle) n w r h' w' :
  kept h w h1 -> Flags.write (flags h) = true -> is_u64 n ->
  set_metadata_dirty (set_size h1 n, w) = (r, (h', w')) -> kept h w' h'.
Proof.
  intros [Hwf Hid] Hwr Hn Hr.
  destruct (set_metadata_dirty_run (set_size h1 n) w) as (now & w2 & Hrun & Hnow & Hw2 & _).
  rewrite Hrun in Hr. simplify_eq. split; [|exact Hid].
  apply (wf_handle_equiv w); [done|]. apply wf_set_size_dirty; [done| |done..].
  destruct Hid as [(_ & _ & Hf) _]. by rewrite Hf.
Qed.

Lemma pwrite_keeps data offset (h : Handle) w r h' w' :
  wf_handle w h -> is_u64 offset -> pwrite data offset (h, w) = (r, (h', w')) ->
  kept h w' h' /\ (r = Ok tt -> is_u64 (offset + zlen data)).
Proof.
  intros Hwf [Ho Ho'] Hr. pose proof (zlen_nonneg data) as Hn.
  pose proof (hw_size _ _ Hwf) as [Hs Hs'].
  assert (Hsame : kept h w h) by (by apply (kept_world h w)).
  destruct (Flags.write (flags h)) eqn:Hwr.
  2:{ destruct (not_writable h w Hwr) as (e & _ & He & _). rewrite He in Hr. by simplify_eq. }
  destruct (decide (data = [])) as [->|Hd].
  { rewrite pwrite_empty in Hr by done. simplify_eq. by rewrite zlen_nil, Z.add_0_r. }
  destruct (Z.leb_spec (2 ^ 64) (offset + zlen data)) as [Hov|Hov].
  { destruct (pwrite_overflow h data offset w Hwr Hd Hov) as (e & _ & He).
    rewrite He in Hr. by simplify_eq. }
  split; [|intros _; split; lia]. rewrite pwrite_run in Hr by done.
  destruct (ChunkManager.write data offset (chunks h, w)) as [r1 [c w1]] eqn:Hw.
  apply write_ok in Hw; [|apply Hwf|done|lia]. destruct Hw as (Hw1 & _ & Hc & Hwfc & _).
  pose proof (kept_chunks h c w w1 Hwf Hwr Hw1 Hc Hwfc) as Hk.
  destruct r1; simplify_eq; [|done..].
  eapply kept_dirty; [done|done| |done]. split; lia.
Qed.

Lemma truncate_keeps n (h : Handle) w r h' w' :
  wf_handle w h -> is_u64 n -> truncate n (h, w) = (r, (h', w')) -> kept h w' h'.
Proof.
  intros Hwf Hn Hr. destruct (Flags.write (flags h)) eqn:Hwr.
  2:{ destruct (not_writable h w Hwr) as (e & _ & _ & He). rewrite He in Hr. simplify_eq.
    by apply (kept_world h' w'). }
  rewrite truncate_run in Hr by done.
  destruct (n =? size h); [simplify_eq; by apply (kept_world h' w')|].
  destruct (n <? size h); [|eapply kept_dirty; [by apply (kept_world h w)|done..]].
  destruct (ChunkManager.truncate n (chunks h, w)) as [r1 [c w1]] eqn:Ht.
  apply ChunkManagerSpec.truncate_ok in Ht; [|apply Hwf..|done].
  destruct Ht as (Hw1 & _ & Hc & Hwfc & _).
  pose proof (kept_chunks h c w w1 Hwf Hwr Hw1 Hc Hwfc) as Hk.
  destruct r1; simplify_eq; [|done..]. by eapply kept_dirty.
Qed.

Lemma sync_keeps (h : Handle) w r h' w' :
  wf_handle w h -> sync (h, w) = (r, (h', w')) -> kept h w' h'.
Proof.
  intros Hwf Hr. apply sync_any in Hr as (_ & Hwf' & _ & Hsame & _ & Hm & _); [|done].
  injection Hm as _ _ Hcs Hbase. by split_and!.
Qed.

Lemma write_keeps data (h : Handle) w r h' w' :
  wf_handle w h -> FileHandle.write data (h, w) = (r, (h', w')) -> kept h w' h'.
Proof.
  intros Hwf. pose proof (hw_size _ _ Hwf) as Hs. pose proof (hw_position _ _ Hwf) as Hp.
  rewrite write_run by done. set (offset := if append (flags h) then size h else position h).
  assert (Ho : is_u64 offset) by (unfold offset; by destruct (append _)).
  destruct (pwrite data offset (h, w)) as [r1 [h1 w1]] eqn:Hw.
  apply pwrite_keeps in Hw as [[Hwf1 Hid] Hlen]; [|done..].
  destruct r1 as [[]|e|p]; intros Hr; simplify_eq; [|done..].
  split; [apply wf_set_position; [done|by apply Hlen]|done].
Qed.

(** Every call keeps the invariant, however it ends. *)
Lemma run_op_keeps o (h : Handle) w :
  wf_handle w h -> op_u64 o -> kept h (run_op o (h, w)).2.2 (run_op o (h, w)).2.1.
Proof.
  intros Hwf Ho. destruct o; cbn [run_op].
  - apply with_buffer_keeps. intros buf r h' buf' w'.
    unfold bind, on_fst, on_snd, get_state. cbn [fst snd].
    destruct (pread h offset (buf, w)) as [r1 [b w1]] eqn:Hr. apply pread_keeps in Hr; [|done|apply Ho].
    intros [= _ <- _ <-]. by apply (kept_world h w).
  - unfold bind. destruct (pwrite _ _ _) as [r [h' w']] eqn:Hr.
    apply pwrite_keeps in Hr as [Hk _]; [|done..]. by destruct r.
  - apply with_buffer_keeps. intros buf r h' buf' w' Hr. by eapply read_keeps.
  - unfold bind. destruct (FileHandle.write _ _) as [r [h' w']] eqn:Hr.
    apply write_keeps in Hr; [|done]. by destruct r.
  - split; [by apply wf_set_position|done].
  - split; [by apply wf_set_position|done].
  - unfold bind. destruct (truncate _ _) as [r [h' w']] eqn:Hr.
    apply truncate_keeps in Hr; [|done..]. by destruct r.
  - unfold bind. destruct (sync _) as [r [h' w']] eqn:Hr.
    apply sync_keeps in Hr; [|done]. by destruct r.
  - by apply (kept_world h w).
Qed.

(** Rule induction on the states a handle reaches. *)
Lemma reachable_kept (s t : Handle * W) :
  wf_handle s.2 s.1 -> reachable s t -> kept s.1 t.2 t.1.
Proof.
  intros Hwf Ht. induction Ht as [|o h w _ [Hwf1 Hid] Ho|h w w' _ [Hwf1 Hid] Hw'].
  - by split.
  - cbn in Hwf1, Hid. destruct (run_op_keeps o h w Hwf1 Ho) as [Hwf2 Hid2].
    split; [done|]. by etrans.
  - split; [|done]. cbn in *. destruct Hwf1. by split.
Qed.
End safety.
