(* ===== verification/HandleSystem.v ===== *)
(** * Several open handles on one store

    Calls on different handles interleave.  Handles of different files, or of
    different databases, do not see each other: each shows what it would show
    alone, which is what the specification of files shows. *)

From S2P Require Import Prelude RustStd Error Flags Keys SlateDb ChunkStore ChunkLayout.
From S2P Require Import ChunkManager ChunkManagerSpec FileMetadata FileSpec FileHandle.
From S2P Require Import FileHandleSpec FileRefinement.

(** The part of a history that concerns handle [n]. *)
Definition tagged {A} (n : nat) (l : list (nat * A)) : list A :=
  snd <$> filter (fun p => p.1 = n) l.

Lemma tagged_same {A} n (x : A) l : tagged n ((n, x) :: l) = x :: tagged n l.
Proof. unfold tagged. by rewrite filter_cons_True. Qed.
Lemma tagged_other {A} n k (x : A) l : k <> n -> tagged n ((k, x) :: l) = tagged n l.
Proof. intros Hne. unfold tagged. by rewrite filter_cons_False. Qed.

Section run.
Context {W Db Txn Reader : Type} `{SlateDb W Db Txn} `{DbReadOps W Db} `{DbReadOps W Reader}
  `{Clock W} `{MetadataCodec}.
#[local] Abbreviation Handle := (SlateFileHandle Db Reader).

(** Run an interleaving of calls on the table of open handles; a panic stops
    it, and a call on a handle that is not open does not happen. *)
Fixpoint run_system (os : list (nat * Op)) (hs : gmap nat Handle) (w : W)
    : option (list (nat * Obs)) * (gmap nat Handle * W) :=
  match os with
  | [] => (Some [], (hs, w))
  | (n, o) :: os =>
      match hs !! n with
      | None => run_system os hs w
      | Some h =>
          let '(r, (h, w)) := run_op o (h, w) in
          let hs := <[n := h]> hs in
          match obs r with
          | None => (None, (hs, w))
          | Some x =>
              let '(xs, s) := run_system os hs w in ((fun xs => (n, x) :: xs) <$> xs, s)
          end
      end
  end.
End run.

Section system.
Context {W Db Txn Reader : Type} `{World W} `{DbReadOps W Db} `{!DbReadLaws W Db}
  `{DbReadOps W Txn} `{!DbReadLaws W Txn} `{SlateDb W Db Txn} `{!SlateDbLaws W Db Txn}
  `{DbReadOps W Reader} `{!DbReadLaws W Reader} `{Clock W} `{!ClockLaws W}
  `{MetadataCodec} `{!MetadataCodecLaws}.
#[local] Abbreviation Handle := (SlateFileHandle Db Reader).

(** Handles of different databases, or of different files of one. *)
Definition apart (h1 h2 : Handle) : Prop :=
  (client h2 = client h1 /\ file_id h2 <> file_id h1) \/ client h2 <> client h1.

Lemma apart_same (h h1 h2 : Handle) : same_handle h h1 -> apart h h2 -> apart h1 h2.
Proof. unfold apart. by intros (-> & -> & _). Qed.
Lemma apart_sym (h1 h2 : Handle) : apart h1 h2 -> apart h2 h1.
Proof. unfold apart. intros [[? ?]|?]; [left; split|right]; congruence. Qed.

(** The handles are open for reading and writing through their databases,
    well-formed, and apart from each other. *)
Record wf_system (w : W) (hs : gmap nat Handle) : Prop := {
  ws_handle n h : hs !! n = Some h ->
    wf_handle w h /\ (exists db, client h = ReadWrite db) /\ exists l, represents w h l;
  ws_apart n1 n2 h1 h2 :
    n1 <> n2 -> hs !! n1 = Some h1 -> hs !! n2 = Some h2 -> apart h1 h2
}.

(** ** Frames *)

(** Files are isolated: a sync of one handle, successful or not, does not
    change what any handle of another file shows, in this database or another. *)
Lemma sync_isolates_files (h h2 : Handle) l2 (w : W) r h' w' db db2 :
  wf_handle w h -> client h = ReadWrite db ->
  wf_handle w h2 -> client h2 = ReadWrite db2 -> represents w h2 l2 ->
  (db2 = db /\ file_id h2 <> file_id h) \/ db2 <> db ->
  sync (h, w) = (r, (h', w')) -> represents w' h2 l2.
Proof.
  intros Hwf Hc Hwf2 Hc2 Hrep2 Hne Hr.
  destruct (sync_view h w r h' w' db Hc Hr) as [Hother Hview].
  pose proof (wf_file _ (hw_chunks _ _ Hwf2)) as Hid. rewrite (hw_id _ _ Hwf2) in Hid.
  assert (Hsame : db_view w' db2 = db_view w db2 -> represents w' h2 l2).
  { intros Hv. by apply (represents_view w w' h2 db2). }
  destruct Hne as [[-> Hne]|Hne]; [|by apply Hsame, Hother].
  apply (represents_frame w); [done| |done].
  intros i Hi. rewrite (hw_store _ _ Hwf2), Hc2. cbn.
  destruct Hview as [->| ->]; [done|]. by apply (sync_batch_other w).
Qed.

(** The invariant of a handle survives a sync of any other. *)
Lemma sync_wf_frame (h h2 : Handle) (w : W) r h' w' db db2 :
  wf_handle w h -> client h = ReadWrite db -> wf_handle w h2 -> client h2 = ReadWrite db2 ->
  db2 = db \/ db2 <> db -> sync (h, w) = (r, (h', w')) -> wf_handle w' h2.
Proof.
  intros Hwf Hc Hwf2 Hc2 Hdec Hr.
  destruct (sync_view h w r h' w' db Hc Hr) as [Hother Hview].
  destruct Hdec as [->|Hne]; [|by eapply wf_handle_view, Hother].
  destruct Hview as [Hview|Hview]; [by eapply wf_handle_view|].
  pose proof (hw_world _ _ Hwf2) as Hw. pose proof (hw_store _ _ Hwf2) as Hst.
  destruct Hwf2. split; try done. unfold wf_world in *. rewrite Hst, Hc2 in *. cbn in *.
  rewrite Hview. by eapply wf_chunk_keys_batch, Hw; eapply sync_batch_chunk_keys.
Qed.

(** A call on one handle leaves the others as they were. *)
Lemma call_frame o (h h2 : Handle) l l2 (w : W) r h' w' :
  wf_handle w h -> represents w h l -> (exists db, client h = ReadWrite db) -> up w ->
  op_u64 o -> ~ short_op w h o -> run_op o (h, w) = (r, (h', w')) ->
  wf_handle w h2 -> (exists db, client h2 = ReadWrite db) -> apart h h2 -> represents w h2 l2 ->
  wf_handle w' h2 /\ represents w' h2 l2.
Proof.
  intros Hwf Hrep [db Hc] Hu Ho Hshort Hr Hwf2 [db2 Hc2] Hap Hrep2.
  destruct (decide (o = OpSync)) as [->|Hns].
  2:{ destruct (op_stages o h l w r h' w' Hwf Hrep Hu Ho Hns Hshort Hr) as [Hw _].
    split; [by eapply wf_handle_equiv|by eapply represents_equiv]. }
  cbn [run_op] in Hr. unfold bind in Hr. destruct (sync (h, w)) as [r1 [h1 w1]] eqn:Hs.
  assert (w' = w1) as -> by (by destruct r1; unfold ret in Hr; simplify_eq).
  unfold apart in Hap. rewrite Hc, Hc2 in Hap.
  assert (Hdb : (db2 = db /\ file_id h2 <> file_id h) \/ db2 <> db).
  { destruct Hap as [[[= ->] Hid]|Hap]; [by left|right; congruence]. }
  split; [|by eapply (sync_isolates_files h h2 l2 w r1 h1 w1 db db2)].
  eapply (sync_wf_frame h h2 w r1 h1 w1 db db2); try done. naive_solver.
Qed.

(** ** Interleavings *)

(** What one call does to the system. *)
Lemma system_step n o (h : Handle) hs l (w : W) r h' w' :
  wf_system w hs -> up w -> hs !! n = Some h -> represents w h l -> op_u64 o ->
  ~ short_op w h o -> run_op o (h, w) = (r, (h', w')) ->
  refined o h l r h' w' /\ wf_system w' (<[n := h']> hs) /\
  forall k h2 l2, k <> n -> hs !! k = Some h2 -> represents w h2 l2 -> represents w' h2 l2.
Proof.
  intros [Hh Hap] Hu Hn Hrep Ho Hshort Hr. destruct (Hh n h Hn) as (Hwf & Hdb & _).
  pose proof (step_refines o h l w r h' w' Hwf Hrep Hu Ho Hshort Hr) as Href.
  assert (Hframe : forall k h2 l2, k <> n -> hs !! k = Some h2 -> represents w h2 l2 ->
    wf_handle w' h2 /\ represents w' h2 l2).
  { intros k h2 l2 Hne Hk Hrep2. destruct (Hh k h2 Hk) as (Hwf2 & Hdb2 & _).
    eapply (call_frame o h h2 l l2 w r h' w'); try done. by eapply (Hap n k). }
  split_and!; [done| |by intros; eapply Hframe].
  destruct Href as (l' & _ & _ & Hwf' & Hrep' & _ & Hsame). split.
  - intros k h2. destruct (decide (k = n)) as [->|Hne].
    + rewrite lookup_insert_eq. intros [= <-]. pose proof Hsame as (Hc & _).
      split_and!; [done|by rewrite Hc|by exists l'].
    + rewrite lookup_insert_ne by done. intros Hk. destruct (Hh k h2 Hk) as (_ & Hdb2 & l2 & Hrep2).
      destruct (Hframe k h2 l2 Hne Hk Hrep2) as [? ?]. split_and!; [done..|by exists l2].
  - intros n1 n2 h1 h2 Hne. rewrite !lookup_insert. repeat case_decide; subst; try done.
    + intros [= <-] Hk2. eapply apart_same; [done|]. by eapply (Hap n1 n2).
    + intros Hk1 [= <-]. apply apart_sym. eapply apart_same; [done|]. by eapply (Hap n2 n1).
    + intros Hk1 Hk2. by eapply (Hap n1 n2).
Qed.

(** The history of handle [n] is the one of the specification. *)
Definition alone (n : nat) (os : list (nat * Op)) (xs : list (nat * Obs)) (w : W) (hs : gmap nat Handle)
    (w' : W) (hs' : gmap nat Handle) : Prop :=
  forall h l, hs !! n = Some h -> represents w h l ->
  exists h' l', hs' !! n = Some h' /\ tagged n xs = (spec_run (tagged n os) (abs h l)).1 /\
  abs h' l' = (spec_run (tagged n os) (abs h l)).2 /\ wf_handle w' h' /\ represents w' h' l'.

(** One more call before a history. *)
Lemma alone_cons n k o os x xs (h h1 : Handle) l (w w1 w' : W) hs hs' r :
  hs !! k = Some h -> represents w h l -> is_u64 (size h) -> refined o h l r h1 w1 -> obs r = Some x ->
  (forall j h2 l2, j <> k -> hs !! j = Some h2 -> represents w h2 l2 -> represents w1 h2 l2) ->
  alone n os xs w1 (<[k := h1]> hs) w' hs' -> alone n ((k, o) :: os) ((k, x) :: xs) w hs w' hs'.
Proof.
  intros Hk Hrep Hsz (l1 & Hobs & Habs & _ & Hrep1 & _) Hx Hframe Hrest h2 l2 Hn Hrep2.
  destruct (decide (k = n)) as [->|Hne].
  - rewrite !tagged_same. assert (h2 = h) as -> by congruence.
    assert (l2 = l) as -> by (by apply (represents_unique w h)).
    rewrite Hx in Hobs. injection Hobs as ->.
    destruct (Hrest h1 l1) as (h' & l' & ? & Hxs & Habs' & ? & ?); [by rewrite lookup_insert_eq|done|].
    exists h', l'. cbn [spec_run]. destruct (spec_step o (abs h l)) as [y f]. cbn in Habs. subst f.
    destruct (spec_run (tagged n os) (abs h1 l1)). cbn in *. by subst.
  - rewrite !tagged_other by done. apply Hrest; [by rewrite lookup_insert_ne|].
    by eapply Hframe.
Qed.

Lemma alone_nil n (w : W) hs : wf_system w hs -> alone n [] [] w hs w hs.
Proof. intros [Hh _] h l Hn Hrep. exists h, l. split_and!; try done. apply (Hh n h Hn). Qed.

Lemma run_system_alone os hs (w : W) xs hs' w' :
  wf_system w hs -> up w -> Forall (fun p => op_u64 p.2) os ->
  run_system os hs w = (Some xs, (hs', w')) -> wf_system w' hs' /\ up w' /\
  forall n, alone n os xs w hs w' hs'.
Proof.
  revert hs w xs. induction os as [|[k o] os IH]; intros hs w xs Hws Hu Hos Hr.
  { cbn in Hr. simplify_eq. split_and!; [done..|]. intros n. by apply alone_nil. }
  apply Forall_cons in Hos as [Ho Hos]. cbn [run_system] in Hr.
  destruct (hs !! k) as [h|] eqn:Hk.
  2:{ destruct (IH hs w xs Hws Hu Hos Hr) as (? & ? & Hal). split_and!; [done..|].
    intros n h l Hn Hrep. rewrite tagged_other by congruence. by apply Hal. }
  destruct (ws_handle _ _ Hws k h Hk) as (Hwf & _ & l & Hrep).
  destruct (run_op o (h, w)) as [r [h1 w1]] eqn:Hstep.
  destruct (decide (short_op w h o)) as [Hshort|Hshort].
  { destruct (step_panics o h w Hwf Hu Ho Hshort) as (w2 & _ & Hp).
    rewrite Hp in Hstep. by simplify_eq. }
  destruct (system_step k o h hs l w r h1 w1 Hws Hu Hk Hrep Ho Hshort Hstep) as (Href & Hws1 & Hframe).
  pose proof Href as (l1 & Hobs & _ & _ & _ & Hu1 & _). rewrite Hobs in Hr.
  destruct (run_system os (<[k := h1]> hs) w1) as [ys s] eqn:Hrun.
  destruct ys as [ys|]; cbn in Hr; simplify_eq.
  destruct (IH _ _ _ Hws1 Hu1 Hos Hrun) as (? & ? & Hal). split_and!; [done..|].
  intros n. apply (alone_cons n k o os _ ys h h1 l w w1 w' hs hs' r); try done.
  apply (hw_size _ _ Hwf).
Qed.

(** An interleaving that does not run to its end stops at a short read. *)
Lemma run_system_stops os hs (w : W) s :
  wf_system w hs -> up w -> Forall (fun p => op_u64 p.2) os -> run_system os hs w = (None, s) ->
  exists os1 n o os2 xs hs1 w1 h, os = os1 ++ (n, o) :: os2 /\
  run_system os1 hs w = (Some xs, (hs1, w1)) /\ hs1 !! n = Some h /\ short_op w1 h o.
Proof.
  revert hs w. induction os as [|[k o] os IH]; intros hs w Hws Hu Hos Hr; [done|].
  apply Forall_cons in Hos as [Ho Hos]. cbn [run_system] in Hr.
  destruct (hs !! k) as [h|] eqn:Hk.
  2:{ destruct (IH hs w Hws Hu Hos Hr) as (os1 & n & o' & os2 & xs & hs1 & w1 & h & -> & Hx & ?).
    exists ((k, o) :: os1), n, o', os2, xs, hs1, w1, h. split_and!; [done| |naive_solver..].
    cbn [run_system]. by rewrite Hk. }
  destruct (decide (short_op w h o)) as [Hshort|Hshort].
  { exists [], k, o, os, [], hs, w, h. by split_and!. }
  destruct (ws_handle _ _ Hws k h Hk) as (Hwf & _ & l & Hrep).
  destruct (run_op o (h, w)) as [r [h1 w1]] eqn:Hstep.
  destruct (system_step k o h hs l w r h1 w1 Hws Hu Hk Hrep Ho Hshort Hstep) as (Href & Hws1 & _).
  destruct Href as (l1 & Hobs & _ & _ & _ & Hu1 & _). rewrite Hobs in Hr.
  destruct (run_system os (<[k := h1]> hs) w1) as [ys s'] eqn:Hrun.
  destruct ys as [ys|]; cbn in Hr; simplify_eq.
  destruct (IH _ _ Hws1 Hu1 Hos Hrun) as (os1 & n & o' & os2 & xs & hs1 & w2 & h2 & -> & Hx & ?).
  eexists ((k, o) :: os1), n, o', os2, _, hs1, w2, h2. split_and!; [done| |naive_solver..].
  cbn [run_system]. by rewrite Hk, Hstep, Hobs, Hx.
Qed.
End system.
