(* ===== verification/FileProps.v ===== *)
(** * Properties of file handles

    The theorems about rust/src/file_handle.rs that a reader should know, each
    applied at a concrete input in the memory world of MemDb.v, and two
    examples of what the code does where its comments say otherwise. *)

From S2P Require Import Prelude RustStd Error Flags Keys SlateDb MemDb ChunkStore ChunkLayout.
From S2P Require Import ChunkManager ChunkManagerSpec ChunkProps FileMetadata FileSpec.
From S2P Require Import FileHandle FileHandleSpec FileRefinement HandleSafety HandleSystem.

(** ** A file for the examples: chunks of 8 bytes *)

Abbreviation ExHandle := (SlateFileHandle MDb MReader).
Definition ex_meta : FileMetadata :=
  {| FileMetadata.size := 0; FileMetadata.modified_at_ms := 1; FileMetadata.chunk_size := 8;
     FileMetadata.chunk_base_offset := 0 |}.
Definition ex_file_world : MemWorld := mem_world ∅.
Definition ex_client : SlateFileClient MDb MReader := ReadWrite ex_db.
Definition ex_handle : ExHandle := opened ex_client 1 ex_meta open_or_create.

Lemma ex_meta_u64 : metadata_u64 ex_meta.
Proof. by split. Qed.
Lemma ex_openable flags :
  validate flags = Ok tt -> openable ex_client ex_meta flags.
Proof. intros Hf. by split_and!. Qed.

Lemma ex_client_view : cs_view ex_file_world (chunk_store ex_client) = ∅.
Proof. done. Qed.

Lemma ex_represents :
  wf_handle ex_file_world ex_handle /\
  represents ex_file_world ex_handle [].
Proof.
  apply opened_represents; [apply ex_meta_u64|done|by apply ex_openable| |].
  - rewrite ex_client_view. apply wf_chunk_keys_empty.
  - rewrite ex_client_view. apply stored_empty; [|done|done]. intros. apply lookup_empty.
Qed.

(** ** Refinement and panics *)

Section props.
Context {W Db Txn Reader : Type} `{World W} `{DbReadOps W Db} `{!DbReadLaws W Db}
  `{DbReadOps W Txn} `{!DbReadLaws W Txn} `{SlateDb W Db Txn} `{!SlateDbLaws W Db Txn}
  `{DbReadOps W Reader} `{!DbReadLaws W Reader} `{Clock W} `{!ClockLaws W}
  `{MetadataCodec} `{!MetadataCodecLaws}.

(** C6: a program of handle operations on a store that answers shows its
    caller exactly what the specification of files shows, and leaves the
    handle at the specified bytes and position; it stops early only at a read
    that starts past the end of a short chunk. *)
Theorem handle_refines_file (os : list Op) (h : SlateFileHandle Db Reader) l (w : W) :
  wf_handle w h -> represents w h l -> up w -> Forall op_u64 os ->
  match run_ops os h w with
  | (Some xs, (h', w')) =>
  exists l', xs = (spec_run os (abs h l)).1 /\ abs h' l' = (spec_run os (abs h l)).2 /\
  wf_handle w' h' /\ represents w' h' l'
  | (None, _) =>
  exists os1 o os2 xs h1 w1, os = os1 ++ o :: os2 /\
  run_ops os1 h w = (Some xs, (h1, w1)) /\ short_op w1 h1 o
  end.
Proof.
  intros Hwf Hrep Hu Hos. destruct (run_ops os h w) as [[xs|] [h' w']] eqn:Hr.
  - destruct (run_refines os h l w xs h' w' Hwf Hrep Hu Hos Hr) as (l' & ? & ? & ? & ? & _).
    by exists l'.
  - by eapply run_stops.
Qed.

(** C22: on a store that answers, the only calls of a handle that panic are
    the reads that start inside a chunk that ends before their offset: a
    file that was grown past its last write, read from the gap. *)
Theorem panics_iff_short_read o (h : SlateFileHandle Db Reader) l (w : W) :
  wf_handle w h -> represents w h l -> up w -> op_u64 o ->
  (is_panic (run_op o (h, w)).1 = true <-> short_op w h o).
Proof.
  intros Hwf Hrep Hu Ho. split.
  - intros Hp. destruct (decide (short_op w h o)) as [|Hs]; [done|].
    destruct (run_op o (h, w)) as [r [h' w']] eqn:Hr.
    destruct (step_refines o h l w r h' w' Hwf Hrep Hu Ho Hs Hr) as (l' & Hobs & _).
    by destruct r.
  - intros Hs. destruct (step_panics o h w Hwf Hu Ho Hs) as (w' & _ & Hr). by rewrite Hr.
Qed.

(** ** Handles side by side *)

(** C19: handles of different files do not see each other, however their
    calls interleave: on a store that answers, each shows its caller what the
    specification of files shows for its own calls alone, and ends at the
    bytes and position specified; the run stops early only at a short read. *)
Theorem interleaved_handles_refine_files os (hs : gmap nat (SlateFileHandle Db Reader)) (w : W) :
  wf_system w hs -> up w -> Forall (fun p => op_u64 p.2) os ->
  match run_system os hs w with
  | (Some xs, (hs', w')) =>
  forall n h l, hs !! n = Some h -> represents w h l ->
  exists h' l', hs' !! n = Some h' /\ tagged n xs = (spec_run (tagged n os) (abs h l)).1 /\
  abs h' l' = (spec_run (tagged n os) (abs h l)).2 /\ wf_handle w' h' /\ represents w' h' l'
  | (None, _) =>
  exists os1 n o os2 xs hs1 w1 h, os = os1 ++ (n, o) :: os2 /\
  run_system os1 hs w = (Some xs, (hs1, w1)) /\ hs1 !! n = Some h /\ short_op w1 h o
  end.
Proof.
  intros Hws Hu Hos. destruct (run_system os hs w) as [[xs|] [hs' w']] eqn:Hr.
  - intros n. by apply (run_system_alone os hs w xs hs' w').
  - by eapply run_system_stops.
Qed.

(** C33: a handle stays well-formed whatever happens to it: through any calls,
    however they end, with errors of the store and panics, and through any
    changes other clients make to the database in between; its client, file,
    flags and chunk layout never change, and its metadata record can always be
    written and read back. *)
Theorem handle_stays_well_formed (h h' : SlateFileHandle Db Reader) (w w' : W) :
  wf_handle w h -> reachable (h, w) (h', w') ->
  wf_handle w' h' /\ client h' = client h /\ file_id h' = file_id h /\ flags h' = flags h /\
  FileMetadata.chunk_size (metadata h') = FileMetadata.chunk_size (metadata h) /\
  FileMetadata.chunk_base_offset (metadata h') = FileMetadata.chunk_base_offset (metadata h) /\
  decode_from_bytes (encode_to_bytes (metadata h')) = Ok (metadata h').
Proof.
  intros Hwf Hr. apply reachable_kept in Hr as [Hwf' ((? & ? & ?) & ? & ?)]; [|done].
  split_and!; try done. by eapply decode_encode_bytes, metadata_in_range.
Qed.

(** ** Errors *)

(** C32: when the store fails under a [pwrite], the size and the position
    stay, and the bytes shown are those of the file with a prefix of the data
    written over them: the bytes before the old size are old or new, but the
    bytes past it may no longer be zero. *)
Theorem failed_pwrite_writes_prefix (h : SlateFileHandle Db Reader) l data offset (w : W) r h' w' :
  wf_handle w h -> represents w h l -> is_u64 offset ->
  pwrite data offset (h, w) = (r, (h', w')) -> r <> Ok tt ->
  size h' = size h /\ position h' = position h /\ wf_handle w' h' /\
  exists k, 0 <= k <= zlen data /\
  forall p, is_u64 p -> byte_at w' (chunks h') p =
  if decide (offset <= p < offset + k) then zbyte data (p - offset) else zbyte l p.
Proof.
  intros Hwf Hrep Ho Hr Hne. pose proof (zlen_nonneg data) as Hd0.
  assert (Hsame : (r, (h', w')) = (r, (h, w)) ->
    size h' = size h /\ position h' = position h /\ wf_handle w' h' /\
    exists k, 0 <= k <= zlen data /\
    forall p, is_u64 p -> byte_at w' (chunks h') p =
    if decide (offset <= p < offset + k) then zbyte data (p - offset) else zbyte l p).
  { intros [= -> ->]. split_and!; [done..|]. exists 0. split; [lia|]. intros p Hp.
    rewrite decide_False by lia. by apply Hrep. }
  destruct (Flags.write (flags h)) eqn:Hwr.
  2:{ destruct (not_writable h w Hwr) as (e & _ & He & _). apply Hsame. rewrite He in Hr. by simplify_eq. }
  destruct (decide (data = [])) as [->|Hd].
  { rewrite pwrite_empty in Hr by done. by simplify_eq. }
  destruct (decide (offset + zlen data < 2 ^ 64)) as [Hlt|Hge].
  - destruct (pwrite_ok h l data offset w r h' w' Hwf Hrep Hwr Ho Hd Hlt Hr)
      as (_ & _ & Hwf' & _ & Hpos & _ & Hfail).
    destruct (Hfail Hne) as [Hsz Hk]. by split_and!.
  - destruct (pwrite_overflow h data offset w Hwr Hd ltac:(lia)) as (e & _ & He).
    apply Hsame. rewrite He in Hr. by simplify_eq.
Qed.

(** A truncation that fails changes nothing: the handle is as it was,
    with every staged write, and represents the same bytes. *)
Theorem failed_truncate_changes_nothing (h : SlateFileHandle Db Reader) l n (w : W) r h' w' :
  wf_handle w h -> represents w h l -> is_u64 n ->
  truncate n (h, w) = (r, (h', w')) -> r <> Ok tt -> h' = h /\ w' ≡ w /\ represents w' h' l.
Proof.
  intros Hwf Hrep Hn Hr Hne. destruct (Flags.write (flags h)) eqn:Hwr.
  - destruct (handle_truncate_ok h l n w r h' w' Hwf Hrep Hwr Hn Hr) as (Hw & _ & _ & _ & _ & _ & Heq).
    rewrite (Heq Hne). split_and!; [done|done|by eapply represents_equiv].
  - destruct (not_writable h w Hwr) as (e & _ & _ & He). rewrite He in Hr. by simplify_eq.
Qed.

(** which handles open: exactly those with valid flags, a client that
    allows them and a metadata record whose layout the chunk manager can
    work with; anything else is an error of the caller, never a panic. *)
Theorem open_accepts_valid (client : SlateFileClient Db Reader) id meta flags :
  metadata_u64 meta ->
  match FileHandle.new client id meta flags with
  | Ok h => openable client meta flags /\ h = opened client id meta flags
  | Err e => ~ openable client meta flags /\
  (code e = CodeInvalidArgument \/ code e = CodeReadOnlyViolation)
  | Panic _ => False
  end.
Proof.
  intros Hm. pose proof (fun h => new_ok client id meta flags h Hm) as Hnew.
  destruct (FileHandle.new client id meta flags) as [h|e|p] eqn:Hr; [by apply Hnew|split|].
  - intros Ho. by pose proof (proj2 (Hnew _) (conj Ho eq_refl)).
  - destruct (new_err client id meta flags) as [[h Hh]|(e' & He & Hcode)]; [congruence|].
    rewrite He in Hr. by simplify_eq.
  - destruct (new_err client id meta flags) as [[h Hh]|(e' & He & _)]; congruence.
Qed.

(** C34: a handle over a read-only client never changes the store: whatever
    operation runs, however it ends, the world is as it was and nothing is
    staged; writes and truncations are refused as read-only violations, and a
    sync or close succeeds, and these leave the handle as it was too. *)
Theorem read_only_handle_is_inert o (h : SlateFileHandle Db Reader) (w : W) r h' w' reader :
  wf_handle w h -> client h = ReadOnly reader -> op_u64 o -> run_op o (h, w) = (r, (h', w')) ->
  w' ≡ w /\ chunks h' = chunks h /\ size h' = size h /\ clean h' = true /\
  match o with
  | OpPwrite _ _ | OpWrite _ | OpTruncate _ =>
      (exists e, r = Err e /\ code e = CodeReadOnlyViolation) /\ h' = h /\ w' = w
  | OpSync => r = Ok OUnit /\ h' = h /\ w' = w
  | OpPread _ _ | OpRead _ | OpSeek _ | OpReset | OpSize => True
  end /\
  close (h, w) = (Ok tt, (h, w)).
Proof.
  intros Hwf Hc Ho Hr. pose proof (read_only_clean w h reader Hwf Hc) as Hclean.
  pose proof (read_only_quiet o h w r h' w' reader Hwf Hc Ho Hr) as Hquiet. clear Hr.
  assert (Hclose : close (h, w) = (Ok tt, (h, w))) by (unfold close; by rewrite sync_run, Hclean).
  destruct o; destruct Hquiet as [He Hrest];
    first [destruct Hrest as (-> & ->)|destruct Hrest as (? & ? & ?)]; split_and!; try done.
  all: rewrite <-Hclean; unfold clean; congruence.
Qed.
End props.

(** ** At concrete inputs *)

Definition ex_program : list Op :=
  [OpWrite (bytes_of "hello world"); OpSeek 4; OpRead 5; OpTruncate 6; OpPread 20 2; OpSync;
   OpTruncate 12; OpPread 9 0; OpSize].

Lemma handle_refines_file_witness :
  exists s, run_ops ex_program ex_handle ex_file_world =
    (Some (spec_run ex_program (abs ex_handle [])).1, s).
Proof.
  pose proof (handle_refines_file ex_program ex_handle [] ex_file_world (proj1 ex_represents)
    (proj2 ex_represents) eq_refl ltac:(repeat constructor; by vm_compute)) as Hr.
  assert (Hok : is_Some (run_ops ex_program ex_handle ex_file_world).1) by (vm_compute; eauto).
  destruct (run_ops ex_program ex_handle ex_file_world) as [[xs|] [h' w']]; [|by destruct Hok].
  destruct Hr as (l' & -> & _). by eexists.
Defined.

(** "abc" in a file grown to eight bytes: chunk 0 holds three of them. *)
Definition ex_grown : ExHandle * MemWorld :=
  (run_ops [OpWrite (bytes_of "abc"); OpTruncate 8] ex_handle ex_file_world).2.

(** reading two bytes at offset 5 of the file that [truncate] grew from
    "abc" to eight bytes panics in the copy, where the specification reads two
    zeroes: "a short chunk contributes only the bytes it has" does not hold for
    a read that starts past the end of the short chunk. *)
Theorem read_of_grown_file_panics :
  (run_op (OpPread 2 5) ex_grown).1 = Panic "slice index out of range" /\
  (spec_run [OpWrite (bytes_of "abc"); OpTruncate 8; OpPread 2 5] (abs ex_handle [])).1
    = [ONum 3; OUnit; OBytes [x00; x00]].
Proof. split; by vm_compute. Qed.

(** A write of twelve bytes at offset 2 of an empty file, during which the
    second chunk read fails. *)
Definition ex_failed_write : Result unit * (ExHandle * MemWorld) :=
  pwrite (bytes_of "abcdefghijkl") 2 (ex_handle, set_fault ex_file_world (Some 1%nat)).

(** a [pwrite] that fails after its first chunk leaves bytes past the end
    of the file: the size is still zero, but growing the file to eight bytes
    shows the data of the failed write where the new bytes should read as
    zeroes. *)
Theorem failed_write_shows_in_grown_file :
  exists e, ex_failed_write.1 = Err e /\ code e = CodeSlateDb /\
    file_size ex_failed_write.2.1 = 0 /\
    (run_ops [OpTruncate 8; OpPread 8 0] ex_failed_write.2.1 ex_failed_write.2.2).1 =
      Some [OUnit; OBytes ([x00; x00] ++ bytes_of "abcdef")].
Proof. eexists. split_and!; by vm_compute. Qed.

Lemma ex_grown_represents :
  exists l, wf_handle ex_grown.2 ex_grown.1 /\ represents ex_grown.2 ex_grown.1 l.
Proof.
  unfold ex_grown. destruct (run_ops _ ex_handle ex_file_world) as [xs [h w]] eqn:Hr.
  assert (Hok : is_Some (run_ops [OpWrite (bytes_of "abc"); OpTruncate 8] ex_handle ex_file_world).1)
    by (vm_compute; eauto).
  rewrite Hr in Hok. destruct Hok as [ys Hys]. cbn [fst snd] in *. subst xs.
  destruct (run_refines [OpWrite (bytes_of "abc"); OpTruncate 8] ex_handle [] ex_file_world ys h w (proj1 ex_represents) (proj2 ex_represents)
    eq_refl ltac:(repeat constructor; by vm_compute) Hr) as (l & _ & _ & Hwf & Hrep & _).
  by exists l.
Qed.

(** The read of the gap is short, the read of what was written is not. *)
Lemma panics_iff_short_read_witness :
  short_op ex_grown.2 ex_grown.1 (OpPread 2 5) /\ ~ short_op ex_grown.2 ex_grown.1 (OpPread 3 0).
Proof.
  destruct ex_grown_represents as (l & Hwf & Hrep). assert (Hu : up ex_grown.2) by (by vm_compute).
  split.
  - apply (panics_iff_short_read (OpPread 2 5) ex_grown.1 l ex_grown.2 Hwf Hrep Hu ltac:(by vm_compute)).
    vm_compute. reflexivity.
  - intros Hs.
    apply (panics_iff_short_read (OpPread 3 0) ex_grown.1 l ex_grown.2 Hwf Hrep Hu ltac:(by vm_compute)) in Hs.
    vm_compute in Hs. discriminate Hs.
Defined.

(** A handle with a staged write, and what syncing it gives. *)
Definition ex_dirty : ExHandle * MemWorld :=
  (run_op (OpWrite (bytes_of "hello world")) (ex_handle, ex_file_world)).2.
Definition ex_bytes : list byte := bytes_of "hello world".

Lemma ex_dirty_represents :
  wf_handle ex_dirty.2 ex_dirty.1 /\ represents ex_dirty.2 ex_dirty.1 ex_bytes /\
  client ex_dirty.1 = ReadWrite ex_db /\ clean ex_dirty.1 = false.
Proof.
  destruct ex_represents as [Hwf Hrep].
  unfold ex_dirty. destruct (run_op _ _) as [r [h w]] eqn:Hr.
  destruct (step_write ex_bytes ex_handle [] ex_file_world r h w Hwf Hrep eq_refl Hr)
    as (l & _ & Habs & ? & ? & _ & (Hc & _)).
  assert (Hclean : clean h = false).
  { change h with (Ok (E:=Error) OUnit, (h, w)).2.1. assert (Heq : (h, w) = (r, (h, w)).2) by done.
    rewrite Heq, <-Hr. by vm_compute. }
  split_and!; [done| |done|done]. by assert (l = ex_bytes) as <- by (by apply (f_equal bytes) in Habs).
Qed.

Lemma ex_layout : wf_layout 8 0.
Proof. by split. Qed.

Lemma ex_dirty_world : ex_dirty.2 ≡ ex_file_world.
Proof.
  destruct ex_represents as [Hwf Hrep]. unfold ex_dirty.
  destruct (run_op (OpWrite (bytes_of "hello world")) (ex_handle, ex_file_world)) as [r [h w]] eqn:Hr.
  apply (op_stages (OpWrite (bytes_of "hello world")) ex_handle [] ex_file_world r h w); try done.
  by intros [].
Qed.

(** A second file of the same database. *)
Definition ex_handle2 : ExHandle := opened ex_client 2 ex_meta open_or_create.
Lemma ex_represents2 :
  wf_handle ex_file_world ex_handle2 /\ represents ex_file_world ex_handle2 [].
Proof.
  apply opened_represents; [apply ex_meta_u64|done|by apply ex_openable| |].
  - rewrite ex_client_view. apply wf_chunk_keys_empty.
  - rewrite ex_client_view. apply stored_empty; [|done|done]. intros. apply lookup_empty.
Qed.

Lemma sync_isolates_files_example : represents (sync ex_dirty).2.2 ex_handle2 [].
Proof.
  destruct ex_dirty_represents as (Hwf & Hrep & Hc & Hclean).
  destruct ex_represents2 as [Hwf2 Hrep2].
  pose proof (sync_isolates_files ex_dirty.1 ex_handle2 [] ex_dirty.2 (sync ex_dirty).1
    (sync ex_dirty).2.1 (sync ex_dirty).2.2 ex_db ex_db Hwf Hc
    (wf_handle_equiv _ _ _ ex_dirty_world Hwf2) eq_refl
    (represents_equiv _ _ _ _ ex_dirty_world Hrep2)) as Hi.
  rewrite <-!surjective_pairing in Hi. apply Hi; [|done]. left. split; [done|]. by vm_compute.
Qed.

(** Both handles open, and their calls interleaved. *)
Definition ex_system : gmap nat ExHandle := {[ 0%nat := ex_handle; 1%nat := ex_handle2 ]}.
Definition ex_calls : list (nat * Op) :=
  [(0%nat, OpWrite (bytes_of "hello")); (1%nat, OpWrite (bytes_of "abc")); (0%nat, OpSync);
   (1%nat, OpPread 8 0); (1%nat, OpTruncate 1); (0%nat, OpPread 8 1); (1%nat, OpSize)].

Lemma ex_system_wf : wf_system ex_file_world ex_system.
Proof.
  assert (Hl : forall n h, ex_system !! n = Some h ->
    (n = 0%nat /\ h = ex_handle) \/ (n = 1%nat /\ h = ex_handle2)).
  { unfold ex_system. intros n h Hn. apply lookup_insert_Some in Hn as [[<- <-]|[_ Hn]]; [by left|].
    apply lookup_singleton_Some in Hn as [<- <-]. by right. }
  split.
  - intros n h [[-> ->]|[-> ->]]%Hl; (split_and!; [|by exists ex_db|exists []]);
      apply ex_represents || apply ex_represents2.
  - intros n1 n2 h1 h2 Hne [[-> ->]|[-> ->]]%Hl [[-> ->]|[-> ->]]%Hl; try done; by left.
Qed.

Lemma interleaved_handles_refine_files_witness :
  exists xs s, run_system ex_calls ex_system ex_file_world = (Some xs, s) /\
  tagged 0 xs = [ONum 5; OUnit; OBytes (bytes_of "ello")] /\
  tagged 1 xs = [ONum 3; OBytes (bytes_of "abc"); OUnit; ONum 1].
Proof.
  assert (Hos : Forall (fun p => op_u64 p.2) ex_calls) by (by repeat constructor).
  pose proof (interleaved_handles_refine_files ex_calls ex_system ex_file_world ex_system_wf eq_refl
    Hos) as Hi.
  assert (Hok : is_Some (run_system ex_calls ex_system ex_file_world).1) by (eexists; by vm_compute).
  destruct (run_system _ _ _) as [[xs|] [hs' w']]; [|by destruct Hok].
  exists xs, (hs', w'). split; [done|].
  destruct (Hi 0%nat ex_handle [] eq_refl (proj2 ex_represents)) as (? & ? & _ & -> & _).
  destruct (Hi 1%nat ex_handle2 [] eq_refl (proj2 ex_represents2)) as (? & ? & _ & -> & _).
  by vm_compute.
Defined.

(** A write during which the store fails, then, once it answers again, a sync. *)
Lemma handle_stays_well_formed_witness :
  let s := (run_op (OpPwrite (bytes_of "abcdefghijkl") 2)
    (ex_handle, set_fault ex_file_world (Some 1%nat))).2 in
  let t := (run_op OpSync (s.1, set_fault s.2 None)).2 in
  wf_handle t.2 t.1 /\ flags t.1 = open_or_create.
Proof.
  intros s t. destruct ex_represents as [Hwf _].
  assert (Hw : set_fault ex_file_world (Some 1%nat) ≡ ex_file_world) by apply set_fault_equiv.
  assert (Hs : reachable (ex_handle, set_fault ex_file_world (Some 1%nat)) (s.1, s.2)).
  { rewrite <-surjective_pairing. by apply reach_call; [apply reach_start|]. }
  pose proof (wf_handle_equiv _ _ _ Hw Hwf) as Hwf1.
  destruct (handle_stays_well_formed ex_handle s.1 _ s.2 Hwf1 Hs) as [Hwfs _].
  pose proof (wf_handle_equiv _ _ _ (set_fault_equiv s.2 None) Hwfs) as Hwf2.
  assert (Ht : reachable (ex_handle, set_fault ex_file_world (Some 1%nat)) (t.1, t.2)).
  { unfold t. rewrite <-surjective_pairing. apply reach_call; [|done].
    eapply reach_world; [exact Hs|apply Hwf2]. }
  destruct (handle_stays_well_formed ex_handle t.1 _ t.2 Hwf1 Ht) as (? & _ & _ & ? & _).
  by split.
Defined.

Lemma failed_pwrite_writes_prefix_witness :
  size ex_failed_write.2.1 = 0 /\ wf_handle ex_failed_write.2.2 ex_failed_write.2.1.
Proof.
  destruct ex_represents as [Hwf Hrep].
  assert (Hw : set_fault ex_file_world (Some 1%nat) ≡ ex_file_world) by apply set_fault_equiv.
  pose proof (failed_pwrite_writes_prefix ex_handle [] (bytes_of "abcdefghijkl") 2
    (set_fault ex_file_world (Some 1%nat)) ex_failed_write.1 ex_failed_write.2.1
    ex_failed_write.2.2 (wf_handle_equiv _ _ _ Hw Hwf) (represents_equiv _ _ _ _ Hw Hrep)) as Hf.
  rewrite <-!surjective_pairing in Hf.
  destruct Hf as (Hs & _ & Hwf' & _); [done|done|by vm_compute|]. by split.
Defined.

(** Truncating the synced file while the store fails. *)
Definition ex_failed_truncate : Result unit * (ExHandle * MemWorld) :=
  truncate 3 ((sync ex_dirty).2.1, set_fault (sync ex_dirty).2.2 (Some 0%nat)).

Lemma failed_truncate_changes_nothing_witness :
  ex_failed_truncate.2.1 = (sync ex_dirty).2.1.
Proof.
  destruct ex_dirty_represents as (Hwf & Hrep & Hc & Hclean).
  destruct (sync_ok ex_dirty.1 ex_bytes ex_dirty.2 (sync ex_dirty).1 (sync ex_dirty).2.1
    (sync ex_dirty).2.2 Hwf Hrep) as (_ & Hwf' & Hrep' & _).
  { by rewrite <-!surjective_pairing. }
  assert (Hw : set_fault (sync ex_dirty).2.2 (Some 0%nat) ≡ (sync ex_dirty).2.2)
    by apply set_fault_equiv.
  pose proof (failed_truncate_changes_nothing (sync ex_dirty).2.1 ex_bytes 3
    (set_fault (sync ex_dirty).2.2 (Some 0%nat)) ex_failed_truncate.1 ex_failed_truncate.2.1
    ex_failed_truncate.2.2 (wf_handle_equiv _ _ _ Hw Hwf') (represents_equiv _ _ _ _ Hw Hrep'))
    as Hf.
  rewrite <-!surjective_pairing in Hf. apply Hf; [done|done|by vm_compute].
Defined.

Lemma open_accepts_valid_witness :
  FileHandle.new ex_client 1 ex_meta read_only = Ok (opened ex_client 1 ex_meta read_only).
Proof.
  pose proof (open_accepts_valid ex_client 1 ex_meta read_only ex_meta_u64) as Ho.
  destruct (FileHandle.new ex_client 1 ex_meta read_only) as [h|e|p].
  - by destruct Ho as [_ ->].
  - destruct Ho as [Hno _]. destruct Hno. by apply ex_openable.
  - destruct Ho.
Defined.

(** The same file through a read-only client. *)
Definition ex_reader_client : SlateFileClient MDb MReader :=
  ReadOnly {| mreader_path := bytes_of "db" |}.
Definition ex_reader : ExHandle := opened ex_reader_client 1 ex_meta read_only.
Lemma ex_reader_represents : wf_handle ex_file_world ex_reader /\ represents ex_file_world ex_reader [].
Proof.
  apply opened_represents; [apply ex_meta_u64|done|by split_and!| |].
  - apply wf_chunk_keys_empty.
  - apply stored_empty; [|done|done]. intros. apply lookup_empty.
Qed.

Lemma read_only_handle_is_inert_witness :
  exists e, run_op (OpTruncate 3) (ex_reader, ex_file_world) = (Err e, (ex_reader, ex_file_world)) /\
    code e = CodeReadOnlyViolation.
Proof.
  destruct (run_op (OpTruncate 3) (ex_reader, ex_file_world)) as [r [h' w']] eqn:Hr.
  destruct (read_only_handle_is_inert (OpTruncate 3) ex_reader ex_file_world r h' w'
    {| mreader_path := bytes_of "db" |} (proj1 ex_reader_represents) eq_refl ltac:(by vm_compute) Hr)
    as (_ & _ & _ & _ & ((e & -> & Hcode) & -> & ->) & _).
  exists e. split; [reflexivity|exact Hcode].
Defined.
