(* ===== verification/Transactions.v ===== *)
(** * Reasoning about transactions

    A small program logic for the code of rust/src/database_metadata.rs.
    [txn_spec] describes a call inside a transaction: it buffers writes and
    touches no database.  [committing] describes a call that may end by
    committing: the database is as it was or takes all the buffered writes at
    once, and the call returns as described whenever the store answers. *)

From S2P Require Import Prelude RustStd Error SlateDb.

Section logic.
Context {W Db Txn : Type} `{World W} `{DbReadOps W Db} `{!DbReadLaws W Db}
  `{DbReadOps W Txn} `{!DbReadLaws W Txn} `{SlateDb W Db Txn} `{!SlateDbLaws W Db Txn}.

(** Transaction [t] runs on [d], which holds [m0], and has buffered [ops]. *)
Record in_txn (w : W) (t : Txn) (d : Db) (m0 : kv) (ops : WriteBatch) : Prop := {
  in_txn_db : txn_db t = d;
  in_txn_base : db_view w d = m0;
  in_txn_ops : txn_ops w t = ops;
  in_txn_view : db_view w t = apply_batch m0 ops
}.

Lemma in_txn_equiv w w' t d m0 ops : w' ≡ w -> in_txn w t d m0 ops -> in_txn w' t d m0 ops.
Proof.
  intros Hw [Hd Hb Ho Hv]. split.
  - done.
  - by rewrite (db_view_proper w' w Hw d d eq_refl).
  - by rewrite (txn_ops_proper w' w Hw t t eq_refl).
  - by rewrite (db_view_proper w' w Hw t t eq_refl).
Qed.

Section body.
Context (t : Txn) (d : Db) (m0 : kv).

(** [Q] relates the value of the call to the writes buffered after it, [E] says
    which errors it may end with although the store answers. *)
Definition txn_spec {A} (ops : WriteBatch) (m : M Error W A)
    (Q : A -> WriteBatch -> Prop) (E : Error -> Prop) : Prop :=
  forall w r w', in_txn w t d m0 ops -> m w = (r, w') ->
    (forall d' : Db, db_view w' d' = db_view w d') /\
    (up w -> up w' /\ match r with Ok _ => True | Err e => E e | Panic _ => False end) /\
    (forall a, r = Ok a -> exists ops', Q a ops' /\ in_txn w' t d m0 ops').

Lemma txn_bind {A B} (ops : WriteBatch) (m : M Error W A) (f : A -> M Error W B) P Q E :
  txn_spec ops m P E -> (forall a ops', P a ops' -> txn_spec ops' (f a) Q E) ->
  txn_spec ops (bind m f) Q E.
Proof.
  intros Hm Hf w r w' Hin Hr. unfold bind in Hr. destruct (m w) as [r1 w1] eqn:Hm1.
  destruct (Hm w r1 w1 Hin Hm1) as (Hv & Hup & Hok). destruct r1 as [a|e|p].
  - destruct (Hok a eq_refl) as (ops' & HP & Hin').
    destruct (Hf a ops' HP w1 r w' Hin' Hr) as (Hv' & Hup' & Hok').
    split_and!; [intros d'; by rewrite Hv'| |done]. intros [Hu _]%Hup. by apply Hup'.
  - simplify_eq. by split_and!.
  - simplify_eq. split_and!; [done| |done]. by intros [_ []]%Hup.
Qed.

Lemma txn_lift {A} (ops : WriteBatch) (r : Result A) (Q : A -> WriteBatch -> Prop) (E : Error -> Prop) :
  match r with Ok a => Q a ops | Err e => E e | Panic _ => False end ->
  txn_spec ops (lift r) Q E.
Proof.
  intros HQ w r' w' Hin Hr. unfold lift in Hr. simplify_eq. split_and!; [done| |].
  - intros Hu. split; [done|]. by destruct r'.
  - intros a ->. by exists ops.
Qed.

Lemma txn_ret {A} (ops : WriteBatch) (a : A) Q E : Q a ops -> txn_spec ops (ret a) Q E.
Proof. apply (txn_lift ops (Ok a)). Qed.

Lemma txn_mono {A} (ops : WriteBatch) (m : M Error W A) (P Q : A -> WriteBatch -> Prop) E :
  txn_spec ops m P E -> (forall a ops', P a ops' -> Q a ops') -> txn_spec ops m Q E.
Proof.
  intros Hm HPQ w r w' Hin Hr. destruct (Hm w r w' Hin Hr) as (? & ? & Hok).
  split_and!; [done|done|]. intros a Ha. destruct (Hok a Ha) as (ops' & ? & ?). eauto.
Qed.

(** Calls that leave an equivalent world. *)
Lemma txn_reads {A} (ops : WriteBatch) (m : M Error W A) (P : A -> Prop) E :
  (forall w, in_txn w t d m0 ops -> reads w m P) ->
  txn_spec ops m (fun a ops' => ops' = ops /\ P a) E.
Proof.
  intros Hm w r w' Hin Hr. destruct (Hm w Hin w r w' ltac:(done) Hr) as (Hw & Hup & HP).
  split_and!.
  - intros d'. apply (db_view_proper w' w Hw d' d' eq_refl).
  - intros Hu. destruct (Hup Hu) as (? & a & ->). done.
  - intros a Ha. exists ops. split; [by eauto|]. by eapply in_txn_equiv.
Qed.

Lemma txn_get (ops : WriteBatch) k E :
  txn_spec ops (slate (db_get t k)) (fun v ops' => ops' = ops /\ v = apply_batch m0 ops !! k) E.
Proof.
  apply txn_reads. intros w Hin. rewrite <-(in_txn_view _ _ _ _ _ Hin).
  apply reads_slate, db_get_spec.
Qed.

(** A buffered write. *)
Lemma txn_write (ops : WriteBatch) o (m : M slatedb_error W unit) E :
  (forall w r w', m w = (r, w') ->
  (up w -> r = Ok tt /\ up w') /\ (forall d : Db, db_view w' d = db_view w d) /\
  (r = Ok tt -> txn_ops w' t = txn_ops w t ++ [o] /\
  db_view w' t = apply_op (db_view w t) o)) ->
  txn_spec ops (slate m) (fun _ ops' => ops' = ops ++ [o]) E.
Proof.
  intros Hm w r w' [Hd Hb Ho Hv] Hr. apply slate_inv in Hr as (r0 & Hr & Hiff).
  destruct (Hm w r0 w' Hr) as (Hup & Hviews & Hops). split_and!; [done| |].
  - intros Hu. destruct (Hup Hu) as [-> Hu']. split; [done|]. by rewrite (proj2 (Hiff tt)).
  - intros [] Hok. apply Hiff in Hok. destruct (Hops Hok) as [Ho' Hv'].
    exists (ops ++ [o]). split; [done|]. split; [done| | |].
    + by rewrite Hviews.
    + by rewrite Ho', Ho.
    + by rewrite Hv', Hv, apply_batch_app.
Qed.

Lemma txn_put_rule (ops : WriteBatch) k v E :
  txn_spec ops (slate (txn_put t k v)) (fun _ ops' => ops' = ops ++ [Put k v]) E.
Proof. apply txn_write. intros. by apply txn_put_spec. Qed.

Lemma txn_delete_rule (ops : WriteBatch) k E :
  txn_spec ops (slate (txn_delete t k)) (fun _ ops' => ops' = ops ++ [Delete k]) E.
Proof. apply txn_write. intros. by apply txn_delete_spec. Qed.

(** ** Committing *)

(** [Q] relates the value of the call to the contents it leaves. *)
Definition committing {A} (ops : WriteBatch) (m : M Error W A)
    (Q : A -> kv -> Prop) (E : Error -> Prop) : Prop :=
  forall w r w', in_txn w t d m0 ops -> m w = (r, w') ->
    (forall d' : Db, d' <> d -> db_view w' d' = db_view w d') /\
    (db_view w' d = m0 \/ exists a, Q a (db_view w' d)) /\
    (up w -> up w' /\ match r with
                      | Ok _ => True
                      | Err e => E e /\ db_view w' d = m0
                      | Panic _ => False
                      end) /\
    (forall a, r = Ok a -> Q a (db_view w' d)).

Lemma committing_bind {A B} (ops : WriteBatch) (m : M Error W A) (f : A -> M Error W B) P Q E :
  txn_spec ops m P E -> (forall a ops', P a ops' -> committing ops' (f a) Q E) ->
  committing ops (bind m f) Q E.
Proof.
  intros Hm Hf w r w' Hin Hr. unfold bind in Hr. destruct (m w) as [r1 w1] eqn:Hm1.
  destruct (Hm w r1 w1 Hin Hm1) as (Hv & Hup & Hok).
  pose proof (in_txn_base _ _ _ _ _ Hin) as Hbase. destruct r1 as [a|e|p].
  - destruct (Hok a eq_refl) as (ops' & HP & Hin').
    destruct (Hf a ops' HP w1 r w' Hin' Hr) as (Hv' & Hat & Hup' & Hok').
    split_and!; [|done| |done].
    + intros d' Hd'. by rewrite Hv', Hv.
    + intros [Hu _]%Hup. by apply Hup'.
  - simplify_eq. split_and!; [done|left; by rewrite Hv| |done].
    intros [Hu He]%Hup. split_and!; [done|done|by rewrite Hv].
  - simplify_eq. split_and!; [done|left; by rewrite Hv| |done]. by intros [_ []]%Hup.
Qed.

(** A call that ends without committing. *)
Lemma committing_lift {A} (ops : WriteBatch) (r : Result A) (Q : A -> kv -> Prop) (E : Error -> Prop) :
  match r with Ok a => Q a m0 | Err e => E e | Panic _ => False end ->
  committing ops (lift r) Q E.
Proof.
  intros HQ w r' w' Hin Hr. unfold lift in Hr. simplify_eq.
  pose proof (in_txn_base _ _ _ _ _ Hin) as Hbase. split_and!; [done|by left| |].
  - intros Hu. split; [done|]. by destruct r'.
  - intros a ->. by rewrite Hbase.
Qed.

Lemma committing_commit {A} (ops : WriteBatch) (a : A) (Q : A -> kv -> Prop) E :
  Q a (apply_batch m0 ops) ->
  committing ops (bind (slate (txn_commit t)) (fun _ => ret a)) Q E.
Proof.
  intros HQ w r w' [Hd Hb Ho Hv] Hr. unfold bind in Hr.
  destruct (slate (txn_commit t) w) as [r1 w1] eqn:Hc. apply slate_inv in Hc as (r0 & Hc & Hiff).
  destruct (txn_commit_spec w t r0 w1 Hc) as (Hup & Hother & Hview).
  rewrite Hd, Ho, Hb in Hview. rewrite Hd in Hother.
  assert (w' = w1) as -> by (destruct r1; unfold ret in Hr; by simplify_eq).
  assert (Hat : db_view w1 d = m0 \/ db_view w1 d = apply_batch m0 ops).
  { destruct r0; [by right|done..]. }
  split_and!; [done| | |].
  - destruct Hat as [?| ->]; [by left|right; by exists a].
  - intros Hu. destruct (Hup Hu) as [-> Hu']. split; [done|].
    rewrite (proj2 (Hiff tt)) in Hr by done. unfold ret in Hr. by simplify_eq.
  - intros a' ->. destruct r1 as [[]|e|p]; unfold ret in Hr; simplify_eq.
    rewrite (proj1 (Hiff tt) eq_refl) in Hview. by rewrite Hview.
Qed.
End body.

(** A whole transaction, from its beginning. *)
Definition atomic {A} (d : Db) (w : W) (m : M Error W A) (Q : A -> kv -> Prop)
    (E : Error -> Prop) : Prop :=
  forall r w', m w = (r, w') ->
    (forall d' : Db, d' <> d -> db_view w' d' = db_view w d') /\
    (db_view w' d = db_view w d \/ exists a, Q a (db_view w' d)) /\
    (up w -> up w' /\ match r with
                      | Ok _ => True
                      | Err e => E e /\ db_view w' d = db_view w d
                      | Panic _ => False
                      end) /\
    (forall a, r = Ok a -> Q a (db_view w' d)).

Lemma atomic_begin {A} d w level (f : Txn -> M Error W A) Q E :
  (forall t, committing t d (db_view w d) [] (f t) Q E) ->
  atomic d w (bind (slate (db_begin d level)) f) Q E.
Proof.
  intros Hf r w' Hr. unfold bind in Hr.
  destruct (slate (db_begin d level) w) as [r1 w1] eqn:Hb. apply slate_inv in Hb as (r0 & Hb & Hiff).
  destruct (db_begin_spec w d level r0 w1 Hb) as (Hup & Hviews & Hok).
  destruct r1 as [t|e|p].
  - destruct (Hok t (proj1 (Hiff t) eq_refl)) as (Hd & Ho & Hv).
    assert (Hin : in_txn w1 t d (db_view w d) []) by (split; [done|by rewrite Hviews|done|done]).
    destruct (Hf t w1 r w' Hin Hr) as (Hother & Hat & Hup' & Hok').
    split_and!; [|done| |done].
    + intros d' Hd'. by rewrite Hother, Hviews.
    + intros [Hu _]%Hup. by apply Hup'.
  - simplify_eq. split_and!; [done|left; by rewrite Hviews| |done].
    intros (_ & t & Ht)%Hup. by pose proof (proj2 (Hiff t) Ht).
  - simplify_eq. split_and!; [done|left; by rewrite Hviews| |done].
    intros (_ & t & Ht)%Hup. by pose proof (proj2 (Hiff t) Ht).
Qed.

(** A check before the transaction begins. *)
Lemma atomic_check {A B} d w (r : Result B) (f : B -> M Error W A) Q (E : Error -> Prop) :
  match r with Ok b => atomic d w (f b) Q E | Err e => E e | Panic _ => False end ->
  atomic d w (bind (lift r) f) Q E.
Proof.
  intros Hr r' w' Hrun. unfold bind, lift in Hrun. destruct r as [b|e|p]; [by apply Hr| |done].
  simplify_eq. split_and!; [done|by left|done|done].
Qed.

(** [?] on the commit as the last call. *)
Lemma bind_ret_tt (m : M Error W unit) w : bind m (fun _ => ret tt) w = m w.
Proof. unfold bind, ret. by destruct (m w) as [[[]|e|p] w']. Qed.

Lemma committing_ext {A} t d m0 ops (m m' : M Error W A) Q E :
  (forall w, m w = m' w) -> committing t d m0 ops m Q E -> committing t d m0 ops m' Q E.
Proof. intros Heq Hm w r w' Hin Hr. rewrite <-Heq in Hr. by eapply Hm. Qed.
End logic.
