(* ===== verification/DatabaseMetadata.v ===== *)
(** * Database metadata (rust/src/database_metadata.rs): operations

    The path catalog of a database and the allocation of file IDs.  Paths are
    [str]s, given by their bytes.  Updates run in a transaction; one that is
    not committed is dropped and leaves the database as it was. *)

From S2P Require Import Prelude RustStd Error Keys SlateDb FileMetadata.

#[local] Open Scope string_scope.
#[local] Open Scope list_scope.
#[local] Open Scope Z_scope.

Definition NEXT_FILE_ID_KEY : list byte := bytes_of "m/0000000000000000/next_file_id".
Definition PATH_PREFIX : list byte := bytes_of "p/".

Record DatabaseMetadata (T : Type) := { client : T }.
Arguments client {T}.

(** ** Free functions *)

Definition validate_path (path : list byte) : Result unit :=
  if bool_decide (path = []) then
    Err (invalid_argument unknown_location "file path must not be empty")
  else Ok tt.

Definition path_key (path : list byte) : list byte := PATH_PREFIX ++ path.

Definition decode_file_id (bytes : list byte) (record : string) : Result Z :=
  if bool_decide (length bytes = 8%nat) then
    let file_id := from_be_bytes bytes in
    if file_id =? 0 then
      Err (metadata_decode unknown_location (record +:+ " contains reserved file ID 0"))
    else Ok file_id
  else Err (metadata_decode unknown_location (record +:+ " must contain an 8-byte file ID")).

(** ** Reads through any client *)

Section read_ops.
Context {W T : Type} `{DbReadOps W T} `{MetadataCodec}.

Definition find_file (reader : T) (path : list byte) : M Error W (option (Z * FileMetadata)) :=
  let! file_id_bytes := slate (db_get reader (path_key path)) in
  match file_id_bytes with
  | None => ret None
  | Some file_id_bytes =>
      let! file_id := lift (decode_file_id file_id_bytes "path mapping") in
      let! bytes := slate (db_get reader (metadata_key file_id)) in
      let! metadata :=
        lift (let? bytes := ok_or (metadata_decode unknown_location
                                   ("metadata is missing for file_id " +:+ pretty file_id)) bytes in
              decode_from_bytes bytes) in
      ret (Some (file_id, metadata))
  end.

Definition file_exists (self : DatabaseMetadata T) (path : list byte) : M Error W bool :=
  let! _ := lift (validate_path path) in
  let! v := slate (db_get (client self) (path_key path)) in
  ret (bool_decide (is_Some v)).

Definition open_file (self : DatabaseMetadata T) (path : list byte)
    : M Error W (Z * FileMetadata) :=
  let! _ := lift (validate_path path) in
  let! found := find_file (client self) path in
  lift (ok_or (Error.file_not_found unknown_location (text path)) found).
End read_ops.

(** ** Updates of a database *)

Section update_ops.
Context {W Db Txn : Type} `{SlateDb W Db Txn} `{DbReadOps W Txn} `{Clock W} `{MetadataCodec}.

(** [while let Some(chunk) = chunks.next().await? { transaction.delete(chunk.key)?; }] *)
Fixpoint delete_rows (fuel : nat) (transaction : Txn) : M Error (ScanIter W Txn * W) unit :=
  match fuel with
  | O => lift (Panic "delete_rows: out of fuel")
  | S fuel =>
      let! chunk := slate iter_next in
      match chunk with
      | Some row =>
          let! _ := on_snd (slate (txn_delete transaction (kv_key row))) in
          delete_rows fuel transaction
      | None => ret tt
      end
  end.

(** Delete the chunks of a file: the scan and the loop over it. *)
Definition delete_chunks (transaction : Txn) (file_id : Z) : M Error W unit :=
  let! chunks := slate (db_scan_prefix transaction (chunk_prefix file_id)) in
  with_local chunks (delete_rows (S (iter_bound chunks)) transaction).

Definition remove_file (self : DatabaseMetadata Db) (path : list byte) : M Error W unit :=
  let! _ := lift (validate_path path) in
  let path_key := path_key path in
  let! transaction := slate (db_begin (client self) SerializableSnapshot) in
  let! bytes := slate (db_get transaction path_key) in
  let! file_id :=
    lift (let? bytes := ok_or (file_not_found unknown_location (text path)) bytes in
          decode_file_id bytes "path mapping") in
  let! _ := slate (txn_delete transaction path_key) in
  let! _ := slate (txn_delete transaction (metadata_key file_id)) in
  let! _ := delete_chunks transaction file_id in
  slate (txn_commit transaction).

Definition move_file (self : DatabaseMetadata Db) (source target : list byte) : M Error W unit :=
  let! _ := lift (validate_path source) in
  let! _ := lift (validate_path target) in
  if bool_decide (source = target) then ret tt
  else
    let source_key := path_key source in
    let target_key := path_key target in
    let! transaction := slate (db_begin (client self) SerializableSnapshot) in
    let! bytes := slate (db_get transaction source_key) in
    let! source_file_id :=
      lift (let? bytes := ok_or (file_not_found unknown_location (text source)) bytes in
            decode_file_id bytes "source path mapping") in
    let! target_file_id_bytes := slate (db_get transaction target_key) in
    let! _ :=
      match target_file_id_bytes with
      | Some target_file_id_bytes =>
          let! target_file_id := lift (decode_file_id target_file_id_bytes "target path mapping") in
          if negb (target_file_id =? source_file_id) then
            let! _ := slate (txn_delete transaction (metadata_key target_file_id)) in
            delete_chunks transaction target_file_id
          else ret tt
      | None => ret tt
      end in
    let! _ := slate (txn_delete transaction source_key) in
    let! _ := slate (txn_put transaction target_key (to_be_bytes source_file_id)) in
    slate (txn_commit transaction).

Definition prepare_file_for_open (self : DatabaseMetadata Db) (path : list byte)
    (create truncate_existing : bool) : M Error W (Z * FileMetadata) :=
  let! _ := lift (validate_path path) in
  let path_key := path_key path in
  let! transaction := slate (db_begin (client self) SerializableSnapshot) in
  let! found := find_file transaction path in
  match found with
  | Some (file_id, metadata) =>
      if truncate_existing then
        let! _ := delete_chunks transaction file_id in
        let! metadata := FileMetadata.new in
        let! _ := slate (txn_put transaction (metadata_key file_id) (encode_to_bytes metadata)) in
        let! _ := slate (txn_commit transaction) in
        ret (file_id, metadata)
      else ret (file_id, metadata)
  | None =>
      if negb create then lift (Err (file_not_found unknown_location (text path)))
      else
        let! bytes := slate (db_get transaction NEXT_FILE_ID_KEY) in
        let! file_id :=
          match bytes with
          | Some bytes => lift (decode_file_id bytes "next file ID")
          | None => ret 1
          end in
        let! next_file_id :=
          lift (ok_or (metadata_decode unknown_location "file ID space is exhausted")
                (checked_add file_id 1)) in
        let! metadata := FileMetadata.new in
        let! _ := slate (txn_put transaction path_key (to_be_bytes file_id)) in
        let! _ := slate (txn_put transaction (metadata_key file_id) (encode_to_bytes metadata)) in
        let! _ := slate (txn_put transaction NEXT_FILE_ID_KEY (to_be_bytes next_file_id)) in
        let! _ := slate (txn_commit transaction) in
        ret (file_id, metadata)
  end.
End update_ops.
