(* ===== verification/Locality.v ===== *)
(** * Steps on one database: what the crate's calls do beside their result

    A relation between the worlds before and after a step on a database that
    every call of SlateDB respects is respected by the code of
    rust/src/database_metadata.rs and rust/src/file_handle.rs made of them
    ([TxnRel], [local]).  The first such relation is locality: [elsewhere d]
    says that only database [d], and transactions on it, differ between two
    worlds. *)

From S2P Require Import Prelude RustStd Error Keys SlateDb ChunkManager FileMetadata FileHandle.
From S2P Require Import FileHandleSpec Transactions DatabaseMetadata.

(** What relates the worlds around each step of a transaction on [d]; a step
    that reads leaves an equivalent world. *)
Class TxnRel {W Db Txn : Type} `{World W} `{DbReadOps W Db} `{!DbReadLaws W Db}
    `{DbReadOps W Txn} `{!DbReadLaws W Txn} `{SlateDb W Db Txn} `{!SlateDbLaws W Db Txn}
    (R : Db -> W -> W -> Prop) := {
  rel_equiv d w w' : w' ≡ w -> (up w -> up w') -> R d w w';
  rel_trans d :: Transitive (R d);
  rel_begin d level w : R d w (db_begin d level w).2;
  rel_put t k v w : R (txn_db t) w (txn_put t k v w).2;
  rel_delete t k w : R (txn_db t) w (txn_delete t k w).2;
  rel_commit t w : R (txn_db t) w (txn_commit t w).2
}.

Class SlateDbLocal (W Db Txn : Type) `{World W} `{DbReadOps W Db} `{!DbReadLaws W Db}
    `{DbReadOps W Txn} `{!DbReadLaws W Txn} `{SlateDb W Db Txn} `{!SlateDbLaws W Db Txn} := {
  elsewhere : Db -> W -> W -> Prop;
  elsewhere_rel :: TxnRel elsewhere;
  db_write_local d b w : elsewhere d w (db_write d b w).2;
  db_flush_local d w : elsewhere d w (db_flush d w).2
}.

(** Two relations at once. *)
#[export] Instance both_rel {W Db Txn : Type} `{World W} `{DbReadOps W Db} `{!DbReadLaws W Db}
    `{DbReadOps W Txn} `{!DbReadLaws W Txn} `{SlateDb W Db Txn} `{!SlateDbLaws W Db Txn}
    (R S : Db -> W -> W -> Prop) `{!TxnRel R} `{!TxnRel S} :
  TxnRel (fun d w w' => R d w w' /\ S d w w').
Proof.
  split; intros; try (split; first [apply rel_begin|apply rel_put|apply rel_delete|
    apply rel_commit|by apply rel_equiv]).
  intros w1 w2 w3 [? ?] [? ?]. split; by etrans.
Qed.

(** What the proofs below use of such a relation: every call a transaction is
    made of respects it, [home t] being the database of transaction [t]. *)
Class StepRel {W Db Txn : Type} `{DbReadOps W Txn} `{SlateDb W Db Txn} `{Clock W}
    (home : Txn -> Db) (R : Db -> W -> W -> Prop) := {
  step_refl d w : R d w w;
  step_trans d :: Transitive (R d);
  step_get d (t : Txn) k w : R d w (db_get t k w).2;
  step_scan_prefix d (t : Txn) p w : R d w (db_scan_prefix t p w).2;
  step_next d (it : ScanIter W Txn) w : R d w (iter_next (it, w)).2.2;
  step_clock d w : R d w (millis_since_epoch w).2;
  step_begin d level w : R d w (db_begin d level w).2;
  step_home d level w t w' : db_begin d level w = (Ok t, w') -> home t = d;
  step_put t k v w : R (home t) w (txn_put t k v w).2;
  step_delete t k w : R (home t) w (txn_delete t k w).2;
  step_commit t w : R (home t) w (txn_commit t w).2
}.

Lemma rel_reads {W Db Txn : Type} `{World W} `{DbReadOps W Db} `{!DbReadLaws W Db}
    `{DbReadOps W Txn} `{!DbReadLaws W Txn} `{SlateDb W Db Txn} `{!SlateDbLaws W Db Txn}
    (R : Db -> W -> W -> Prop) `{!TxnRel R} {E A} d w (m : M E W A) Q :
  reads w m Q -> R d w (m w).2.
Proof.
  intros Hm. destruct (m w) as [r w'] eqn:Hr.
  destruct (Hm w r w' ltac:(done) Hr) as (? & Hup & _). apply rel_equiv; [done|].
  by intros [? _]%Hup.
Qed.

#[export] Instance txn_step_rel {W Db Txn : Type} `{World W} `{DbReadOps W Db} `{!DbReadLaws W Db}
    `{DbReadOps W Txn} `{!DbReadLaws W Txn} `{SlateDb W Db Txn} `{!SlateDbLaws W Db Txn}
    `{Clock W} `{!ClockLaws W} (R : Db -> W -> W -> Prop) `{!TxnRel R} :
  StepRel (Txn:=Txn) txn_db R.
Proof.
  split; intros; try first [apply rel_put|apply rel_delete|apply rel_commit|apply rel_begin].
  - by apply rel_equiv.
  - apply rel_trans.
  - eapply rel_reads; [done|apply db_get_spec].
  - eapply rel_reads; [done|apply db_scan_prefix_spec].
  - destruct (iter_next (it, w)) as [r [it1 w1]] eqn:Hn.
    destruct (iter_next_spec w w it r it1 w1 ltac:(done) Hn) as (? & Hup & _).
    apply rel_equiv; [done|]. by intros [? _]%Hup.
  - apply rel_equiv; [apply clock_spec|apply clock_up].
  - by edestruct (db_begin_spec w d level) as (_ & _ & Ht); [done|apply Ht].
Qed.

Section steps.
Context {W Db Txn : Type} `{DbReadOps W Txn} `{SlateDb W Db Txn} `{Clock W} `{MetadataCodec}.
Context {home : Txn -> Db} (R : Db -> W -> W -> Prop) `{!StepRel home R}.

(** A call that is a step on database [d]. *)
Definition local {E A} (d : Db) (m : M E W A) : Prop := forall w, R d w (m w).2.

Lemma local_ret {E A} d (a : A) : local (E:=E) d (ret a).
Proof. intros w. apply step_refl. Qed.
Lemma local_lift {A} d (r : Result A) : local d (lift r).
Proof. intros w. apply step_refl. Qed.

Lemma local_bind {E A B} d (m : M E W A) (f : A -> M E W B) :
  local d m -> (forall a, local d (f a)) -> local d (bind m f).
Proof.
  intros Hm Hf w. specialize (Hm w). unfold bind. destruct (m w) as [[a|e|p] w1]; [|done..].
  etrans; [exact Hm|apply Hf].
Qed.

Lemma local_slate {A} d (m : M slatedb_error W A) : local d m -> local d (slate m).
Proof. intros Hm w. specialize (Hm w). unfold slate. by destruct (m w). Qed.

Lemma local_get d (t : Txn) k : local d (slate (db_get t k)).
Proof. apply local_slate. intros w. apply step_get. Qed.
Lemma local_scan_prefix d (t : Txn) p : local d (slate (db_scan_prefix t p)).
Proof. apply local_slate. intros w. apply step_scan_prefix. Qed.

Lemma local_put t k v : local (home t) (slate (txn_put t k v)).
Proof. apply local_slate. intros w. apply step_put. Qed.
Lemma local_delete t k : local (home t) (slate (txn_delete t k)).
Proof. apply local_slate. intros w. apply step_delete. Qed.
Lemma local_commit t : local (home t) (slate (txn_commit t)).
Proof. apply local_slate. intros w. apply step_commit. Qed.

(** A transaction on [d], to its end. *)
Lemma local_begin {A} d level (f : Txn -> M Error W A) :
  (forall t, local (home t) (f t)) -> local d (bind (slate (db_begin d level)) f).
Proof.
  intros Hf w. pose proof (step_begin d level w) as Hb. unfold bind, slate.
  destruct (db_begin d level w) as [r w1] eqn:Hr. cbn [snd] in Hb.
  destruct r as [t|e|p]; [|exact Hb..]. cbn [try_from].
  apply step_home in Hr as <-. etrans; [exact Hb|apply Hf].
Qed.

Lemma local_new d : local d FileMetadata.new.
Proof.
  intros w. unfold FileMetadata.new, current_time_millis. pose proof (step_clock d w) as Hc.
  by destruct (millis_since_epoch w) as [now w'].
Qed.

Lemma local_delete_rows fuel t it w : R (home t) w (delete_rows fuel t (it, w)).2.2.
Proof.
  revert it w. induction fuel as [|fuel IH]; intros it w; cbn [delete_rows]; [apply step_refl|].
  unfold bind at 1, slate at 1. pose proof (step_next (home t) it w) as He.
  destruct (iter_next (it, w)) as [r [it1 w1]]. cbn [snd] in He.
  destruct r as [[row|]|e|p]; cbn [try_from]; [|exact He..].
  unfold bind, on_snd. cbn [fst snd]. pose proof (local_delete t (kv_key row) w1) as Hd.
  destruct (slate (txn_delete t (kv_key row)) w1) as [[[]|e|p] w2]; cbn [fst snd] in Hd |- *;
    [|by etrans..].
  etrans; [exact He|]. etrans; [exact Hd|apply IH].
Qed.

Lemma local_delete_chunks t id : local (home t) (delete_chunks t id).
Proof.
  apply local_bind; [apply local_scan_prefix|]. intros it w. unfold with_local.
  pose proof (local_delete_rows (S (iter_bound it)) t it w) as Hd.
  by destruct (delete_rows _ _ _) as [r [it1 w1]].
Qed.

Create HintDb local.
Hint Resolve local_ret local_lift local_get local_put local_delete local_commit local_new
  local_delete_chunks : local.
Hint Extern 2 (local _ (bind _ _)) => (apply local_bind; [|intros]) : local.
Hint Extern 3 (local _ (match ?x with _ => _ end)) => destruct x : local.
Hint Extern 3 (local _ (let '(_, _) := ?x in _)) => destruct x : local.

Lemma local_find_file d (t : Txn) p : local d (find_file t p).
Proof. unfold find_file. auto 12 with local. Qed.
Hint Resolve local_find_file : local.

Lemma local_remove_file (d : Db) p : local d (DatabaseMetadata.remove_file {| client := d |} p).
Proof.
  unfold remove_file. cbn [client]. apply local_bind; [apply local_lift|]. intros _.
  apply local_begin. intros t. auto 20 with local.
Qed.

Lemma local_move_file (d : Db) source target :
  local d (DatabaseMetadata.move_file {| client := d |} source target).
Proof.
  unfold move_file. cbn [client]. apply local_bind; [apply local_lift|]. intros _.
  apply local_bind; [apply local_lift|]. intros _. destruct (bool_decide _); [apply local_ret|].
  apply local_begin. intros t. auto 20 with local.
Qed.

Lemma local_prepare (d : Db) p create truncate_existing :
  local d (prepare_file_for_open {| client := d |} p create truncate_existing).
Proof.
  unfold prepare_file_for_open. cbn [client]. apply local_bind; [apply local_lift|]. intros _.
  apply local_begin. intros t. auto 30 with local.
Qed.

End steps.

(** Proofs of [local R _ _] outside the section above, [home] being the
    databases of the transactions. *)
Ltac solve_local R home :=
  repeat first
    [ apply (local_ret R (home:=home)) | apply (local_lift R (home:=home))
    | apply (local_get R (home:=home)) | apply (local_put R (home:=home))
    | apply (local_delete R (home:=home)) | apply (local_commit R (home:=home))
    | apply (local_new R (home:=home)) | apply (local_delete_chunks R (home:=home))
    | apply (local_find_file R (home:=home)) | apply (local_bind R (home:=home)); [|intros]
    | match goal with |- local _ _ (match ?x with _ => _ end) => destruct x end ].

Section sync.
Context {W Db Txn Reader : Type} `{World W} `{DbReadOps W Db} `{!DbReadLaws W Db}
  `{DbReadOps W Txn} `{!DbReadLaws W Txn} `{SlateDb W Db Txn} `{!SlateDbLaws W Db Txn}
  `{!SlateDbLocal W Db Txn} `{DbReadOps W Reader} `{Clock W} `{!ClockLaws W} `{MetadataCodec}.

(** A sync touches the database of its handle. *)
Lemma local_sync (h : SlateFileHandle Db Reader) w db :
  FileHandle.client h = ReadWrite db -> elsewhere db w (sync (h, w)).2.2.
Proof.
  intros Hc. rewrite sync_run. destruct (clean h); [apply (step_refl (home:=txn_db))|]. rewrite Hc. cbn [writer].
  pose proof (local_slate elsewhere db _ (db_write_local db (sync_batch h)) w) as Hw.
  destruct (slate (db_write db (sync_batch h)) w) as [[[]|e|p] w1]; [|exact Hw..].
  pose proof (local_slate elsewhere db _ (db_flush_local db) w1) as Hf.
  destruct (slate (db_flush db) w1) as [[[]|e|p] w2]; by etrans.
Qed.
End sync.
