(* ===== verification/DatabaseSpec.v ===== *)
(** * What the catalog does: theorems about DatabaseMetadata.v

    The contents of a database are described by the invariant [wf_catalog]
    (IDs are below the next one, paths are injective, every file has its
    metadata) and by [file_at], the bytes of the file at a path.  The updates
    are functions on the contents, [removed], [moved], [created], [emptied],
    which each transaction applies atomically. *)

From S2P Require Import Prelude RustStd Error Keys SlateDb ChunkLayout ChunkManager.
From S2P Require Import ChunkManagerSpec FileMetadata FileHandle FileHandleSpec FileRefinement.
From S2P Require Import Transactions DatabaseMetadata.

(** ** Keys *)

Lemma path_key_inj p q : path_key p = path_key q -> p = q.
Proof. apply app_inv_head. Qed.

Lemma family_path p : family (path_key p) = Some (byte_of 112).
Proof. done. Qed.

Lemma family_next : family NEXT_FILE_ID_KEY = Some (byte_of 109).
Proof. done. Qed.

Lemma path_key_ne_metadata_key p id : path_key p <> metadata_key id.
Proof. intros Heq. apply (f_equal family) in Heq. done. Qed.
Lemma path_key_ne_next p : path_key p <> NEXT_FILE_ID_KEY.
Proof. intros Heq. apply (f_equal family) in Heq. done. Qed.
Lemma path_key_ne_chunk_key p f i : path_key p <> chunk_key f i.
Proof. intros Heq. apply (f_equal family) in Heq. done. Qed.
Lemma next_ne_chunk_key f i : NEXT_FILE_ID_KEY <> chunk_key f i.
Proof. intros Heq. apply (f_equal family) in Heq. done. Qed.
Lemma next_ne_metadata_key id : is_u64 id -> NEXT_FILE_ID_KEY <> metadata_key id.
Proof.
  intros Hid Heq. apply (f_equal length) in Heq.
  rewrite metadata_key_fixed, length_app, length_hex_fixed in Heq by done. done.
Qed.

#[export] Hint Resolve path_key_ne_metadata_key path_key_ne_next path_key_ne_chunk_key
  next_ne_chunk_key next_ne_metadata_key chunk_key_ne_metadata_key : keys.

(** A key under the prefix of a file's chunks is in the chunk family. *)
Lemma starts_with_family k id : starts_with k (chunk_prefix id) = true -> family k = Some (byte_of 99).
Proof. intros [c ->]%starts_with_iff. done. Qed.

Lemma not_chunk_path p id : starts_with (path_key p) (chunk_prefix id) = false.
Proof.
  destruct (starts_with _ _) eqn:Hs; [|done]. apply starts_with_family in Hs. done.
Qed.
Lemma not_chunk_metadata f id : starts_with (metadata_key f) (chunk_prefix id) = false.
Proof.
  destruct (starts_with _ _) eqn:Hs; [|done]. apply starts_with_family in Hs. done.
Qed.
Lemma not_chunk_next id : starts_with NEXT_FILE_ID_KEY (chunk_prefix id) = false.
Proof.
  destruct (starts_with _ _) eqn:Hs; [|done]. apply starts_with_family in Hs. done.
Qed.

(** ** The contents of a database *)

(** [m] without the chunks of file [id]. *)
Definition without_chunks (m : kv) (id : Z) : kv :=
  filter (fun p => starts_with p.1 (chunk_prefix id) = false) m.

Lemma lookup_without_chunks m id k :
  without_chunks m id !! k = if starts_with k (chunk_prefix id) then None else m !! k.
Proof.
  unfold without_chunks. rewrite map_lookup_filter.
  destruct (m !! k) as [v|], (starts_with k (chunk_prefix id)) eqn:Hs; simpl;
    repeat case_guard; simpl; congruence.
Qed.

Definition next_id (m : kv) : Z :=
  match m !! NEXT_FILE_ID_KEY with Some b => from_be_bytes b | None => 1 end.

Definition removed (m : kv) (path : list byte) (id : Z) : kv :=
  without_chunks (delete (metadata_key id) (delete (path_key path) m)) id.

Definition moved (m : kv) (source target : list byte) (id : Z) : kv :=
  let m :=
    match m !! path_key target with
    | Some b =>
        let target_id := from_be_bytes b in
        if target_id =? id then m else without_chunks (delete (metadata_key target_id) m) target_id
    | None => m
    end in
  <[path_key target := to_be_bytes id]> (delete (path_key source) m).

Section contents.
Context `{MetadataCodec} `{!MetadataCodecLaws}.

Definition emptied (m : kv) (id : Z) (meta : FileMetadata) : kv :=
  <[metadata_key id := encode_to_bytes meta]> (without_chunks m id).

Definition created (m : kv) (path : list byte) (id : Z) (meta : FileMetadata) : kv :=
  <[NEXT_FILE_ID_KEY := to_be_bytes (id + 1)]>
    (<[metadata_key id := encode_to_bytes meta]> (<[path_key path := to_be_bytes id]> m)).

(** File [id] has a metadata record that opens. *)
Definition has_metadata (m : kv) (id : Z) (meta : FileMetadata) : Prop :=
  exists b, m !! metadata_key id = Some b /\ decode_from_bytes b = Ok meta /\ metadata_u64 meta /\
  wf_layout (FileMetadata.chunk_size meta) (FileMetadata.chunk_base_offset meta).

Record wf_catalog (m : kv) : Prop := {
  cat_next b : m !! NEXT_FILE_ID_KEY = Some b -> length b = 8%nat;
  cat_next_pos : 1 <= next_id m;
  cat_path p b : m !! path_key p = Some b ->
  exists id meta, b = to_be_bytes id /\ 1 <= id < next_id m /\ has_metadata m id meta;
  cat_inj p q b : m !! path_key p = Some b -> m !! path_key q = Some b -> p = q;
  cat_fresh id : is_u64 id -> next_id m <= id ->
  m !! metadata_key id = None /\ forall i, is_u64 i -> m !! chunk_key id i = None;
  cat_chunks : wf_chunk_keys m
}.

(** The file at a path holds the bytes [l]. *)
Definition file_at (m : kv) (path : list byte) (l : list byte) : Prop :=
  exists id meta, m !! path_key path = Some (to_be_bytes id) /\ is_u64 id /\
  has_metadata m id meta /\ stored m id meta l.

Lemma wf_catalog_empty : wf_catalog ∅.
Proof.
  split; try (intros *; rewrite lookup_empty; congruence).
  - done.
  - intros id _ _. split; [done|]. intros. apply lookup_empty.
  - apply wf_chunk_keys_empty.
Qed.

Lemma next_id_u64 m : wf_catalog m -> is_u64 (next_id m).
Proof.
  intros Hwf. pose proof (cat_next_pos m Hwf) as Hp. split; [lia|].
  unfold next_id in *. destruct (m !! NEXT_FILE_ID_KEY) as [b|] eqn:Hb; [|done].
  pose proof (from_be_bytes_bound b) as [_ Hlt]. unfold zlen in Hlt.
  by rewrite (cat_next m Hwf b Hb) in Hlt.
Qed.

Lemma cat_path_id m p b :
  wf_catalog m -> m !! path_key p = Some b ->
  exists id meta, b = to_be_bytes id /\ is_u64 id /\ from_be_bytes b = id /\
  1 <= id < next_id m /\ has_metadata m id meta.
Proof.
  intros Hwf Hb. destruct (cat_path m Hwf p b Hb) as (id & meta & -> & Hid & Hm).
  pose proof (next_id_u64 m Hwf) as [_ Hn]. assert (is_u64 id) by (split; lia).
  exists id, meta. split_and!; try done; [by apply from_to_be_bytes|lia..].
Qed.

Lemma to_be_bytes_inj a b : is_u64 a -> is_u64 b -> to_be_bytes a = to_be_bytes b -> a = b.
Proof. intros Ha Hb Heq. apply (f_equal from_be_bytes) in Heq. by rewrite !from_to_be_bytes in Heq. Qed.

Lemma decode_file_id_be id record :
  is_u64 id -> 1 <= id -> decode_file_id (to_be_bytes id) record = Ok id.
Proof.
  intros Hid Hpos. unfold decode_file_id.
  rewrite bool_decide_true by apply (length_be_bytes 8). rewrite from_to_be_bytes by done.
  destruct (Z.eqb_spec id 0); [lia|done].
Qed.

(** ** Lookups after an update *)

Lemma lookup_removed m p id k :
  removed m p id !! k =
  if starts_with k (chunk_prefix id) then None
  else if decide (k = metadata_key id \/ k = path_key p) then None else m !! k.
Proof.
  unfold removed. rewrite lookup_without_chunks. destruct (starts_with _ _); [done|].
  rewrite !lookup_delete. repeat case_decide; naive_solver.
Qed.

(** The records of a file: its metadata and its chunks. *)
Definition record_of (id : Z) (k : list byte) : Prop :=
  k = metadata_key id \/ exists i, is_u64 i /\ k = chunk_key id i.

Lemma record_of_key m id k v :
  wf_catalog m -> is_u64 id -> m !! k = Some v ->
  starts_with k (chunk_prefix id) = true -> record_of id k.
Proof.
  intros Hwf Hid Hk Hs. right. eapply chunk_prefix_inv; [apply (cat_chunks m Hwf)|done|by eexists|done].
Qed.

Lemma path_key_not_record p id : ~ record_of id (path_key p).
Proof.
  intros [Hk|(i & _ & Hk)]; [by apply path_key_ne_metadata_key in Hk|by apply path_key_ne_chunk_key in Hk].
Qed.

(** What is deleted with a file: its records, and nothing else. *)
Lemma lookup_without_file m id k :
  wf_catalog m -> is_u64 id ->
  (record_of id k -> without_chunks (delete (metadata_key id) m) id !! k = None) /\
  (~ record_of id k -> without_chunks (delete (metadata_key id) m) id !! k = m !! k).
Proof.
  intros Hwf Hid. rewrite lookup_without_chunks, lookup_delete. split.
  - intros [->|(i & Hi & ->)]; [by rewrite not_chunk_metadata, decide_True|].
    by rewrite (proj2 (chunk_key_starts_with id id i Hid Hid)).
  - intros Hk. rewrite decide_False by (intros <-; by destruct Hk; left).
    destruct (starts_with k _) eqn:Hs; [|done]. destruct (m !! k) as [v|] eqn:Hm; [|done].
    destruct Hk. by eapply record_of_key.
Qed.

Lemma removed_without_file m p id k :
  k <> path_key p -> removed m p id !! k = without_chunks (delete (metadata_key id) m) id !! k.
Proof.
  intros Hk. unfold removed. rewrite !lookup_without_chunks. destruct (starts_with _ _); [done|].
  rewrite !lookup_delete. by repeat case_decide.
Qed.

(** Metadata and chunks of a file that an update leaves alone. *)
Definition same_file_records (m m' : kv) (id : Z) : Prop :=
  m' !! metadata_key id = m !! metadata_key id /\
  forall i, is_u64 i -> m' !! chunk_key id i = m !! chunk_key id i.

Lemma has_metadata_same m m' id meta :
  same_file_records m m' id -> has_metadata m id meta -> has_metadata m' id meta.
Proof. intros [Hm _] (b & Hb & ?). exists b. by rewrite Hm. Qed.

Lemma stored_same m m' id meta l :
  wf_layout (FileMetadata.chunk_size meta) (FileMetadata.chunk_base_offset meta) ->
  same_file_records m m' id -> stored m id meta l -> stored m' id meta l.
Proof.
  intros Hl [_ Hc] [Hlen Hst]. split; [done|]. intros p Hp.
  rewrite Hc by (by apply chunk_of_u64). by apply Hst.
Qed.

(** The file at a path stays when its mapping and its records do. *)
Lemma file_at_same m m' p q l :
  m' !! path_key q = m !! path_key p ->
  (forall id, is_u64 id -> m !! path_key p = Some (to_be_bytes id) -> same_file_records m m' id) ->
  file_at m p l -> file_at m' q l.
Proof.
  intros Hq Hsame (id & meta & Hp & Hid & Hm & Hst).
  exists id, meta. split_and!; [by rewrite Hq|done| |].
  - eapply has_metadata_same; [|done]. by apply Hsame.
  - destruct Hm as (b & _ & _ & _ & Hl). eapply stored_same; [done| |done]. by apply Hsame.
Qed.

Lemma chunk_prefix_of f g i :
  is_u64 f -> is_u64 g -> f <> g -> starts_with (chunk_key f i) (chunk_prefix g) = false.
Proof.
  intros Hf Hg Hne. destruct (starts_with _ _) eqn:Hs; [|done].
  apply chunk_key_starts_with in Hs; done.
Qed.

Lemma metadata_key_ne f g : is_u64 f -> is_u64 g -> f <> g -> metadata_key f <> metadata_key g.
Proof. intros Hf Hg Hne Heq. by apply metadata_key_inj in Heq. Qed.

(** Removing the chunks and the metadata of a file touches no other file. *)
Lemma without_chunks_other m f g :
  is_u64 f -> is_u64 g -> f <> g -> same_file_records m (without_chunks m g) f.
Proof.
  intros Hf Hg Hne. split.
  - by rewrite lookup_without_chunks, not_chunk_metadata.
  - intros i _. by rewrite lookup_without_chunks, chunk_prefix_of.
Qed.

(** ** What an update leaves alone *)

(** Path [q] keeps its mapping and the records of its file. *)
Definition keeps (m m' : kv) (q : list byte) : Prop :=
  m' !! path_key q = m !! path_key q /\
  forall id, is_u64 id -> m !! path_key q = Some (to_be_bytes id) -> same_file_records m m' id.

Lemma keeps_file_at m m' q l : keeps m m' q -> (file_at m' q l <-> file_at m q l).
Proof.
  intros [Hq Hrec]. split; apply file_at_same; [done| |done|done].
  intros id Hid Hp. rewrite Hq in Hp. destruct (Hrec id Hid Hp) as [Hm Hc].
  split; [done|]. intros i Hi. by rewrite Hc.
Qed.

Lemma wf_chunk_keys_sub (m m' : kv) :
  (forall k, is_Some (m' !! k) -> is_Some (m !! k) \/ family k <> Some (byte_of 99)) ->
  wf_chunk_keys m -> wf_chunk_keys m'.
Proof. intros Hsub Hm k Hk Hf. destruct (Hsub k Hk) as [Hk'|]; [by apply Hm|done]. Qed.

(** An update that keeps all paths but those in [P], whose mappings satisfy the
    invariant, and does not touch the unused IDs, keeps the invariant. *)
Lemma wf_catalog_update (m m' : kv) (P : list byte -> Prop) `{!forall q, Decision (P q)} :
  wf_catalog m ->
  next_id m <= next_id m' ->
  (forall b, m' !! NEXT_FILE_ID_KEY = Some b -> length b = 8%nat) ->
  (forall q, ~ P q -> keeps m m' q) ->
  (forall p b, P p -> m' !! path_key p = Some b ->
  (exists id meta, b = to_be_bytes id /\ 1 <= id < next_id m' /\ has_metadata m' id meta) /\
  forall q, m' !! path_key q = Some b -> p = q) ->
  (forall id, is_u64 id -> next_id m' <= id ->
  m' !! metadata_key id = m !! metadata_key id /\
  forall i, is_u64 i -> m' !! chunk_key id i = m !! chunk_key id i) ->
  wf_chunk_keys m' -> wf_catalog m'.
Proof.
  intros Hwf Hnext Hlen Hkeep HP Hfresh Hchunks. split; [done| | | | |done].
  - pose proof (cat_next_pos m Hwf). lia.
  - intros q b Hb. destruct (decide (P q)) as [Hq|Hq]; [by apply HP in Hb as [? _]|].
    destruct (Hkeep q Hq) as [Hmap Hrec]. rewrite Hmap in Hb.
    destruct (cat_path_id m q b Hwf Hb) as (id & meta & -> & Hid & _ & Hlt & Hm).
    exists id, meta. split_and!; [done|lia|lia|]. eapply has_metadata_same; [|done].
    by apply Hrec.
  - intros p q b Hp Hq. destruct (decide (P p)) as [HPp|HPp]; [by eapply HP|].
    destruct (decide (P q)) as [HPq|HPq]; [symmetry; by eapply HP|].
    destruct (Hkeep p HPp) as [Hpm _], (Hkeep q HPq) as [Hqm _].
    rewrite Hpm in Hp. rewrite Hqm in Hq. by eapply cat_inj.
  - intros id Hid Hle. destruct (cat_fresh m Hwf id Hid ltac:(lia)) as [Hm Hc].
    destruct (Hfresh id Hid Hle) as [-> Hc']. split; [done|]. intros i Hi. by rewrite Hc', Hc.
Qed.

(** *** Removal *)

Lemma removed_keeps m p id q :
  wf_catalog m -> m !! path_key p = Some (to_be_bytes id) -> is_u64 id -> q <> p ->
  keeps m (removed m p id) q.
Proof.
  intros Hwf Hp Hid Hne. split.
  - rewrite lookup_removed, not_chunk_path. rewrite decide_False; [done|].
    intros [Heq|Heq]; [by apply path_key_ne_metadata_key in Heq|by apply path_key_inj in Heq].
  - intros f Hf Hq. assert (f <> id) as Hfi.
    { intros ->. apply Hne. by eapply (cat_inj m Hwf). }
    split.
    + rewrite lookup_removed, not_chunk_metadata. rewrite decide_False; [done|].
      intros [Heq|Heq]; [by apply (metadata_key_ne f id) in Heq|].
      symmetry in Heq. by apply path_key_ne_metadata_key in Heq.
    + intros i Hi. rewrite lookup_removed, chunk_prefix_of by done. rewrite decide_False; [done|].
      intros [Heq|Heq]; [by apply chunk_key_ne_metadata_key in Heq|].
      symmetry in Heq. by apply path_key_ne_chunk_key in Heq.
Qed.

Lemma next_id_removed m p id :
  is_u64 id -> removed m p id !! NEXT_FILE_ID_KEY = m !! NEXT_FILE_ID_KEY.
Proof.
  intros Hid. rewrite lookup_removed, not_chunk_next. rewrite decide_False; [done|].
  intros [Heq|Heq]; [by apply next_ne_metadata_key in Heq|].
  symmetry in Heq. by apply path_key_ne_next in Heq.
Qed.

Lemma lookup_removed_path m p id : removed m p id !! path_key p = None.
Proof. rewrite lookup_removed. destruct (starts_with _ _); [done|]. by rewrite decide_True by (by right). Qed.

Lemma wf_removed m p id :
  wf_catalog m -> m !! path_key p = Some (to_be_bytes id) -> is_u64 id ->
  wf_catalog (removed m p id).
Proof.
  intros Hwf Hp Hid. pose proof (next_id_removed m p id Hid) as Hn.
  destruct (cat_path_id m p _ Hwf Hp) as (id' & _ & Heq & Hid' & _ & Hlt & _).
  apply to_be_bytes_inj in Heq as <-; [|done..].
  assert (Hnext : next_id (removed m p id) = next_id m) by (unfold next_id; by rewrite Hn).
  apply (wf_catalog_update m _ (fun q => q = p)); [done|by rewrite Hnext| | | | |].
  - rewrite Hn. apply (cat_next m Hwf).
  - intros q Hq. by apply removed_keeps.
  - intros q b -> Hb. by rewrite lookup_removed_path in Hb.
  - intros f Hf Hle. rewrite Hnext in Hle. split.
    + rewrite lookup_removed, not_chunk_metadata. rewrite decide_False; [done|].
      intros [Heq|Heq]; [apply metadata_key_inj in Heq; [lia|done..]|].
      symmetry in Heq. by apply path_key_ne_metadata_key in Heq.
    + intros i Hi. rewrite lookup_removed, chunk_prefix_of by (done || lia).
      rewrite decide_False; [done|].
      intros [Heq|Heq]; [by apply chunk_key_ne_metadata_key in Heq|].
      symmetry in Heq. by apply path_key_ne_chunk_key in Heq.
  - eapply wf_chunk_keys_sub; [|apply (cat_chunks m Hwf)]. intros k Hk. left.
    rewrite lookup_removed in Hk. destruct (starts_with _ _); [by destruct Hk|].
    case_decide; [by destruct Hk|done].
Qed.

(** *** Emptying a file *)

(** The record [FileMetadata::new] makes. *)
Definition fresh (meta : FileMetadata) : Prop :=
  exists now, is_u64 now /\ meta =
    {| FileMetadata.size := 0; FileMetadata.modified_at_ms := now;
       FileMetadata.chunk_size := DEFAULT_CHUNK_SIZE;
       FileMetadata.chunk_base_offset := DEFAULT_CHUNK_BASE_OFFSET |}.

Lemma fresh_u64 meta : fresh meta -> metadata_u64 meta.
Proof. intros (now & Hnow & ->). by split. Qed.
Lemma fresh_layout meta :
  fresh meta -> wf_layout (FileMetadata.chunk_size meta) (FileMetadata.chunk_base_offset meta).
Proof. intros (now & Hnow & ->). by split. Qed.
Lemma fresh_size meta : fresh meta -> FileMetadata.size meta = 0.
Proof. by intros (now & _ & ->). Qed.

Lemma has_metadata_fresh (m : kv) id meta :
  fresh meta -> m !! metadata_key id = Some (encode_to_bytes meta) -> has_metadata m id meta.
Proof.
  intros Hf Hm. exists (encode_to_bytes meta). split_and!; [done| | |].
  - apply decode_encode_bytes. by apply fresh_u64.
  - by apply fresh_u64.
  - by apply fresh_layout.
Qed.

Lemma lookup_emptied m id meta k :
  emptied m id meta !! k =
  if decide (k = metadata_key id) then Some (encode_to_bytes meta)
  else if starts_with k (chunk_prefix id) then None else m !! k.
Proof.
  unfold emptied. rewrite lookup_insert, lookup_without_chunks.
  by repeat case_decide; subst.
Qed.

Lemma emptied_path m id meta q : emptied m id meta !! path_key q = m !! path_key q.
Proof.
  rewrite lookup_emptied, not_chunk_path, decide_False; [done|apply path_key_ne_metadata_key].
Qed.
Lemma emptied_next m id meta :
  is_u64 id -> emptied m id meta !! NEXT_FILE_ID_KEY = m !! NEXT_FILE_ID_KEY.
Proof.
  intros Hid. rewrite lookup_emptied, not_chunk_next, decide_False; [done|].
  by apply next_ne_metadata_key.
Qed.
Lemma emptied_records m id meta f :
  is_u64 id -> is_u64 f -> f <> id -> same_file_records m (emptied m id meta) f.
Proof.
  intros Hid Hf Hne. split.
  - rewrite lookup_emptied, not_chunk_metadata, decide_False; [done|]. by apply metadata_key_ne.
  - intros i Hi. rewrite lookup_emptied, chunk_prefix_of, decide_False by done || apply chunk_key_ne_metadata_key.
    done.
Qed.

Lemma emptied_keeps m p id meta q :
  wf_catalog m -> m !! path_key p = Some (to_be_bytes id) -> is_u64 id -> q <> p ->
  keeps m (emptied m id meta) q.
Proof.
  intros Hwf Hp Hid Hne. split; [apply emptied_path|]. intros f Hf Hq.
  apply emptied_records; [done..|]. intros ->. apply Hne. by eapply (cat_inj m Hwf).
Qed.

Lemma emptied_file_at m p id meta :
  fresh meta -> is_u64 id -> m !! path_key p = Some (to_be_bytes id) ->
  file_at (emptied m id meta) p [].
Proof.
  intros Hf Hid Hp. exists id, meta. rewrite emptied_path. split_and!; [done|done| |].
  - apply has_metadata_fresh; [done|]. by rewrite lookup_emptied, decide_True.
  - apply stored_empty; [|by apply fresh_size|by apply fresh_layout].
    intros i Hi. rewrite lookup_emptied, decide_False by apply chunk_key_ne_metadata_key.
    by rewrite (proj2 (chunk_key_starts_with id id i Hid Hid)).
Qed.

Lemma wf_emptied m p id meta :
  wf_catalog m -> fresh meta -> m !! path_key p = Some (to_be_bytes id) -> is_u64 id ->
  wf_catalog (emptied m id meta).
Proof.
  intros Hwf Hf Hp Hid. pose proof (emptied_next m id meta Hid) as Hn.
  destruct (cat_path_id m p _ Hwf Hp) as (id' & _ & Heq & Hid' & _ & Hlt & _).
  apply to_be_bytes_inj in Heq as <-; [|done..].
  assert (Hnext : next_id (emptied m id meta) = next_id m) by (unfold next_id; by rewrite Hn).
  apply (wf_catalog_update m _ (fun q => q = p)); [done|by rewrite Hnext| | | | |].
  - rewrite Hn. apply (cat_next m Hwf).
  - intros q Hq. by eapply emptied_keeps.
  - intros q b -> Hb. rewrite emptied_path in Hb. rewrite Hp in Hb. injection Hb as <-. split.
    + exists id, meta. rewrite Hnext. split_and!; [done|lia|lia|].
      apply has_metadata_fresh; [done|]. by rewrite lookup_emptied, decide_True.
    + intros q Hq. rewrite emptied_path in Hq. by eapply (cat_inj m Hwf).
  - intros f Hf' Hle. rewrite Hnext in Hle. apply emptied_records; [done..|lia].
  - eapply wf_chunk_keys_sub; [|apply (cat_chunks m Hwf)]. intros k Hk.
    rewrite lookup_emptied in Hk. case_decide; [right; by subst|].
    destruct (starts_with _ _); [by destruct Hk|by left].
Qed.

(** *** Creation *)

Lemma lookup_created m p id meta k :
  created m p id meta !! k =
  if decide (k = NEXT_FILE_ID_KEY) then Some (to_be_bytes (id + 1))
  else if decide (k = metadata_key id) then Some (encode_to_bytes meta)
  else if decide (k = path_key p) then Some (to_be_bytes id) else m !! k.
Proof. unfold created. rewrite !lookup_insert. repeat case_decide; congruence. Qed.

Lemma created_path m p id meta q :
  created m p id meta !! path_key q = if decide (q = p) then Some (to_be_bytes id) else m !! path_key q.
Proof.
  rewrite lookup_created, decide_False by apply path_key_ne_next.
  rewrite decide_False by apply path_key_ne_metadata_key.
  destruct (decide (q = p)) as [->|Hne]; [by rewrite decide_True|].
  rewrite decide_False; [done|]. by intros ?%path_key_inj.
Qed.

Lemma created_records m p id meta f :
  is_u64 id -> is_u64 f -> f <> id -> same_file_records m (created m p id meta) f.
Proof.
  intros Hid Hf Hne. split; [|intros i Hi]; rewrite lookup_created.
  - rewrite decide_False by (intros Heq; symmetry in Heq; by apply next_ne_metadata_key in Heq).
    rewrite decide_False by (by apply metadata_key_ne).
    rewrite decide_False; [done|]. intros Heq. symmetry in Heq.
    by apply path_key_ne_metadata_key in Heq.
  - rewrite decide_False by (intros Heq; symmetry in Heq; by apply next_ne_chunk_key in Heq).
    rewrite decide_False by apply chunk_key_ne_metadata_key.
    rewrite decide_False; [done|]. intros Heq. symmetry in Heq.
    by apply path_key_ne_chunk_key in Heq.
Qed.

Lemma created_keeps m p id meta q :
  wf_catalog m -> id = next_id m -> q <> p -> keeps m (created m p id meta) q.
Proof.
  intros Hwf -> Hne. pose proof (next_id_u64 m Hwf) as Hu. split.
  - by rewrite created_path, decide_False.
  - intros f Hf Hq. apply created_records; [done..|].
    destruct (cat_path_id m q _ Hwf Hq) as (id' & _ & Heq & Hid' & _ & Hlt & _).
    apply to_be_bytes_inj in Heq as <-; [lia|done..].
Qed.

Lemma created_metadata m p id meta :
  is_u64 id -> created m p id meta !! metadata_key id = Some (encode_to_bytes meta).
Proof.
  intros Hid. rewrite lookup_created.
  rewrite decide_False by (intros Heq; symmetry in Heq; by apply next_ne_metadata_key in Heq).
  by rewrite decide_True.
Qed.

Lemma created_file_at m p id meta :
  wf_catalog m -> fresh meta -> id = next_id m -> file_at (created m p id meta) p [].
Proof.
  intros Hwf Hf ->. pose proof (next_id_u64 m Hwf) as Hu.
  destruct (cat_fresh m Hwf (next_id m) Hu ltac:(lia)) as [_ Hc].
  exists (next_id m), meta. split_and!; [by rewrite created_path, decide_True|done| |].
  - apply has_metadata_fresh; [done|]. by apply created_metadata.
  - apply stored_empty; [|by apply fresh_size|by apply fresh_layout].
    intros i Hi. rewrite lookup_created.
    rewrite decide_False by (intros Heq; symmetry in Heq; by apply next_ne_chunk_key in Heq).
    rewrite decide_False by apply chunk_key_ne_metadata_key.
    rewrite decide_False by (intros Heq; symmetry in Heq; by apply path_key_ne_chunk_key in Heq).
    by apply Hc.
Qed.

Lemma created_next m p id meta :
  is_u64 (id + 1) -> next_id (created m p id meta) = id + 1.
Proof.
  intros Hu. unfold next_id. rewrite lookup_created, decide_True by done. by apply from_to_be_bytes.
Qed.

Lemma wf_created m p id meta :
  wf_catalog m -> fresh meta -> id = next_id m -> is_u64 (id + 1) -> m !! path_key p = None ->
  wf_catalog (created m p id meta).
Proof.
  intros Hwf Hf -> Hu1 Hp. pose proof (next_id_u64 m Hwf) as Hu.
  pose proof (cat_next_pos m Hwf) as Hpos.
  pose proof (created_next m p (next_id m) meta Hu1) as Hnext.
  apply (wf_catalog_update m _ (fun q => q = p)); [done|rewrite Hnext; lia| | | | |].
  - intros b Hb. rewrite lookup_created, decide_True in Hb by done. injection Hb as <-.
    apply (length_be_bytes 8).
  - intros q Hq. by apply created_keeps.
  - intros q b -> Hb. rewrite created_path, decide_True in Hb by done. injection Hb as <-. split.
    + exists (next_id m), meta. rewrite Hnext. split_and!; [done|lia|lia|].
      apply has_metadata_fresh; [done|]. by apply created_metadata.
    + intros q Hq. rewrite created_path in Hq. case_decide; [done|].
      destruct (cat_path_id m q _ Hwf Hq) as (id' & _ & Heq & Hid' & _ & Hlt & _).
      apply to_be_bytes_inj in Heq; [lia|done..].
  - intros f Hf' Hle. rewrite Hnext in Hle. apply created_records; [done..|lia].
  - eapply wf_chunk_keys_sub; [|apply (cat_chunks m Hwf)]. intros k Hk.
    rewrite lookup_created in Hk. repeat case_decide; subst; [by right..|by left].
Qed.

(** *** Moves *)

(** Dropping the file a move replaces. *)
Definition drop_target (m : kv) (target : list byte) (id : Z) : kv :=
  match m !! path_key target with
  | Some b =>
      let target_id := from_be_bytes b in
      if target_id =? id then m else without_chunks (delete (metadata_key target_id) m) target_id
  | None => m
  end.

Lemma drop_target_path m target id q : drop_target m target id !! path_key q = m !! path_key q.
Proof.
  unfold drop_target. destruct (m !! path_key target); [|done]. cbn zeta.
  destruct (_ =? _); [done|]. rewrite lookup_without_chunks, not_chunk_path.
  apply lookup_delete_ne. intros Heq. symmetry in Heq. by apply path_key_ne_metadata_key in Heq.
Qed.

Lemma drop_target_sub m target id k :
  is_Some (drop_target m target id !! k) -> is_Some (m !! k).
Proof.
  unfold drop_target. destruct (m !! path_key target); [|done]. cbn zeta.
  destruct (_ =? _); [done|]. rewrite lookup_without_chunks.
  destruct (starts_with _ _); [by intros []|]. rewrite lookup_delete. case_decide; [by intros []|done].
Qed.

(** Only the records of the replaced file go. *)
Lemma drop_target_records m target id f :
  is_u64 f ->
  (forall b, m !! path_key target = Some b ->
  is_u64 (from_be_bytes b) /\ (from_be_bytes b = id \/ f <> from_be_bytes b)) ->
  same_file_records m (drop_target m target id) f.
Proof.
  intros Hf Hb. unfold drop_target. destruct (m !! path_key target) as [b|]; [|done]. cbn zeta.
  destruct (Hb b eq_refl) as [Hu Hne]. destruct (Z.eqb_spec (from_be_bytes b) id); [done|].
  assert (Hne' : f <> from_be_bytes b) by tauto. split; [|intros i Hi].
  - rewrite lookup_without_chunks, not_chunk_metadata. apply lookup_delete_ne.
    intros Heq. by apply metadata_key_inj in Heq.
  - rewrite lookup_without_chunks, chunk_prefix_of by done. apply lookup_delete_ne.
    intros Heq. symmetry in Heq. by apply chunk_key_ne_metadata_key in Heq.
Qed.

Lemma drop_target_next m target id :
  (forall b, m !! path_key target = Some b -> is_u64 (from_be_bytes b)) ->
  drop_target m target id !! NEXT_FILE_ID_KEY = m !! NEXT_FILE_ID_KEY.
Proof.
  intros Hb. unfold drop_target. destruct (m !! path_key target) as [b|]; [|done]. cbn zeta.
  destruct (_ =? _); [done|]. rewrite lookup_without_chunks, not_chunk_next.
  apply lookup_delete_ne. intros Heq. symmetry in Heq.
  by apply next_ne_metadata_key in Heq; [|apply Hb].
Qed.

Lemma lookup_moved m source target id k :
  moved m source target id !! k =
  if decide (k = path_key target) then Some (to_be_bytes id)
  else if decide (k = path_key source) then None else drop_target m target id !! k.
Proof.
  unfold moved. fold (drop_target m target id). rewrite lookup_insert, lookup_delete.
  by repeat case_decide; subst.
Qed.

Lemma moved_path m source target id q :
  moved m source target id !! path_key q =
  if decide (q = target) then Some (to_be_bytes id)
  else if decide (q = source) then None else m !! path_key q.
Proof.
  rewrite lookup_moved, drop_target_path.
  rewrite (decide_ext (path_key q = path_key target) (q = target))
    by (split; [apply path_key_inj|by intros ->]).
  rewrite (decide_ext (path_key q = path_key source) (q = source))
    by (split; [apply path_key_inj|by intros ->]).
  by repeat case_decide.
Qed.

Lemma moved_records m source target id f :
  wf_catalog m -> is_u64 f ->
  (forall b, m !! path_key target = Some b -> from_be_bytes b = id \/ f <> from_be_bytes b) ->
  same_file_records m (moved m source target id) f.
Proof.
  intros Hwf Hf Hb.
  destruct (drop_target_records m target id f Hf) as [Hm Hc].
  { intros b Hp. split; [|by apply Hb].
    by destruct (cat_path_id m target b Hwf Hp) as (tid & _ & _ & ? & -> & _). }
  split; [|intros i Hi]; rewrite lookup_moved.
  - rewrite !decide_False by (intros Heq; symmetry in Heq; by apply path_key_ne_metadata_key in Heq).
    done.
  - rewrite !decide_False by (intros Heq; symmetry in Heq; by apply path_key_ne_chunk_key in Heq).
    by apply Hc.
Qed.

Section move.
Context (m : kv) (source target : list byte) (id : Z).
Context (Hwf : wf_catalog m) (Hne : source <> target).
Context (Hs : m !! path_key source = Some (to_be_bytes id)) (Hid : is_u64 id).

(** The replaced file, if any, is not the moved one. *)
Lemma target_differs b :
  m !! path_key target = Some b -> b <> to_be_bytes id /\ from_be_bytes b <> id.
Proof.
  intros Ht. assert (Hb : b <> to_be_bytes id).
  { intros ->. apply Hne. by eapply (cat_inj m Hwf). }
  split; [done|]. intros Heq. apply Hb.
  destruct (cat_path_id m target b Hwf Ht) as (tid & _ & -> & ? & Hdec & _).
  by rewrite Hdec in Heq; subst.
Qed.

(** What a move changes: the two mappings and the records of the replaced file. *)
Lemma moved_drops b k :
  m !! path_key target = Some b -> record_of (from_be_bytes b) k -> moved m source target id !! k = None.
Proof.
  intros Ht Hk. destruct (target_differs b Ht) as [_ Hne'].
  destruct (cat_path_id m target b Hwf Ht) as (tid & _ & _ & Htid & Hdec & _). rewrite Hdec in *.
  rewrite lookup_moved, !decide_False.
  - unfold drop_target. rewrite Ht. cbn zeta. rewrite Hdec. destruct (Z.eqb_spec tid id); [done|].
    by apply lookup_without_file.
  - intros ->. by apply path_key_not_record in Hk.
  - intros ->. by apply path_key_not_record in Hk.
Qed.

Lemma moved_frame k :
  k <> path_key source -> k <> path_key target ->
  (forall b, m !! path_key target = Some b -> ~ record_of (from_be_bytes b) k) ->
  moved m source target id !! k = m !! k.
Proof.
  intros Hk1 Hk2 Hb. rewrite lookup_moved, !decide_False by done. unfold drop_target.
  destruct (m !! path_key target) as [b|] eqn:Ht; [|done]. cbn zeta. destruct (_ =? _); [done|].
  destruct (cat_path_id m target b Hwf Ht) as (tid & _ & _ & Htid & Hdec & _).
  specialize (Hb b eq_refl). rewrite Hdec in *. by apply lookup_without_file.
Qed.

Lemma moved_keeps q : q <> source -> q <> target -> keeps m (moved m source target id) q.
Proof.
  intros Hq1 Hq2. split; [by rewrite moved_path, !decide_False|]. intros f Hf Hq.
  apply moved_records; [done..|]. intros b Ht. right. intros ->.
  destruct (cat_path_id m target b Hwf Ht) as (tid & _ & -> & ? & Hdec & _).
  rewrite Hdec in Hq. apply Hq2. by eapply (cat_inj m Hwf).
Qed.

Lemma moved_source_records : same_file_records m (moved m source target id) id.
Proof.
  apply moved_records; [done..|]. intros b Ht. right. intros Heq.
  by destruct (target_differs b Ht) as [_ []].
Qed.

Lemma moved_file_at l : file_at (moved m source target id) target l <-> file_at m source l.
Proof.
  assert (Ht : moved m source target id !! path_key target = m !! path_key source).
  { by rewrite moved_path, decide_True, Hs. }
  split; apply file_at_same; [done| |done|].
  - intros f Hf Hp. rewrite Ht, Hs in Hp. apply (inj Some) in Hp.
    apply to_be_bytes_inj in Hp as <-; [|done..]. destruct moved_source_records as [Hm Hc].
    split; [done|]. intros i Hi. by rewrite Hc.
  - intros f Hf Hp. rewrite Hs in Hp. apply (inj Some) in Hp.
    apply to_be_bytes_inj in Hp as <-; [|done..]. apply moved_source_records.
Qed.

Lemma moved_next : moved m source target id !! NEXT_FILE_ID_KEY = m !! NEXT_FILE_ID_KEY.
Proof.
  rewrite lookup_moved.
  rewrite !decide_False by (intros Heq; symmetry in Heq; by apply path_key_ne_next in Heq).
  apply drop_target_next. intros b Ht.
  by destruct (cat_path_id m target b Hwf Ht) as (tid & _ & _ & ? & -> & _).
Qed.

Lemma wf_moved : wf_catalog (moved m source target id).
Proof.
  destruct (cat_path_id m source _ Hwf Hs) as (id' & meta & Heq & Hid' & _ & Hlt & Hmeta).
  apply to_be_bytes_inj in Heq as <-; [|done..].
  assert (Hnext : next_id (moved m source target id) = next_id m)
    by (unfold next_id; by rewrite moved_next).
  apply (wf_catalog_update m _ (fun q => q = source \/ q = target));
    [done|by rewrite Hnext| | | | |].
  - rewrite moved_next. apply (cat_next m Hwf).
  - intros q Hq. apply moved_keeps; tauto.
  - intros q b [->| ->] Hb; rewrite moved_path in Hb.
    { by rewrite decide_False, decide_True in Hb. }
    rewrite decide_True in Hb by done. injection Hb as <-. split.
    + exists id, meta. rewrite Hnext. split_and!; [done|lia|lia|].
      eapply has_metadata_same; [apply moved_source_records|done].
    + intros q Hq. rewrite moved_path in Hq. case_decide as Hqt; [done|].
      case_decide as Hqs; [done|]. destruct Hqs. by eapply (cat_inj m Hwf).
  - intros f Hf Hle. rewrite Hnext in Hle. apply moved_records; [done..|].
    intros b Ht. right. destruct (cat_path_id m target b Hwf Ht) as (tid & _ & _ & _ & -> & ? & _). lia.
  - eapply wf_chunk_keys_sub; [|apply (cat_chunks m Hwf)]. intros k Hk.
    rewrite lookup_moved in Hk. case_decide; [right; by subst|]. case_decide; [by destruct Hk|].
    left. by eapply drop_target_sub.
Qed.
End move.
End contents.
