(* ===== verification/DatabaseOps.v ===== *)
(** * The catalog operations implement the updates of DatabaseSpec.v

    Each operation of DatabaseMetadata.v is one transaction that applies its
    update atomically, with the errors the code has. *)

From S2P Require Import Prelude RustStd Error Keys SlateDb ChunkLayout ChunkManager.
From S2P Require Import ChunkManagerSpec FileMetadata FileHandle FileHandleSpec FileRefinement.
From S2P Require Import Transactions DatabaseMetadata DatabaseSpec.

(** Deleting a list of keys. *)
Lemma lookup_delete_batch (m : kv) (ks : list (list byte)) k :
  apply_batch m (Delete <$> ks) !! k = if decide (k ∈ ks) then None else m !! k.
Proof.
  revert m. induction ks as [|j ks IH]; intros m.
  { by rewrite decide_False by apply not_elem_of_nil. }
  change (apply_batch m (Delete <$> j :: ks)) with (apply_batch (delete j m) (Delete <$> ks)).
  rewrite IH, lookup_delete.
  destruct (decide (k ∈ ks)), (decide (j = k)); rewrite ?decide_True, ?decide_False by set_solver; done.
Qed.

Lemma delete_batch_chunks (m : kv) (ks : list (list byte)) id :
  (forall k, k ∈ ks <-> is_Some (m !! k) /\ starts_with k (chunk_prefix id) = true) ->
  apply_batch m (Delete <$> ks) = without_chunks m id.
Proof.
  intros Hks. apply map_eq. intros k. rewrite lookup_delete_batch, lookup_without_chunks.
  case_decide as Hin.
  - apply Hks in Hin as [_ ->]. done.
  - destruct (starts_with k (chunk_prefix id)) eqn:Hs; [|done].
    destruct (m !! k) eqn:Hm; [|done]. destruct Hin. apply Hks. split; [by eexists|done].
Qed.

Section ops.
Context {W Db Txn : Type} `{World W} `{DbReadOps W Db} `{!DbReadLaws W Db}
  `{DbReadOps W Txn} `{!DbReadLaws W Txn} `{SlateDb W Db Txn} `{!SlateDbLaws W Db Txn}
  `{Clock W} `{!ClockLaws W} `{MetadataCodec} `{!MetadataCodecLaws}.

(** ** The loop over the chunks of a file *)

Lemma delete_rows_spec t d m0 fuel ops w it r it' w' :
  (length (iter_rows it) < fuel)%nat -> in_txn w t d m0 ops ->
  delete_rows fuel t (it, w) = (r, (it', w')) ->
  (forall d' : Db, db_view w' d' = db_view w d') /\ (up w -> up w' /\ r = Ok tt) /\
  (r = Ok tt -> in_txn w' t d m0 (ops ++ (Delete <$> (kv_key <$> iter_rows it)))).
Proof.
  revert ops w it. induction fuel as [|fuel IH]; intros ops w it Hfuel Hin Hr; [lia|].
  cbn [delete_rows] in Hr. unfold bind at 1, slate at 1 in Hr.
  destruct (iter_next (it, w)) as [r1 [it1 w1]] eqn:Hn.
  destruct (iter_next_spec w w it r1 it1 w1 ltac:(done) Hn) as (Hw1 & Hup & Hrow).
  pose proof (in_txn_equiv w w1 t d m0 ops Hw1 Hin) as Hin1.
  assert (Hv1 : forall d' : Db, db_view w1 d' = db_view w d').
  { intros d'. apply (db_view_proper w1 w Hw1 d' d' eq_refl). }
  destruct r1 as [[row|]|e|p]; simpl in Hr.
  - specialize (Hrow _ eq_refl). simpl in Hrow. rewrite Hrow in Hfuel |- *. simpl in Hfuel.
    unfold bind, on_snd in Hr. cbn [fst snd] in Hr.
    destruct (slate (txn_delete t (kv_key row)) w1) as [r2 w2] eqn:Hd.
    destruct (txn_delete_rule t d m0 ops (kv_key row) (fun _ => False) w1 r2 w2 Hin1 Hd)
      as (Hv2 & Hup2 & Hok2).
    destruct r2 as [[]|e|p].
    + destruct (Hok2 tt eq_refl) as (ops' & -> & Hin2).
      destruct (IH (ops ++ [Delete (kv_key row)]) w2 it1 ltac:(lia) Hin2 Hr) as (Hv & Hup' & Hok).
      split_and!; [intros d'; by rewrite Hv, Hv2| |].
      * intros [Hu _]%Hup. apply Hup2 in Hu as [Hu _]. by apply Hup'.
      * intros Hr'. rewrite !fmap_cons, cons_middle, app_assoc. by apply Hok.
    + simplify_eq. split_and!; [intros d'; by rewrite Hv2| |done].
      intros [Hu _]%Hup. by apply Hup2 in Hu as [_ []].
    + simplify_eq. split_and!; [intros d'; by rewrite Hv2| |done].
      intros [Hu _]%Hup. by apply Hup2 in Hu as [_ []].
  - specialize (Hrow _ eq_refl). simpl in Hrow. rewrite Hrow. unfold ret in Hr. simplify_eq.
    split_and!; [done|by intros [? _]%Hup|]. intros _. by rewrite app_nil_r.
  - simplify_eq. split_and!; [done| |done]. by intros (_ & ? & ?)%Hup.
  - simplify_eq. split_and!; [done| |done]. by intros (_ & ? & ?)%Hup.
Qed.

(** The chunks of the file are gone from the view of the transaction. *)
Lemma delete_chunks_rule t (d : Db) m0 ops id E :
  txn_spec t d m0 ops (delete_chunks t id)
  (fun _ ops' => apply_batch m0 ops' = without_chunks (apply_batch m0 ops) id) E.
Proof.
  eapply txn_bind.
  { apply (txn_reads t d m0 ops _ (fun it =>
      listing (apply_batch m0 ops) (fun k => starts_with k (chunk_prefix id) = true) (iter_rows it))).
    intros w Hin. rewrite <-(in_txn_view _ _ _ _ _ Hin). apply reads_slate, db_scan_prefix_spec. }
  intros it ops' [-> [_ Hel]] w r w' Hin Hr. unfold with_local in Hr.
  destruct (delete_rows _ t (it, w)) as [r1 [it1 w1]] eqn:Hd. simplify_eq.
  apply (delete_rows_spec t d m0 _ ops) in Hd; [|pose proof (iter_rows_bound it); lia|done].
  destruct Hd as (Hv & Hup & Hok). split_and!; [done| |].
  - intros Hu. by destruct (Hup Hu) as [? ->].
  - intros [] ->. eexists. split; [|by apply Hok]. rewrite apply_batch_app.
    apply delete_batch_chunks. intros k. rewrite list_elem_of_fmap. split.
    + intros ([k' v] & -> & Hin'). apply Hel in Hin' as [Hk ?]. split; [by eexists|done].
    + intros [[v Hk] Hs]. exists {| kv_key := k; kv_value := v |}. split; [done|]. by apply Hel.
Qed.

(** ** Looking a file up *)

(** What [find_file] returns on contents [m]. *)
Definition lookup_file (m : kv) (path : list byte) : Result (option (Z * FileMetadata)) :=
  match m !! path_key path with
  | None => Ok None
  | Some b =>
      let? id := decode_file_id b "path mapping" in
      let? b := ok_or (metadata_decode unknown_location
                       (String.append "metadata is missing for file_id " (pretty id)))
        (m !! metadata_key id) in
      let? meta := decode_from_bytes b in
      Ok (Some (id, meta))
  end.

Lemma lookup_file_wf m path :
  wf_catalog m ->
  (m !! path_key path = None /\ lookup_file m path = Ok None) \/
  exists id meta, m !! path_key path = Some (to_be_bytes id) /\ is_u64 id /\
  has_metadata m id meta /\ lookup_file m path = Ok (Some (id, meta)).
Proof.
  intros Hwf. unfold lookup_file. destruct (m !! path_key path) as [b|] eqn:Hp; [right|by left].
  destruct (cat_path_id m path b Hwf Hp) as (id & meta & -> & Hid & _ & [Hpos _] & Hm).
  exists id, meta. split_and!; [done..|]. rewrite decode_file_id_be by done. cbn [res_bind].
  destruct Hm as (b & -> & Hd & _). cbn [ok_or res_bind]. by rewrite Hd.
Qed.

Section find.
Context {D : Type} `{HD : DbReadOps W D} `{!DbReadLaws W D}.

(** On a database that satisfies the invariant, the lookup succeeds. *)
Lemma find_file_reads w (d : D) path v :
  lookup_file (db_view w d) path = Ok v -> reads w (find_file d path) (fun v' => v' = v).
Proof.
  unfold find_file, lookup_file. intros Hv.
  eapply reads_bind; [apply reads_slate, db_get_spec|]. intros b ->.
  destruct (db_view w d !! path_key path) as [b|]; [|apply reads_ret; congruence].
  apply res_bind_ok in Hv as (id & Hid & Hv). rewrite Hid.
  eapply (reads_bind _ _ _ (fun a => a = id)); [by apply (reads_lift _ _ id)|]. intros ? ->.
  eapply reads_bind; [apply reads_slate, db_get_spec|]. intros b' ->.
  destruct (db_view w d !! metadata_key id) as [mb|]; [|done]. cbn [ok_or res_bind] in *.
  apply res_bind_ok in Hv as (meta & Hmeta & Hv).
  eapply (reads_bind _ _ _ (fun a => a = meta)); [by apply (reads_lift _ _ meta)|]. intros ? ->.
  apply reads_ret. congruence.
Qed.
End find.

Lemma find_file_rule t (d : Db) m0 ops path v E :
  lookup_file (apply_batch m0 ops) path = Ok v ->
  txn_spec t d m0 ops (find_file t path) (fun v' ops' => ops' = ops /\ v' = v) E.
Proof.
  intros Hv. apply (txn_reads t d m0 ops). intros w Hin.
  rewrite <-(in_txn_view _ _ _ _ _ Hin) in Hv. by apply find_file_reads.
Qed.

Lemma new_rule t (d : Db) m0 ops E :
  txn_spec t d m0 ops FileMetadata.new (fun meta ops' => ops' = ops /\ fresh meta) E.
Proof.
  apply (txn_reads t d m0 ops). intros w Hin w1 r w' Hw Hr.
  destruct (FileMetadata.new_spec w1) as (now & w2 & Hrun & Hnow & Hw2 & Hu).
  rewrite Hrun in Hr. simplify_eq. split_and!; [by rewrite Hw2| |].
  - intros Hup. split; [by apply Hu|by eexists].
  - intros a [= <-]. by exists now.
Qed.

(** ** The operations *)

Lemma validate_path_ne p : p <> [] -> validate_path p = Ok tt.
Proof. intros Hp. unfold validate_path. by rewrite bool_decide_false. Qed.

Lemma remove_file_atomic (d : Db) w p :
  wf_catalog (db_view w d) -> p <> [] ->
  atomic d w (remove_file {| client := d |} p)
  (fun _ m' => exists id, db_view w d !! path_key p = Some (to_be_bytes id) /\ is_u64 id /\
  m' = removed (db_view w d) p id)
  (fun e => code e = CodeFileNotFound /\ db_view w d !! path_key p = None).
Proof.
  intros Hwf Hp. unfold remove_file.
  cbn [client]. set (m := db_view w d) in *.
  apply atomic_check. rewrite validate_path_ne by done.
  apply atomic_begin. intros t. fold m.
  eapply committing_bind; [apply txn_get|]. intros v ? [-> ->].
  change (apply_batch m []) with m.
  destruct (m !! path_key p) as [b|] eqn:Hb; cbn [ok_or res_bind].
  2:{ eapply (committing_bind t d m _ _ _ (fun _ _ => False)); [by apply txn_lift|done]. }
  destruct (cat_path_id m p b Hwf Hb) as (id & meta & -> & Hid & _ & [Hpos _] & _).
  rewrite decode_file_id_be by done.
  eapply (committing_bind t d m _ _ _ (fun id' ops => id' = id /\ ops = [])); [by apply txn_lift|].
  intros ? ? [-> ->].
  eapply committing_bind; [apply txn_delete_rule|]. intros _ ? ->.
  eapply committing_bind; [apply txn_delete_rule|]. intros _ ? ->.
  eapply committing_bind; [apply delete_chunks_rule|]. intros [] ops Hops.
  eapply committing_ext; [intros; apply bind_ret_tt|].
  apply committing_commit. exists id. by split_and!.
Qed.

(** The code of the file a move replaces. *)
Lemma drop_target_rule t (d : Db) m source_id target ops E :
  wf_catalog m -> ops = [] ->
  txn_spec t d m ops
  (match m !! path_key target with
  | Some target_file_id_bytes =>
  let! target_file_id := lift (decode_file_id target_file_id_bytes "target path mapping") in
  if negb (target_file_id =? source_id) then
   let! _ := slate (txn_delete t (metadata_key target_file_id)) in
   delete_chunks t target_file_id
  else ret tt
  | None => ret tt
  end)
  (fun _ ops' => apply_batch m ops' = drop_target m target source_id) E.
Proof.
  intros Hwf ->. unfold drop_target. destruct (m !! path_key target) as [b|] eqn:Hb.
  2:{ by apply txn_ret. }
  destruct (cat_path_id m target b Hwf Hb) as (id & meta & -> & Hid & Hdec & [Hpos _] & _).
  rewrite decode_file_id_be, Hdec by done.
  eapply (txn_bind t d m _ _ _ (fun id' ops => id' = id /\ ops = [])); [by apply txn_lift|].
  intros ? ? [-> ->]. cbn zeta. destruct (id =? source_id); cbn [negb]; [by apply txn_ret|].
  eapply txn_bind; [apply txn_delete_rule|]. intros [] ? ->. apply delete_chunks_rule.
Qed.

Lemma move_file_atomic (d : Db) w source target :
  wf_catalog (db_view w d) -> source <> [] -> target <> [] -> source <> target ->
  atomic d w (move_file {| client := d |} source target)
  (fun _ m' => exists id, db_view w d !! path_key source = Some (to_be_bytes id) /\ is_u64 id /\
  m' = moved (db_view w d) source target id)
  (fun e => code e = CodeFileNotFound /\ db_view w d !! path_key source = None).
Proof.
  intros Hwf Hs Ht Hne. unfold move_file. cbn [client]. set (m := db_view w d) in *.
  apply atomic_check. rewrite validate_path_ne by done.
  apply atomic_check. rewrite validate_path_ne by done.
  rewrite bool_decide_false by done. apply atomic_begin. intros t. fold m.
  eapply committing_bind; [apply txn_get|]. intros v ? [-> ->].
  change (apply_batch m []) with m.
  destruct (m !! path_key source) as [b|] eqn:Hb; cbn [ok_or res_bind].
  2:{ eapply (committing_bind t d m _ _ _ (fun _ _ => False)); [by apply txn_lift|done]. }
  destruct (cat_path_id m source b Hwf Hb) as (id & meta & -> & Hid & _ & [Hpos _] & _).
  rewrite decode_file_id_be by done.
  eapply (committing_bind t d m _ _ _ (fun id' ops => id' = id /\ ops = [])); [by apply txn_lift|].
  intros ? ? [-> ->].
  eapply committing_bind; [apply txn_get|]. intros v ? [-> ->].
  change (apply_batch m []) with m.
  eapply committing_bind; [by apply drop_target_rule|]. intros [] ops Hops.
  eapply committing_bind; [apply txn_delete_rule|]. intros [] ? ->.
  eapply committing_bind; [apply txn_put_rule|]. intros [] ? ->.
  eapply committing_ext; [intros; apply bind_ret_tt|].
  apply committing_commit. exists id. split_and!; [done..|].
  by rewrite !apply_batch_app, Hops.
Qed.

(** What [prepare_file_for_open] returns and leaves. *)
Definition prepared (m : kv) (p : list byte) (create truncate_existing : bool)
    (found : Z * FileMetadata) (m' : kv) : Prop :=
  match m !! path_key p with
  | Some b =>
      b = to_be_bytes found.1 /\ is_u64 found.1 /\
      if truncate_existing then fresh found.2 /\ m' = emptied m found.1 found.2
      else has_metadata m found.1 found.2 /\ m' = m
  | None =>
      create = true /\ found.1 = next_id m /\ is_u64 (found.1 + 1) /\ fresh found.2 /\
      m' = created m p found.1 found.2
  end.

Definition prepare_error (m : kv) (p : list byte) (create : bool) (e : Error) : Prop :=
  m !! path_key p = None /\
    (code e = CodeFileNotFound /\ create = false \/
     code e = CodeMetadataDecode /\ create = true /\ next_id m = u64_max).

(** Reading the next file ID. *)
Lemma next_id_rule t (d : Db) m E :
  wf_catalog m ->
  txn_spec t d m []
  (match m !! NEXT_FILE_ID_KEY with
  | Some bytes => lift (decode_file_id bytes "next file ID")
  | None => ret 1
  end) (fun id ops => id = next_id m /\ ops = []) E.
Proof.
  intros Hwf. pose proof (cat_next_pos m Hwf) as Hpos. unfold next_id in *.
  destruct (m !! NEXT_FILE_ID_KEY) as [b|] eqn:Hb; [|by apply txn_ret].
  apply txn_lift. unfold decode_file_id. rewrite bool_decide_true by by apply (cat_next m Hwf).
  destruct (Z.eqb_spec (from_be_bytes b) 0); [lia|done].
Qed.

Lemma prepare_file_for_open_atomic (d : Db) w p create truncate_existing :
  wf_catalog (db_view w d) -> p <> [] ->
  atomic d w (prepare_file_for_open {| client := d |} p create truncate_existing)
  (prepared (db_view w d) p create truncate_existing)
  (prepare_error (db_view w d) p create).
Proof.
  intros Hwf Hp. unfold prepare_file_for_open. cbn [client]. set (m := db_view w d) in *.
  apply atomic_check. rewrite validate_path_ne by done.
  apply atomic_begin. intros t. fold m.
  destruct (lookup_file_wf m p Hwf) as [[Hnone Hl]|(id & meta & Hsome & Hid & Hm & Hl)].
  - eapply committing_bind; [by apply find_file_rule|]. intros ? ? [-> ->].
    destruct create; cbn [negb].
    2:{ apply committing_lift. split; [done|]. by left. }
    eapply committing_bind; [apply txn_get|]. intros ? ? [-> ->].
    change (apply_batch m []) with m.
    eapply committing_bind; [by apply next_id_rule|]. intros ? ? [-> ->].
    pose proof (next_id_u64 m Hwf) as Hu.
    destruct (checked_add (next_id m) 1) as [n|] eqn:Hadd; cbn [ok_or].
    2:{ eapply (committing_bind t d m _ _ _ (fun _ _ => False)); [|done]. apply txn_lift.
      split; [done|]. right. split_and!; [done..|]. apply checked_add_None in Hadd.
      destruct Hu. unfold u64_max. lia. }
    apply checked_add_Some in Hadd as [-> Hlt].
    eapply (committing_bind t d m _ _ _ (fun n ops => n = next_id m + 1 /\ ops = []));
      [by apply txn_lift|]. intros ? ? [-> ->].
    eapply committing_bind; [apply new_rule|]. intros meta ? [-> Hf].
    eapply committing_bind; [apply txn_put_rule|]. intros [] ? ->.
    eapply committing_bind; [apply txn_put_rule|]. intros [] ? ->.
    eapply committing_bind; [apply txn_put_rule|]. intros [] ? ->.
    apply committing_commit. unfold prepared. rewrite Hnone.
    split_and!; [done..| |done|done]. destruct Hu. split; [cbn; lia|done].
  - eapply committing_bind; [by apply find_file_rule|]. intros ? ? [-> ->].
    destruct truncate_existing.
    + eapply committing_bind; [apply delete_chunks_rule|]. intros [] ops Hops.
      eapply committing_bind; [apply new_rule|]. intros meta' ? [-> Hf].
      eapply committing_bind; [apply txn_put_rule|]. intros [] ? ->.
      apply committing_commit. unfold prepared. rewrite Hsome. cbn [fst snd].
      split_and!; [done..|]. by rewrite apply_batch_app, Hops.
    + apply (committing_lift t d m [] (Ok (id, meta))). unfold prepared. by rewrite Hsome.
Qed.

(** ** Reads *)

Section lookups.
Context {D : Type} `{HD : DbReadOps W D} `{!DbReadLaws W D}.

Lemma file_exists_reads w (d : D) p :
  p <> [] ->
  reads w (file_exists {| client := d |} p)
  (fun b => b = bool_decide (is_Some (db_view w d !! path_key p))).
Proof.
  intros Hp. unfold file_exists. cbn [client].
  eapply (reads_bind _ _ _ (fun _ => True)); [by apply (reads_lift _ _ tt); [apply validate_path_ne|]|].
  intros [] _. eapply reads_bind; [apply reads_slate, db_get_spec|]. intros v ->. by apply reads_ret.
Qed.

(** [open_file] finds the file, or reports that there is none. *)
Lemma open_file_found w (d : D) p id meta :
  p <> [] -> wf_catalog (db_view w d) ->
  db_view w d !! path_key p = Some (to_be_bytes id) -> is_u64 id ->
  has_metadata (db_view w d) id meta ->
  reads w (open_file {| client := d |} p) (fun v => v = (id, meta)).
Proof.
  intros Hp Hwf Hpath Hid Hm. unfold open_file. cbn [client].
  eapply (reads_bind _ _ _ (fun _ => True)); [by apply (reads_lift _ _ tt); [apply validate_path_ne|]|].
  intros [] _. destruct (lookup_file_wf _ p Hwf) as [[Hn _]|(id' & meta' & Hs & Hid' & Hm' & Hl)];
    [congruence|].
  rewrite Hpath in Hs. apply (inj Some) in Hs. apply to_be_bytes_inj in Hs as <-; [|done..].
  assert (meta' = meta) as ->.
  { destruct Hm as (b & Hb & Hd & _), Hm' as (b' & Hb' & Hd' & _). congruence. }
  eapply reads_bind; [by apply find_file_reads|]. intros ? ->. by apply (reads_lift _ _ (id, meta)).
Qed.

Lemma open_file_missing w (d : D) p r w' :
  p <> [] -> db_view w d !! path_key p = None -> up w ->
  open_file {| client := d |} p w = (r, w') ->
  w' ≡ w /\ exists e, r = Err e /\ code e = CodeFileNotFound.
Proof.
  intros Hp Hpath Hu Hr. unfold open_file, bind at 1, lift at 1 in Hr. cbn [client] in Hr.
  rewrite validate_path_ne in Hr by done. unfold bind in Hr.
  assert (Hl : lookup_file (db_view w d) p = Ok None) by (unfold lookup_file; by rewrite Hpath).
  destruct (reads_up w _ _ Hu (find_file_reads w d p None Hl)) as (v & w1 & Hf & Hw1 & _ & ->).
  rewrite Hf in Hr. unfold lift in Hr. cbn in Hr. simplify_eq. split; [done|]. by eexists.
Qed.
End lookups.
End ops.

(** ** The life of a database *)

(** One operation on database [d]: of the catalog, or the sync of an open
    handle of one of its files. *)
Section steps.
Context {W Db Txn Reader : Type} `{World W} `{DbReadOps W Db} `{!DbReadLaws W Db}
  `{DbReadOps W Txn} `{!DbReadLaws W Txn} `{SlateDb W Db Txn} `{!SlateDbLaws W Db Txn}
  `{DbReadOps W Reader} `{!DbReadLaws W Reader}
  `{Clock W} `{!ClockLaws W} `{MetadataCodec} `{!MetadataCodecLaws}.
Context (d : Db).

Inductive step : W -> W -> Prop :=
  | step_remove_file w p r w' :
  remove_file {| client := d |} p w = (r, w') -> step w w'
  | step_move_file w source target r w' :
  move_file {| client := d |} source target w = (r, w') -> step w w'
  | step_prepare_file w p create truncate_existing r w' :
  prepare_file_for_open {| client := d |} p create truncate_existing w = (r, w') -> step w w'
  | step_sync_handle w (h : SlateFileHandle Db Reader) r h' w' :
  wf_handle w h -> FileHandle.client h = ReadWrite d ->
  1 <= file_id h < next_id (db_view w d) ->
  sync (h, w) = (r, (h', w')) -> step w w'.

(** What a step leaves of the database: the invariant, and IDs that were given
    out stay given out. *)
Definition advances (m m' : kv) : Prop := wf_catalog m' /\ next_id m <= next_id m'.

Lemma advances_refl m : wf_catalog m -> advances m m.
Proof. split; [done|lia]. Qed.

Lemma advances_removed m p id :
  wf_catalog m -> m !! path_key p = Some (to_be_bytes id) -> is_u64 id ->
  advances m (removed m p id).
Proof.
  intros Hwf Hp Hid. split; [by apply wf_removed|]. unfold next_id.
  rewrite next_id_removed by done. lia.
Qed.

Lemma advances_moved m source target id :
  wf_catalog m -> source <> target -> m !! path_key source = Some (to_be_bytes id) -> is_u64 id ->
  advances m (moved m source target id).
Proof.
  intros Hwf Hne Hp Hid. split; [by apply wf_moved|]. unfold next_id.
  rewrite moved_next by done. lia.
Qed.

Lemma advances_prepared m p create truncate_existing found m' :
  wf_catalog m -> prepared m p create truncate_existing found m' -> advances m m'.
Proof.
  intros Hwf. unfold prepared. destruct (m !! path_key p) as [b|] eqn:Hp.
  - intros (-> & Hid & Hrest). destruct truncate_existing.
    + destruct Hrest as [Hf ->]. split; [by eapply wf_emptied|]. unfold next_id.
      rewrite emptied_next by done. lia.
    + destruct Hrest as [_ ->]. by apply advances_refl.
  - intros (_ & Hid & Hu & Hf & ->). split; [by apply wf_created|].
    rewrite created_next by done. lia.
Qed.

(** The batch of a sync puts records of its own file only. *)
Lemma lookup_synced w (h : SlateFileHandle Db Reader) m k :
  wf_handle w h -> k <> metadata_key (file_id h) ->
  (forall i, is_u64 i -> k <> chunk_key (file_id h) i) ->
  apply_batch m (sync_batch h) !! k = m !! k.
Proof.
  intros Hwf Hk1 Hk2. unfold sync_batch. rewrite apply_batch_app.
  rewrite lookup_apply_batch_ne by (intros o Ho%list_elem_of_singleton; subst o; by intros Heq).
  apply lookup_flush_other; [|apply Hwf]. by rewrite (hw_id _ _ Hwf).
Qed.
Lemma synced_path w (h : SlateFileHandle Db Reader) m q :
  wf_handle w h -> apply_batch m (sync_batch h) !! path_key q = m !! path_key q.
Proof.
  intros Hwf. eapply lookup_synced; [done|apply path_key_ne_metadata_key|].
  intros i _. apply path_key_ne_chunk_key.
Qed.
Lemma synced_metadata w (h : SlateFileHandle Db Reader) m :
  wf_handle w h -> has_metadata (apply_batch m (sync_batch h)) (file_id h) (metadata h).
Proof.
  intros Hwf. exists (encode_to_bytes (metadata h)). pose proof (metadata_in_range w h Hwf) as Hr.
  split_and!; [apply lookup_sync_metadata|by apply decode_encode_bytes|done|].
  apply (wf_lay _ (hw_chunks _ _ Hwf)).
Qed.

(** A sync gives out no file ID. *)
Lemma lookup_synced_next w (h : SlateFileHandle Db Reader) m :
  wf_handle w h -> is_u64 (file_id h) ->
  apply_batch m (sync_batch h) !! NEXT_FILE_ID_KEY = m !! NEXT_FILE_ID_KEY.
Proof.
  intros Hwf Hid. eapply lookup_synced; [done|by apply next_ne_metadata_key|].
  intros i _. apply next_ne_chunk_key.
Qed.

(** A write to the records of file [id]: its metadata, a well-formed record,
    or one of its chunks. *)
Definition file_op (id : Z) (o : WriteOp) : Prop :=
  (exists meta, o = Put (metadata_key id) (encode_to_bytes meta) /\ metadata_u64 meta /\
   wf_layout (FileMetadata.chunk_size meta) (FileMetadata.chunk_base_offset meta)) \/
  (exists i, is_u64 i /\ op_key o = chunk_key id i).

Lemma file_op_other id o m k :
  file_op id o -> k <> metadata_key id -> (forall i, is_u64 i -> k <> chunk_key id i) ->
  apply_op m o !! k = m !! k.
Proof.
  intros Ho Hm Hc. rewrite lookup_apply_op, decide_False; [done|]. intros <-.
  destruct Ho as [(meta & -> & _)|(i & Hi & Hk)]; [by apply Hm|by eapply Hc].
Qed.

Lemma file_op_metadata id o m f meta :
  is_u64 id -> is_u64 f -> file_op id o -> has_metadata m f meta ->
  exists meta', has_metadata (apply_op m o) f meta'.
Proof.
  intros Hid Hf [(meta' & -> & Hu & Hl)|(i & Hi & Hk)] (b & Hb & Hd).
  - destruct (decide (f = id)) as [->|Hne].
    + exists meta', (encode_to_bytes meta'). cbn [apply_op]. rewrite lookup_insert_eq.
      split_and!; [done|by apply decode_encode_bytes|done..].
    + exists meta, b. split; [|done]. cbn [apply_op].
      by rewrite lookup_insert_ne by (by apply metadata_key_ne).
  - exists meta, b. split; [|done]. rewrite lookup_apply_op, decide_False; [done|].
    rewrite Hk. apply chunk_key_ne_metadata_key.
Qed.

(** It keeps the invariant, if the ID has been given out. *)
Lemma advances_file_op id o m :
  wf_catalog m -> 1 <= id < next_id m -> file_op id o ->
  wf_catalog (apply_op m o) /\ next_id (apply_op m o) = next_id m.
Proof.
  intros Hm Hid Ho. pose proof (next_id_u64 m Hm) as [_ Hn]. assert (Hu : is_u64 id) by (split; lia).
  assert (Hnextk : apply_op m o !! NEXT_FILE_ID_KEY = m !! NEXT_FILE_ID_KEY).
  { eapply file_op_other; [done|by apply next_ne_metadata_key|]. intros i _. apply next_ne_chunk_key. }
  assert (Hpath : forall q, apply_op m o !! path_key q = m !! path_key q).
  { intros q. eapply file_op_other; [done|apply path_key_ne_metadata_key|].
    intros i _. apply path_key_ne_chunk_key. }
  assert (Hnext : next_id (apply_op m o) = next_id m) by (unfold next_id; by rewrite Hnextk).
  split; [split|done].
  - intros b. rewrite Hnextk. apply (cat_next m Hm).
  - rewrite Hnext. apply (cat_next_pos m Hm).
  - intros q b Hb. rewrite Hpath in Hb. rewrite Hnext.
    destruct (cat_path_id m q b Hm Hb) as (f & meta & -> & Hf & _ & Hlt & Hmd).
    destruct (file_op_metadata id o m f meta Hu Hf Ho Hmd) as [meta' Hmd']. by exists f, meta'.
  - intros p q b Hp Hq. rewrite Hpath in Hp, Hq. by eapply (cat_inj m Hm).
  - intros f Hf Hle. rewrite Hnext in Hle. destruct (cat_fresh m Hm f Hf Hle) as [Hfm Hfc].
    assert (f <> id) by lia. split.
    + rewrite (file_op_other id) by (done || by apply metadata_key_ne || by intros i _ Hk;
        symmetry in Hk; apply chunk_key_ne_metadata_key in Hk). done.
    + intros i Hi. rewrite (file_op_other id); [by apply Hfc|done|apply chunk_key_ne_metadata_key|].
      intros j Hj Heq. by apply chunk_key_inj in Heq as [? _].
  - apply (wf_chunk_keys_batch m [o]); [|apply (cat_chunks m Hm)]. apply Forall_singleton.
    destruct Ho as [(meta & -> & _)|(i & Hi & Hk)]; [done|].
    destruct o as [k v|k]; [|done]. intros _. exists id, i. by split_and!.
Qed.

Lemma advances_file_ops id ops m :
  wf_catalog m -> 1 <= id < next_id m -> Forall (file_op id) ops -> advances m (apply_batch m ops).
Proof.
  intros Hm Hid Hops. assert (H' : wf_catalog (apply_batch m ops) /\ next_id (apply_batch m ops) = next_id m).
  2:{ destruct H' as [? Hn]. split; [done|]. rewrite Hn. lia. }
  revert m Hm Hid. induction Hops as [|o ops Ho _ IH]; intros m Hm Hid; [done|].
  destruct (advances_file_op id o m Hm Hid Ho) as [Hm' Hn].
  destruct (IH (apply_op m o) Hm' ltac:(by rewrite Hn)) as [? Hn']. split; [done|].
  etrans; [exact Hn'|done].
Qed.

Lemma sync_batch_file_ops w (h : SlateFileHandle Db Reader) :
  wf_handle w h -> Forall (file_op (file_id h)) (sync_batch h).
Proof.
  intros Hwf. apply Forall_app. split.
  - apply Forall_forall. intros o (i & c & Hp & ->)%elem_pending_ops. right. exists i.
    rewrite <-(hw_id w h Hwf). split; [by apply (wf_pending _ (hw_chunks w h Hwf)); eauto|by destruct c].
  - apply Forall_singleton. left. exists (metadata h). split_and!; [done|by apply (metadata_in_range w)|].
    apply (wf_lay _ (hw_chunks _ _ Hwf)).
Qed.

Lemma advances_synced w (h : SlateFileHandle Db Reader) m :
  wf_handle w h -> wf_catalog m -> 1 <= file_id h < next_id m ->
  advances m (apply_batch m (sync_batch h)).
Proof. intros Hwf Hm Hid. eapply advances_file_ops; [done|done|by eapply sync_batch_file_ops]. Qed.

Lemma atomic_advances {A} w (m : M Error W A) Q E r w' :
  atomic d w m Q E -> wf_catalog (db_view w d) ->
  (forall a m', Q a m' -> advances (db_view w d) m') -> m w = (r, w') ->
  advances (db_view w d) (db_view w' d).
Proof.
  intros Hat Hwf HQ Hr. destruct (Hat r w' Hr) as (_ & [->|[a Ha]] & _); [|by eapply HQ].
  by apply advances_refl.
Qed.

(** An operation on an empty path does nothing. *)
Lemma empty_path_remove w : exists e, code e = CodeInvalidArgument /\
  remove_file {| client := d |} [] w = (Err e, w).
Proof. eexists. by split; [|reflexivity]. Qed.
Lemma empty_path_prepare w create truncate_existing : exists e, code e = CodeInvalidArgument /\
  prepare_file_for_open {| client := d |} [] create truncate_existing w = (Err e, w).
Proof. eexists. by split; [|reflexivity]. Qed.
Lemma empty_path_move w source target : source = [] \/ target = [] ->
  exists e, code e = CodeInvalidArgument /\
  move_file {| client := d |} source target w = (Err e, w).
Proof.
  unfold move_file, bind, lift, validate_path. intros [->| ->]; [eexists; by split; [|reflexivity]|].
  case_bool_decide; eexists; by split; [|reflexivity].
Qed.
Lemma move_to_itself w p : p <> [] -> move_file {| client := d |} p p w = (Ok tt, w).
Proof.
  intros Hp. unfold move_file, bind, lift. rewrite validate_path_ne by done.
  by rewrite bool_decide_true.
Qed.

Lemma step_advances w w' :
  step w w' -> wf_catalog (db_view w d) -> advances (db_view w d) (db_view w' d).
Proof.
  intros Hs Hwf. destruct Hs as [w p r w' Hr|w source target r w' Hr|w p c tr r w' Hr|
    w h r h' w' Hh Hc Hid Hr].
  - destruct (decide (p = [])) as [->|Hp].
    { destruct (empty_path_remove w) as (e & _ & He). rewrite He in Hr. simplify_eq.
      by apply advances_refl. }
    eapply atomic_advances; [by apply remove_file_atomic|done| |exact Hr].
    intros _ m' (id & Hpath & Hid & ->). by apply advances_removed.
  - destruct (decide (source = [] \/ target = [])) as [He|Hne].
    { destruct (empty_path_move w source target He) as (e & _ & He'). rewrite He' in Hr.
      simplify_eq. by apply advances_refl. }
    assert (source <> [] /\ target <> []) as [Hsne Htne] by (split; intros ->; auto).
    destruct (decide (source = target)) as [->|Hst].
    { rewrite move_to_itself in Hr by done.
      simplify_eq. by apply advances_refl. }
    eapply atomic_advances; [apply (move_file_atomic d w source target Hwf Hsne Htne Hst)|done| |exact Hr].
    intros _ m' (id & Hpath & Hid & ->). by apply advances_moved.
  - destruct (decide (p = [])) as [->|Hp].
    { destruct (empty_path_prepare w c tr) as (e & _ & He). rewrite He in Hr. simplify_eq.
      by apply advances_refl. }
    eapply atomic_advances; [by apply prepare_file_for_open_atomic|done| |exact Hr].
    intros found m'. by apply advances_prepared.
  - destruct (sync_view h w r h' w' d Hc Hr) as [_ [->| ->]]; [by apply advances_refl|].
    by eapply advances_synced.
Qed.
End steps.
