(* ===== verification/DatabaseProps.v ===== *)
(** * Properties of the path catalog

    The theorems about rust/src/database_metadata.rs that a reader should
    know, each applied at a concrete input in the memory world of MemDb.v. *)

From S2P Require Import Prelude RustStd Error Flags Keys SlateDb MemDb ChunkLayout.
From S2P Require Import ChunkManager ChunkManagerSpec ChunkProps FileMetadata FileHandle.
From S2P Require Import FileHandleSpec FileRefinement FileProps Transactions DatabaseMetadata.
From S2P Require Import DatabaseSpec.
From S2P Require Import DatabaseOps.

Section props.
Context {W Db Txn Reader : Type} `{World W} `{DbReadOps W Db} `{!DbReadLaws W Db}
  `{DbReadOps W Txn} `{!DbReadLaws W Txn} `{SlateDb W Db Txn} `{!SlateDbLaws W Db Txn}
  `{DbReadOps W Reader} `{!DbReadLaws W Reader}
  `{Clock W} `{!ClockLaws W} `{MetadataCodec} `{!MetadataCodecLaws}.

(** C9: the catalog invariant holds in every state a database can reach: from
    one that satisfies it, any sequence of removals, moves, opens and syncs of
    open handles, successful, failing or interrupted, leads to one that does
    (IDs below the next one, injective paths, a metadata record that opens for
    every path, no records under unused IDs), and file IDs are never handed
    out twice, since the next ID only grows. *)
Theorem catalog_invariant (d : Db) (w w' : W) :
  wf_catalog (db_view w d) -> rtc (step (Reader:=Reader) d) w w' ->
  wf_catalog (db_view w' d) /\ next_id (db_view w d) <= next_id (db_view w' d).
Proof.
  intros Hwf Hsteps. induction Hsteps as [w|w w1 w' Hs _ IH]; [split; [done|lia]|].
  destruct (step_advances d w w1 Hs Hwf) as [Hwf1 Hle].
  destruct (IH Hwf1) as [Hwf' Hle']. split; [done|lia].
Qed.

(** C21: [remove_file] on a store that answers removes the path, the metadata
    record and every chunk of the file and nothing else: every other key of
    the database keeps its value, every other path its file, and other
    databases are not touched.  It reports a missing path without changing
    anything. *)
Theorem remove_file_removes (d : Db) (w : W) p :
  up w -> wf_catalog (db_view w d) -> p <> [] ->
  exists r w', remove_file {| DatabaseMetadata.client := d |} p w = (r, w') /\ up w' /\
  (forall d' : Db, d' <> d -> db_view w' d' = db_view w d') /\
  match db_view w d !! path_key p with
  | None => (exists e, r = Err e /\ code e = CodeFileNotFound) /\ db_view w' d = db_view w d
  | Some b =>
  let id := from_be_bytes b in
  r = Ok tt /\ db_view w' d !! path_key p = None /\
  (forall k, record_of id k -> db_view w' d !! k = None) /\
  (forall k, k <> path_key p -> ~ record_of id k -> db_view w' d !! k = db_view w d !! k) /\
  forall q l, q <> p -> (file_at (db_view w' d) q l <-> file_at (db_view w d) q l)
  end.
Proof.
  intros Hu Hwf Hp.
  destruct (remove_file {| DatabaseMetadata.client := d |} p w) as [r w'] eqn:Hr.
  destruct (remove_file_atomic d w p Hwf Hp r w' Hr) as (Hoth & _ & Hup & Hok).
  destruct (Hup Hu) as [Hu' Hres]. exists r, w'. split_and!; [done..|].
  destruct r as [[]|e|msg]; [|destruct Hres as [[Hcode Hnone] Hsame]|done].
  - destruct (Hok tt eq_refl) as (id & Hpath & Hid & Hv). rewrite Hpath. cbn zeta.
    rewrite from_to_be_bytes by done. rewrite Hv. split_and!; [done| | | |].
    + apply lookup_removed_path.
    + intros k Hk. rewrite removed_without_file; [by apply lookup_without_file|].
      intros ->. by apply (path_key_not_record p id).
    + intros k Hk1 Hk2. rewrite removed_without_file by done. by apply lookup_without_file.
    + intros q l Hq. apply keeps_file_at. by apply removed_keeps.
  - rewrite Hnone. split; [by exists e|done].
Qed.

(** C20: [move_file] between different paths on a store that answers gives
    the target path the file of the source, bytes unchanged, replacing the
    file that was there and its records, unmaps the source, and changes nothing
    else: every other key keeps its value, every other path its file, and other
    databases are not touched; a missing source is reported and nothing
    changes. *)
Theorem move_file_moves (d : Db) (w : W) source target :
  up w -> wf_catalog (db_view w d) -> source <> [] -> target <> [] -> source <> target ->
  exists r w', move_file {| DatabaseMetadata.client := d |} source target w = (r, w') /\ up w' /\
  (forall d' : Db, d' <> d -> db_view w' d' = db_view w d') /\
  match db_view w d !! path_key source with
  | None => (exists e, r = Err e /\ code e = CodeFileNotFound) /\ db_view w' d = db_view w d
  | Some _ =>
  r = Ok tt /\ db_view w' d !! path_key source = None /\
  (forall l, file_at (db_view w' d) target l <-> file_at (db_view w d) source l) /\
  (forall b k, db_view w d !! path_key target = Some b -> record_of (from_be_bytes b) k ->
   db_view w' d !! k = None) /\
  (forall k, k <> path_key source -> k <> path_key target ->
   (forall b, db_view w d !! path_key target = Some b -> ~ record_of (from_be_bytes b) k) ->
   db_view w' d !! k = db_view w d !! k) /\
  (forall q l, q <> source -> q <> target ->
   (file_at (db_view w' d) q l <-> file_at (db_view w d) q l))
  end.
Proof.
  intros Hu Hwf Hs Ht Hne.
  destruct (move_file {| DatabaseMetadata.client := d |} source target w) as [r w'] eqn:Hr.
  destruct (move_file_atomic d w source target Hwf Hs Ht Hne r w' Hr) as (Hoth & _ & Hup & Hok).
  destruct (Hup Hu) as [Hu' Hres]. exists r, w'. split_and!; [done..|].
  destruct r as [[]|e|msg]; [|destruct Hres as [[Hcode Hnone] Hsame]|done].
  - destruct (Hok tt eq_refl) as (id & Hpath & Hid & Hv). rewrite Hpath, Hv. split_and!; [done| | | | |].
    + by rewrite moved_path, decide_False, decide_True.
    + intros l. by apply moved_file_at.
    + intros b k Hb. by apply moved_drops.
    + intros k Hk1 Hk2 Hb. by apply moved_frame.
    + intros q l Hq1 Hq2. apply keeps_file_at. by apply moved_keeps.
  - rewrite Hnone. split; [by exists e|done].
Qed.

(** preparing a missing path with [create] on a store that answers
    makes a new, empty file under an ID that no path and no record uses, and
    leaves every other path as it was; the one exception is an exhausted ID
    space, which is reported as such.  Without [create] the path is reported
    missing and nothing changes. *)
Theorem prepare_creates_fresh_file (d : Db) (w : W) p create truncate_existing :
  up w -> wf_catalog (db_view w d) -> p <> [] -> db_view w d !! path_key p = None ->
  exists r w',
  prepare_file_for_open {| DatabaseMetadata.client := d |} p create truncate_existing w = (r, w') /\
  up w' /\
  match r with
  | Ok (id, meta) =>
  create = true /\ FileMetadata.size meta = 0 /\
  (forall q b, db_view w d !! path_key q = Some b -> from_be_bytes b <> id) /\
  db_view w d !! metadata_key id = None /\
  db_view w' d !! path_key p = Some (to_be_bytes id) /\ has_metadata (db_view w' d) id meta /\
  file_at (db_view w' d) p [] /\
  forall q l, q <> p -> (file_at (db_view w' d) q l <-> file_at (db_view w d) q l)
  | Err e =>
  db_view w' d = db_view w d /\
  (code e = CodeFileNotFound /\ create = false \/
  code e = CodeMetadataDecode /\ create = true /\ next_id (db_view w d) = u64_max)
  | Panic _ => False
  end.
Proof.
  intros Hu Hwf Hp Hnone.
  destruct (prepare_file_for_open {| DatabaseMetadata.client := d |} p create truncate_existing w)
    as [r w'] eqn:Hr.
  destruct (prepare_file_for_open_atomic d w p create truncate_existing Hwf Hp r w' Hr)
    as (_ & _ & Hup & Hok).
  destruct (Hup Hu) as [Hu' Hres]. exists r, w'. split_and!; [done..|].
  destruct r as [[id meta]|e|msg]; [|by destruct Hres as [[_ ?] ?]|done].
  specialize (Hok _ eq_refl). unfold prepared in Hok. rewrite Hnone in Hok.
  destruct Hok as (-> & Hid & Hu1 & Hf & Hv). cbn [fst snd] in *. rewrite Hv.
  pose proof (next_id_u64 _ Hwf) as Hnu. rewrite <-Hid in Hnu.
  split_and!; [done|by apply fresh_size| | | | | |].
  - intros q b Hq. destruct (cat_path_id _ q b Hwf Hq) as (id' & _ & _ & _ & -> & ? & _). lia.
  - apply (cat_fresh _ Hwf); [done|lia].
  - by rewrite created_path, decide_True.
  - apply has_metadata_fresh; [done|]. by apply created_metadata.
  - by apply created_file_at.
  - intros q l Hq. apply keeps_file_at. by apply created_keeps.
Qed.

(** preparing an existing path on a store that answers returns its file;
    with [truncate_existing] the file is empty afterwards, under the same ID
    and with all its chunks gone, otherwise the database is unchanged; every
    other path keeps its file. *)
Theorem prepare_opens_existing_file (d : Db) (w : W) p id create truncate_existing :
  up w -> wf_catalog (db_view w d) -> p <> [] -> is_u64 id ->
  db_view w d !! path_key p = Some (to_be_bytes id) ->
  exists meta w',
  prepare_file_for_open {| DatabaseMetadata.client := d |} p create truncate_existing w
  = (Ok (id, meta), w') /\ up w' /\ has_metadata (db_view w' d) id meta /\
  (if truncate_existing
  then FileMetadata.size meta = 0 /\ file_at (db_view w' d) p [] /\
  forall i, is_u64 i -> db_view w' d !! chunk_key id i = None
  else db_view w' d = db_view w d) /\
  forall q l, q <> p -> (file_at (db_view w' d) q l <-> file_at (db_view w d) q l).
Proof.
  intros Hu Hwf Hp Hid Hpath.
  destruct (prepare_file_for_open {| DatabaseMetadata.client := d |} p create truncate_existing w)
    as [r w'] eqn:Hr.
  destruct (prepare_file_for_open_atomic d w p create truncate_existing Hwf Hp r w' Hr)
    as (_ & _ & Hup & Hok).
  destruct (Hup Hu) as [Hu' Hres].
  destruct r as [[id' meta]|e|msg]; [|destruct Hres as [[Hn _] _]; congruence|done].
  specialize (Hok _ eq_refl). unfold prepared in Hok. rewrite Hpath in Hok. cbn [fst snd] in Hok.
  destruct Hok as (Hb & Hid' & Hrest). apply to_be_bytes_inj in Hb as <-; [|done..].
  exists meta, w'. destruct truncate_existing.
  - destruct Hrest as [Hf Hv]. rewrite Hv. split_and!; [done|done| |by apply fresh_size| | |].
    + apply has_metadata_fresh; [done|]. by rewrite lookup_emptied, decide_True.
    + by apply emptied_file_at.
    + intros i Hi. rewrite lookup_emptied, decide_False by apply chunk_key_ne_metadata_key.
      by rewrite (proj2 (chunk_key_starts_with id id i Hid Hid)).
    + intros q l Hq. apply keeps_file_at. by eapply emptied_keeps.
  - destruct Hrest as [Hm Hv]. rewrite Hv. split_and!; done.
Qed.

(** What a removal and a move do to the contents, as a whole: the file is the
    one the path is mapped to. *)
Definition removes (m : kv) (p : list byte) (m' : kv) : Prop :=
  exists id, m !! path_key p = Some (to_be_bytes id) /\ is_u64 id /\ m' = removed m p id.
Definition moves (m : kv) (source target : list byte) (m' : kv) : Prop :=
  exists id, m !! path_key source = Some (to_be_bytes id) /\ is_u64 id /\ m' = moved m source target id.

(** A call that ended as [r] between the contents [m] and [m'] did all of
    [effect], or, unless it succeeded, nothing. *)
Definition all_or_nothing {A} (effect : A -> Prop) (r : Result A) (m m' : kv) : Prop :=
  match r with
  | Ok a => effect a
  | _ => m' = m \/ exists a, effect a
  end.

Lemma atomic_all_or_nothing {A} (d : Db) (w w' : W) (m : M Error W A) effect err r :
  atomic d w m effect err -> m w = (r, w') ->
  (forall d' : Db, d' <> d -> db_view w' d' = db_view w d') /\
  all_or_nothing (fun a => effect a (db_view w' d)) r (db_view w d) (db_view w' d).
Proof.
  intros Ha Hr. destruct (Ha r w' Hr) as (Ho & Hat & _ & Hok). split; [done|].
  destruct r as [a|e|msg]; [by apply Hok|done..].
Qed.

(** C14: the updates of the catalog are atomic whatever the store does: a
    removal, a move or an open that succeeded has applied its whole update to
    the file its path was mapped to, one that failed or panicked has applied
    all of it or none, and no other database changed. *)
Theorem updates_are_atomic (d : Db) (w : W) p q create truncate_existing :
  wf_catalog (db_view w d) -> p <> [] -> q <> [] -> p <> q ->
  let self := {| DatabaseMetadata.client := d |} in
  let m := db_view w d in
  let others w' := forall d' : Db, d' <> d -> db_view w' d' = db_view w d' in
  (forall r w', remove_file self p w = (r, w') -> others w' /\
   all_or_nothing (fun _ => removes m p (db_view w' d)) r m (db_view w' d)) /\
  (forall r w', move_file self p q w = (r, w') -> others w' /\
   all_or_nothing (fun _ => moves m p q (db_view w' d)) r m (db_view w' d)) /\
  (forall r w', prepare_file_for_open self p create truncate_existing w = (r, w') -> others w' /\
   all_or_nothing (fun found => prepared m p create truncate_existing found (db_view w' d)) r
     m (db_view w' d)).
Proof.
  intros Hwf Hp Hq Hne self m others. split_and!; intros r w' Hr.
  - eapply (atomic_all_or_nothing d w w' _ (fun _ => removes m p)); [by apply remove_file_atomic|done].
  - eapply (atomic_all_or_nothing d w w' _ (fun _ => moves m p q)); [by apply move_file_atomic|done].
  - by eapply (atomic_all_or_nothing d w w' _ (prepared m p create truncate_existing));
      [apply prepare_file_for_open_atomic|].
Qed.
End props.

(** [open_file] and [file_exists] agree with the catalog: a mapped path
    exists and opens with its ID and metadata record, an unmapped one does not
    exist and is reported missing, and neither call changes the world. *)
Theorem open_file_finds {W D : Type} `{World W} `{DbReadOps W D} `{!DbReadLaws W D}
    `{MetadataCodec} `{!MetadataCodecLaws} (d : D) (w : W) p :
  up w -> wf_catalog (db_view w d) -> p <> [] ->
  let self := {| DatabaseMetadata.client := d |} in
  exists b r w1 w2, file_exists self p w = (Ok b, w1) /\ open_file self p w = (r, w2) /\
    w1 ≡ w /\ w2 ≡ w /\ b = bool_decide (is_Some (db_view w d !! path_key p)) /\
    match db_view w d !! path_key p with
    | Some bytes =>
        exists meta, r = Ok (from_be_bytes bytes, meta) /\
          has_metadata (db_view w d) (from_be_bytes bytes) meta
    | None => exists e, r = Err e /\ code e = CodeFileNotFound
    end.
Proof.
  intros Hu Hwf Hp. cbn zeta.
  destruct (reads_up w _ _ Hu (file_exists_reads w d p Hp)) as (b & w1 & Hex & Hw1 & _ & Hb).
  destruct (open_file {| DatabaseMetadata.client := d |} p w) as [r w2] eqn:Ho.
  exists b, r, w1, w2. destruct (db_view w d !! path_key p) as [bytes|] eqn:Hpath.
  - destruct (cat_path_id _ p bytes Hwf Hpath) as (id & meta & -> & Hid & Hdec & _ & Hm).
    destruct (reads_up w _ _ Hu (open_file_found w d p id meta Hp Hwf Hpath Hid Hm))
      as (v & w3 & Ho' & Hw3 & _ & ->).
    rewrite Ho' in Ho. simplify_eq. split_and!; [done..|]. exists meta. by rewrite Hdec.
  - destruct (open_file_missing w d p r w2 Hp Hpath Hu Ho) as [Hw2 He].
    by split_and!.
Qed.

(** the eight big-endian bytes of a file ID decode to it, and nothing
    else decodes: a record that does not hold eight bytes, or holds the
    reserved ID 0, is rejected as malformed metadata. *)
Theorem file_id_codec bytes record :
  match decode_file_id bytes record with
  | Ok id => is_u64 id /\ id <> 0 /\ bytes = to_be_bytes id
  | Err e => code e = CodeMetadataDecode /\ (length bytes <> 8%nat \/ bytes = to_be_bytes 0)
  | Panic _ => False
  end /\
  forall id, is_u64 id -> id <> 0 -> decode_file_id (to_be_bytes id) record = Ok id.
Proof.
  split.
  - unfold decode_file_id. case_bool_decide as Hl; [|split; [done|by left]].
    pose proof (from_be_bytes_bound bytes) as [Hlo Hhi]. unfold zlen in Hhi. rewrite Hl in Hhi.
    pose proof (be_from_be_bytes bytes) as Hbe. rewrite Hl in Hbe.
    destruct (Z.eqb_spec (from_be_bytes bytes) 0) as [Hz|Hz].
    + split; [done|]. right. by rewrite Hz in Hbe.
    + split_and!; [split; [done|exact Hhi]|done|done].
  - intros id Hid Hz. apply decode_file_id_be; [done|]. destruct Hid. lia.
Qed.

(** ** At concrete inputs: a database with the files "a" and "b" *)

Definition ex_catalog : DatabaseMetadata MDb := {| DatabaseMetadata.client := ex_db |}.
Definition ex_new (p : string) (w : MemWorld) : MemWorld :=
  (prepare_file_for_open ex_catalog (bytes_of p) true false w).2.
Definition ex_catalog_world : MemWorld := ex_new "b" (ex_new "a" ex_file_world).

Lemma ex_step p w : step (Reader:=MReader) ex_db w (ex_new p w).
Proof.
  unfold ex_new. destruct (prepare_file_for_open _ _ _ _ _) as [r w'] eqn:Hr.
  by apply (step_prepare_file ex_db w (bytes_of p) true false r w').
Qed.

Lemma ex_file_world_wf : wf_catalog (db_view ex_file_world ex_db).
Proof. exact wf_catalog_empty. Qed.

Lemma ex_catalog_wf : wf_catalog (db_view ex_catalog_world ex_db).
Proof.
  apply (step_advances (Reader:=MReader) ex_db (ex_new "a" ex_file_world)); [apply ex_step|].
  apply (step_advances (Reader:=MReader) ex_db ex_file_world); [apply ex_step|].
  apply ex_file_world_wf.
Qed.

Lemma ex_fault_wf w f : wf_catalog (db_view w ex_db) -> wf_catalog (db_view (set_fault w f) ex_db).
Proof. done. Qed.

Lemma ex_catalog_up : up ex_catalog_world.
Proof. by vm_compute. Qed.

Lemma ex_catalog_a : db_view ex_catalog_world ex_db !! path_key (bytes_of "a") = Some (to_be_bytes 1).
Proof. by vm_compute. Qed.
Lemma ex_catalog_b : db_view ex_catalog_world ex_db !! path_key (bytes_of "b") = Some (to_be_bytes 2).
Proof. by vm_compute. Qed.

Lemma catalog_invariant_witness :
  wf_catalog (db_view ex_catalog_world ex_db) /\
  next_id (db_view ex_file_world ex_db) <= next_id (db_view ex_catalog_world ex_db).
Proof.
  apply (catalog_invariant (Reader:=MReader) ex_db ex_file_world); [apply ex_file_world_wf|].
  eapply rtc_l; [apply (ex_step "a")|]. eapply rtc_l; [apply (ex_step "b")|]. apply rtc_refl.
Defined.

Lemma remove_file_removes_witness :
  exists w', remove_file ex_catalog (bytes_of "a") ex_catalog_world = (Ok tt, w') /\
    db_view w' ex_db !! metadata_key 1 = None.
Proof.
  destruct (remove_file_removes ex_db ex_catalog_world (bytes_of "a") ex_catalog_up ex_catalog_wf
    ltac:(done)) as (r & w' & Hr & _ & _ & Hres).
  rewrite ex_catalog_a in Hres. destruct Hres as (-> & _ & Hm & _).
  exists w'. split; [exact Hr|]. apply Hm. by left.
Defined.

Lemma move_file_moves_witness :
  exists w', move_file ex_catalog (bytes_of "a") (bytes_of "b") ex_catalog_world = (Ok tt, w') /\
    db_view w' ex_db !! path_key (bytes_of "a") = None.
Proof.
  destruct (move_file_moves ex_db ex_catalog_world (bytes_of "a") (bytes_of "b") ex_catalog_up
    ex_catalog_wf ltac:(done) ltac:(done) ltac:(done)) as (r & w' & Hr & _ & _ & Hres).
  rewrite ex_catalog_a in Hres. destruct Hres as (-> & Hm & _).
  exists w'. split; [exact Hr|]. exact Hm.
Defined.

Lemma prepare_creates_fresh_file_witness :
  exists id meta w', prepare_file_for_open ex_catalog (bytes_of "c") true false ex_catalog_world =
    (Ok (id, meta), w') /\ file_at (db_view w' ex_db) (bytes_of "c") [].
Proof.
  assert (Hok : match (prepare_file_for_open ex_catalog (bytes_of "c") true false
      ex_catalog_world).1 with Ok _ => True | _ => False end) by (by vm_compute).
  destruct (prepare_creates_fresh_file ex_db ex_catalog_world (bytes_of "c") true false
    ex_catalog_up ex_catalog_wf ltac:(done) ltac:(by vm_compute)) as (r & w' & Hr & _ & Hres).
  change {| DatabaseMetadata.client := ex_db |} with ex_catalog in Hr. rewrite Hr in Hok.
  destruct r as [[id meta]|e|msg]; [|destruct Hok..].
  exists id, meta, w'. split; [exact Hr|]. by destruct Hres as (_ & _ & _ & _ & _ & _ & Hf & _).
Defined.

Lemma prepare_opens_existing_file_witness :
  exists meta w', prepare_file_for_open ex_catalog (bytes_of "b") false true ex_catalog_world =
    (Ok (2, meta), w') /\ FileMetadata.size meta = 0.
Proof.
  destruct (prepare_opens_existing_file ex_db ex_catalog_world (bytes_of "b") 2 false true
    ex_catalog_up ex_catalog_wf ltac:(done) ltac:(done) ex_catalog_b)
    as (meta & w' & Hr & _ & _ & [Hs _] & _).
  exists meta, w'. split; [exact Hr|exact Hs].
Defined.

(** A removal whose commit fails. *)
Lemma updates_are_atomic_witness :
  let w := set_fault ex_catalog_world (Some 5%nat) in
  let w' := (remove_file ex_catalog (bytes_of "a") w).2 in
  db_view w' ex_db = db_view w ex_db \/ removes (db_view w ex_db) (bytes_of "a") (db_view w' ex_db).
Proof.
  intros w w'. destruct (updates_are_atomic ex_db w (bytes_of "a") (bytes_of "b") true true
    (ex_fault_wf _ _ ex_catalog_wf) ltac:(done) ltac:(done) ltac:(done)) as (Hrm & _).
  destruct (Hrm (remove_file ex_catalog (bytes_of "a") w).1 w') as [_ Hat];
    [by rewrite <-surjective_pairing|].
  destruct (remove_file ex_catalog (bytes_of "a") w).1 as [[]|e|msg];
    [by right|destruct Hat as [Hat|[_ Hat]]; [by left|by right]..].
Defined.

Lemma open_file_finds_witness :
  exists w1, file_exists ex_catalog (bytes_of "a") ex_catalog_world = (Ok true, w1).
Proof.
  destruct (open_file_finds ex_db ex_catalog_world (bytes_of "a") ex_catalog_up ex_catalog_wf
    ltac:(done)) as (b & r & w1 & w2 & Hr & _ & _ & _ & Hb & _).
  rewrite ex_catalog_a in Hb. rewrite bool_decide_true in Hb by eauto.
  exists w1. rewrite Hb in Hr. exact Hr.
Defined.

Lemma file_id_codec_witness : decode_file_id (to_be_bytes 7) "path mapping" = Ok 7.
Proof. apply (file_id_codec [] "path mapping"); [by split|done]. Defined.
