(* ===== verification/SharedStore.v ===== *)
(** * A store that other tasks write to

    SlateDb.v describes the store as one task sees it that runs alone.  Here
    the same calls run while other tasks commit to the same databases: the
    state of a database is the log of its commits, and between a call and its
    return the log may grow by commits of others.  A transaction reads a
    snapshot, the log as it was at some moment of its beginning; a commit under
    [SerializableSnapshot] succeeds only when what the transaction read is
    unchanged by the commits made since. *)

From S2P Require Import Prelude RustStd Error Keys SlateDb FileMetadata Locality.

Record Commit := { committed_by : nat; writes : WriteBatch }.

(** The contents of a database, from the commits made to it. *)
Definition replay (l : list Commit) : kv := foldl (fun m c => apply_batch m (writes c)) ∅ l.

Lemma replay_snoc l c : replay (l ++ [c]) = apply_batch (replay l) (writes c).
Proof. unfold replay. by rewrite foldl_app. Qed.

(** The commits of one task. *)
Definition mine (i : nat) (l : list Commit) : list Commit := filter (fun c => committed_by c = i) l.

Lemma mine_app i l k : mine i (l ++ k) = mine i l ++ mine i k.
Proof. apply filter_app. Qed.

(** Keys a transaction has read: a key or the range under a prefix. *)
Abbreviation KeyRange := (list byte -> bool).
Definition the_key (k : list byte) : KeyRange := fun j => bool_decide (j = k).
Definition under (prefix : list byte) : KeyRange := fun j => starts_with j prefix.

(** Two databases that read the same in [rs]. *)
Definition agree_on (rs : list KeyRange) (m m' : kv) : Prop :=
  forall r k, r ∈ rs -> r k = true -> m' !! k = m !! k.

(** A running transaction: the log it reads, the writes it has buffered, what
    it has read. *)
Record TxnState := { start : list Commit; buffer : WriteBatch; read_set : list KeyRange }.

Definition txn_contents (s : TxnState) : kv := apply_batch (replay (start s)) (buffer s).
Definition with_read (s : TxnState) (r : KeyRange) : TxnState :=
  {| start := start s; buffer := buffer s; read_set := read_set s ++ [r] |}.
Definition with_op (s : TxnState) (o : WriteOp) : TxnState :=
  {| start := start s; buffer := buffer s ++ [o]; read_set := read_set s |}.

Lemma txn_contents_op s o : txn_contents (with_op s o) = apply_op (txn_contents s) o.
Proof. unfold txn_contents. cbn [with_op start buffer]. by rewrite apply_batch_app. Qed.

(** ** The store *)

(** What can be seen of the world: the task that runs, the logs, the
    transactions; [ready]: the store answers. *)
Class SharedWorld (W Db Txn : Type) `{DbReadOps W Txn} := {
  me : W -> nat;
  history : W -> Db -> list Commit;
  ready : W -> Prop;
  txn_home : Txn -> Db;
  txn_level : Txn -> IsolationLevel;
  txn_state : W -> Txn -> TxnState;
  rows_left : ScanIter W Txn -> list KeyValue
}.

Section relations.
Context {W Db Txn : Type} `{DbReadOps W Txn} `{!SharedWorld W Db Txn}.

(** The same task, later. *)
Definition later (_ : Db) (w w' : W) : Prop :=
  me w' = me w /\ (ready w -> ready w') /\ forall d : Db, history w d `prefix_of` history w' d.

(** Only other tasks have committed. *)
Definition elapse (w w' : W) : Prop :=
  me w' = me w /\ (ready w -> ready w') /\
  forall d : Db, history w d `prefix_of` history w' d /\
    mine (me w) (history w' d) = mine (me w) (history w d).

#[export] Instance later_transitive d : Transitive (later d).
Proof.
  intros w1 w2 w3 (H1 & H1r & H1d) (H2 & H2r & H2d).
  split_and!; [congruence|auto|]. intros d'. etrans; [apply H1d|apply H2d].
Qed.

#[export] Instance elapse_preorder : PreOrder elapse.
Proof.
  split; [done|]. intros w1 w2 w3 (H1 & H1r & H1d) (H2 & H2r & H2d).
  split_and!; [congruence|auto|]. intros d. destruct (H1d d), (H2d d). split; [by etrans|].
  rewrite <-H1 in *. congruence.
Qed.

Lemma elapse_later d w w' : elapse w w' -> later d w w'.
Proof. intros (? & ? & Hd). split_and!; [done..|]. intros d'. apply Hd. Qed.
End relations.

(** The commit [t] would make. *)
Definition own {W Db Txn : Type} `{DbReadOps W Txn} `{!SharedWorld W Db Txn} (w : W) (t : Txn) : Commit :=
  {| committed_by := me w; writes := buffer (txn_state w t) |}.

(** [commits t w w']: the buffer of [t] enters the log of its database, in one
    step among those of others, if what [t] read still reads the same. *)
Record commits {W Db Txn : Type} `{DbReadOps W Txn} `{!SharedWorld W Db Txn} (t : Txn)
    (w w' : W) : Prop := {
  commits_later : later (txn_home t) w w';
  commits_elsewhere (d : Db) :
    d <> txn_home t -> mine (me w) (history w' d) = mine (me w) (history w d);
  commits_here :
    exists before after,
      history w' (txn_home t) = history w (txn_home t) ++ before ++ [own w t] ++ after /\
      mine (me w) (before ++ after) = [] /\
      (txn_level t = SerializableSnapshot ->
       agree_on (read_set (txn_state w t)) (replay (start (txn_state w t)))
         (replay (history w (txn_home t) ++ before)))
}.

Class SharedStore (W Db Txn : Type) `{DbReadOps W Txn} `{!SharedWorld W Db Txn}
    `{SlateDb W Db Txn} `{Clock W} := {
  rows_left_bound it : (length (rows_left it) <= iter_bound it)%nat;
  shared_begin w d level r w' :
    db_begin d level w = (r, w') ->
    elapse w w' /\ (ready w -> exists t, r = Ok t) /\
    forall t, r = Ok t ->
      txn_home t = d /\ txn_level t = level /\
      exists s, txn_state w' t = {| start := s; buffer := []; read_set := [] |} /\
        history w d `prefix_of` s /\ s `prefix_of` history w' d;
  shared_get w t k r w' :
    db_get t k w = (r, w') ->
    elapse w w' /\ (ready w -> exists v, r = Ok v) /\
    forall v, r = Ok v ->
      v = txn_contents (txn_state w t) !! k /\
      txn_state w' t = with_read (txn_state w t) (the_key k);
  shared_scan w t p r w' :
    db_scan_prefix t p w = (r, w') ->
    elapse w w' /\ (ready w -> exists it, r = Ok it) /\
    forall it, r = Ok it ->
      listing (txn_contents (txn_state w t)) (fun k => starts_with k p = true) (rows_left it) /\
      txn_state w' t = with_read (txn_state w t) (under p);
  shared_next w it r it' w' :
    iter_next (it, w) = (r, (it', w')) ->
    elapse w w' /\ (ready w -> exists o, r = Ok o) /\
    (forall t, txn_state w' t = txn_state w t) /\
    forall o, r = Ok o ->
      match o with
      | Some row => rows_left it = row :: rows_left it'
      | None => rows_left it = []
      end;
  shared_put w t k v r w' :
    txn_put t k v w = (r, w') ->
    elapse w w' /\ (ready w -> r = Ok tt) /\
    (r = Ok tt -> txn_state w' t = with_op (txn_state w t) (Put k v));
  shared_delete w t k r w' :
    txn_delete t k w = (r, w') ->
    elapse w w' /\ (ready w -> r = Ok tt) /\
    (r = Ok tt -> txn_state w' t = with_op (txn_state w t) (Delete k));
  (** A failed commit may or may not have been applied; when the store answers
      it fails for a conflict only, which needs a commit of another task. *)
  shared_commit w t r w' :
    txn_commit t w = (r, w') ->
    (r = Ok tt /\ commits t w w') \/
    ((forall u, r <> Ok u) /\ ~ ready w /\ commits t w w') \/
    ((forall u, r <> Ok u) /\ elapse w w' /\
     (ready w -> history w' (txn_home t) <> start (txn_state w t) /\
                 exists e, r = Err e /\ slatedb_kind e = KindTransaction));
  shared_clock w : elapse w (millis_since_epoch w).2 /\
    forall t, txn_state (millis_since_epoch w).2 t = txn_state w t
}.

Section laws.
Context {W Db Txn : Type} `{DbReadOps W Txn} `{!SharedWorld W Db Txn} `{SlateDb W Db Txn}
  `{Clock W} `{!SharedStore W Db Txn}.

(** Whatever a transaction does, time passes and nothing else. *)
#[export] Instance later_rel : StepRel (Txn:=Txn) txn_home later.
Proof.
  split; intros.
  - by apply elapse_later.
  - apply _.
  - destruct (db_get t k w) eqn:Hr. apply shared_get in Hr as [? _]. by apply elapse_later.
  - destruct (db_scan_prefix t p w) eqn:Hr. apply shared_scan in Hr as [? _]. by apply elapse_later.
  - destruct (iter_next (it, w)) as [r [it' w']] eqn:Hr. apply shared_next in Hr as [? _].
    by apply elapse_later.
  - apply elapse_later, shared_clock.
  - destruct (db_begin d level w) eqn:Hr. apply shared_begin in Hr as [? _]. by apply elapse_later.
  - edestruct shared_begin as (_ & _ & Ht); [done|]. by apply Ht.
  - destruct (txn_put t k v w) eqn:Hr. apply shared_put in Hr as [? _]. by apply elapse_later.
  - destruct (txn_delete t k w) eqn:Hr. apply shared_delete in Hr as [? _]. by apply elapse_later.
  - destruct (txn_commit t w) eqn:Hr.
    apply shared_commit in Hr as [[_ Hc]|[(_ & _ & Hc)|(_ & ? & _)]];
      [by apply commits_later in Hc..|by apply elapse_later].
Qed.
End laws.
