(* ===== verification/SerialLogic.v ===== *)
(** * Reasoning about transactions among others

    A program logic for the transactions of rust/src/database_metadata.rs on
    the shared store of SharedStore.v.  A serializable transaction is reasoned
    about as if it ran at the moment of its commit: an assertion relates the
    contents at that moment to the view the transaction has of them after its
    own writes, and what it has read holds of that view.  [serial] is the
    contract of a whole call. *)

From S2P Require Import Prelude RustStd Error Keys SlateDb ChunkLayout FileMetadata.
From S2P Require Import Transactions DatabaseMetadata Locality DatabaseSpec DatabaseOps.
From S2P Require Import SharedStore.

Lemma apply_op_agree (m m' : kv) o k : m !! k = m' !! k -> apply_op m o !! k = apply_op m' o !! k.
Proof. intros Hk. rewrite !lookup_apply_op. by case_decide. Qed.

Lemma apply_batch_agree (m m' : kv) b k :
  m !! k = m' !! k -> apply_batch m b !! k = apply_batch m' b !! k.
Proof. revert m m'. induction b as [|o b IH]; intros m m' Hk; [done|]. by apply IH, apply_op_agree. Qed.

Lemma listing_agree (m m' : kv) (P : list byte -> Prop) l :
  (forall k, P k -> m' !! k = m !! k) -> listing m P l -> listing m' P l.
Proof. intros Hk [Hs Hel]. split; [done|]. intros k v. rewrite Hel. naive_solver congruence. Qed.

Lemma agree_on_refl rs m : agree_on rs m m.
Proof. by intros r k. Qed.

Lemma agree_on_app rs rs' m m' : agree_on (rs ++ rs') m m' <-> agree_on rs m m' /\ agree_on rs' m m'.
Proof. unfold agree_on. set_solver. Qed.

(** Contents at the commit, and the view of the transaction on them. *)
Definition assertion : Type := kv -> kv -> Prop.

Definition at_commit (s : TxnState) (P : assertion) : Prop :=
  forall m, agree_on (read_set s) (replay (start s)) m -> P m (apply_batch m (buffer s)).

Lemma at_commit_start (s : TxnState) P : at_commit s P -> P (replay (start s)) (txn_contents s).
Proof. intros HP. apply HP, agree_on_refl. Qed.

Lemma at_commit_mono (s : TxnState) (P Q : assertion) : (forall m m', P m m' -> Q m m') -> at_commit s P -> at_commit s Q.
Proof. intros HPQ HP m Hm. by apply HPQ, HP. Qed.

Lemma at_commit_op (s : TxnState) P o :
  at_commit s P -> at_commit (with_op s o) (fun m m' => exists v, P m v /\ m' = apply_op v o).
Proof.
  intros HP m Hm. exists (apply_batch m (buffer s)). split; [by apply HP|].
  cbn [with_op buffer]. by rewrite apply_batch_app.
Qed.

(** What a transaction has read in a range is still there at its commit. *)
Lemma at_commit_read (s : TxnState) (P : assertion) (r : KeyRange) (F : kv -> Prop) :
  at_commit s P ->
  (forall m', (forall k, r k = true -> m' !! k = txn_contents s !! k) -> F m') ->
  at_commit (with_read s r) (fun m m' => P m m' /\ F m').
Proof.
  intros HP HF m [Hm Hr]%agree_on_app. split; [by apply HP|]. apply HF. intros k Hk.
  apply apply_batch_agree. by apply (Hr r); [apply list_elem_of_singleton|].
Qed.

Section logic.
Context {W Db Txn : Type} `{DbReadOps W Txn} `{!SharedWorld W Db Txn} `{SlateDb W Db Txn}
  `{Clock W} `{!SharedStore W Db Txn}.

(** ** Inside a transaction *)

Section body.
Context (t : Txn) (d : Db) (l0 : list Commit).
Let m0 := replay l0.

Record running (w : W) (s : TxnState) : Prop := {
  running_home : txn_home t = d;
  running_level : txn_level t = SerializableSnapshot;
  running_state : txn_state w t = s;
  running_start : start s = l0
}.

(** [m], begun under [P], ends under [Q], or with an error [E] accepts, or
    because the store does not answer. *)
Definition triple {A} (P : assertion) (m : M Error W A) (Q : A -> assertion) (E : Error -> Prop) : Prop :=
  forall w r w' s, running w s -> at_commit s P -> m w = (r, w') ->
    elapse w w' /\
    match r with
    | Ok a => exists s', running w' s' /\ at_commit s' (Q a)
    | Err e => E e \/ ~ ready w /\ code e = CodeSlateDb
    | Panic _ => ~ ready w
    end.

Lemma triple_bind {A B} P (m : M Error W A) (f : A -> M Error W B) R Q E :
  triple P m R E -> (forall a, triple (R a) (f a) Q E) -> triple P (bind m f) Q E.
Proof.
  intros Hm Hf w r w' s Hs HP Hr. unfold bind in Hr. destruct (m w) as [r1 w1] eqn:Hm1.
  destruct (Hm w r1 w1 s Hs HP Hm1) as [Hel Hm']. destruct r1 as [a|e|p]; [|by simplify_eq..].
  destruct Hm' as (s1 & Hs1 & HR). destruct (Hf a w1 r w' s1 Hs1 HR Hr) as [Hel' Hf'].
  assert (Hrd : ready w -> ready w1) by apply Hel.
  split; [by etrans|]. destruct r; naive_solver.
Qed.

Lemma triple_lift {A} (P : assertion) (r : Result A) (Q : A -> assertion) (E : Error -> Prop) :
  match r with Ok a => forall m m', P m m' -> Q a m m' | Err e => E e | Panic _ => False end ->
  triple P (lift r) Q E.
Proof.
  intros HQ w r' w' s Hs HP Hr. unfold lift in Hr. simplify_eq. split; [done|].
  destruct r' as [a|e|p]; [|by left|done]. exists s. split; [done|]. by eapply at_commit_mono.
Qed.

Lemma triple_ret {A} (P : assertion) (a : A) (Q : A -> assertion) E :
  (forall m m', P m m' -> Q a m m') -> triple P (ret a) Q E.
Proof. apply (triple_lift P (Ok a)). Qed.

(** What the assertion says of the snapshot may be assumed. *)
Lemma triple_fact {A} (P : assertion) (m : M Error W A) Q E (F : Prop) :
  (forall m', P m0 m' -> F) -> (F -> triple P m Q E) -> triple P m Q E.
Proof.
  intros HF Hm w r w' s Hs HP Hr. eapply Hm; [|done..]. pose proof (at_commit_start _ _ HP) as HP0.
  rewrite (running_start _ _ Hs) in HP0. by eapply HF.
Qed.

Lemma triple_pre {A} (P P' : assertion) (m : M Error W A) Q E :
  (forall v v', P v v' -> P' v v') -> triple P' m Q E -> triple P m Q E.
Proof. intros HP Hm w r w' s Hs Hat. apply (Hm w r w' s Hs). by eapply at_commit_mono. Qed.

(** A call of the store that leaves the transaction in a known state. *)
Lemma triple_call {A} (P : assertion) (m : M slatedb_error W A) (Q : A -> assertion) E :
  (forall w r w' s, txn_state w t = s -> at_commit s P -> m w = (r, w') ->
   elapse w w' /\ (ready w -> exists a, r = Ok a) /\
   forall a, r = Ok a -> exists s', txn_state w' t = s' /\ start s' = start s /\ at_commit s' (Q a)) ->
  triple P (slate m) Q E.
Proof.
  intros Hm w r w' s [Hh Hl Hs Hst0] HP Hr.
  pose proof (slate_inv _ _ _ _ Hr) as (r0 & Hm0 & Hiff).
  destruct (Hm w r0 w' s Hs HP Hm0) as (Hel & Hup & Hok). split; [done|].
  destruct r as [a|e|p].
  - destruct (Hok a (proj1 (Hiff a) eq_refl)) as (s' & Hs' & Hst & HQ). exists s'.
    split; [|done]. split; congruence.
  - right. split; [|by apply slate_err in Hr as (? & _ & ? & _)]. intros (a & Ha)%Hup.
    by pose proof (proj2 (Hiff a) Ha).
  - intros (a & Ha)%Hup. by pose proof (proj2 (Hiff a) Ha).
Qed.

Lemma triple_get (P : assertion) k E :
  triple P (slate (db_get t k)) (fun v m m' => P m m' /\ m' !! k = v) E.
Proof.
  apply triple_call. intros w r w' s Hs HP Hr.
  destruct (shared_get w t k r w' Hr) as (Hel & Hup & Hok). split_and!; [done..|].
  intros v Hv. destruct (Hok v Hv) as [-> Hst]. rewrite Hs in Hst |- *.
  eexists. split_and!; [exact Hst|done|]. apply at_commit_read; [done|].
  intros m' Hm'. apply Hm'. by apply bool_decide_eq_true.
Qed.

Lemma triple_scan (P : assertion) p E :
  triple P (slate (db_scan_prefix t p))
    (fun it m m' => P m m' /\ listing m' (fun k => starts_with k p = true) (rows_left it)) E.
Proof.
  apply triple_call. intros w r w' s Hs HP Hr.
  destruct (shared_scan w t p r w' Hr) as (Hel & Hup & Hok). split_and!; [done..|].
  intros it Hit. destruct (Hok it Hit) as [Hl Hst]. rewrite Hs in Hl, Hst.
  eexists. split_and!; [exact Hst|done|]. apply at_commit_read; [done|].
  intros m' Hm'. by eapply listing_agree.
Qed.

Lemma triple_put (P : assertion) k v E :
  triple P (slate (txn_put t k v)) (fun _ m m' => exists u, P m u /\ m' = <[k := v]> u) E.
Proof.
  apply triple_call. intros w r w' s Hs HP Hr.
  destruct (shared_put w t k v r w' Hr) as (Hel & Hup & Hok). split_and!; [done|by eauto|].
  intros [] Hv. exists (with_op s (Put k v)). split_and!; [by rewrite Hok, Hs|done|].
  by apply at_commit_op.
Qed.

Lemma triple_delete (P : assertion) k E :
  triple P (slate (txn_delete t k)) (fun _ m m' => exists u, P m u /\ m' = delete k u) E.
Proof.
  apply triple_call. intros w r w' s Hs HP Hr.
  destruct (shared_delete w t k r w' Hr) as (Hel & Hup & Hok). split_and!; [done|by eauto|].
  intros [] Hv. exists (with_op s (Delete k)). split_and!; [by rewrite Hok, Hs|done|].
  by apply at_commit_op.
Qed.

Lemma triple_new (P : assertion) E :
  triple P FileMetadata.new (fun meta m m' => P m m' /\ fresh meta) E.
Proof.
  intros w r w' s [Hh Hl Hs Hst0] HP Hr. unfold FileMetadata.new, current_time_millis in Hr.
  destruct (shared_clock w) as [Hel Hst].
  destruct (millis_since_epoch w) as [now w1]. cbn [snd] in Hel, Hst. simplify_eq.
  split; [done|]. exists (txn_state w t). split; [by split|].
  eapply at_commit_mono; [|done]. intros m m' Hm. split; [done|].
  eexists. split; [|done]. unfold is_u64, u64_max. lia.
Qed.

(** ** Ending a transaction *)

(** Why a call fails that the catalog gives no reason to. *)
Definition store_failure (w w' : W) (e : Error) : Prop :=
  code e = CodeSlateDb /\ (ready w -> error_status e = Temporary /\ history w' d <> l0).

(** The call committed once, in front of which it did what [Q] says, or it did
    not commit and answers from the snapshot. *)
Definition ends {A} (w w' : W) (r : Result A) (Q : A -> assertion) (E : Error -> Prop) : Prop :=
  (elapse w w' /\
   match r with
   | Ok a => Q a m0 m0
   | Err e => E e \/ store_failure w w' e
   | Panic _ => ~ ready w
   end) \/
  (exists a before batch after,
   me w' = me w /\
   history w' d = history w d ++ before ++ [{| committed_by := me w; writes := batch |}] ++ after /\
   mine (me w) (before ++ after) = [] /\
   Q a (replay (history w d ++ before)) (apply_batch (replay (history w d ++ before)) batch) /\
   match r with
   | Ok a' => a' = a
   | Err e => ~ ready w /\ code e = CodeSlateDb
   | Panic _ => ~ ready w
   end).

Definition finishes {A} (P : assertion) (m : M Error W A) (Q : A -> assertion) (E : Error -> Prop) : Prop :=
  forall w r w' s, running w s -> l0 `prefix_of` history w d -> at_commit s P -> m w = (r, w') ->
    ends w w' r Q E.

(** Time that passes before a call ends. *)
Lemma ends_elapse {A} w w1 w' (r : Result A) Q E :
  elapse w w1 -> ends w1 w' r Q E -> ends w w' r Q E.
Proof.
  intros Hel. pose proof Hel as (Hme & Hrd & Hh). intros [[Hel' Hr]|Hc].
  - left. split; [by etrans|]. unfold store_failure in *. destruct r; naive_solver.
  - right. destruct Hc as (a & before & batch & after & Hme' & Hh' & Hmine & HQ & Hr).
    destruct (Hh d) as [[gap Hgap] Hgm]. rewrite Hgap in Hh', HQ, Hgm. rewrite Hme in *.
    exists a, (gap ++ before), batch, after. rewrite !app_assoc in *.
    split_and!; [done|done| |done|destruct r; naive_solver].
    rewrite mine_app in Hgm. rewrite <-app_assoc, mine_app, Hmine, app_nil_r.
    apply (app_inv_head (mine (me w) (history w d))). by rewrite Hgm, app_nil_r.
Qed.

Lemma finishes_bind {A B} P (m : M Error W A) (f : A -> M Error W B) R Q E :
  triple P m R E -> (forall a, finishes (R a) (f a) Q E) -> finishes P (bind m f) Q E.
Proof.
  intros Hm Hf w r w' s Hs Hp HP Hr. unfold bind in Hr. destruct (m w) as [r1 w1] eqn:Hm1.
  destruct (Hm w r1 w1 s Hs HP Hm1) as [Hel Hm']. destruct r1 as [a|e|p].
  - destruct Hm' as (s1 & Hs1 & HR). eapply ends_elapse; [done|].
    eapply Hf; [done| |done|done]. etrans; [done|]. apply Hel.
  - simplify_eq. left. split; [done|]. destruct Hm' as [?|[? ?]]; [by left|right].
    split; [done|]. naive_solver.
  - simplify_eq. by left.
Qed.

Lemma finishes_fact {A} (P : assertion) (m : M Error W A) Q E (F : Prop) :
  (forall m', P m0 m' -> F) -> (F -> finishes P m Q E) -> finishes P m Q E.
Proof.
  intros HF Hm w r w' s Hs Hp HP Hr. eapply Hm; [|done..]. pose proof (at_commit_start _ _ HP) as HP0.
  rewrite (running_start _ _ Hs) in HP0. by eapply HF.
Qed.

(** A call that ends without committing answers from the snapshot. *)
Lemma finishes_lift {A} (P : assertion) (r : Result A) (Q : A -> assertion) (E : Error -> Prop) :
  match r with Ok a => Q a m0 m0 | Err e => E e | Panic _ => False end ->
  finishes P (lift r) Q E.
Proof.
  intros HQ w r' w' s Hs Hp HP Hr. unfold lift in Hr. simplify_eq. left. split; [done|].
  destruct r'; [done|by left|done].
Qed.

Lemma finishes_commit {A} (P : assertion) (a : A) (Q : A -> assertion) E :
  (forall m m', P m m' -> Q a m m') ->
  finishes P (bind (slate (txn_commit t)) (fun _ => ret a)) Q E.
Proof.
  intros HQ w r w' s [Hh Hl Hs Hst0] Hp HP Hr. unfold bind in Hr.
  destruct (slate (txn_commit t) w) as [r1 w1] eqn:Hc.
  pose proof (slate_inv _ _ _ _ Hc) as (r0 & Hc0 & Hiff).
  assert (Hret : w1 = w' /\ match r1 with Ok _ => r = Ok a | Err e => r = Err e | Panic p => r = Panic p end).
  { destruct r1; unfold ret in Hr; by simplify_eq. }
  destruct Hret as [-> Hres]. clear Hr.
  assert (Hcommit : commits t w w' -> exists before after,
    history w' d = history w d ++ before ++
      [{| committed_by := me w; writes := buffer s |}] ++ after /\
    me w' = me w /\ mine (me w) (before ++ after) = [] /\
    Q a (replay (history w d ++ before)) (apply_batch (replay (history w d ++ before)) (buffer s))).
  { intros [[Hme _] _ (before & after & Hw' & Hmine & Hag)]. unfold own in Hw'.
    rewrite Hh, Hs in Hw', Hag. exists before, after. split_and!; [done..|]. by apply HQ, HP, Hag. }
  destruct (shared_commit w t r0 w' Hc0) as [[-> Hcm]|[(Hno & Hup & Hcm)|(Hno & Hel & Hwhy)]].
  - right. destruct (Hcommit Hcm) as (before & after & ? & ? & ? & ?).
    exists a, before, (buffer s), after. split_and!; [done..|].
    rewrite (proj2 (Hiff tt) eq_refl) in Hres. by subst.
  - right. destruct (Hcommit Hcm) as (before & after & ? & ? & ? & ?).
    exists a, before, (buffer s), after. split_and!; [done..|].
    destruct r1 as [u|e|p]; subst; [by destruct (Hno u (proj1 (Hiff u) eq_refl))|split; [done|]|done].
    by apply slate_err in Hc as (? & _ & ? & _).
  - left. split; [done|]. destruct r1 as [u|e|p]; subst; [by destruct (Hno u (proj1 (Hiff u) eq_refl))| |].
    + right. apply slate_err in Hc as (src & Hsrc & Hcode & Hst). split; [done|].
      intros Hrd. destruct (Hwhy Hrd) as (Hne & e' & -> & Hk).
      rewrite Hc0 in Hsrc. simplify_eq. split; [|congruence]. apply Hst. by right.
    + intros Hrd. destruct (Hwhy Hrd) as (_ & e' & -> & Hk). unfold slate in Hc. rewrite Hc0 in Hc.
      by destruct e'.
Qed.
End body.

(** ** Whole calls *)

(** The contract of a call on [d] while others commit: there is a moment of the
    call, the log [l0], such that, if the contents then satisfy [I], the call
    ends as [Q] and [E] say.  [Q] relates the contents before and after its
    commit, or is about the snapshot when the call only reads. *)
Definition serial {A : Type} (I : kv -> Prop) (d : Db) (w : W) (m : M Error W A) (Q : A -> assertion)
    (E : Error -> kv -> Prop) : Prop :=
  forall r w', m w = (r, w') ->
    exists l0, history w d `prefix_of` l0 /\ l0 `prefix_of` history w' d /\
      mine (me w) l0 = mine (me w) (history w d) /\
      (I (replay l0) -> ends d l0 w w' r Q (fun e => E e (replay l0))).

(** Logs between two that hold the same commits of a task do as well. *)
Lemma mine_between i l0 l1 l2 :
  l0 `prefix_of` l1 -> l1 `prefix_of` l2 -> mine i l2 = mine i l0 -> mine i l1 = mine i l0.
Proof.
  intros [k ->] [k' ->] Hm. rewrite !mine_app in *. rewrite <-app_assoc in Hm.
  rewrite <-(app_nil_r (mine i l0)) in Hm at 2. apply app_inv_head in Hm.
  apply app_nil in Hm as [-> _]. by rewrite app_nil_r.
Qed.

Lemma serial_begin {A : Type} (I : kv -> Prop) (d : Db) (w : W) (f : Txn -> M Error W A) Q E :
  (forall t, local later (txn_home t) (f t)) ->
  (forall t l0, I (replay l0) ->
   finishes t d l0 (fun m m' => m' = m) (f t) Q (fun e => E e (replay l0))) ->
  serial I d w (bind (slate (db_begin d SerializableSnapshot)) f) Q E.
Proof.
  intros Hloc Hf r w' Hr. unfold bind in Hr.
  destruct (slate (db_begin d SerializableSnapshot) w) as [r1 w1] eqn:Hb.
  pose proof (slate_inv _ _ _ _ Hb) as (r0 & Hb0 & Hiff).
  destruct (shared_begin w d _ r0 w1 Hb0) as (Hel & Hup & Hok).
  destruct r1 as [t|e|p].
  - destruct (Hok t (proj1 (Hiff t) eq_refl)) as (Hh & Hl & s & Hs & Hp1 & Hp2).
    pose proof (Hloc t w1) as (_ & _ & Hgrow). rewrite Hr in Hgrow. cbn [snd] in Hgrow.
    exists s. split_and!; [done|by etrans| |].
    + eapply mine_between; [done|exact Hp2|]. apply Hel.
    + intros HI. eapply ends_elapse; [done|]. eapply Hf; [done| |done| |done].
      * split; [done|done|exact Hs|done].
      * intros m _. done.
  - simplify_eq. destruct Hel as (? & ? & Hh). exists (history w d). split_and!; [done|apply Hh|done|].
    intros _. left. split; [done|]. right. apply slate_err in Hb as (? & _ & ? & _).
    split; [done|]. intros (t & Ht)%Hup. by pose proof (proj2 (Hiff t) Ht).
  - simplify_eq. destruct Hel as (? & ? & Hh). exists (history w d). split_and!; [done|apply Hh|done|].
    intros _. left. split; [done|]. intros (t & Ht)%Hup. by pose proof (proj2 (Hiff t) Ht).
Qed.

(** A call that ends before it begins a transaction. *)
Lemma serial_lift {A : Type} (I : kv -> Prop) (d : Db) (w : W) (r : Result A) (Q : A -> assertion) (E : Error -> kv -> Prop) :
  match r with Ok a => forall m, Q a m m | Err e => forall m, E e m | Panic _ => False end ->
  serial I d w (lift r) Q E.
Proof.
  intros Hr r' w' Hrun. unfold lift in Hrun. simplify_eq. exists (history w' d). split_and!; [done..|].
  intros _. left. split; [done|]. destruct r'; [done|by left|done].
Qed.

Lemma serial_check {A B : Type} (I : kv -> Prop) (d : Db) (w : W) (r : Result B) (f : B -> M Error W A)
    (Q : A -> assertion) (E : Error -> kv -> Prop) :
  match r with
  | Ok b => serial I d w (f b) Q E
  | Err e => forall m, E e m
  | Panic _ => False
  end -> serial I d w (bind (lift r) f) Q E.
Proof.
  intros Hr. destruct r as [b|e|p]; [exact Hr| |done]. by apply (serial_lift I d w (Err e)).
Qed.

Lemma finishes_ext {A : Type} t d l0 P (m m' : M Error W A) Q E :
  (forall w, m w = m' w) -> finishes t d l0 P m Q E -> finishes t d l0 P m' Q E.
Proof. intros Heq Hm w r w' s Hs Hp HP Hr. rewrite <-Heq in Hr. by eapply Hm. Qed.
End logic.
