(* ===== verification/SerialOps.v ===== *)
(** * The catalog operations among other tasks

    Each operation of DatabaseMetadata.v keeps the contract of SerialLogic.v:
    it updates the contents found at its commit as DatabaseSpec.v says, or
    answers from a snapshot taken while it ran.  The updates and errors are
    those of DatabaseOps.v. *)

From S2P Require Import Prelude RustStd Error Keys SlateDb ChunkLayout ChunkManager.
From S2P Require Import ChunkManagerSpec FileMetadata FileHandle FileHandleSpec FileRefinement.
From S2P Require Import Transactions DatabaseMetadata Locality DatabaseSpec DatabaseOps.
From S2P Require Import SharedStore SerialLogic.

Section ops.
Context {W Db Txn : Type} `{DbReadOps W Txn} `{!SharedWorld W Db Txn} `{SlateDb W Db Txn}
  `{Clock W} `{!SharedStore W Db Txn} `{MetadataCodec} `{!MetadataCodecLaws}.

(** ** The loop over the chunks of a file *)

Section txn.
Context (t : Txn) (d : Db) (l0 : list Commit).
Let m0 := replay l0.

Lemma delete_rows_serial fuel (P : assertion) w it s r it' w' :
  (length (rows_left it) < fuel)%nat -> running t d l0 w s -> at_commit s P ->
  delete_rows fuel t (it, w) = (r, (it', w')) ->
  elapse w w' /\
  match r with
  | Ok _ => exists s', running t d l0 w' s' /\ at_commit s' (fun m m' =>
      exists u, P m u /\ m' = apply_batch u (Delete <$> (kv_key <$> rows_left it)))
  | Err e => ~ ready w /\ code e = CodeSlateDb
  | Panic _ => ~ ready w
  end.
Proof.
  revert P w it s. induction fuel as [|fuel IH]; intros P w it s Hfuel Hs HP Hr; [lia|].
  cbn [delete_rows] in Hr. unfold bind at 1 in Hr.
  destruct (slate iter_next (it, w)) as [r1 [it1 w1]] eqn:Hn.
  pose proof (slate_inv _ _ _ _ Hn) as (r0 & Hn0 & Hiff).
  destruct (shared_next w it r0 it1 w1 Hn0) as (Hel1 & Hup & Hst & Hrow).
  assert (Hs1 : running t d l0 w1 s) by (destruct Hs; split; [done|done|by rewrite Hst|done]).
  destruct r1 as [[row|]|e|p].
  - specialize (Hrow _ (proj1 (Hiff _) eq_refl)). simpl in Hrow. rewrite Hrow in Hfuel |- *. simpl in Hfuel.
    unfold bind, on_snd in Hr. cbn [fst snd] in Hr.
    destruct (slate (txn_delete t (kv_key row)) w1) as [r2 w2] eqn:Hd.
    destruct (triple_delete t d l0 P (kv_key row) (fun _ => False) w1 r2 w2 s Hs1 HP Hd)
      as [Hel2 Hres]. assert (Hrd : ready w -> ready w1) by apply Hel1.
    destruct r2 as [[]|e|p].
    + destruct Hres as (s2 & Hs2 & HP2).
      destruct (IH _ w2 it1 s2 ltac:(lia) Hs2 HP2 Hr) as [Hel3 Hres].
      assert (Hrd2 : ready w1 -> ready w2) by apply Hel2.
      split; [by do 2 (etrans; [done|])|]. destruct r as [u|e|p]; [|naive_solver..].
      destruct Hres as (s' & Hs' & HP'). exists s'. split; [done|].
      eapply at_commit_mono; [|exact HP']. intros m m' (v & (u' & Hu & ->) & ->). by exists u'.
    + simplify_eq. split; [by etrans|]. naive_solver.
    + simplify_eq. split; [by etrans|]. naive_solver.
  - specialize (Hrow _ (proj1 (Hiff _) eq_refl)). simpl in Hrow. rewrite Hrow. unfold ret in Hr. simplify_eq.
    split; [done|]. exists s. split; [done|]. eapply at_commit_mono; [|done].
    intros m m' Hm. by exists m'.
  - simplify_eq. split; [done|]. apply slate_err in Hn as (? & _ & Hcode & _). split; [|done].
    intros [o Ho]%Hup. by pose proof (proj2 (Hiff o) Ho).
  - simplify_eq. split; [done|]. intros [o Ho]%Hup. by pose proof (proj2 (Hiff o) Ho).
Qed.

(** The chunks of the file are gone from the view of the transaction, also
    those that were written after it began: a commit of one is a conflict. *)
Lemma delete_chunks_serial (P : assertion) id E :
  triple t d l0 P (delete_chunks t id)
  (fun _ m m' => exists u, P m u /\ m' = without_chunks u id) E.
Proof.
  eapply triple_bind; [apply triple_scan|]. intros it w r w' s Hs HP Hr. unfold with_local in Hr.
  destruct (delete_rows _ t (it, w)) as [r1 [it1 w1]] eqn:Hd. simplify_eq.
  eapply delete_rows_serial in Hd as [Hel Hres];
    [|pose proof (rows_left_bound it); lia|done|exact HP].
  split; [done|]. destruct r as [[]|e|p]; [|by right|done].
  destruct Hres as (s' & Hs' & HP'). exists s'. split; [done|].
  eapply at_commit_mono; [|exact HP']. intros m m' (u & (Hu & _ & Hel') & ->).
  exists u. split; [done|]. apply delete_batch_chunks. intros k. rewrite list_elem_of_fmap. split.
  - intros ([k' v] & -> & Hin'). apply Hel' in Hin' as [Hk ?]. split; [by eexists|done].
  - intros [[v Hk] Hst]. exists {| kv_key := k; kv_value := v |}. split; [done|]. by apply Hel'.
Qed.

(** ** Looking a file up *)

(** The mapping and the record [find_file] has read. *)
Definition found_in (m : kv) (p : list byte) (v : option (Z * FileMetadata)) : Prop :=
  match v with
  | None => m !! path_key p = None
  | Some (id, meta) => m !! path_key p = Some (to_be_bytes id) /\ is_u64 id /\ has_metadata m id meta
  end.

Lemma find_file_serial p E :
  wf_catalog m0 ->
  triple t d l0 (fun m m' => m' = m) (find_file t p) (fun v m m' => m' = m /\ found_in m p v) E.
Proof.
  intros Hwf. eapply triple_bind; [apply triple_get|]. intros b.
  eapply (triple_fact t d l0 _ _ _ _ (m0 !! path_key p = b)); [by intros ? [-> ?]|]. intros Hb.
  destruct b as [b|]; [|by apply triple_ret; intros m m' [-> ?]].
  destruct (cat_path_id m0 p b Hwf Hb) as (id & meta & -> & Hid & _ & [Hpos _] & mb & Hmb & Hdec & Hmeta).
  rewrite decode_file_id_be by done.
  eapply (triple_bind t d l0 _ _ _ (fun id' m m' => id' = id /\ m' = m /\
    m !! path_key p = Some (to_be_bytes id))); [by apply triple_lift; intros m m' [-> ?]|].
  intros id'. eapply (triple_fact t d l0 _ _ _ _ (id' = id)); [by intros ? [-> ?]|]. intros ->.
  eapply triple_bind; [apply triple_get|]. intros b'.
  eapply (triple_fact t d l0 _ _ _ _ (m0 !! metadata_key id = b')).
  { by intros m' [(_ & -> & _) ?]. }
  rewrite Hmb. intros <-. cbn [ok_or res_bind]. rewrite Hdec.
  eapply (triple_bind t d l0 _ _ _ (fun meta' m m' => meta' = meta /\ m' = m /\
    m !! path_key p = Some (to_be_bytes id) /\ m !! metadata_key id = Some mb)).
  { apply triple_lift. by intros m m' [(_ & -> & ?) ?]. }
  intros meta'. apply triple_ret. intros m m' (-> & -> & Hp & Hm).
  split; [done|]. split_and!; [done|done|]. by exists mb.
Qed.
(** Reading the mapping of a path: absent, or an ID. *)
Lemma mapping_serial p record missing (E : Error -> Prop) :
  wf_catalog m0 -> (m0 !! path_key p = None -> E missing) ->
  triple t d l0 (fun m m' => m' = m)
  (let! bytes := slate (db_get t (path_key p)) in
   lift (let? bytes := ok_or missing bytes in decode_file_id bytes record))
  (fun id m m' => m' = m /\ m !! path_key p = Some (to_be_bytes id) /\ is_u64 id) E.
Proof.
  intros Hwf HE. eapply triple_bind; [apply triple_get|]. intros b.
  eapply (triple_fact t d l0 _ _ _ _ (m0 !! path_key p = b)); [by intros ? [-> ?]|]. intros Hb.
  apply triple_lift. destruct b as [b|]; cbn [ok_or res_bind]; [|by apply HE].
  destruct (cat_path_id m0 p b Hwf Hb) as (id & meta & -> & Hid & _ & [Hpos _] & _).
  rewrite decode_file_id_be by done. by intros m m' [-> ?].
Qed.
(** The code of the file a move replaces. *)
Lemma drop_target_serial (target : list byte) (source_id : Z) (v : option (list byte))
    (F : kv -> Prop) (E : Error -> Prop) :
  wf_catalog m0 ->
  triple t d l0 (fun m m' => (m' = m /\ F m) /\ m' !! path_key target = v)
  (match v with
  | Some target_file_id_bytes =>
  let! target_file_id := lift (decode_file_id target_file_id_bytes "target path mapping") in
  if negb (target_file_id =? source_id) then
   let! _ := slate (txn_delete t (metadata_key target_file_id)) in
   delete_chunks t target_file_id
  else ret tt
  | None => ret tt
  end)
  (fun _ m m' => F m /\ m' = drop_target m target source_id) E.
Proof.
  intros Hwf. unfold drop_target. destruct v as [b|].
  2:{ apply triple_ret. intros m m' [[-> HF] Hb]. by rewrite Hb. }
  eapply (triple_fact t d l0 _ _ _ _ (m0 !! path_key target = Some b)).
  { by intros m' [[-> _] ?]. }
  intros Hb. destruct (cat_path_id m0 target b Hwf Hb) as (id & meta & -> & Hid & Hdec & [Hpos _] & _).
  rewrite decode_file_id_be by done.
  eapply (triple_bind t d l0 _ _ _ (fun id' m m' => id' = id /\ (m' = m /\ F m) /\
    m' !! path_key target = Some (to_be_bytes id))); [by apply triple_lift|].
  intros id'. eapply (triple_fact t d l0 _ _ _ _ (id' = id)); [by intros ? [-> ?]|]. intros ->.
  destruct (id =? source_id) eqn:Heq; cbn [negb].
  { apply triple_ret. intros m m' (_ & [-> HF] & ->). by rewrite Hdec, Heq. }
  eapply triple_bind; [apply triple_delete|]. intros [].
  intros w r w' s Hs HP Hr. destruct (delete_chunks_serial _ id E w r w' s Hs HP Hr) as [Hel Hres].
  split; [done|]. destruct r as [[]|e|p]; [|done..]. destruct Hres as (s' & Hs' & HP').
  exists s'. split; [done|]. eapply at_commit_mono; [|exact HP'].
  intros m m' (u & (u' & (_ & [-> HF] & Hb') & ->) & ->). by rewrite Hb', Hdec, Heq.
Qed.
(** Reading the next file ID. *)
Lemma next_id_serial (F : kv -> Prop) (E : Error -> Prop) :
  wf_catalog m0 ->
  triple t d l0 (fun m m' => m' = m /\ F m)
  (let! bytes := slate (db_get t NEXT_FILE_ID_KEY) in
   match bytes with
   | Some bytes => lift (decode_file_id bytes "next file ID")
   | None => ret 1
   end)
  (fun id m m' => m' = m /\ F m /\ id = next_id m) E.
Proof.
  intros Hwf. eapply triple_bind; [apply triple_get|]. intros v.
  eapply (triple_fact t d l0 _ _ _ _ (m0 !! NEXT_FILE_ID_KEY = v)); [by intros ? [[-> _] ?]|].
  intros Hv. pose proof (cat_next_pos m0 Hwf) as Hpos. unfold next_id in *. rewrite Hv in Hpos.
  destruct v as [b|]; [|by apply triple_ret; intros m m' [[-> HF] ->]].
  apply triple_lift. unfold decode_file_id. rewrite bool_decide_true by by apply (cat_next m0 Hwf).
  destruct (Z.eqb_spec (from_be_bytes b) 0); [lia|]. by intros m m' [[-> HF] ->].
Qed.
End txn.

(** [bind] is associative. *)
Lemma bind_assoc {E S A B C} (m : M E S A) (f : A -> M E S B) (g : B -> M E S C) s :
  bind (bind m f) g s = bind m (fun a => bind (f a) g) s.
Proof. unfold bind. by destruct (m s) as [[a|e|p] s']. Qed.

(** ** The operations *)

Lemma remove_file_serial (d : Db) w p :
  p <> [] ->
  serial wf_catalog d w (remove_file {| client := d |} p)
  (fun _ m m' => exists id, m !! path_key p = Some (to_be_bytes id) /\ is_u64 id /\ m' = removed m p id)
  (fun e m => code e = CodeFileNotFound /\ m !! path_key p = None).
Proof.
  intros Hp. unfold remove_file. cbn [client]. apply serial_check. rewrite validate_path_ne by done.
  apply serial_begin.
  { intros t. solve_local (later (W:=W) (Db:=Db) (Txn:=Txn)) (txn_home (Txn:=Txn)). }
  intros t l0 Hwf.
  eapply finishes_ext; [intros w'; apply bind_assoc|].
  eapply finishes_bind; [by apply mapping_serial|]. intros id.
  eapply finishes_bind; [apply triple_delete|]. intros [].
  eapply finishes_bind; [apply triple_delete|]. intros [].
  eapply finishes_bind; [apply delete_chunks_serial|]. intros [].
  eapply finishes_ext; [intros; apply bind_ret_tt|].
  apply finishes_commit. intros m m' (u1 & (u2 & (u3 & (Hm & Hpath & Hid) & Hu2) & Hu1) & Hm').
  subst. by exists id.
Qed.

Lemma move_file_serial (d : Db) w source target :
  source <> [] -> target <> [] -> source <> target ->
  serial wf_catalog d w (move_file {| client := d |} source target)
  (fun _ m m' => exists id, m !! path_key source = Some (to_be_bytes id) /\ is_u64 id /\
  m' = moved m source target id)
  (fun e m => code e = CodeFileNotFound /\ m !! path_key source = None).
Proof.
  intros Hs Ht Hne. unfold move_file. cbn [client].
  apply serial_check. rewrite validate_path_ne by done.
  apply serial_check. rewrite validate_path_ne by done.
  rewrite bool_decide_false by done. apply serial_begin.
  { intros t. solve_local (later (W:=W) (Db:=Db) (Txn:=Txn)) (txn_home (Txn:=Txn)). }
  intros t l0 Hwf.
  eapply finishes_ext; [intros w'; apply bind_assoc|].
  eapply finishes_bind; [by apply mapping_serial|]. intros id.
  eapply finishes_bind; [apply triple_get|]. intros v.
  eapply finishes_bind; [by apply drop_target_serial|]. intros [].
  eapply finishes_bind; [apply triple_delete|]. intros [].
  eapply finishes_bind; [apply triple_put|]. intros [].
  eapply finishes_ext; [intros; apply bind_ret_tt|].
  apply finishes_commit. intros m m' (u1 & (u2 & ([Hpath Hid] & Hu2) & Hu1) & Hm').
  subst. by exists id.
Qed.

Lemma prepare_file_for_open_serial (d : Db) w p create truncate_existing :
  p <> [] ->
  serial wf_catalog d w (prepare_file_for_open {| client := d |} p create truncate_existing)
  (fun found m m' => prepared m p create truncate_existing found m')
  (fun e m => prepare_error m p create e).
Proof.
  intros Hp. unfold prepare_file_for_open. cbn [client].
  apply serial_check. rewrite validate_path_ne by done. apply serial_begin.
  { intros t. solve_local (later (W:=W) (Db:=Db) (Txn:=Txn)) (txn_home (Txn:=Txn)). }
  intros t l0 Hwf. set (m0 := replay l0) in *.
  eapply finishes_bind; [by apply find_file_serial|]. intros v.
  eapply (finishes_fact t d l0 _ _ _ _ (found_in m0 p v)); [by intros ? [-> ?]|]. intros Hfound.
  destruct v as [[id meta]|]; cbn [found_in] in Hfound.
  - destruct Hfound as (Hpath & Hid & Hm). destruct truncate_existing.
    + eapply finishes_bind; [apply delete_chunks_serial|]. intros [].
      eapply finishes_bind; [apply triple_new|]. intros meta'.
      eapply finishes_bind; [apply triple_put|]. intros [].
      apply finishes_commit. intros m m' (u & ((u' & (Hu' & Hpm & _ & _) & ->) & Hf) & ->).
      subst u'. unfold prepared. by rewrite Hpm.
    + apply (finishes_lift t d l0 _ (Ok (id, meta))). unfold prepared. fold m0. by rewrite Hpath.
  - destruct create; cbn [negb].
    2:{ apply finishes_lift. split; [done|]. by left. }
    eapply finishes_ext; [intros w'; apply bind_assoc|].
    eapply finishes_bind; [by apply next_id_serial|]. intros id.
    eapply (finishes_fact t d l0 _ _ _ _ (id = next_id m0)); [by intros ? (-> & _ & ?)|]. intros Hn.
    pose proof (next_id_u64 m0 Hwf) as Hu. rewrite <-Hn in Hu.
    destruct (checked_add id 1) as [n|] eqn:Hadd; cbn [ok_or].
    2:{ eapply (finishes_bind t d l0 _ _ _ (fun _ _ _ => False)); [|by intros ? ? ? ? ? _ _ Hat%at_commit_start].
      apply triple_lift. split; [done|]. right. split_and!; [done..|].
      apply checked_add_None in Hadd. destruct Hu. unfold u64_max. lia. }
    apply checked_add_Some in Hadd as [-> Hlt].
    eapply (finishes_bind t d l0 _ _ _ (fun n m m' => n = id + 1 /\ m' = m /\
      m !! path_key p = None /\ id = next_id m)); [by apply triple_lift|]. intros n.
    eapply (finishes_fact t d l0 _ _ _ _ (n = id + 1)); [by intros ? (-> & _)|]. intros ->.
    eapply finishes_bind; [apply triple_new|]. intros meta.
    eapply finishes_bind; [apply triple_put|]. intros [].
    eapply finishes_bind; [apply triple_put|]. intros [].
    eapply finishes_bind; [apply triple_put|]. intros [].
    apply finishes_commit.
    intros m m' (u1 & (u2 & (u3 & ((_ & Hu3 & Hnone & Hid) & Hf) & ->) & ->) & ->). subst u3.
    unfold prepared. rewrite Hnone. cbn [fst snd].
    split_and!; [done|done| |done|done]. destruct Hu. split; lia.
Qed.
End ops.
