(* ===== verification/SerialHistory.v ===== *)
(** * A database with many tasks

    Calls of the catalog that run at the same time, and the log of the commits
    they and the syncs of open handles leave.  Every call takes effect at one
    moment between its begin and its return, so the log read in order is a
    sequential history of the catalog, and the invariant of the catalog holds
    at every moment of it. *)

From S2P Require Import Prelude RustStd Error Keys SlateDb ChunkLayout ChunkManager.
From S2P Require Import ChunkManagerSpec FileMetadata FileHandle FileHandleSpec FileRefinement.
From S2P Require Import Transactions DatabaseMetadata Locality DatabaseSpec DatabaseOps.
From S2P Require Import SharedStore SerialLogic SerialOps.

Inductive CatalogOp :=
  | RemoveFile (path : list byte)
  | MoveFile (source target : list byte)
  | PrepareFile (path : list byte) (create truncate_existing : bool).

Section calls.
Context {W Db Txn : Type} `{DbReadOps W Txn} `{!SharedWorld W Db Txn} `{SlateDb W Db Txn}
  `{Clock W} `{!SharedStore W Db Txn} `{MetadataCodec} `{!MetadataCodecLaws}.

(** A call of the catalog; the answer of an open is the file. *)
Definition run_op (d : Db) (op : CatalogOp) : M Error W (option (Z * FileMetadata)) :=
  let self := {| client := d |} in
  match op with
  | RemoveFile p => let! _ := remove_file self p in ret None
  | MoveFile p q => let! _ := move_file self p q in ret None
  | PrepareFile p create truncate_existing =>
      let! found := prepare_file_for_open self p create truncate_existing in ret (Some found)
  end.

(** What a successful call does to the contents. *)
Definition effect (op : CatalogOp) (a : option (Z * FileMetadata)) (m m' : kv) : Prop :=
  match op with
  | RemoveFile p =>
      exists id, m !! path_key p = Some (to_be_bytes id) /\ is_u64 id /\ m' = removed m p id
  | MoveFile p q =>
      p = q /\ m' = m \/
      p <> q /\ exists id, m !! path_key p = Some (to_be_bytes id) /\ is_u64 id /\ m' = moved m p q id
  | PrepareFile p create truncate_existing =>
      exists found, a = Some found /\ prepared m p create truncate_existing found m'
  end.

(** The errors a call gives for reasons of its own. *)
Definition refused (op : CatalogOp) (e : Error) (m : kv) : Prop :=
  match op with
  | RemoveFile p =>
      p = [] /\ code e = CodeInvalidArgument \/ code e = CodeFileNotFound /\ m !! path_key p = None
  | MoveFile p q =>
      (p = [] \/ q = []) /\ code e = CodeInvalidArgument \/
      code e = CodeFileNotFound /\ m !! path_key p = None
  | PrepareFile p create _ => p = [] /\ code e = CodeInvalidArgument \/ prepare_error m p create e
  end.

Lemma effect_advances op a m m' : wf_catalog m -> effect op a m m' -> advances m m'.
Proof.
  intros Hwf. destruct op as [p|p q|p c tr]; cbn [effect].
  - intros (id & Hp & Hid & ->). by apply advances_removed.
  - intros [[_ ->]|(Hne & id & Hp & Hid & ->)]; [by apply advances_refl|by apply advances_moved].
  - intros (found & _ & Hp). by eapply advances_prepared.
Qed.

Lemma serial_ret {A B : Type} (I : kv -> Prop) (d : Db) (w : W) (m : M Error W A) (f : A -> B)
    (Q : A -> assertion) (Q' : B -> assertion) (E E' : Error -> kv -> Prop) :
  serial I d w m Q E -> (forall a v v', Q a v v' -> Q' (f a) v v') -> (forall e v, E e v -> E' e v) ->
  serial I d w (bind m (fun a => ret (f a))) Q' E'.
Proof.
  intros Hm HQ HE r w' Hr. unfold bind in Hr. destruct (m w) as [r1 w1] eqn:Hm1.
  assert (w1 = w') as -> by (destruct r1; unfold ret in Hr; by simplify_eq).
  destruct (Hm r1 w' Hm1) as (l0 & ? & ? & ? & Hends). exists l0. split_and!; [done..|].
  intros HI. destruct (Hends HI) as [[Hel Hres]|(a & before & batch & after & ? & ? & ? & HQa & Hres)].
  - left. split; [done|]. destruct r1; unfold ret in Hr; simplify_eq; [by apply HQ| |done].
    destruct Hres; [left|right]; auto.
  - right. exists (f a), before, batch, after. split_and!; [done..|by apply HQ|].
    destruct r1; unfold ret in Hr; simplify_eq; done.
Qed.

Lemma serial_mono {A : Type} (I : kv -> Prop) (d : Db) (w : W) (m : M Error W A)
    (Q Q' : A -> assertion) (E E' : Error -> kv -> Prop) :
  serial I d w m Q E -> (forall a v v', Q a v v' -> Q' a v v') -> (forall e v, E e v -> E' e v) ->
  serial I d w m Q' E'.
Proof.
  intros Hm HQ HE r w' Hr. destruct (Hm r w' Hr) as (l0 & ? & ? & ? & Hends).
  exists l0. split_and!; [done..|]. intros HI.
  destruct (Hends HI) as [[Hel Hres]|(a & before & batch & after & ? & ? & ? & HQa & Hres)].
  - left. split; [done|]. destruct r; [by apply HQ| |done]. destruct Hres; [left|right]; auto.
  - right. exists a, before, batch, after. split_and!; [done..|by apply HQ|done].
Qed.

Lemma run_op_serial (d : Db) w op : serial wf_catalog d w (run_op d op) (effect op) (refused op).
Proof.
  destruct op as [p|p q|p c tr]; cbn [run_op].
  - apply (serial_ret _ _ _ _ (fun _ => None) (fun _ m m' => effect (RemoveFile p) None m m')
      _ (refused (RemoveFile p))); [|done..].
    destruct (decide (p = [])) as [->|Hp].
    { apply serial_check. by left. }
    eapply serial_mono; [by apply remove_file_serial|done|]. by right.
  - apply (serial_ret _ _ _ _ (fun _ => None) (fun _ m m' => effect (MoveFile p q) None m m')
      _ (refused (MoveFile p q))); [|done..].
    destruct (decide (p = [])) as [->|Hp].
    { apply serial_check. left. by auto. }
    destruct (decide (q = [])) as [->|Hq].
    { unfold move_file. apply serial_check. rewrite validate_path_ne by done.
      apply serial_check. left. by auto. }
    destruct (decide (p = q)) as [->|Hne].
    + unfold move_file. apply serial_check. rewrite validate_path_ne by done.
      apply serial_check. rewrite bool_decide_true by done.
      apply (serial_lift _ _ _ (Ok tt)). by left.
    + eapply serial_mono; [by apply move_file_serial| |by right].
      intros _ m m' (id & ?). right. split; [done|]. by exists id.
  - apply (serial_ret _ _ _ _ Some (fun found m m' => effect (PrepareFile p c tr) (Some found) m m')
      _ (refused (PrepareFile p c tr))); [|done..].
    destruct (decide (p = [])) as [->|Hp].
    { apply serial_check. by left. }
    eapply serial_mono; [by apply prepare_file_for_open_serial| |by right].
    intros found m m' Hf. by exists found.
Qed.
End calls.

(** ** Positions of a log *)

Lemma elem_mine x l : x ∈ l -> x ∈ mine (committed_by x) l.
Proof. intros Hx. apply list_elem_of_filter. by split. Qed.

Lemma mine_nil_lookup i l k x : mine i l = [] -> l !! k = Some x -> committed_by x <> i.
Proof.
  intros Hm Hk <-. apply list_elem_of_lookup_2, elem_mine in Hk. rewrite Hm in Hk. by apply not_elem_of_nil in Hk.
Qed.

(** The only commit of a task is at one position. *)
Lemma mine_unique i (l1 l2 : list Commit) x k y :
  mine i (l1 ++ l2) = [] -> (l1 ++ [x] ++ l2) !! k = Some y -> committed_by y = i ->
  k = length l1 /\ y = x.
Proof.
  intros Hm Hk Hy. rewrite mine_app in Hm. apply app_nil in Hm as [Hm1 Hm2].
  apply lookup_app_Some in Hk as [Hk|[Hle Hk]].
  { by apply (mine_nil_lookup i) in Hk. }
  apply lookup_app_Some in Hk as [Hk|[Hle' Hk]].
  - apply list_lookup_singleton_Some in Hk as [Hk <-]. split; [lia|done].
  - by apply (mine_nil_lookup i) in Hk.
Qed.

Lemma prefix_is_take {A} (l k : list A) : l `prefix_of` k -> l = take (length l) k.
Proof. intros [r ->]. by rewrite take_app_length. Qed.

(** ** Histories *)

Section history.
Context {W Db Txn : Type} `{DbReadOps W Txn} `{!SharedWorld W Db Txn} `{SlateDb W Db Txn}
  `{Clock W} `{!SharedStore W Db Txn} `{MetadataCodec} `{!MetadataCodecLaws}.
Context (d : Db).

Record Call := {
  call_op : CatalogOp;
  call_from : W;
  call_result : Result (option (Z * FileMetadata));
  call_to : W
}.
Definition caller (c : Call) : nat := me (call_from c).
Definition log_at_call (c : Call) : list Commit := history (call_from c) d.
Definition log_at_return (c : Call) : list Commit := history (call_to c) d.

(** [calls] ran on a database whose log ended as [log]: each is a run of its
    code by a task that commits in no other call, and whatever else is in the
    log wrote records of files whose ID had been given out, as the sync of a
    handle does. *)
Record execution (calls : list Call) (log : list Commit) : Prop := {
  exec_runs c : c ∈ calls -> run_op d (call_op c) (call_from c) = (call_result c, call_to c);
  exec_log c : c ∈ calls -> log_at_return c `prefix_of` log;
  exec_before c : c ∈ calls -> mine (caller c) (log_at_call c) = [];
  exec_after c : c ∈ calls -> mine (caller c) log = mine (caller c) (log_at_return c);
  exec_commits k x : log !! k = Some x ->
    (exists c, c ∈ calls /\ committed_by x = caller c) \/
    (exists id, 1 <= id < next_id (replay (take k log)) /\ Forall (file_op id) (writes x))
}.

(** Call [c] took effect at position [k]: as its only commit, or as a read of
    the contents then. *)
Definition takes_effect (log : list Commit) (c : Call) (k : nat) : Prop :=
  let m := replay (take k log) in
  let m' := replay (take (S k) log) in
  let commits a :=
    (forall j, (exists x, log !! j = Some x /\ committed_by x = caller c) <-> j = k) /\
    effect (call_op c) a m m' in
  let reads := mine (caller c) log = [] in
  match call_result c with
  | Ok a => commits a \/ reads /\ effect (call_op c) a m m
  | Err e =>
      reads /\ refused (call_op c) e m \/
      reads /\ code e = CodeSlateDb /\
        (ready (call_from c) -> error_status e = Temporary /\ log_at_return c <> log_at_call c) \/
      ~ ready (call_from c) /\ code e = CodeSlateDb /\ exists a, commits a
  | Panic _ => ~ ready (call_from c) /\ (reads \/ exists a, commits a)
  end.

Section run.
Context (calls : list Call) (log : list Commit) (Hrun : execution calls log).

(** Positions past the end. *)
Lemma take_min_length k : take k log = take (k `min` length log) log.
Proof. destruct (le_ge_dec k (length log)); [by rewrite Nat.min_l|by rewrite Nat.min_r, firstn_all, take_ge]. Qed.

(** A call, given the invariant up to its commit. *)
Lemma call_takes_effect c :
  c ∈ calls ->
  (forall k, (forall i x, (i < k)%nat -> log !! i = Some x -> committed_by x <> caller c) ->
   wf_catalog (replay (take k log))) ->
  exists k, (length (log_at_call c) <= k <= length (log_at_return c))%nat /\ takes_effect log c k.
Proof.
  intros Hc Hwf. pose proof (exec_runs _ _ Hrun c Hc) as Hr.
  destruct (run_op_serial d (call_from c) (call_op c) _ _ Hr) as (l0 & Hp1 & Hp2 & Hm & Hends).
  fold (log_at_call c) in Hp1, Hm. fold (log_at_return c) in Hp2. fold (caller c) in Hm.
  rewrite (exec_before _ _ Hrun c Hc) in Hm. pose proof (exec_log _ _ Hrun c Hc) as Hlog.
  assert (Hl0 : l0 = take (length l0) log) by (apply prefix_is_take; by etrans).
  assert (Hwf0 : wf_catalog (replay l0)).
  { rewrite Hl0. apply Hwf. intros i x Hi Hx. eapply (mine_nil_lookup _ l0 i); [done|].
    by rewrite Hl0, lookup_take_lt. }
  destruct (Hends Hwf0) as [[Hel Hres]|(a & before & batch & after & _ & Hh & Hmine & HQ & Hres)].
  - exists (length l0). split; [split; by apply prefix_length|].
    assert (Hnone : mine (caller c) log = []).
    { rewrite (exec_after _ _ Hrun c Hc). destruct Hel as (_ & _ & Hel).
      destruct (Hel d) as [_ Hsame]. unfold caller, log_at_return. rewrite Hsame.
      apply (exec_before _ _ Hrun c Hc). }
    unfold takes_effect. rewrite <-Hl0.
    destruct (call_result c) as [a|e|p]; [by right| |by split; [|left]].
    destruct Hres as [?|[Hcode Hst]]; [by left|]. right. left. split_and!; [done|done|].
    intros Hrd. destruct (Hst Hrd) as [? Hne]. split; [done|]. intros Heq. apply Hne.
    fold (log_at_return c). rewrite Heq in Hp2 |- *. apply (anti_symm prefix); done.
  - fold (log_at_return c) (log_at_call c) in Hh. fold (log_at_call c) in HQ. fold (caller c) in Hmine.
    set (l1 := log_at_call c ++ before) in *.
    exists (length l1). split.
    { rewrite Hh. unfold l1. rewrite !length_app. simpl. lia. }
    destruct Hlog as [rest Hlog]. rewrite Hh in Hlog.
    assert (Hlog' : log = l1 ++ {| committed_by := me (call_from c); writes := batch |} :: (after ++ rest)).
    { rewrite Hlog. unfold l1. by rewrite <-!app_assoc. }
    assert (Hat : log !! length l1 = Some {| committed_by := me (call_from c); writes := batch |}).
    { rewrite Hlog'. by apply list_lookup_middle. }
    assert (Htake : take (length l1) log = l1) by (rewrite Hlog'; apply take_app_length).
    assert (Heff : effect (call_op c) a (replay (take (length l1) log)) (replay (take (S (length l1)) log))).
    { by rewrite (take_S_r _ _ _ Hat), replay_snoc, Htake. }
    assert (Honly : forall j, (exists x, log !! j = Some x /\ committed_by x = caller c) <-> j = length l1).
    { intros j. split; [|intros ->; by eexists]. intros (x & Hx & Hby). rewrite Hlog' in Hx.
      eapply (mine_unique (caller c) _ _ _ j x); [|exact Hx|done].
      pose proof (exec_after _ _ Hrun c Hc) as Hafter. rewrite Hlog, mine_app, Hh in Hafter.
      rewrite <-(app_nil_r (mine _ (_ ++ _ ++ _ ++ _))) in Hafter at 2.
      apply app_inv_head in Hafter. rewrite mine_app in Hmine. apply app_nil in Hmine as [Hb Ha].
      unfold l1. by rewrite !mine_app, Hb, Ha, Hafter, (exec_before _ _ Hrun c Hc). }
    unfold takes_effect. destruct (call_result c) as [a'|e|p]; [|destruct Hres|].
    + subst a'. by left.
    + right. right. split_and!; [done..|]. by exists a.
    + split; [done|]. right. by exists a.
Qed.
(** The commit at a position, if the contents were well formed until then. *)
Lemma commit_advances k x :
  (forall j, (j <= k)%nat -> wf_catalog (replay (take j log))) -> log !! k = Some x ->
  advances (replay (take k log)) (replay (take (S k) log)).
Proof.
  intros Hwf Hx. destruct (exec_commits _ _ Hrun k x Hx) as [(c & Hc & Hby)|(id & Hid & Hops)].
  2:{ rewrite (take_S_r _ _ _ Hx), replay_snoc. eapply advances_file_ops; [by apply Hwf|done..]. }
  destruct (call_takes_effect c Hc) as (k' & _ & Heff).
  { intros j Hj. apply Hwf. destruct (decide (j <= k)%nat) as [|Hgt]; [done|].
    destruct (Hj k x ltac:(lia) Hx Hby). }
  assert (Hreads : mine (caller c) log <> []) by (intros Hm; by apply (mine_nil_lookup _ _ k x) in Hm).
  assert (Hcommit : exists a, (forall j, (exists x, log !! j = Some x /\ committed_by x = caller c) <-> j = k') /\
    effect (call_op c) a (replay (take k' log)) (replay (take (S k') log))).
  { unfold takes_effect in Heff. destruct (call_result c); naive_solver. }
  destruct Hcommit as (a & Honly & Ha).
  assert (k = k') as <- by (apply Honly; by eexists).
  eapply effect_advances; [by apply Hwf|done].
Qed.

Lemma log_well_formed k :
  (k <= length log)%nat ->
  wf_catalog (replay (take k log)) /\
  forall j, (j <= k)%nat -> next_id (replay (take j log)) <= next_id (replay (take k log)).
Proof.
  induction (lt_wf k) as [k _ IH]. intros Hk. destruct k as [|k].
  { split; [apply wf_catalog_empty|]. intros j Hj. by replace j with 0%nat by lia. }
  destruct (lookup_lt_is_Some_2 log k Hk) as [x Hx].
  destruct (commit_advances k x) as [Hwf Hnext]; [|done|].
  { intros j Hj. apply IH; lia. }
  split; [done|]. intros j Hj. destruct (decide (j = S k)) as [->|]; [done|].
  etrans; [|exact Hnext]. apply (IH k); lia.
Qed.
(** Call [c] created a file under [id]: it opened a path that was not mapped at
    its commit. *)
Definition creates (c : Call) (id : Z) : Prop :=
  exists p t meta k x,
    call_op c = PrepareFile p true t /\ call_result c = Ok (Some (id, meta)) /\
    log !! k = Some x /\ committed_by x = caller c /\ replay (take k log) !! path_key p = None.

Lemma creates_position c id :
  c ∈ calls -> creates c id ->
  exists k x, log !! k = Some x /\ committed_by x = caller c /\
    (length (log_at_call c) <= k < length log)%nat /\
    next_id (replay (take k log)) = id /\ next_id (replay (take (S k) log)) = id + 1.
Proof.
  intros Hc (p & t & meta & k & x & Hop & Hres & Hx & Hby & Hnone).
  destruct (call_takes_effect c Hc) as (k' & [Hle _] & Heff).
  { intros j _. rewrite take_min_length. apply log_well_formed. lia. }
  unfold takes_effect in Heff. rewrite Hres, Hop in Heff. destruct Heff as [[Honly Heff]|[Hno _]].
  2:{ by apply (mine_nil_lookup _ _ k x) in Hno. }
  assert (k = k') as <- by (apply Honly; by eexists).
  destruct Heff as (found & [= <-] & Hp). unfold prepared in Hp. rewrite Hnone in Hp.
  destruct Hp as (_ & Hid & Hu & _ & Hm). cbn [fst snd] in *.
  exists k, x. split_and!; [done|done|done|by eapply lookup_lt_Some|done|].
  rewrite Hm. by apply created_next.
Qed.

Lemma next_id_at_call c k :
  c ∈ calls -> (length (log_at_call c) <= k <= length log)%nat ->
  next_id (replay (log_at_call c)) <= next_id (replay (take k log)).
Proof.
  intros Hc Hk. destruct (log_well_formed k ltac:(lia)) as [_ Hmono].
  destruct (run_op_serial d _ _ _ _ (exec_runs _ _ Hrun c Hc)) as (l0 & Hp1 & Hp2 & _ & _).
  rewrite (prefix_is_take (log_at_call c) log); [apply Hmono; lia|].
  etrans; [exact Hp1|]. etrans; [exact Hp2|by apply (exec_log _ _ Hrun)].
Qed.

Lemma creates_ordered id1 id2 k1 k2 :
  next_id (replay (take (S k1) log)) = id1 + 1 -> next_id (replay (take k2 log)) = id2 ->
  (k1 < k2 < length log)%nat -> id1 <> id2.
Proof.
  intros Hn1 Hn2 Hk. destruct (log_well_formed k2 ltac:(lia)) as [_ Hmono].
  specialize (Hmono (S k1) ltac:(lia)). lia.
Qed.
End run.
End history.
