(* ===== verification/SharedMem.v ===== *)
(** * A shared store in memory

    Databases are logs of commits.  A schedule says what other tasks commit
    before each of the next calls; a commit finds a conflict as SlateDB does,
    by comparing the keys of the commits since the transaction began with what
    it read ([SerializableSnapshot]) or wrote ([Snapshot]).  This world satisfies
    the laws of SharedStore.v; the examples of SerialProps.v run in it. *)

From S2P Require Import Prelude RustStd Error Keys SlateDb MemDb FileMetadata Locality.
From S2P Require Import SharedStore.

#[global] Instance write_op_eq_dec : EqDecision WriteOp.
Proof. solve_decision. Defined.
#[global] Instance commit_eq_dec : EqDecision Commit.
Proof. solve_decision. Defined.

Record SharedMem := {
  sm_me : nat;
  sm_logs : gmap nat (list Commit);
  sm_txns : gmap nat TxnState;
  sm_next : nat;
  (** What others commit, to which database, before each of the next calls. *)
  sm_schedule : list (list (nat * Commit));
  sm_clock : option N
}.
Record SDb := { sdb_name : nat }.
#[global] Instance sdb_eq_dec : EqDecision SDb.
Proof. solve_decision. Defined.
Record STxn := { stxn_id : nat; stxn_db : SDb; stxn_level : IsolationLevel }.

Definition sm_log (w : SharedMem) (d : SDb) : list Commit := default [] (sm_logs w !! sdb_name d).
Definition sm_txn (w : SharedMem) (t : STxn) : TxnState :=
  default {| start := []; buffer := []; read_set := [] |} (sm_txns w !! stxn_id t).

Definition add_commit (c : nat * Commit) (logs : gmap nat (list Commit)) : gmap nat (list Commit) :=
  <[c.1 := default [] (logs !! c.1) ++ [c.2]]> logs.
Definition set_logs (w : SharedMem) (logs : gmap nat (list Commit)) : SharedMem :=
  {| sm_me := sm_me w; sm_logs := logs; sm_txns := sm_txns w; sm_next := sm_next w;
     sm_schedule := sm_schedule w; sm_clock := sm_clock w |}.
Definition set_txn (w : SharedMem) (i : nat) (s : TxnState) : SharedMem :=
  {| sm_me := sm_me w; sm_logs := sm_logs w; sm_txns := <[i := s]> (sm_txns w);
     sm_next := sm_next w; sm_schedule := sm_schedule w; sm_clock := sm_clock w |}.

(** The others have their turn. *)
Definition tick (w : SharedMem) : SharedMem :=
  {| sm_me := sm_me w;
     sm_logs := foldl (fun logs c => add_commit c logs) (sm_logs w)
       (filter (fun c => committed_by c.2 <> sm_me w) (default [] (head (sm_schedule w))));
     sm_txns := sm_txns w; sm_next := sm_next w; sm_schedule := tail (sm_schedule w);
     sm_clock := sm_clock w |}.

Definition timed {A} (op : SharedMem -> res slatedb_error A * SharedMem) : M slatedb_error SharedMem A :=
  fun w => op (tick w).

(** ** Conflicts *)

Definition written_in (ops : WriteBatch) : KeyRange :=
  fun k => existsb (fun o => bool_decide (op_key o = k)) ops.
Definition touches (l : list Commit) (rs : list KeyRange) : bool :=
  existsb (fun c => existsb (fun o => existsb (fun r => r (op_key o)) rs) (writes c)) l.

Definition conflicts (w : SharedMem) (t : STxn) : bool :=
  let s := sm_txn w t in
  let log := sm_log w (stxn_db t) in
  negb (bool_decide (take (length (start s)) log = start s)) ||
  touches (drop (length (start s)) log)
    (match stxn_level t with
     | Snapshot => [written_in (buffer s)]
     | SerializableSnapshot => written_in (buffer s) :: read_set s
     end).

Definition conflict_error : slatedb_error :=
  {| slatedb_kind := KindTransaction; slatedb_display := "transaction conflict" |}.

(** ** The calls *)

Definition read_txn {A} (t : STxn) (r : KeyRange) (view : kv -> A) (w : SharedMem)
    : res slatedb_error A * SharedMem :=
  let s := sm_txn w t in (Ok (view (txn_contents s)), set_txn w (stxn_id t) (with_read s r)).
Definition write_txn (t : STxn) (o : WriteOp) (w : SharedMem) : res slatedb_error unit * SharedMem :=
  (Ok tt, set_txn w (stxn_id t) (with_op (sm_txn w t) o)).

Definition rows_under (m : kv) (p : list byte) : list KeyValue :=
  mem_rows m (fun k => starts_with k p = true).
Definition next_row : M slatedb_error (list KeyValue * SharedMem) (option KeyValue) :=
  fun '(it, w) =>
    match it with
    | [] => (Ok None, ([], tick w))
    | row :: it => (Ok (Some row), (it, tick w))
    end.

#[global] Instance sm_txn_reads : DbReadOps SharedMem STxn := {|
    ScanIter := list KeyValue;
    db_get t k := timed (read_txn t (the_key k) (fun m => m !! k));
    db_scan_with_options t first last _ :=
      timed (read_txn t (fun k => bool_decide (bytes_le first k /\ bytes_le k last))
               (fun m => mem_rows m (fun k => bytes_le first k /\ bytes_le k last)));
    db_scan_prefix t p := timed (read_txn t (under p) (fun m => rows_under m p));
    iter_next := next_row;
    iter_bound := length (A:=KeyValue)
  |}.

(** Reads outside a transaction see the log as it is. *)
#[global] Instance sm_db_reads : DbReadOps SharedMem SDb := {|
    ScanIter := list KeyValue;
    db_get d k := timed (fun w => (Ok (replay (sm_log w d) !! k), w));
    db_scan_with_options d first last _ :=
      timed (fun w => (Ok (mem_rows (replay (sm_log w d)) (fun k => bytes_le first k /\ bytes_le k last)), w));
    db_scan_prefix d p := timed (fun w => (Ok (rows_under (replay (sm_log w d)) p), w));
    iter_next := next_row;
    iter_bound := length (A:=KeyValue)
  |}.

Definition sm_commit (t : STxn) (w : SharedMem) : res slatedb_error unit * SharedMem :=
  if conflicts w t then (Err conflict_error, w)
  else
    (Ok tt, set_logs w (add_commit (sdb_name (stxn_db t),
       {| committed_by := sm_me w; writes := buffer (sm_txn w t) |}) (sm_logs w))).

Definition sm_begin (d : SDb) (level : IsolationLevel) (w : SharedMem)
    : res slatedb_error STxn * SharedMem :=
  (Ok {| stxn_id := sm_next w; stxn_db := d; stxn_level := level |},
   {| sm_me := sm_me w; sm_logs := sm_logs w;
      sm_txns := <[sm_next w := {| start := sm_log w d; buffer := []; read_set := [] |}]> (sm_txns w);
      sm_next := S (sm_next w); sm_schedule := sm_schedule w; sm_clock := sm_clock w |}).

#[global] Instance sm_slatedb : SlateDb SharedMem SDb STxn := {|
    db_write d b := timed (fun w =>
      (Ok tt, set_logs w (add_commit (sdb_name d, {| committed_by := sm_me w; writes := b |}) (sm_logs w))));
    db_flush d := timed (fun w => (Ok tt, w));
    db_begin d level := timed (sm_begin d level);
    txn_put t k v := timed (write_txn t (Put k v));
    txn_delete t k := timed (write_txn t (Delete k));
    txn_commit t := timed (sm_commit t)
  |}.

#[global] Instance sm_clock_ops : Clock SharedMem := fun w => (sm_clock w, tick w).

(** ** The laws *)

#[global] Instance sm_world : SharedWorld SharedMem SDb STxn := {|
    me := sm_me;
    history := sm_log;
    ready _ := True;
    txn_home := stxn_db;
    txn_level := stxn_level;
    txn_state := sm_txn;
    rows_left it := it
  |}.

Lemma add_commits_log l logs i n :
  Forall (fun c : nat * Commit => committed_by c.2 <> i) l ->
  exists more, default [] (foldl (fun logs c => add_commit c logs) logs l !! n) = default [] (logs !! n) ++ more /\
    mine i more = [].
Proof.
  revert logs. induction l as [|[j c] l IH]; intros logs Hl; inversion_clear Hl as [|? ? Hc Hrest]; cbn [foldl].
  { exists []. by rewrite app_nil_r. }
  destruct (IH (add_commit (j, c) logs) Hrest) as (more & -> & Hm). cbn [snd] in Hc.
  unfold add_commit. cbn [fst snd]. destruct (decide (j = n)) as [->|Hne].
  - rewrite lookup_insert_eq. exists (c :: more). cbn [default from_option id].
    split; [by rewrite <-app_assoc|]. unfold mine in *. by rewrite filter_cons_False.
  - rewrite lookup_insert_ne by done. by exists more.
Qed.

Lemma tick_log w d : exists more, sm_log (tick w) d = sm_log w d ++ more /\ mine (sm_me w) more = [].
Proof.
  apply add_commits_log. apply Forall_forall. by intros c [? _]%list_elem_of_filter.
Qed.

Lemma elapse_logs w w' :
  sm_me w' = sm_me w -> (forall d, sm_log w' d = sm_log (tick w) d) -> elapse (Txn:=STxn) w w'.
Proof.
  intros Hme Hlog. split_and!; [done..|]. intros d. cbn [history sm_world me]. rewrite Hlog.
  destruct (tick_log w d) as (more & -> & Hm). split; [by apply prefix_app_r|].
  by rewrite mine_app, Hm, app_nil_r.
Qed.

Lemma set_txn_state w t s : sm_txn (set_txn w (stxn_id t) s) t = s.
Proof. unfold sm_txn, set_txn. cbn [sm_txns]. by rewrite lookup_insert_eq. Qed.

(** Keys that the commits did not write read the same. *)
Lemma touches_agree rs l k :
  touches k rs = false -> agree_on rs (replay l) (replay (l ++ k)).
Proof.
  revert l. induction k as [|c k IH]; intros l Ht r j Hr Hj.
  { by rewrite app_nil_r. }
  cbn [touches existsb] in Ht. apply orb_false_iff in Ht as [Hc Ht].
  rewrite cons_middle, app_assoc. rewrite (IH _ Ht r j Hr Hj), replay_snoc.
  apply lookup_apply_batch_ne. intros o Ho <-. apply not_true_iff_false in Hc. apply Hc.
  apply existsb_exists. exists o. split; [by apply list_elem_of_In|].
  apply existsb_exists. exists r. split; [by apply list_elem_of_In|done].
Qed.

Lemma conflicts_false w t :
  conflicts w t = false ->
  sm_log w (stxn_db t) = start (sm_txn w t) ++ drop (length (start (sm_txn w t))) (sm_log w (stxn_db t)) /\
  (stxn_level t = SerializableSnapshot ->
   agree_on (read_set (sm_txn w t)) (replay (start (sm_txn w t))) (replay (sm_log w (stxn_db t)))).
Proof.
  intros [Hp Ht]%orb_false_iff. apply negb_false_iff, bool_decide_eq_true in Hp.
  assert (Hlog : sm_log w (stxn_db t) =
    start (sm_txn w t) ++ drop (length (start (sm_txn w t))) (sm_log w (stxn_db t))).
  { rewrite <-Hp at 1. by rewrite take_drop. }
  split; [done|]. intros Hl. rewrite Hl in Ht. rewrite Hlog.
  pose proof (touches_agree _ (start (sm_txn w t)) _ Ht) as Hag.
  intros r k Hr. apply Hag. set_solver.
Qed.

Lemma conflicts_true w t : conflicts w t = true -> sm_log w (stxn_db t) <> start (sm_txn w t).
Proof.
  intros Hc Heq. unfold conflicts in Hc. rewrite Heq, firstn_all, drop_all in Hc.
  rewrite bool_decide_true in Hc by done. done.
Qed.

#[global] Instance sm_laws : SharedStore SharedMem SDb STxn.
Proof.
  split.
  - done.
  - intros w d level r w' [= <- <-]. split_and!; [by apply elapse_logs|by eexists|].
    intros t [= <-]. split_and!; [done..|]. exists (sm_log (tick w) d). split_and!.
    + cbn [txn_state sm_world]. unfold sm_txn. cbn [sm_txns stxn_id]. by rewrite lookup_insert_eq.
    + destruct (tick_log w d) as (more & -> & _). by apply prefix_app_r.
    + done.
  - intros w t k r w' [= <- <-]. split_and!; [by apply elapse_logs|by eexists|].
    intros v [= <-]. split; [done|]. apply set_txn_state.
  - intros w t p r w' [= <- <-]. split_and!; [by apply elapse_logs|by eexists|].
    intros it [= <-]. split; [apply listing_mem_rows|]. apply set_txn_state.
  - intros w it r it' w' Hn. cbn in Hn.
    destruct it as [|row it]; simplify_eq; split_and!; try done; try by eexists.
    all: try by apply elapse_logs.
    all: by intros o [= <-].
  - intros w t k v r w' [= <- <-]. split_and!; [by apply elapse_logs|done|].
    intros _. apply set_txn_state.
  - intros w t k r w' [= <- <-]. split_and!; [by apply elapse_logs|done|].
    intros _. apply set_txn_state.
  - intros w t r w' Hc. cbn in Hc. unfold timed, sm_commit in Hc.
    destruct (conflicts (tick w) t) eqn:Hx; simplify_eq.
    + right. right. split_and!; [done|by apply elapse_logs|]. intros _.
      split; [by apply conflicts_true in Hx|]. by eexists.
    + left. split; [done|]. destruct (conflicts_false _ _ Hx) as [_ Hag].
      assert (Hlog : forall d, sm_log (set_logs (tick w) (add_commit (sdb_name (stxn_db t),
        own w t) (sm_logs (tick w)))) d =
        if decide (d = stxn_db t) then sm_log (tick w) d ++ [own w t] else sm_log (tick w) d).
      { intros [n]. unfold sm_log, set_logs, add_commit. cbn [sm_logs fst snd sdb_name].
        destruct t as [i [n'] level]. cbn [stxn_db sdb_name]. case_decide as Hd; simplify_eq.
        - by rewrite lookup_insert_eq.
        - rewrite lookup_insert_ne; [done|]. intros ->. done. }
      split.
      * split_and!; [done..|]. intros d. cbn [history sm_world]. rewrite Hlog.
        destruct (tick_log w d) as (more & -> & _). case_decide; rewrite ?app_assoc;
          [do 2 apply prefix_app_r|apply prefix_app_r]; done.
      * intros d Hd. cbn [history sm_world me]. rewrite Hlog, decide_False by done.
        destruct (tick_log w d) as (more & -> & Hm). by rewrite mine_app, Hm, app_nil_r.
      * cbn [history sm_world me txn_home]. rewrite Hlog, decide_True by done.
        destruct (tick_log w (stxn_db t)) as (more & Hm & Hmine). exists more, [].
        rewrite !app_nil_r. split_and!; [by rewrite Hm, <-app_assoc|done|].
        intros Hl. rewrite <-Hm. by apply Hag.
  - intros w. split; [by apply elapse_logs|done].
Qed.
