(* ===== verification/SerialProps.v ===== *)
(** * Concurrent catalog calls: the theorems

    What tasks that use one database at the same time can rely on, each
    theorem applied to a run in the memory world of SharedMem.v. *)

From S2P Require Import Prelude RustStd Error Keys SlateDb MemDb ChunkLayout FileMetadata.
From S2P Require Import DatabaseMetadata DatabaseSpec DatabaseOps SharedStore SerialLogic.
From S2P Require Import SerialOps SerialHistory SharedMem.

Section props.
Context {W Db Txn : Type} `{DbReadOps W Txn} `{!SharedWorld W Db Txn} `{SlateDb W Db Txn}
  `{Clock W} `{!SharedStore W Db Txn} `{MetadataCodec} `{!MetadataCodecLaws}.

(** C4: removals, moves and opens that run at the same time in any number of
    tasks, among syncs of open handles, are strictly serializable: every call
    takes effect at one position of the database's log between its begin and
    its return, as its only commit or as a read of the contents there, and
    answers what the catalog specifies for these contents; a call on a store
    that answers fails for no other reason than a commit of another task while
    it ran, with an error that is marked temporary.  The invariant of the
    catalog holds, and the next file ID only grows, at every position. *)
Theorem concurrent_catalog_calls_serialize (d : Db) calls log :
  execution d calls log ->
  (forall c, c ∈ calls -> exists k,
   (length (log_at_call d c) <= k <= length (log_at_return d c))%nat /\ takes_effect d log c k) /\
  (forall k, (k <= length log)%nat ->
   wf_catalog (replay (take k log)) /\
   forall j, (j <= k)%nat -> next_id (replay (take j log)) <= next_id (replay (take k log))).
Proof.
  intros Hrun. split; [|by eapply log_well_formed]. intros c Hc.
  eapply call_takes_effect; [done|done|]. intros k _. rewrite take_min_length.
  eapply log_well_formed; [done|lia].
Qed.

(** C10: two calls that run at the same time and both create a file get
    different file IDs, and neither ID had been given out when the call
    began. *)
Theorem concurrent_creates_get_distinct_ids (d : Db) calls log c1 c2 id1 id2 :
  execution d calls log -> c1 ∈ calls -> c2 ∈ calls -> caller c1 <> caller c2 ->
  creates log c1 id1 -> creates log c2 id2 ->
  id1 <> id2 /\ next_id (replay (log_at_call d c1)) <= id1 /\ next_id (replay (log_at_call d c2)) <= id2.
Proof.
  intros Hrun Hc1 Hc2 Hne Hcr1 Hcr2.
  destruct (creates_position d calls log Hrun c1 id1 Hc1 Hcr1) as (k1 & x1 & Hx1 & Hb1 & Hl1 & Hn1 & Hs1).
  destruct (creates_position d calls log Hrun c2 id2 Hc2 Hcr2) as (k2 & x2 & Hx2 & Hb2 & Hl2 & Hn2 & Hs2).
  assert (k1 <> k2) by (intros ->; congruence). split_and!.
  - destruct (decide (k1 < k2)%nat).
    + apply (creates_ordered d calls log Hrun id1 id2 k1 k2); [done|done|lia].
    + intros Heq. symmetry in Heq. revert Heq. apply (creates_ordered d calls log Hrun id2 id1 k2 k1); [done|done|lia].
  - rewrite <-Hn1. eapply next_id_at_call; [done|done|lia].
  - rewrite <-Hn2. eapply next_id_at_call; [done|done|lia].
Qed.
End props.

(** ** A run of three tasks

    Task 2 creates "b".  Task 1 creates "a" meanwhile: the commit of task 2
    comes after it began, and it fails.  Task 3 creates "a" later; a handle of
    "b" syncs while it runs, which is no conflict. *)

Definition sh_db : SDb := {| sdb_name := 0 |}.
Definition sh_world (i : nat) (log : list Commit) (schedule : list (list (nat * Commit))) : SharedMem :=
  {| sm_me := i; sm_logs := {[ 0%nat := log ]}; sm_txns := ∅; sm_next := 0; sm_schedule := schedule;
     sm_clock := Some 0%N |}.
Definition sh_call (op : CatalogOp) (w : SharedMem) : Call :=
  {| call_op := op; call_from := w; call_result := (run_op sh_db op w).1;
     call_to := (run_op sh_db op w).2 |}.
Definition sh_log (c : Call (W:=SharedMem)) : list Commit := log_at_return sh_db c.

Definition sh_second : Call := sh_call (PrepareFile (bytes_of "b") true false) (sh_world 2 [] []).
Definition sh_first : Call :=
  sh_call (PrepareFile (bytes_of "a") true false)
    (sh_world 1 [] [[]; []; pair 0%nat <$> sh_log sh_second]).
Definition sh_meta : FileMetadata :=
  {| size := 5; modified_at_ms := 0; chunk_size := DEFAULT_CHUNK_SIZE;
     chunk_base_offset := DEFAULT_CHUNK_BASE_OFFSET |}.
Definition sh_sync : Commit :=
  {| committed_by := 9; writes := [Put (metadata_key 1) (encode_to_bytes sh_meta)] |}.
Definition sh_third : Call :=
  sh_call (PrepareFile (bytes_of "a") true false)
    (sh_world 3 (sh_log sh_second) [[]; [(0%nat, sh_sync)]]).

Lemma sh_execution : execution sh_db [sh_second; sh_first; sh_third] (sh_log sh_third).
Proof.
  split.
  - intros c Hc. repeat (apply elem_of_cons in Hc as [->|Hc]; [apply surjective_pairing|]).
    by apply not_elem_of_nil in Hc.
  - intros c Hc. apply (bool_decide_unpack _).
    repeat (apply elem_of_cons in Hc as [->|Hc]; [by vm_compute|]). by apply not_elem_of_nil in Hc.
  - intros c Hc. repeat (apply elem_of_cons in Hc as [->|Hc]; [by vm_compute|]).
    by apply not_elem_of_nil in Hc.
  - intros c Hc. repeat (apply elem_of_cons in Hc as [->|Hc]; [by vm_compute|]).
    by apply not_elem_of_nil in Hc.
  - intros k x Hk.
    assert (Hby : (committed_by <$> sh_log sh_third) = [2; 9; 3]%nat) by (vm_compute; reflexivity).
    assert (Hw : (writes <$> (sh_log sh_third !! 1%nat)) = Some (writes sh_sync)) by (vm_compute; reflexivity).
    apply (f_equal (fun l => l !! k)) in Hby. rewrite list_lookup_fmap, Hk in Hby.
    assert (Hx : [2; 9; 3]%nat !! k = Some (committed_by x)) by done. clear Hby.
    destruct k as [|[|[|k]]]; [apply (inj Some) in Hx..|done].
    + left. exists sh_second. split; [by left|done].
    + right. exists 1. rewrite Hk in Hw. apply (inj Some) in Hw. rewrite Hw. split.
      * apply (bool_decide_unpack _). by vm_compute.
      * apply Forall_singleton. left. exists sh_meta. split; [done|].
        split; [split; split; by vm_compute|split; by vm_compute].
    + left. exists sh_third. split; [by right; right; left|done].
Qed.

(** The create that met another commit failed, and may be tried again. *)
Lemma sh_first_fails : exists e, call_result sh_first = Err e /\ code e = CodeSlateDb /\
  error_status e = Temporary.
Proof. eexists. split; [vm_compute; reflexivity|done]. Qed.

Lemma concurrent_catalog_calls_serialize_witness :
  wf_catalog (replay (take 3 (sh_log sh_third))) /\
  exists k, takes_effect sh_db (sh_log sh_third) sh_first k.
Proof.
  destruct (concurrent_catalog_calls_serialize sh_db [sh_second; sh_first; sh_third]
    (sh_log sh_third) sh_execution) as [Hcalls Hlog]. split.
  - apply Hlog. apply (bool_decide_unpack _). by vm_compute.
  - destruct (Hcalls sh_first ltac:(by right; left)) as (k & _ & Hk). by exists k.
Defined.

Lemma sh_creates c id :
  (exists p k, call_op c = PrepareFile p true false /\
   (exists meta, call_result c = Ok (Some (id, meta))) /\
   (committed_by <$> (sh_log sh_third !! k)) = Some (caller c) /\
   bool_decide (replay (take k (sh_log sh_third)) !! path_key p = None) = true) ->
  creates (sh_log sh_third) c id.
Proof.
  intros (p & k & Hop & [meta Hres] & Hby & Hn%bool_decide_eq_true).
  apply fmap_Some in Hby as (x & Hx & Hby). exists p, false, meta, k, x. by split_and!.
Qed.

Lemma concurrent_creates_get_distinct_ids_witness :
  creates (sh_log sh_third) sh_second 1 /\ creates (sh_log sh_third) sh_third 2 /\ 1 <> 2.
Proof.
  assert (H1 : creates (sh_log sh_third) sh_second 1).
  { apply sh_creates. exists (bytes_of "b"), 0%nat. split_and!; [done| |by vm_compute..].
    eexists. vm_compute. reflexivity. }
  assert (H2 : creates (sh_log sh_third) sh_third 2).
  { apply sh_creates. exists (bytes_of "a"), 2%nat. split_and!; [done| |by vm_compute..].
    eexists. vm_compute. reflexivity. }
  split_and!; [done|done|].
  destruct (concurrent_creates_get_distinct_ids sh_db [sh_second; sh_first; sh_third]
    (sh_log sh_third) sh_second sh_third 1 2 sh_execution ltac:(by left) ltac:(by right; right; left)
    ltac:(done) H1 H2) as [Hne _]. exact Hne.
Defined.

(** ** Looking a file up outside a transaction *)

Definition sh_moved : Call :=
  sh_call (MoveFile (bytes_of "b") (bytes_of "a")) (sh_world 4 (sh_log sh_third) []).

(** [open_file] on a database reads the mapping and the record of the file in
    two steps: an open of "a" while "b" is moved over it reports that the
    record is missing, although "a" is there before, during and after. *)
Lemma open_during_move_fails :
  exists e, (open_file {| DatabaseMetadata.client := sh_db |} (bytes_of "a")
    (sh_world 5 (sh_log sh_third) [[]; [(0%nat, default sh_sync (last (sh_log sh_moved)))]])).1 = Err e /\
    code e = CodeMetadataDecode /\
    is_Some (replay (sh_log sh_third) !! path_key (bytes_of "a")) /\
    is_Some (replay (sh_log sh_moved) !! path_key (bytes_of "a")).
Proof.
  eexists. split; [vm_compute; reflexivity|]. split; [done|].
  split; apply (bool_decide_unpack _); by vm_compute.
Qed.
