(* ===== verification/Cache.v ===== *)
(** * Cache configuration and statistics (rust/src/cache.rs)

    How a [CacheConfig] becomes the options of SlateDB's object-store cache
    and an in-memory block and metadata cache, and how the counters SlateDB
    keeps become [CacheStats].  The caches and the metrics registry are
    SlateDB's: parameters, with the fields of their options the crate sets. *)

From S2P Require Import Prelude RustStd.

#[local] Open Scope string_scope.
#[local] Open Scope list_scope.
#[local] Open Scope Z_scope.

Record CacheConfig := {
  block_cache_size_bytes : Z;
  metadata_cache_size_bytes : Z;
  cache_shards : option Z;
  persistent_cache_path : option (list byte);
  persistent_cache_size_bytes : Z;
  persistent_cache_part_size_bytes : Z;
  persistent_cache_on_flush : bool;
  persistent_cache_on_compaction : bool
}.

(** The fields of [slatedb::config::ObjectStoreCacheOptions] the crate sets. *)
Record ObjectStoreCacheOptions := {
  root_folder : option (list byte);
  max_cache_size_bytes : option Z;
  part_size_bytes : Z;
  cache_on_flush : bool;
  cache_on_compaction : bool
}.

(** The fields of [FoyerCacheOptions] the crate sets. *)
Record FoyerCacheOptions := { max_capacity : Z; shards : Z }.

(** What the configuration uses of SlateDB. *)
Class CacheLib (Cache : Type) := {
  DEFAULT_BLOCK_CACHE_CAPACITY : Z;
  DEFAULT_META_CACHE_CAPACITY : Z;
  default_object_store_cache_options : ObjectStoreCacheOptions;
  default_foyer_options : FoyerCacheOptions;
  foyer_new_with_opts : FoyerCacheOptions -> Cache;
  (** [SplitCache::new().with_block_cache(b).with_meta_cache(m).build()]. *)
  split_cache : option Cache -> option Cache -> Cache
}.

Section config.
Context {Cache : Type} `{CacheLib Cache}.

Definition default_cache_config : CacheConfig :=
  {| block_cache_size_bytes := DEFAULT_BLOCK_CACHE_CAPACITY;
     metadata_cache_size_bytes := DEFAULT_META_CACHE_CAPACITY;
     cache_shards := None;
     persistent_cache_path := None;
     persistent_cache_size_bytes := 16 * 1024 * 1024 * 1024;
     persistent_cache_part_size_bytes := 4 * 1024 * 1024;
     persistent_cache_on_flush := false;
     persistent_cache_on_compaction := false |}.

Definition object_store_cache_options (self : CacheConfig) : ObjectStoreCacheOptions :=
  let options := default_object_store_cache_options in
  match persistent_cache_path self with
  | Some path =>
      {| root_folder := Some path;
         max_cache_size_bytes := Some (persistent_cache_size_bytes self);
         part_size_bytes := persistent_cache_part_size_bytes self;
         cache_on_flush := persistent_cache_on_flush self;
         cache_on_compaction := persistent_cache_on_compaction self |}
  | None => options
  end.

Definition build_foyer_cache (capacity : Z) (n : option Z) : option Cache :=
  if capacity =? 0 then None
  else
    let options := {| max_capacity := capacity; shards := shards default_foyer_options |} in
    let options := match n with
                   | Some n => {| max_capacity := max_capacity options; shards := n |}
                   | None => options
                   end in
    Some (foyer_new_with_opts options).

Definition build_db_cache (self : CacheConfig) : option Cache :=
  if (block_cache_size_bytes self =? 0) && (metadata_cache_size_bytes self =? 0) then None
  else
    let block_cache := build_foyer_cache (block_cache_size_bytes self) (cache_shards self) in
    let metadata_cache := build_foyer_cache (metadata_cache_size_bytes self) (cache_shards self) in
    Some (split_cache block_cache metadata_cache).
End config.

(** ** Statistics *)

Record CacheStats := {
  block_cache_hits : Z;
  block_cache_misses : Z;
  metadata_cache_hits : Z;
  metadata_cache_misses : Z;
  persistent_cache_hits : Z;
  persistent_cache_misses : Z;
  persistent_cache_entries : Z;
  stats_persistent_cache_size_bytes : Z;
  persistent_cache_evictions : Z;
  persistent_cache_evicted_bytes : Z
}.

(** [MetricValue]: a counter is a u64, a gauge an i64. *)
Inductive MetricValue := Counter (value : Z) | Gauge (value : Z) | OtherMetric.

(** A snapshot of the registry: the metric with a name and labels. *)
Abbreviation Metrics := (string -> list (string * string) -> option MetricValue).

Definition metric_counter (metrics : Metrics) (name : string) (labels : list (string * string))
    : Z :=
  default 0 (metrics name labels ≫= fun metric =>
    match metric with Counter value => Some value | _ => None end).

(** [u64::try_from] of a negative gauge fails. *)
Definition metric_gauge (metrics : Metrics) (name : string) (labels : list (string * string)) : Z :=
  default 0 (metrics name labels ≫= fun metric =>
    match metric with Gauge value => if 0 <=? value then Some value else None | _ => None end).

Definition DB_CACHE_ACCESS_COUNT : string := "slatedb.db_cache.access_count".
Definition PERSISTENT_HIT_COUNT : string := "slatedb.object_store_cache.part_hit_count".
Definition PERSISTENT_ACCESS_COUNT : string := "slatedb.object_store_cache.part_access_count".
Definition PERSISTENT_CACHE_KEYS : string := "slatedb.object_store_cache.cache_keys".
Definition PERSISTENT_CACHE_BYTES : string := "slatedb.object_store_cache.cache_bytes".
Definition PERSISTENT_EVICTED_KEYS : string := "slatedb.object_store_cache.evicted_keys".
Definition PERSISTENT_EVICTED_BYTES : string := "slatedb.object_store_cache.evicted_bytes".

(** [iter().sum()]; release builds wrap. *)
Definition sum_u64 (l : list Z) : Z := foldl (fun acc z => wrap64 (acc + z)) 0 l.

Definition db_cache_accesses (metrics : Metrics) (entry_kind result : string) : Z :=
  metric_counter metrics DB_CACHE_ACCESS_COUNT [("entry_kind", entry_kind); ("result", result)].

Definition metadata_kinds : list string := ["filter"; "index"; "stats"].

Definition cache_stats (metrics : Metrics) : CacheStats :=
  let block_hits := db_cache_accesses metrics "data_block" "hit" in
  let block_misses := db_cache_accesses metrics "data_block" "miss" in
  let metadata_hits :=
    sum_u64 ((fun entry_kind => db_cache_accesses metrics entry_kind "hit") <$> metadata_kinds) in
  let metadata_misses :=
    sum_u64 ((fun entry_kind => db_cache_accesses metrics entry_kind "miss") <$> metadata_kinds) in
  let persistent_hits := metric_counter metrics PERSISTENT_HIT_COUNT [] in
  let persistent_accesses := metric_counter metrics PERSISTENT_ACCESS_COUNT [] in
  {| block_cache_hits := block_hits;
     block_cache_misses := block_misses;
     metadata_cache_hits := metadata_hits;
     metadata_cache_misses := metadata_misses;
     persistent_cache_hits := persistent_hits;
     persistent_cache_misses := saturating_sub persistent_accesses persistent_hits;
     persistent_cache_entries := metric_gauge metrics PERSISTENT_CACHE_KEYS [];
     stats_persistent_cache_size_bytes := metric_gauge metrics PERSISTENT_CACHE_BYTES [];
     persistent_cache_evictions := metric_counter metrics PERSISTENT_EVICTED_KEYS [];
     persistent_cache_evicted_bytes := metric_counter metrics PERSISTENT_EVICTED_BYTES [] |}.

(** ** Properties *)

(** Every metric of the registry is within its type. *)
Definition metrics_wf (metrics : Metrics) : Prop :=
  forall name labels v, metrics name labels = Some v ->
  match v with Counter z => is_u64 z | Gauge z => - 2 ^ 63 <= z < 2 ^ 63 | OtherMetric => True end.

Lemma metric_counter_u64 metrics name labels :
  metrics_wf metrics -> is_u64 (metric_counter metrics name labels).
Proof.
  intros Hwf. unfold metric_counter. specialize (Hwf name labels).
  destruct (metrics name labels) as [[z|z|]|]; simpl; try (split; done). by apply (Hwf (Counter z)).
Qed.

Lemma metric_gauge_bound metrics name labels :
  metrics_wf metrics -> 0 <= metric_gauge metrics name labels < 2 ^ 63.
Proof.
  intros Hwf. unfold metric_gauge. specialize (Hwf name labels).
  destruct (metrics name labels) as [[z|z|]|]; simpl; try done.
  specialize (Hwf (Gauge z) eq_refl). simpl in Hwf. destruct (Z.leb_spec 0 z); simpl; [lia|done].
Qed.

Lemma sum_u64_exact l :
  (forall z, z ∈ l -> 0 <= z) -> foldr Z.add 0 l < 2 ^ 64 -> sum_u64 l = foldr Z.add 0 l.
Proof.
  unfold sum_u64. assert (forall a, 0 <= a -> (forall z, z ∈ l -> 0 <= z) ->
    a + foldr Z.add 0 l < 2 ^ 64 ->
    foldl (fun acc z => wrap64 (acc + z)) a l = a + foldr Z.add 0 l) as Hgen.
  { induction l as [|z l IH]; intros a Ha Hl Hlt; cbn [foldl foldr] in *; [lia|].
    pose proof (Hl z ltac:(set_solver)).
    assert (Hs : 0 <= foldr Z.add 0 l).
    { clear -Hl. assert (Hl' : forall x, x ∈ l -> 0 <= x) by set_solver. clear Hl.
      induction l as [|x l IH]; simpl; [lia|]. pose proof (Hl' x ltac:(set_solver)).
      assert (0 <= foldr Z.add 0 l) by (apply IH; set_solver). lia. }
    unfold wrap64 at 2. rewrite Z.mod_small by lia.
    rewrite IH; [lia|lia|set_solver|lia]. }
  intros Hl Hlt. by rewrite Hgen.
Qed.
