(* ===== verification/ObjectStore.v ===== *)
(** * The object-store wrapper (rust/src/slatedb_object_store.rs)

    [SlateDbObjectStore] implements the trait [ObjectStore] over OpenDAL's
    implementation of it, a parameter: it forwards every call and corrects the
    error of a conditional get, where a failed "none match" or "modified since"
    condition is to be reported as "not modified". *)

From S2P Require Import Prelude.

#[local] Open Scope list_scope.

(** ** The crate object_store *)

(** The variants of [object_store::Error] the wrapper tells apart. *)
Inductive ObjectStoreError :=
  | Precondition (path source : string)
  | NotModified (path source : string)
  | OtherStoreError (display : string).

(** The conditions of [GetOptions]; [get_rest] stands for its other fields. *)
Record GetOptions (Rest : Type) := {
  if_match : option string;
  if_none_match : option string;
  if_modified_since : option Z;
  if_unmodified_since : option Z;
  get_rest : Rest
}.
Arguments if_match {Rest}.
Arguments if_none_match {Rest}.
Arguments if_modified_since {Rest}.
Arguments if_unmodified_since {Rest}.
Arguments get_rest {Rest}.

(** The types the wrapper passes through. *)
Class StoreTypes := {
  Path : Type;
  PutPayload : Type;
  PutOptions : Type;
  PutResult : Type;
  PutMultipartOptions : Type;
  MultipartUpload : Type;
  GetRest : Type;
  GetResult : Type;
  PathStream : Type;
  MetaStream : Type;
  ListResult : Type;
  CopyOptions : Type
}.

(** The trait [ObjectStore]. *)
Class ObjectStore `{StoreTypes} (W S : Type) := {
  put_opts : S -> Path -> PutPayload -> PutOptions -> M ObjectStoreError W PutResult;
  put_multipart_opts : S -> Path -> PutMultipartOptions -> M ObjectStoreError W MultipartUpload;
  get_opts : S -> Path -> GetOptions GetRest -> M ObjectStoreError W GetResult;
  delete_stream : S -> PathStream -> W -> PathStream * W;
  list_objects : S -> option Path -> W -> MetaStream * W;
  list_with_delimiter : S -> option Path -> M ObjectStoreError W ListResult;
  copy_opts : S -> Path -> Path -> CopyOptions -> M ObjectStoreError W unit
}.

(** ** The wrapper *)

Record SlateDbObjectStore (S : Type) := { inner : S }.
Arguments inner {S}.

Definition map_conditional_get_result {A} (result : res ObjectStoreError A) (not_modified : bool)
    : res ObjectStoreError A :=
  match result with
  | Err (Precondition path source) =>
      if not_modified then Err (NotModified path source) else result
  | result => result
  end.

(** Only negative conditions are set. *)
Definition negative_conditions {Rest} (options : GetOptions Rest) : bool :=
  bool_decide (if_match options = None) && bool_decide (if_unmodified_since options = None)
  && (bool_decide (is_Some (if_none_match options))
      || bool_decide (is_Some (if_modified_since options))).

#[global] Instance slatedb_object_store `{StoreTypes} {W S : Type} `{!ObjectStore W S}
    : ObjectStore W (SlateDbObjectStore S) := {|
    put_opts self location payload options := put_opts (inner self) location payload options;
    put_multipart_opts self location options := put_multipart_opts (inner self) location options;
    get_opts self location options :=
      let not_modified := negative_conditions options in
      fun w =>
        let '(result, w') := get_opts (inner self) location options w in
        (map_conditional_get_result result not_modified, w');
    delete_stream self locations := delete_stream (inner self) locations;
    list_objects self prefix := list_objects (inner self) prefix;
    list_with_delimiter self prefix := list_with_delimiter (inner self) prefix;
    copy_opts self from to options := copy_opts (inner self) from to options
  |}.

(** ** The contract of a conditional get *)

Inductive Condition := IfMatch | IfNoneMatch | IfModifiedSince | IfUnmodifiedSince.

(** The conditions a request sets. *)
Definition conditions {Rest} (options : GetOptions Rest) : list Condition :=
  match if_match options with Some _ => [IfMatch] | None => [] end ++
  match if_none_match options with Some _ => [IfNoneMatch] | None => [] end ++
  match if_modified_since options with Some _ => [IfModifiedSince] | None => [] end ++
  match if_unmodified_since options with Some _ => [IfUnmodifiedSince] | None => [] end.

(** The error the trait documents for a condition that does not hold; it does
    so for each condition alone, whatever is set beside it. *)
Definition negative (c : Condition) : bool :=
  match c with IfNoneMatch | IfModifiedSince => true | IfMatch | IfUnmodifiedSince => false end.
Definition documented_error (c : Condition) (path source : string) : ObjectStoreError :=
  if negative c then NotModified path source else Precondition path source.

(** The test of the code, for a request that sets a condition. *)
Lemma negative_conditions_all {Rest} (options : GetOptions Rest) failed :
  failed ∈ conditions options ->
  negative_conditions options = forallb negative (conditions options).
Proof.
  destruct options as [m n ms us r]. unfold negative_conditions, conditions. cbn.
  destruct m, n, ms, us; cbn; try done. by intros ?%not_elem_of_nil.
Qed.

Section contract.
Context `{StoreTypes} {W S : Type} `{!ObjectStore W S}.

End contract.

(** ** At a concrete input *)

(** A store whose objects never meet a condition. *)
#[local] Instance ex_types : StoreTypes := {|
  Path := string; PutPayload := unit; PutOptions := unit; PutResult := unit;
  PutMultipartOptions := unit; MultipartUpload := unit; GetRest := unit; GetResult := unit;
  PathStream := unit; MetaStream := unit; ListResult := unit; CopyOptions := unit |}.
#[local] Instance ex_store : ObjectStore unit unit := {|
  put_opts _ _ _ _ := ret tt; put_multipart_opts _ _ _ := ret tt;
  get_opts _ path _ := fun w => (Err (Precondition path "condition failed"), w);
  delete_stream _ s w := (s, w); list_objects _ _ w := (tt, w);
  list_with_delimiter _ _ := ret tt; copy_opts _ _ _ _ := ret tt |}.
Definition ex_options : GetOptions unit :=
  {| if_match := None; if_none_match := Some "etag"%string; if_modified_since := None;
     if_unmodified_since := None; get_rest := tt |}.

Definition ex_path : @Path ex_types := "manifest"%string.
Definition ex_wrapper : SlateDbObjectStore unit := {| inner := tt |}.

(** A failed "none match" alone, and beside an "if match". *)
Definition ex_mixed : GetOptions unit :=
  {| if_match := Some "etag"%string; if_none_match := Some "etag"%string; if_modified_since := None;
     if_unmodified_since := None; get_rest := tt |}.

