(* ===== verification/FileSystem.v ===== *)
(** * The filesystem (rust/src/fs.rs): operations

    A [SlateDbFileSystem] keeps one database per group of files: a database
    file and its companions.  The map of open clients is behind a mutex and
    each client behind its own, so the operations on one group run one after
    the other; a model operation runs alone, and updates the client in the
    map where the code updates it through the shared [Arc<Mutex<_>>];
    ClientTasks.v lets the calls on the clients interleave.
    OpenDAL operators and SlateDB's builders are parameters. *)

From S2P Require Import Prelude RustStd Error Flags SlateDb FileMetadata FileHandle.
From S2P Require Import DatabaseMetadata Cache.

#[local] Open Scope string_scope.
#[local] Open Scope list_scope.
#[local] Open Scope Z_scope.

Definition PREFIX : list byte := bytes_of "duckdb_objfs:".
Definition NAME : string := "SlateDBFileSystem".
Definition DATABASE_COMPANION_SUFFIXES : list (list byte) :=
  [bytes_of ".wal"; bytes_of ".wal.checkpoint"; bytes_of ".wal.recovery"].

(** ** Free functions *)

(** [value.bytes().fold(offset_basis, |hash, byte| ...)]. *)
Definition fnv_step (hash : Z) (b : byte) : Z :=
  wrap64 (Z.lxor hash (byte_val b) * 0x100000001b3).
Definition stable_hash (value : list byte) : Z := foldl fnv_step 0xcbf29ce484222325 value.

(** The loop over the suffixes. *)
Fixpoint strip_companion (suffixes : list (list byte)) (path : list byte) : list byte :=
  match suffixes with
  | [] => path
  | suffix :: suffixes =>
      match strip_suffix path suffix with
      | Some database =>
          if negb (bool_decide (database = [])) && negb (ends_with_byte database byte_slash)
          then database
          else strip_companion suffixes path
      | None => strip_companion suffixes path
      end
  end.
Definition database_group (path : list byte) : list byte :=
  strip_companion DATABASE_COMPANION_SUFFIXES path.

Definition filesystem_closed : Error := invalid_argument unknown_location "filesystem is closed".

(** [str::contains]. *)
Fixpoint contains (l s : list byte) : bool :=
  starts_with l s || match l with [] => false | _ :: l => contains l s end.

(** ** The state *)

Record SlateDbClient (Db Reader : Type) := {
  read_write : option Db;
  reader : option Reader
}.
Arguments read_write {Db Reader}.
Arguments reader {Db Reader}.
Arguments Build_SlateDbClient {Db Reader}.

(** [Store]: the object store over OpenDAL; [CacheT]: the shared block cache;
    [Recorder] and [Metrics]: references to the shared statistics. *)
Record SlateDbFileSystem (Db Reader Store CacheT Recorder Metrics : Type) := {
  database_path : list byte;
  store_location : list byte;
  object_store : Store;
  cache_config : CacheConfig;
  db_cache : option CacheT;
  databases : gmap (list byte) (SlateDbClient Db Reader);
  closed : bool;
  cache_metrics : Recorder;
  io_metrics : Metrics
}.
Arguments database_path {Db Reader Store CacheT Recorder Metrics}.
Arguments store_location {Db Reader Store CacheT Recorder Metrics}.
Arguments object_store {Db Reader Store CacheT Recorder Metrics}.
Arguments cache_config {Db Reader Store CacheT Recorder Metrics}.
Arguments db_cache {Db Reader Store CacheT Recorder Metrics}.
Arguments databases {Db Reader Store CacheT Recorder Metrics}.
Arguments closed {Db Reader Store CacheT Recorder Metrics}.
Arguments cache_metrics {Db Reader Store CacheT Recorder Metrics}.
Arguments io_metrics {Db Reader Store CacheT Recorder Metrics}.

(** What the crate tells [Db::builder] and [DbReader::builder]. *)
Inductive DbReaderMode := ManagedCheckpoint.
Record Builder (Store CacheT Recorder : Type) := {
  builder_path : list byte;
  builder_store : Store;
  builder_cache_options : ObjectStoreCacheOptions;
  builder_recorder : Recorder;
  (** [with_db_cache(cache, id)]; [None] is [with_db_cache_disabled()]. *)
  builder_db_cache : option (CacheT * Z)
}.
Arguments builder_path {Store CacheT Recorder}.
Arguments builder_store {Store CacheT Recorder}.
Arguments builder_cache_options {Store CacheT Recorder}.
Arguments builder_recorder {Store CacheT Recorder}.
Arguments builder_db_cache {Store CacheT Recorder}.

(** Opening and closing databases. *)
Class SlateDbOpen (W Db Reader Store CacheT Recorder : Type) := {
  db_build : Builder Store CacheT Recorder -> M slatedb_error W Db;
  reader_build : DbReaderMode -> Builder Store CacheT Recorder -> M slatedb_error W Reader;
  db_close : Db -> M slatedb_error W unit;
  reader_close : Reader -> M slatedb_error W unit;
  cache_close : CacheT -> M slatedb_error W unit
}.

(** ** Methods *)

Section filesystem.
Context {W Db Txn Reader Store CacheT Recorder Metrics : Type}.
Context `{SlateDb W Db Txn} `{DbReadOps W Db} `{DbReadOps W Txn} `{DbReadOps W Reader}.
Context `{SlateDbOpen W Db Reader Store CacheT Recorder} `{CacheLib CacheT}.
Context `{Clock W} `{MetadataCodec}.
#[local] Abbreviation FS := (SlateDbFileSystem Db Reader Store CacheT Recorder Metrics).
#[local] Abbreviation Client := (SlateDbClient Db Reader).

Definition default_client : Client := {| read_write := None; reader := None |}.

Definition set_databases (self : FS) (dbs : gmap (list byte) Client) : FS :=
  {| database_path := database_path self; store_location := store_location self;
     object_store := object_store self; cache_config := cache_config self;
     db_cache := db_cache self; databases := dbs; closed := closed self;
     cache_metrics := cache_metrics self; io_metrics := io_metrics self |}.

Definition set_closed (self : FS) : FS :=
  {| database_path := database_path self; store_location := store_location self;
     object_store := object_store self; cache_config := cache_config self;
     db_cache := db_cache self; databases := databases self; closed := true;
     cache_metrics := cache_metrics self; io_metrics := io_metrics self |}.
Definition take_db_cache (self : FS) : FS :=
  {| database_path := database_path self; store_location := store_location self;
     object_store := object_store self; cache_config := cache_config self;
     db_cache := None; databases := databases self; closed := closed self;
     cache_metrics := cache_metrics self; io_metrics := io_metrics self |}.

Definition slatedb_path (self : FS) (group : list byte) : list byte :=
  let group := replace_byte (replace_byte group byte_percent (bytes_of "%25"))
  byte_slash (bytes_of "%2F") in
  database_path self ++ bytes_of "/" ++ group.

Definition db_cache_id (self : FS) (group : list byte) : Z :=
  stable_hash (store_location self ++ bytes_of "|" ++ slatedb_path self group).

(** The builder of a writer or reader of a group. *)
Definition builder (self : FS) (group : list byte) : Builder Store CacheT Recorder :=
  {| builder_path := slatedb_path self group;
     builder_store := object_store self;
     builder_cache_options := object_store_cache_options (cache_config self);
     builder_recorder := cache_metrics self;
     builder_db_cache := match db_cache self with
                         | Some cache => Some (cache, db_cache_id self group)
                         | None => None
                         end |}.

Definition open_writer (self : FS) (group : list byte) : M Error W Db :=
  slate (db_build (builder self group)).

Definition never_written (error : slatedb_error) : bool :=
  match slatedb_kind error with
  | KindData => contains (bytes_of (slatedb_display error))
        (bytes_of "failed to find latest transactional object")
  | _ => false
  end.

(** [None] if the database has never been written. *)
Definition open_reader (self : FS) (group : list byte) : M Error W (option Reader) :=
  fun w =>
    match reader_build ManagedCheckpoint (builder self group) w with
    | (Ok reader, w') => (Ok (Some reader), w')
    | (Err error, w') =>
        if never_written error then (Ok None, w')
        else (raise (from_slatedb_error unknown_location error), w')
    | (Panic p, w') => (Panic p, w')
    end.

(** The client of a group, a default one on first use. *)
Definition client_for_group (group : list byte) : M Error FS Client :=
  let! self := get_state in
  match databases self !! group with
  | Some client => ret client
  | None =>
      let! _ := put_state (set_databases self (<[group := default_client]> (databases self))) in
      ret default_client
  end.

(** An assignment through the lock of the client of a group. *)
Definition put_client (group : list byte) (client : Client) : M Error FS unit :=
  modify (fun self => set_databases self (<[group := client]> (databases self))).

Definition read_client (path : list byte) : M Error (FS * W) Client :=
  let! self := on_fst get_state in
  if closed self then lift (Err filesystem_closed)
  else
    let group := database_group path in
    let! client := on_fst (client_for_group group) in
    if bool_decide (is_Some (read_write client)) || bool_decide (is_Some (reader client))
    then ret client
    else
      let! found := on_snd (open_reader self group) in
      let! r := lift (ok_or (file_not_found unknown_location (text path)) found) in
      let client := {| read_write := read_write client; reader := Some r |} in
      let! _ := on_fst (put_client group client) in
      ret client.

Definition write_db (path : list byte) (create : bool) : M Error (FS * W) Db :=
  let! self := on_fst get_state in
  if closed self then lift (Err filesystem_closed)
  else
    let group := database_group path in
    let! client := on_fst (client_for_group group) in
    match read_write client with
    | Some db => ret db
    | None =>
        let! client :=
          if negb create && negb (bool_decide (is_Some (reader client))) then
            let! found := on_snd (open_reader self group) in
            let! r := lift (ok_or (file_not_found unknown_location (text path)) found) in
            let client := {| read_write := read_write client; reader := Some r |} in
            let! _ := on_fst (put_client group client) in
            ret client
          else ret client in
        let! db := on_snd (open_writer self group) in
        let! _ := on_fst (put_client group {| read_write := Some db; reader := reader client |}) in
        ret db
    end.

Definition open_write_handle (path : list byte) (flags : FileOpenFlags)
    : M Error (FS * W) (SlateFileHandle Db Reader) :=
  let! db := write_db path (create flags) in
  let! found := on_snd (prepare_file_for_open {| DatabaseMetadata.client := db |} path
                        (create flags) (truncate_existing flags)) in
  lift (FileHandle.new (ReadWrite db) found.1 found.2 flags).

Definition open_read_handle (path : list byte) (flags : FileOpenFlags)
    : M Error (FS * W) (SlateFileHandle Db Reader) :=
  let! client := read_client path in
  match read_write client with
  | Some db =>
      let! found := on_snd (DatabaseMetadata.open_file {| DatabaseMetadata.client := db |} path) in
      lift (FileHandle.new (ReadWrite db) found.1 found.2 flags)
  | None =>
      match reader client with
      | Some r =>
          let! found := on_snd (DatabaseMetadata.open_file {| DatabaseMetadata.client := r |} path) in
          lift (FileHandle.new (ReadOnly r) found.1 found.2 flags)
      | None => lift (Panic "read client must contain a reader or writer")
      end
  end.

Definition open_file (path : list byte) (flags : FileOpenFlags)
    : M Error (FS * W) (SlateFileHandle Db Reader) :=
  let! _ := lift (validate flags) in
  if Flags.write flags then open_write_handle path flags else open_read_handle path flags.

Definition file_exists (path : list byte) : M Error (FS * W) bool :=
  fun s =>
    match read_client path s with
    | (Ok client, s') =>
        match read_write client, reader client with
        | Some db, _ =>
            on_snd (DatabaseMetadata.file_exists {| DatabaseMetadata.client := db |} path) s'
        | None, Some r =>
            on_snd (DatabaseMetadata.file_exists {| DatabaseMetadata.client := r |} path) s'
        | None, None => (Panic "read client must contain a reader or writer", s')
        end
    | (Err (FileNotFound _), s') => (Ok false, s')
    | (Err error, s') => (Err error, s')
    | (Panic p, s') => (Panic p, s')
    end.

Definition remove_file (path : list byte) : M Error (FS * W) unit :=
  let! db := write_db path false in
  on_snd (DatabaseMetadata.remove_file {| DatabaseMetadata.client := db |} path).

Definition move_file (source target : list byte) : M Error (FS * W) unit :=
  if negb (bool_decide (database_group source = database_group target)) then
    lift (Err (invalid_argument unknown_location
               ("cannot move '" +:+ text source +:+ "' to '" +:+ text target
                +:+ "': files of different databases are stored separately")))
  else
    let! db := write_db source false in
    on_snd (DatabaseMetadata.move_file {| DatabaseMetadata.client := db |} source target).

Definition name (self : FS) : string := NAME.
Definition can_handle (self : FS) (path : list byte) : bool := starts_with path PREFIX.

(** *** close *)

(** [if let (Ok(()), Err(error)) = (&result, call.await) { result = Err(error.into()) }]:
    the call runs in any case, the first error is kept.  The state of the loop
    is [result] and the world. *)
Definition keep_first (call : M slatedb_error W unit) : M Error (Result unit * W) unit :=
  fun '(result, w) =>
    match call w with
    | (Panic p, w') => (Panic p, (result, w'))
    | (r, w') =>
        match result, r with
        | Ok _, Err _ => (Ok tt, (try_from (from_slatedb_error unknown_location) r, w'))
        | _, _ => (Ok tt, (result, w'))
        end
    end.

Definition close_client (client : Client) : M Error (Result unit * W) unit :=
  let! _ := match read_write client with
            | Some db => keep_first (db_close db)
            | None => ret tt
            end in
  match reader client with
  | Some r => keep_first (reader_close r)
  | None => ret tt
  end.

(** [into_values] yields the clients of the map in an order of its own. *)
Context (into_values : gmap (list byte) Client -> list Client).

(** A step of the shutdown, from the result so far to the next one. *)
Definition closing (result : Result unit) (step : M Error (Result unit * W) unit)
    : M Error (FS * W) (Result unit) :=
  on_snd (with_local result (let! _ := step in on_fst get_state)).

Definition close : M Error (FS * W) unit :=
  let! self := on_fst get_state in
  let clients := into_values (databases self) in
  let! _ := on_fst (put_state (set_closed (set_databases self ∅))) in
  let! result := closing (Ok tt) (for_each clients close_client) in
  let! _ := on_fst (modify take_db_cache) in
  let! result := closing result (match db_cache self with
                                 | Some cache => keep_first (cache_close cache)
                                 | None => ret tt
                                 end) in
  lift result.
End filesystem.

(** ** Opening a filesystem *)

(** The calls on OpenDAL's S3 builder, in order. *)
Inductive S3Call :=
  | S3Bucket (bucket : list byte)
  | S3DisableConfigLoad
  | S3DisableEc2Metadata
  | S3Root (root : list byte)
  | S3Endpoint (endpoint : list byte)
  | S3Region (region : list byte)
  | S3AccessKeyId (key_id : list byte)
  | S3SecretAccessKey (secret : list byte)
  | S3SessionToken (token : list byte)
  | S3SkipSignature
  | S3EnableVirtualHostStyle.

(** The OpenDAL services the crate builds operators for. *)
Inductive Service :=
  | Memory
  | Fs (root atomic_write_dir : list byte)
  | S3 (calls : list S3Call).

Record S3StorageConfig := {
  bucket : list byte;
  root : option (list byte);
  endpoint : option (list byte);
  region : option (list byte);
  key_id : option (list byte);
  secret : option (list byte);
  session_token : option (list byte);
  use_ssl : bool;
  virtual_host_style : bool
}.

(** OpenDAL and the process around it.  [opendal_new] is [Operator::new],
    [layered_store] puts the metrics layer and the object-store wrapper over
    an operator, [new_metrics] and [new_recorder] are fresh statistics. *)
Class Opendal (W Operator Store Recorder Metrics : Type) := {
  opendal_new : Service -> res string Operator;
  info_scheme : Operator -> list byte;
  info_name : Operator -> list byte;
  info_root : Operator -> list byte;
  layered_store : Operator -> Metrics -> Store;
  new_recorder : W -> Recorder * W;
  new_metrics : W -> Metrics * W;
  create_dir_all : list byte -> M io_error W unit
}.

Section opening.
Context {W Db Reader Operator Store CacheT Recorder Metrics : Type}.
Context `{Opendal W Operator Store Recorder Metrics} `{CacheLib CacheT}.
#[local] Abbreviation FS := (SlateDbFileSystem Db Reader Store CacheT Recorder Metrics).

Definition open_with_cache_config (path : list byte) (operator : Operator) (config : CacheConfig)
    : M Error W FS :=
  if bool_decide (path = []) then
    lift (Err (invalid_argument unknown_location "database path must not be empty"))
  else fun w =>
    let location := info_scheme operator ++ bytes_of "://" ++ info_name operator
    ++ info_root operator in
    let '(metrics, w) := new_metrics w in
    let '(recorder, w) := new_recorder w in
    (Ok {| database_path := path; store_location := location;
           object_store := layered_store operator metrics; cache_config := config;
           db_cache := build_db_cache config; databases := ∅; closed := false;
           cache_metrics := recorder; io_metrics := metrics |}, w).

Definition open (path : list byte) (operator : Operator) : M Error W FS :=
  open_with_cache_config path operator default_cache_config.

(** The scheme added to an endpoint that has none. *)
Definition endpoint_url (config : S3StorageConfig) (endpoint : list byte) : list byte :=
  if contains endpoint (bytes_of "://") then endpoint
  else if use_ssl config then bytes_of "https://" ++ endpoint
  else bytes_of "http://" ++ endpoint.

Definition s3_builder (config : S3StorageConfig) : list S3Call :=
  let calls := [S3Bucket (bucket config); S3DisableConfigLoad; S3DisableEc2Metadata] in
  let calls := match root config with Some root => calls ++ [S3Root root] | None => calls end in
  let calls := match endpoint config with
               | Some endpoint => calls ++ [S3Endpoint (endpoint_url config endpoint)]
               | None => calls
               end in
  let calls := match region config with
               | Some region => calls ++ [S3Region region]
               | None => calls
               end in
  let calls :=
    match key_id config, secret config with
    | Some key_id, Some secret =>
        let calls := calls ++ [S3AccessKeyId key_id; S3SecretAccessKey secret] in
        match session_token config with
        | Some session_token => calls ++ [S3SessionToken session_token]
        | None => calls
        end
    | _, _ => calls ++ [S3SkipSignature]
    end in
  if virtual_host_style config then calls ++ [S3EnableVirtualHostStyle] else calls.

(** [Operator::new(service).map_err(...)]. *)
Definition new_operator (service : Service) (msg : string) : Result Operator :=
  try_from (io_with_source unknown_location msg) (opendal_new service).

Definition build_s3_operator (config : S3StorageConfig) : Result Operator :=
  if bool_decide (bucket config = []) then
    Err (invalid_argument unknown_location "S3 bucket must not be empty")
  else if negb (eqb (bool_decide (is_Some (key_id config))) (bool_decide (is_Some (secret config))))
  then Err (invalid_argument unknown_location "S3 key ID and secret must be provided together")
  else if bool_decide (is_Some (session_token config)) && bool_decide (key_id config = None)
  then Err (invalid_argument unknown_location "S3 session token requires a key ID and secret")
  else new_operator (S3 (s3_builder config)) "failed to initialize OpenDAL S3 storage".

Definition open_s3_with_cache_config (path : list byte) (config : S3StorageConfig)
    (cache_config : CacheConfig) : M Error W FS :=
  let! operator := lift (build_s3_operator config) in
  open_with_cache_config path operator cache_config.
Definition open_s3 (path : list byte) (config : S3StorageConfig) : M Error W FS :=
  let! operator := lift (build_s3_operator config) in
  open path operator.

Definition open_in_memory_with_cache_config (path : list byte) (config : CacheConfig)
    : M Error W FS :=
  let! operator := lift (new_operator Memory "failed to initialize OpenDAL memory storage") in
  open_with_cache_config path operator config.
Definition open_in_memory (path : list byte) : M Error W FS :=
  open_in_memory_with_cache_config path default_cache_config.

(** [Path::join] of a relative path. *)
Definition path_join (root : list byte) (name : list byte) : list byte :=
  if bool_decide (root = []) || ends_with_byte root byte_slash then root ++ name
  else root ++ bytes_of "/" ++ name.

(** [std::path::Path]s are bytes; [to_str] succeeds on valid UTF-8. *)
Definition open_local_with_cache_config (path root : list byte) (config : CacheConfig)
    : M Error W FS :=
  if negb (utf8_valid root) then
    lift (Err (invalid_argument unknown_location
               ("local OpenDAL root is not valid UTF-8: " +:+ text root)))
  else
    let! _ := fun w =>
      let '(r, w') := create_dir_all root w in (try_from (from_io_error unknown_location) r, w') in
    let atomic_write_dir := path_join root (bytes_of ".atomic-write") in
    if negb (utf8_valid atomic_write_dir) then
      lift (Err (invalid_argument unknown_location
                 ("local OpenDAL atomic write directory is not valid UTF-8: "
                  +:+ text atomic_write_dir)))
    else
      let! operator := lift (new_operator (Fs root atomic_write_dir)
                             ("failed to initialize OpenDAL storage at " +:+ text root)) in
      open_with_cache_config path operator config.
Definition open_local (path root : list byte) : M Error W FS :=
  open_local_with_cache_config path root default_cache_config.
End opening.
