(* ===== verification/VolumeSpec.v ===== *)
(** * What a filesystem is: the abstract specification of a volume

    A volume maps paths to the bytes last synced there, and numbers the open
    handles, each a file of FileSpec.v of its own.  Commands open, use and
    close handles, and remove, move and look up paths.  VolumeRefinement.v
    proves that rust/src/fs.rs, its databases and its handles implement this
    specification. *)

From S2P Require Import Prelude Error Flags FileSpec FileSystem.

Record OpenFile := {
  open_path : list byte;
  open_file : File;
  (** Opened for reading when its group was not known to have a writer. *)
  open_early : bool
}.

Record Volume := {
  files : gmap (list byte) (list byte);
  handles : gmap nat OpenFile;
  (** The groups a file was opened in for writing. *)
  written : gset (list byte)
}.

Inductive Cmd :=
  | CmdOpen (n : nat) (path : list byte) (flags : FileOpenFlags)
  | CmdOp (n : nat) (o : Op)
  | CmdClose (n : nat)
  | CmdRemove (path : list byte)
  | CmdMove (source target : list byte)
  | CmdExists (path : list byte).

(** What the caller of a command sees. *)
Inductive Out :=
  | OutObs (x : Obs)
  | OutBool (b : bool).

Definition set_files (v : Volume) (m : gmap (list byte) (list byte)) : Volume :=
  {| files := m; handles := handles v; written := written v |}.
Definition set_handles (v : Volume) (t : gmap nat OpenFile) : Volume :=
  {| files := files v; handles := t; written := written v |}.
Definition add_written (v : Volume) (g : list byte) : Volume :=
  {| files := files v; handles := handles v; written := {[g]} ∪ written v |}.

(** The bytes an open starts from; [None] if the path is refused. *)
Definition open_bytes (v : Volume) (path : list byte) (flags : FileOpenFlags)
    : option (list byte) :=
  match files v !! path with
  | Some l => Some (if Flags.write flags && truncate_existing flags then [] else l)
  | None => if Flags.write flags && create flags then Some [] else None
  end.

Definition fresh_file (l : list byte) (flags : FileOpenFlags) : File :=
  {| bytes := l; pos := if append flags then zlen l else 0; readable := Flags.read flags;
     writable := Flags.write flags; appending := append flags |}.

Definition spec_open (n : nat) (path : list byte) (flags : FileOpenFlags) (v : Volume)
    : Obs * Volume :=
  let g := database_group path in
  match open_bytes v path flags with
  | None => (OError CodeFileNotFound, v)
  | Some l =>
      let e := {| open_path := path; open_file := fresh_file l flags;
                  open_early := negb (Flags.write flags) && bool_decide (g ∉ written v) |} in
      let v := set_handles (set_files v (<[path := l]> (files v))) (<[n := e]> (handles v)) in
      (OUnit, if Flags.write flags then add_written v g else v)
  end.

(** A sync of a handle: the path holds the bytes of the handle. *)
Definition spec_sync (e : OpenFile) (v : Volume) : Volume :=
  set_files v (<[open_path e := bytes (open_file e)]> (files v)).

Definition spec_op (n : nat) (o : Op) (v : Volume) : Obs * Volume :=
  match handles v !! n with
  | None => (OUnit, v)
  | Some e =>
      let '(x, f) := spec_step o (open_file e) in
      let e := {| open_path := open_path e; open_file := f; open_early := open_early e |} in
      let v := set_handles v (<[n := e]> (handles v)) in
      (x, if bool_decide (o = OpSync) then spec_sync e v else v)
  end.

Definition spec_close (n : nat) (v : Volume) : Obs * Volume :=
  match handles v !! n with
  | None => (OUnit, v)
  | Some e => (OUnit, spec_sync e (set_handles v (delete n (handles v))))
  end.

Definition spec_remove (path : list byte) (v : Volume) : Obs * Volume :=
  match files v !! path with
  | None => (OError CodeFileNotFound, v)
  | Some _ => (OUnit, set_files v (delete path (files v)))
  end.

Definition spec_move (source target : list byte) (v : Volume) : Obs * Volume :=
  if negb (bool_decide (database_group source = database_group target))
  then (OError CodeInvalidArgument, v)
  else match files v !! source with
       | None => (OError CodeFileNotFound, v)
       | Some l => (OUnit, set_files v (<[target := l]> (delete source (files v))))
       end.

Definition spec_cmd (c : Cmd) (v : Volume) : Out * Volume :=
  match c with
  | CmdOpen n path flags => let '(x, v) := spec_open n path flags v in (OutObs x, v)
  | CmdOp n o => let '(x, v) := spec_op n o v in (OutObs x, v)
  | CmdClose n => let '(x, v) := spec_close n v in (OutObs x, v)
  | CmdRemove path => let '(x, v) := spec_remove path v in (OutObs x, v)
  | CmdMove source target => let '(x, v) := spec_move source target v in (OutObs x, v)
  | CmdExists path => (OutBool (bool_decide (is_Some (files v !! path))), v)
  end.

Fixpoint spec_cmds (cs : list Cmd) (v : Volume) : list Out * Volume :=
  match cs with
  | [] => ([], v)
  | c :: cs =>
      let '(x, v) := spec_cmd c v in
      let '(xs, v) := spec_cmds cs v in
      (x :: xs, v)
  end.

(** ** The programs the specification covers *)

(** No handle is open on the path. *)
Definition closed_path (v : Volume) (path : list byte) : Prop :=
  map_Forall (fun _ e => open_path e <> path) (handles v).

(** A group may be written when it is known to have a writer, or when no
    handle reads it that may go through a reader: what such a handle shows
    after a writer appears is up to SlateDB. *)
Definition may_write (v : Volume) (g : list byte) : Prop :=
  g ∈ written v \/
  map_Forall (fun _ e => open_early e = true -> database_group (open_path e) <> g) (handles v).

(** One handle per path, valid flags, arguments in range. *)
Definition admissible (c : Cmd) (v : Volume) : Prop :=
  match c with
  | CmdOpen n path flags =>
      handles v !! n = None /\ path <> [] /\ validate flags = Ok tt /\ closed_path v path /\
      (Flags.write flags = true -> may_write v (database_group path))
  | CmdOp n o => is_Some (handles v !! n) /\ op_u64 o
  | CmdClose n => is_Some (handles v !! n)
  | CmdRemove path => path <> [] /\ closed_path v path /\ may_write v (database_group path)
  | CmdMove source target =>
      source <> [] /\ target <> [] /\ source <> target /\ closed_path v source /\
      closed_path v target /\ may_write v (database_group source)
  | CmdExists path => path <> []
  end.

(** Every command is admissible where the specification has it run. *)
Fixpoint admissible_run (cs : list Cmd) (v : Volume) : Prop :=
  match cs with
  | [] => True
  | c :: cs => admissible c v /\ admissible_run cs (spec_cmd c v).2
  end.

#[global] Instance op_u64_dec o : Decision (op_u64 o).
Proof. destruct o; cbn; unfold is_u64; apply _. Defined.
#[global] Instance validate_ok_dec flags : Decision (validate flags = Ok tt).
Proof.
  refine (match validate flags as r return Decision (r = Ok tt) with
          | Ok tt => left eq_refl | _ => right _ end); done.
Defined.
#[global] Instance may_write_dec v g : Decision (may_write v g).
Proof. unfold may_write. apply _. Defined.
#[global] Instance admissible_dec c v : Decision (admissible c v).
Proof. destruct c; cbn; unfold closed_path; apply _. Defined.
#[global] Instance admissible_run_dec cs v : Decision (admissible_run cs v).
Proof. revert v. induction cs as [|c cs IH]; intros v; cbn; apply _. Defined.
