(* ===== verification/GroupSpec.v ===== *)
(** * Names of databases: theorems about the free functions of FileSystem.v

    Which files share a database ([database_group]), where it is stored
    ([slatedb_path]: the escaping is injective and never nests one database
    in another) and how the shared cache tells databases apart
    ([stable_hash], 64-bit FNV-1a). *)

From S2P Require Import Prelude RustStd Error SlateDb Cache FileSystem.

(** ** Groups *)

(** A name a companion suffix can be removed from. *)
Definition valid_stem (d : list byte) : Prop := d <> [] /\ ends_with_byte d byte_slash = false.

Definition companion (p d : list byte) : Prop :=
  valid_stem d /\ exists s, s ∈ DATABASE_COMPANION_SUFFIXES /\ p = d ++ s.

Lemma valid_stem_bool d :
  negb (bool_decide (d = [])) && negb (ends_with_byte d byte_slash) = true <-> valid_stem d.
Proof.
  unfold valid_stem. rewrite andb_true_iff, !negb_true_iff, bool_decide_eq_false. done.
Qed.

(** The suffixes end in different bytes. *)
Lemma suffix_last s : s ∈ DATABASE_COMPANION_SUFFIXES -> s <> [].
Proof.
  unfold DATABASE_COMPANION_SUFFIXES. rewrite !elem_of_cons. by intros [->|[->|[->|?%elem_of_nil]]].
Qed.
Lemma suffix_unique s t d e :
  s ∈ DATABASE_COMPANION_SUFFIXES -> t ∈ DATABASE_COMPANION_SUFFIXES ->
  d ++ s = e ++ t -> s = t /\ d = e.
Proof.
  intros Hs Ht Heq.
  assert (s = t) as ->.
  { apply (f_equal last) in Heq. rewrite !last_app in Heq.
    unfold DATABASE_COMPANION_SUFFIXES in *. rewrite !elem_of_cons in *.
    destruct Hs as [->|[->|[->|?%elem_of_nil]]], Ht as [->|[->|[->|?%elem_of_nil]]];
      vm_compute in Heq; done. }
  split; [done|]. by apply app_inv_tail in Heq.
Qed.

Lemma companion_unique p d e : companion p d -> companion p e -> d = e.
Proof.
  intros (_ & s & Hs & ->) (_ & t & Ht & Heq). by apply suffix_unique in Heq as [_ ?].
Qed.

Lemma strip_companion_some l p d s :
  l ⊆ DATABASE_COMPANION_SUFFIXES -> s ∈ l -> valid_stem d -> p = d ++ s -> strip_companion l p = d.
Proof.
  induction l as [|t l IH]; intros Hl Hs Hd ->; [by apply elem_of_nil in Hs|].
  cbn [strip_companion]. destruct (strip_suffix (d ++ s) t) as [e|] eqn:He.
  - apply strip_suffix_Some in He.
    destruct (suffix_unique s t d e) as [-> ->]; [set_solver..|done|].
    by rewrite (proj2 (valid_stem_bool e) Hd).
  - apply IH; [set_solver| |done|done]. apply elem_of_cons in Hs as [->|Hs]; [|done].
    assert (Hsome : strip_suffix (d ++ t) t = Some d) by (by apply strip_suffix_Some). congruence.
Qed.

Lemma strip_companion_none l p :
  (forall s d, s ∈ l -> valid_stem d -> p <> d ++ s) -> strip_companion l p = p.
Proof.
  induction l as [|t l IH]; intros Hl; [done|]. cbn [strip_companion].
  destruct (strip_suffix p t) as [e|] eqn:He; [|apply IH; set_solver].
  apply strip_suffix_Some in He.
  destruct (negb _ && negb _) eqn:Hv; [|apply IH; set_solver].
  apply valid_stem_bool in Hv. destruct (Hl t e); [set_solver|done|done].
Qed.

Lemma group_companion p d : companion p d -> database_group p = d.
Proof. intros (Hd & s & Hs & ->). by eapply strip_companion_some. Qed.

Lemma group_own p : (forall d, ~ companion p d) -> database_group p = p.
Proof. intros Hp. apply strip_companion_none. intros s d Hs Hd ->. apply (Hp d). split; [done|]. by exists s. Qed.

(** ** Escaping *)

Definition escape_byte (c : byte) : list byte :=
  if bool_decide (c = byte_percent) then bytes_of "%25"
  else if bool_decide (c = byte_slash) then bytes_of "%2F" else [c].
Definition escape (group : list byte) : list byte :=
  replace_byte (replace_byte group byte_percent (bytes_of "%25")) byte_slash (bytes_of "%2F").

Lemma escape_cons c l : escape (c :: l) = escape_byte c ++ escape l.
Proof.
  unfold escape, replace_byte. cbn [mbind list_bind]. rewrite bind_app. f_equal.
  unfold escape_byte. case_bool_decide; [done|]. cbn [mbind list_bind]. by rewrite app_nil_r.
Qed.

Lemma escape_inj l1 l2 : escape l1 = escape l2 -> l1 = l2.
Proof.
  revert l2. induction l1 as [|c1 l1 IH]; intros [|c2 l2]; [done|..].
  - rewrite escape_cons. unfold escape_byte. by repeat case_bool_decide.
  - rewrite escape_cons. unfold escape_byte. by repeat case_bool_decide.
  - rewrite !escape_cons. unfold escape_byte. intros Heq.
    repeat case_bool_decide; subst; cbn in Heq; simplify_eq; try (f_equal; by apply IH);
      exfalso; eauto.
Qed.

Lemma escape_no_slash l : byte_slash ∉ escape l.
Proof.
  induction l as [|c l IH]; [by apply not_elem_of_nil|]. rewrite escape_cons.
  rewrite not_elem_of_app. split; [|done]. unfold escape_byte.
  repeat case_bool_decide; [by apply (bool_decide_unpack _); vm_compute..|set_solver].
Qed.

(** ** Where a database is stored *)

Section path.
Context {Db Reader Store CacheT Recorder Metrics : Type}.
#[local] Abbreviation FS := (SlateDbFileSystem Db Reader Store CacheT Recorder Metrics).

Lemma slatedb_path_escape (self : FS) g :
  slatedb_path self g = database_path self ++ byte_slash :: escape g.
Proof. done. Qed.

Lemma slatedb_path_inj (self : FS) g1 g2 : slatedb_path self g1 = slatedb_path self g2 -> g1 = g2.
Proof.
  rewrite !slatedb_path_escape. intros Heq%app_inv_head. injection Heq as Heq. by apply escape_inj.
Qed.

(** No database is stored at a path below another one's. *)
Lemma slatedb_path_flat (self : FS) g1 g2 rest :
  slatedb_path self g1 <> slatedb_path self g2 ++ byte_slash :: rest.
Proof.
  rewrite !slatedb_path_escape, <-app_assoc. intros Heq%app_inv_head. injection Heq as Heq.
  apply (escape_no_slash g1). rewrite Heq. set_solver.
Qed.
End path.

(** ** FNV-1a *)

(** The multiplier has an inverse modulo 2^64. *)
Definition fnv_inverse : Z := 14886173955864302971.
Lemma fnv_multiplier_inv z : is_u64 z -> wrap64 (wrap64 (z * 0x100000001b3) * fnv_inverse) = z.
Proof.
  intros Hz. unfold wrap64. rewrite Zmult_mod_idemp_l, <-Z.mul_assoc, <-Zmult_mod_idemp_r.
  replace ((0x100000001b3 * fnv_inverse) mod 2 ^ 64) with 1 by (by vm_compute).
  rewrite Z.mul_1_r. by apply Z.mod_small.
Qed.

Lemma lxor_u64 h b : is_u64 h -> is_u64 (Z.lxor h (byte_val b)).
Proof.
  intros Hh. pose proof (byte_val_bounds b) as Hb.
  assert (Hsplit : forall z, is_u64 z <-> 0 <= z /\ Z.shiftr z 64 = 0).
  { intros z. unfold is_u64. rewrite Z.shiftr_div_pow2 by lia. split.
    - intros Hz. split; [lia|]. by apply Z.div_small.
    - intros [? Hz]. apply Z.div_small_iff in Hz; lia. }
  apply Hsplit. split.
  - apply Z.lxor_nonneg. unfold is_u64 in Hh. lia.
  - rewrite Z.shiftr_lxor. apply Hsplit in Hh as [_ ->].
    assert (is_u64 (byte_val b)) as [_ ->]%Hsplit by (unfold is_u64; lia). done.
Qed.

Lemma fnv_step_inj h1 h2 b1 b2 :
  is_u64 h1 -> is_u64 h2 -> fnv_step h1 b1 = fnv_step h2 b2 ->
  Z.lxor h1 (byte_val b1) = Z.lxor h2 (byte_val b2).
Proof.
  intros H1 H2 Heq. unfold fnv_step in Heq.
  rewrite <-(fnv_multiplier_inv (Z.lxor h1 _)), <-(fnv_multiplier_inv (Z.lxor h2 _))
    by (by apply lxor_u64). by rewrite Heq.
Qed.

Lemma fnv_step_u64 h b : is_u64 (fnv_step h b).
Proof. apply Z.mod_pos_bound. lia. Qed.

Lemma fnv_fold_u64 l h : is_u64 h -> is_u64 (foldl fnv_step h l).
Proof. revert h. induction l as [|b l IH]; intros h Hh; [done|]. apply IH, fnv_step_u64. Qed.

Lemma fnv_fold_inj l h1 h2 :
  is_u64 h1 -> is_u64 h2 -> foldl fnv_step h1 l = foldl fnv_step h2 l -> h1 = h2.
Proof.
  revert h1 h2. induction l as [|b l IH]; intros h1 h2 H1 H2 Heq; [done|].
  apply IH, fnv_step_inj in Heq; [|by try apply fnv_step_u64..].
  apply (f_equal (fun z => Z.lxor z (byte_val b))) in Heq.
  by rewrite !Z.lxor_assoc, !Z.lxor_nilpotent, !Z.lxor_0_r in Heq.
Qed.

Lemma stable_hash_byte p s a b :
  stable_hash (p ++ a :: s) = stable_hash (p ++ b :: s) -> a = b.
Proof.
  unfold stable_hash. rewrite !foldl_app. cbn [foldl]. intros Heq.
  apply fnv_fold_inj, fnv_step_inj in Heq; [|by try apply fnv_step_u64; apply fnv_fold_u64..].
  apply (f_equal (Z.lxor (foldl fnv_step 0xcbf29ce484222325 p))) in Heq.
  rewrite <-!Z.lxor_assoc, !Z.lxor_nilpotent, !Z.lxor_0_l in Heq. by apply (inj byte_val).
Qed.

(** ** Substrings *)

Lemma contains_iff l s : contains l s = true <-> exists a b, l = a ++ s ++ b.
Proof.
  induction l as [|c l IH]; cbn [contains]; rewrite orb_true_iff, starts_with_iff.
  - split.
    + intros [[k Hk]|?]; [by exists [], k|done].
    + intros (a & b & Heq). left. exists []. symmetry in Heq.
      apply app_eq_nil in Heq as [_ Heq]. by apply app_eq_nil in Heq as [-> _].
  - rewrite IH. split.
    + intros [[k Hk]|(a & b & ->)]; [by exists [], k|by exists (c :: a), b].
    + intros ([|c' a] & b & Heq); [left; by exists b|right]. injection Heq as -> ->. by exists a, b.
Qed.
