(* ===== verification/FileSystemSpec.v ===== *)
(** * What the filesystem does: theorems about FileSystem.v

    The documented behaviour of opening databases is the class
    [SlateDbOpenLaws]: [contents] is what an object store durably holds at a
    path, [writer_epoch] counts the writers opened there (opening one fences
    the others).  Opening a reader changes nothing; opening a writer creates a
    database where there was none and touches no other path. *)

From S2P Require Import Prelude RustStd Error Flags SlateDb FileMetadata FileHandle.
From S2P Require Import DatabaseMetadata Cache FileSystem GroupSpec.

Class SlateDbOpenLaws (W Db Reader Store CacheT Recorder : Type) `{World W} `{DbReadOps W Db}
    `{!DbReadLaws W Db} `{DbReadOps W Reader} `{!DbReadLaws W Reader}
    `{SlateDbOpen W Db Reader Store CacheT Recorder} := {
  contents : W -> Store -> list byte -> option kv;
  contents_proper :: Proper ((≡) ==> (=) ==> (=) ==> (=)) contents;
  writer_epoch : W -> Store -> list byte -> nat;
  writer_epoch_proper :: Proper ((≡) ==> (=) ==> (=) ==> (=)) writer_epoch;
  (** Where a database, and the one a reader reads, is stored. *)
  db_home : Db -> Store * list byte;
  reader_home : Reader -> Store * list byte;
  (** A reader shows what is stored; a missing database is reported by the
      error the crate looks for, and only a missing one is. *)
  reader_build_spec mode (b : Builder Store CacheT Recorder) w r w' :
    reader_build mode b w = (r, w') ->
    w' ≡ w /\
    (up w -> up w') /\
    match r with
    | Ok rd => contents w (builder_store b) (builder_path b) = Some (db_view w' rd) /\
        reader_home rd = (builder_store b, builder_path b)
    | Err e => never_written e = true -> contents w (builder_store b) (builder_path b) = None
    | Panic _ => ~ up w
    end /\
    (forall e, r = Err e -> up w -> never_written e = true);
  (** A writer shows what is stored, nothing when it creates the database. *)
  db_build_spec (b : Builder Store CacheT Recorder) w r w' :
    db_build b w = (r, w') ->
    (up w -> up w' /\ exists d, r = Ok d) /\
    (forall rd : Reader, db_view w' rd = db_view w rd) /\
    (forall d' : Db, r <> Ok d' -> db_view w' d' = db_view w d') /\
    (forall s p, ~ (s = builder_store b /\ p = builder_path b) ->
       contents w' s p = contents w s p /\ writer_epoch w' s p = writer_epoch w s p) /\
    (forall d, r = Ok d ->
       db_view w' d = default ∅ (contents w (builder_store b) (builder_path b)) /\
       contents w' (builder_store b) (builder_path b)
         = Some (default ∅ (contents w (builder_store b) (builder_path b))) /\
       writer_epoch w' (builder_store b) (builder_path b)
         = S (writer_epoch w (builder_store b) (builder_path b)) /\
       db_home d = (builder_store b, builder_path b))
}.

Section spec.
Context {W Db Txn Reader Store CacheT Recorder Metrics : Type} `{World W} `{DbReadOps W Db}
  `{!DbReadLaws W Db} `{DbReadOps W Reader} `{!DbReadLaws W Reader}
  `{SlateDbOpen W Db Reader Store CacheT Recorder} `{CacheLib CacheT}
  `{!SlateDbOpenLaws W Db Reader Store CacheT Recorder}.
#[local] Abbreviation FS := (SlateDbFileSystem Db Reader Store CacheT Recorder Metrics).

(** ** What the files of a group are read from *)

Definition stored_at (w : W) (fs : FS) (g : list byte) : option kv :=
  contents w (object_store fs) (slatedb_path fs g).

(** Where the database of group [g] is stored. *)
Definition home (fs : FS) (g : list byte) : Store * list byte :=
  (object_store fs, slatedb_path fs g).

(** The database shows what is durably stored at its home. *)
Definition settled (w : W) (db : Db) : Prop :=
  contents w (db_home db).1 (db_home db).2 = Some (db_view w db).

(** What reads of group [g] see: the writer if there is one, else the reader,
    else the store; [None] if the database does not exist. *)
Definition read_view (w : W) (fs : FS) (g : list byte) : option kv :=
  match databases fs !! g with
  | Some client =>
      match read_write client, reader client with
      | Some db, _ => Some (db_view w db)
      | None, Some r => Some (db_view w r)
      | None, None => stored_at w fs g
      end
  | None => stored_at w fs g
  end.

(** What updates of group [g] start from. *)
Definition write_view (w : W) (fs : FS) (g : list byte) : option kv :=
  match databases fs !! g with
  | Some client =>
      match read_write client, reader client with
      | Some db, _ => Some (db_view w db)
      | None, Some _ => Some (default ∅ (stored_at w fs g))
      | None, None => stored_at w fs g
      end
  | None => stored_at w fs g
  end.

(** The client of a group, absent or without a writer and a reader. *)
Definition has_writer (fs : FS) (g : list byte) : option Db :=
  client ← databases fs !! g; read_write client.

(** Only the client of group [g] may differ. *)
Definition only_group (g : list byte) (fs fs' : FS) : Prop :=
  fs' = set_databases fs (databases fs') /\
  forall g', g' <> g -> databases fs' !! g' = databases fs !! g'.

Lemma set_databases_id (fs : FS) : set_databases fs (databases fs) = fs.
Proof. by destruct fs. Qed.
Lemma set_databases_twice (fs : FS) m m' : set_databases (set_databases fs m) m' = set_databases fs m'.
Proof. done. Qed.

Lemma only_group_refl g fs : only_group g fs fs.
Proof. split; [by rewrite set_databases_id|done]. Qed.
Lemma only_group_trans g fs1 fs2 fs3 :
  only_group g fs1 fs2 -> only_group g fs2 fs3 -> only_group g fs1 fs3.
Proof.
  intros [Heq1 D1] [Heq2 D2]. split.
  - rewrite Heq2, Heq1. done.
  - intros g' Hg'. by rewrite D2, D1.
Qed.
Lemma only_group_put g fs c : only_group g fs (set_databases fs (<[g := c]> (databases fs))).
Proof. split; [done|]. intros g' Hg'. cbn. by rewrite lookup_insert_ne. Qed.

Lemma only_group_path g fs fs' g' : only_group g fs fs' -> slatedb_path fs' g' = slatedb_path fs g'.
Proof. intros [-> _]. done. Qed.
Lemma only_group_store g fs fs' : only_group g fs fs' -> object_store fs' = object_store fs.
Proof. intros [-> _]. done. Qed.
Lemma only_group_stored g fs fs' w g' : only_group g fs fs' -> stored_at w fs' g' = stored_at w fs g'.
Proof. intros [-> _]. done. Qed.
Lemma only_group_closed g fs fs' : only_group g fs fs' -> closed fs' = closed fs.
Proof. intros [-> _]. done. Qed.

Lemma stored_at_equiv w w' fs g : w' ≡ w -> stored_at w' fs g = stored_at w fs g.
Proof. intros Hw. unfold stored_at. by rewrite Hw. Qed.
Lemma read_view_equiv w w' fs g : w' ≡ w -> read_view w' fs g = read_view w fs g.
Proof.
  intros Hw. unfold read_view. destruct (databases fs !! g) as [[[db|] [r|]]|]; cbn;
    rewrite ?(db_view_proper w' w Hw _ _ eq_refl), ?(stored_at_equiv w w'); done.
Qed.
Lemma write_view_equiv w w' fs g : w' ≡ w -> write_view w' fs g = write_view w fs g.
Proof.
  intros Hw. unfold write_view. destruct (databases fs !! g) as [[[db|] [r|]]|]; cbn;
    rewrite ?(db_view_proper w' w Hw _ _ eq_refl), ?(stored_at_equiv w w'); done.
Qed.

(** ** Clients *)

Lemma client_for_group_run g (fs : FS) :
  client_for_group g fs =
  (Ok (default default_client (databases fs !! g)),
  match databases fs !! g with
  | Some _ => fs
  | None => set_databases fs (<[g := default_client]> (databases fs))
  end).
Proof.
  unfold client_for_group, bind, get_state. by destruct (databases fs !! g).
Qed.

(** The filesystem with an entry for group [g]. *)
Definition entered (g : list byte) (fs : FS) : FS := (client_for_group g fs).2.

Lemma entered_only g fs : only_group g fs (entered g fs).
Proof.
  unfold entered. rewrite client_for_group_run. cbn.
  destruct (databases fs !! g); [apply only_group_refl|apply only_group_put].
Qed.
Lemma entered_lookup g fs :
  databases (entered g fs) !! g = Some (default default_client (databases fs !! g)).
Proof.
  unfold entered. rewrite client_for_group_run. cbn.
  destruct (databases fs !! g) eqn:Hg; [done|]. cbn. by rewrite lookup_insert_eq.
Qed.
Lemma entered_read_view w g fs : read_view w (entered g fs) g = read_view w fs g.
Proof.
  unfold read_view at 1. rewrite entered_lookup, (only_group_stored g fs _ _ _ (entered_only g fs)).
  unfold read_view. by destruct (databases fs !! g).
Qed.
Lemma entered_write_view w g fs : write_view w (entered g fs) g = write_view w fs g.
Proof.
  unfold write_view at 1. rewrite entered_lookup, (only_group_stored g fs _ _ _ (entered_only g fs)).
  unfold write_view. by destruct (databases fs !! g).
Qed.

Lemma open_reader_spec (fs : FS) g w r w' :
  open_reader fs g w = (r, w') ->
  w' ≡ w /\ (up w -> up w') /\
  match r with
  | Ok (Some rd) => stored_at w fs g = Some (db_view w' rd) /\ reader_home rd = home fs g
  | Ok None => stored_at w fs g = None
  | Err e => code e = CodeSlateDb /\ ~ up w
  | Panic _ => ~ up w
  end.
Proof.
  unfold open_reader. destruct (reader_build _ _ w) as [r1 w1] eqn:Hb.
  apply reader_build_spec in Hb as (Hw & Hu & Hr & He).
  destruct r1 as [rd|e|p]; intros Heq; simplify_eq.
  - done.
  - specialize (He e eq_refl). destruct (never_written e) eqn:Hn; simplify_eq.
    + split_and!; [done..|]. by apply Hr.
    + split_and!; [done..|]. cbn. split; [done|]. intros Hup. by specialize (He Hup).
  - done.
Qed.

(** What a call of [read_client] leaves and returns. *)
Definition read_client_post (path : list byte) (fs : FS) (w : W) (r : Result (SlateDbClient Db Reader))
    (fs' : FS) (w' : W) : Prop :=
  let g := database_group path in
  w' ≡ w /\ (up w -> up w') /\ only_group g fs fs' /\ has_writer fs' g = has_writer fs g /\
  match r with
  | Ok client =>
      databases fs' !! g = Some client /\ read_view w' fs' g = read_view w fs g /\
      is_Some (read_view w fs g) /\ (read_write client = None -> is_Some (reader client)) /\
      (databases fs !! g = Some client \/
       (forall cl, databases fs !! g = Some cl -> read_write cl = None /\ reader cl = None) /\
       forall rd, reader client = Some rd ->
       reader_home rd = home fs g /\ stored_at w fs g = Some (db_view w' rd))
  | Err e => (code e = CodeFileNotFound -> read_view w fs g = None) /\
        (up w -> code e = CodeFileNotFound) /\ fs' = entered g fs
  | Panic _ => ~ up w
  end.

Lemma has_writer_entered g fs : has_writer (entered g fs) g = has_writer fs g.
Proof. unfold has_writer. rewrite entered_lookup. by destruct (databases fs !! g). Qed.

Lemma read_client_spec path (fs : FS) w r fs' w' :
  closed fs = false -> read_client path (fs, w) = (r, (fs', w')) ->
  read_client_post path fs w r fs' w'.
Proof.
  intros Hc Hr. unfold read_client, bind at 1, on_fst at 1, get_state in Hr. cbn [fst snd] in Hr.
  rewrite Hc in Hr. set (g := database_group path) in *.
  unfold bind at 1, on_fst at 1 in Hr. cbn [fst snd] in Hr.
  pose proof (entered_only g fs) as Ho. pose proof (entered_lookup g fs) as Hl.
  pose proof (entered_read_view w g fs) as Hv. pose proof (has_writer_entered g fs) as Hw.
  unfold entered in Ho, Hl, Hv, Hw. rewrite client_for_group_run in Hr, Ho, Hl, Hv, Hw.
  cbn [snd] in Ho, Hl, Hv, Hw.
  set (c := default default_client (databases fs !! g)) in *.
  set (fs1 := match databases fs !! g with Some _ => fs | None => _ end) in *.
  unfold read_client_post. fold g.
  destruct (bool_decide (is_Some (read_write c)) || bool_decide (is_Some (reader c))) eqn:Hb.
  { unfold ret in Hr. simplify_eq.
    assert (Hcl : read_write c = None -> is_Some (reader c)).
    { intros Hn. rewrite Hn in Hb. apply orb_true_iff in Hb as [Hb|Hb]; apply bool_decide_eq_true in Hb;
        [by destruct Hb|done]. }
    split_and!; try done.
    - rewrite <-Hv. unfold read_view. rewrite Hl.
      destruct (read_write c); [done|]. by destruct (Hcl eq_refl) as [rd ->].
    - left. unfold c in *. by destruct (databases fs !! g). }
  apply orb_false_iff in Hb as [Hb1 Hb2]. apply bool_decide_eq_false in Hb1, Hb2.
  apply eq_None_not_Some in Hb1, Hb2.
  assert (Hrv : read_view w fs g = stored_at w fs g).
  { rewrite <-Hv. unfold read_view. rewrite Hl, Hb1, Hb2. by eapply only_group_stored. }
  unfold bind at 1, on_snd in Hr. cbn [fst snd] in Hr.
  destruct (open_reader fs g w) as [r1 w1] eqn:Hor.
  apply open_reader_spec in Hor as (Hw1 & Hu & Hres).
  destruct r1 as [[rd|]|e|p].
  - unfold bind, lift, on_fst, put_client, modify, ret in Hr. cbn in Hr. simplify_eq.
    split_and!; try done.
    + eapply only_group_trans; [exact Ho|apply only_group_put].
    + etrans; [|exact Hw]. unfold has_writer. rewrite Hl. cbn. by rewrite lookup_insert_eq.
    + cbn. by rewrite lookup_insert_eq, Hb1.
    + rewrite Hrv, (proj1 Hres). unfold read_view. cbn. rewrite lookup_insert_eq. cbn. by rewrite ?Hb1.
    + by rewrite Hrv, (proj1 Hres).
    + right. split; [|by intros rd' [= <-]; destruct Hres].
      intros cl Hcl. unfold c in *. by rewrite Hcl in Hb1, Hb2.
  - unfold bind, lift in Hr. cbn in Hr. simplify_eq. split_and!; [done..| |done|].
    + intros _. by rewrite Hrv.
    + unfold entered. by rewrite client_for_group_run.
  - simplify_eq. destruct Hres as [Hcode Hup]. split_and!; [done..|congruence| |].
    + intros Hup'. by destruct Hup.
    + unfold entered. by rewrite client_for_group_run.
  - by simplify_eq.
Qed.

Lemma closed_read_client path (fs : FS) w :
  closed fs = true -> read_client path (fs, w) = (Err filesystem_closed, (fs, w)).
Proof. intros Hc. unfold read_client, bind, on_fst, get_state. cbn. by rewrite Hc. Qed.
Lemma closed_write_db path create (fs : FS) w :
  closed fs = true -> write_db path create (fs, w) = (Err filesystem_closed, (fs, w)).
Proof. intros Hc. unfold write_db, bind, on_fst, get_state. cbn. by rewrite Hc. Qed.

(** ** Writers *)

(** What a call of [write_db] leaves and returns. *)
Definition write_db_post (path : list byte) (create : bool) (fs : FS) (w : W) (r : Result Db)
    (fs' : FS) (w' : W) : Prop :=
  let g := database_group path in
  (up w -> up w') /\ only_group g fs fs' /\
    (forall rd : Reader, db_view w' rd = db_view w rd) /\
    (forall d : Db, r <> Ok d -> db_view w' d = db_view w d) /\
    (forall s p, ~ (s = object_store fs /\ p = slatedb_path fs g) ->
     contents w' s p = contents w s p /\ writer_epoch w' s p = writer_epoch w s p) /\
  match r with
  | Ok db =>
      has_writer fs' g = Some db /\ db_view w' db = default ∅ (write_view w fs g) /\
        (create = true \/ is_Some (write_view w fs g)) /\
      match has_writer fs g with
      | Some db' => db' = db /\ fs' = fs /\ w' = w
      | None => writer_epoch w' (object_store fs) (slatedb_path fs g)
          = S (writer_epoch w (object_store fs) (slatedb_path fs g)) /\ db_home db = home fs g /\
          settled w' db
      end
  | Err e =>
      (code e = CodeFileNotFound ->
       create = false /\ write_view w fs g = None /\ write_view w' fs' g = None /\ w' ≡ w) /\
        (up w -> code e = CodeFileNotFound)
  | Panic _ => ~ up w
  end.

Lemma open_writer_spec (fs : FS) g w r w' :
  open_writer fs g w = (r, w') ->
  (up w -> up w' /\ exists d, r = Ok d) /\
  (forall rd : Reader, db_view w' rd = db_view w rd) /\
  (forall d' : Db, r <> Ok d' -> db_view w' d' = db_view w d') /\
  (forall s p, ~ (s = object_store fs /\ p = slatedb_path fs g) ->
  contents w' s p = contents w s p /\ writer_epoch w' s p = writer_epoch w s p) /\
  match r with
  | Ok d =>
  db_view w' d = default ∅ (stored_at w fs g) /\
  writer_epoch w' (object_store fs) (slatedb_path fs g)
  = S (writer_epoch w (object_store fs) (slatedb_path fs g)) /\ db_home d = home fs g /\ settled w' d
  | Err e => code e = CodeSlateDb
  | Panic _ => True
  end.
Proof.
  unfold open_writer, slate. destruct (db_build _ w) as [r1 w1] eqn:Hb.
  apply db_build_spec in Hb as (Hup & Hrd & Hdb & Hfr & Hok). intros Heq. simplify_eq.
  split_and!; [|done| |done|].
  - intros Hu. destruct (Hup Hu) as [? [d ->]]. split; [done|]. by exists d.
  - intros d' Hne. apply Hdb. intros ->. by apply Hne.
  - destruct r1 as [d|e|p]; [|done..]. destruct (Hok d eq_refl) as (Hv & Hc & ? & Hh).
    split_and!; [done..|]. unfold settled. by rewrite Hh, Hv.
Qed.

(** Opening the writer of a group that has none. *)
Lemma attach_writer_spec g (fs fs1 : FS) (rdr : option Reader) w r fs' w' :
  only_group g fs fs1 ->
  (let! db := on_snd (open_writer fs g) in
  let! _ := on_fst (put_client g {| read_write := Some db; reader := rdr |}) in
  ret db) (fs1, w) = (r, (fs', w')) ->
  (up w -> up w') /\ only_group g fs fs' /\
  (forall rd : Reader, db_view w' rd = db_view w rd) /\
  (forall d : Db, r <> Ok d -> db_view w' d = db_view w d) /\
  (forall s p, ~ (s = object_store fs /\ p = slatedb_path fs g) ->
  contents w' s p = contents w s p /\ writer_epoch w' s p = writer_epoch w s p) /\
  match r with
  | Ok db =>
  has_writer fs' g = Some db /\ db_view w' db = default ∅ (stored_at w fs g) /\
  writer_epoch w' (object_store fs) (slatedb_path fs g)
  = S (writer_epoch w (object_store fs) (slatedb_path fs g)) /\ db_home db = home fs g /\ settled w' db
  | Err e => code e = CodeSlateDb /\ ~ up w
  | Panic _ => ~ up w
  end.
Proof.
  intros Ho Hr. unfold bind at 1, on_snd in Hr. cbn [fst snd] in Hr.
  destruct (open_writer fs g w) as [r1 w1] eqn:Hb.
  apply open_writer_spec in Hb as (Hup & Hrd & Hdb & Hfr & Hok).
  destruct r1 as [db|e|p].
  - unfold bind, on_fst, put_client, modify, ret in Hr. cbn in Hr. simplify_eq.
    split_and!; [by intros [? _]%Hup| |done|done|done| |apply Hok..].
    + eapply only_group_trans; [exact Ho|apply only_group_put].
    + unfold has_writer. cbn. by rewrite lookup_insert_eq.
  - simplify_eq. split_and!; [by intros [? _]%Hup|done|done|done|done|done|].
    intros Hu. by destruct (Hup Hu) as [_ [? ?]].
  - simplify_eq. split_and!; [by intros [? _]%Hup|done..|].
    intros Hu. by destruct (Hup Hu) as [_ [? ?]].
Qed.

Lemma write_view_no_writer w (fs : FS) g :
  has_writer fs g = None ->
  default ∅ (write_view w fs g) = default ∅ (stored_at w fs g) /\
  (write_view w fs g = None -> stored_at w fs g = None) /\
  (is_Some (stored_at w fs g) -> is_Some (write_view w fs g)).
Proof.
  unfold has_writer, write_view. destruct (databases fs !! g) as [[[db|] [rd|]]|]; cbn; try done.
  all: intros _; split_and!; [done|done|by eauto].
Qed.

(** The reader the first update without [create] opens, then the writer: [fs1]
    is the filesystem with the client of the group entered. *)
Lemma reader_then_writer path (fs fs1 : FS) (c : SlateDbClient Db Reader) w r fs' w' :
  let g := database_group path in
  only_group g fs fs1 -> write_view w fs1 g = write_view w fs g ->
  write_view w fs g = stored_at w fs g -> has_writer fs g = None ->
  (let! client :=
     (let! found := on_snd (open_reader fs g) in
      let! rd := lift (ok_or (file_not_found unknown_location (text path)) found) in
      let client := {| read_write := read_write c; reader := Some rd |} in
      let! _ := on_fst (put_client g client) in
      ret client) in
   let! db := on_snd (open_writer fs g) in
   let! _ := on_fst (put_client g {| read_write := Some db; reader := reader client |}) in
   ret db) (fs1, w) = (r, (fs', w')) ->
  write_db_post path false fs w r fs' w'.
Proof.
  intros g Ho Hent Hwv Hhw Hr. unfold write_db_post. fold g.
  destruct (write_view_no_writer w fs g Hhw) as (Hdv & Hwn & Hws). rewrite Hdv, Hhw.
  unfold bind at 1 2 in Hr. unfold on_snd at 1 in Hr. cbn [fst snd] in Hr.
  destruct (open_reader fs g w) as [r1 w1] eqn:Hor.
  apply open_reader_spec in Hor as (Hw1 & Hu & Hres). symmetry in Hw1.
  assert (Hfr1 : forall s p, contents w1 s p = contents w s p /\ writer_epoch w1 s p = writer_epoch w s p).
  { intros s p. by rewrite Hw1. }
  assert (Hd1 : forall d : Db, db_view w1 d = db_view w d) by (intros d; by rewrite Hw1).
  assert (Hr1 : forall d : Reader, db_view w1 d = db_view w d) by (intros d; by rewrite Hw1).
  destruct r1 as [[rd|]|e|p].
  - unfold bind at 1, lift in Hr. cbn [ok_or] in Hr.
    unfold bind at 1, on_fst at 1, put_client, modify in Hr. cbn [fst snd] in Hr.
    unfold ret at 1 in Hr.
    apply attach_writer_spec in Hr as (Hup & Ho' & Hrd & Hdb & Hfr & Hfin).
    2:{ eapply only_group_trans; [exact Ho|apply only_group_put]. }
    split_and!; [by auto|done|intros; by rewrite Hrd|intros; by rewrite Hdb| |].
    + intros s p Hne. destruct (Hfr s p Hne) as [-> ->]. done.
    + destruct Hres as [Hres _]. rewrite Hres in Hdv |- *.
      destruct r as [db|e|p]; [|split; [|by intros ?%Hu%Hfin]|by auto].
      * destruct Hfin as (? & Hv & He & Hh & ?). rewrite (stored_at_equiv w w1) in Hv by (by symmetry).
        destruct (Hfr1 (object_store fs) (slatedb_path fs g)) as [_ <-].
        split_and!; [done|by rewrite Hv, Hres|right; by rewrite Hwv, Hres|done..].
      * destruct Hfin. congruence.
  - unfold bind, lift in Hr. cbn in Hr. simplify_eq.
    split_and!; [done..| |done]. intros _. rewrite (write_view_equiv w w'), Hent, Hwv by done. done.
  - simplify_eq. destruct Hres. split_and!; [done..|congruence|]. by intros.
  - by simplify_eq.
Qed.

Lemma write_db_spec path create (fs : FS) w r fs' w' :
  closed fs = false -> write_db path create (fs, w) = (r, (fs', w')) ->
  write_db_post path create fs w r fs' w'.
Proof.
  intros Hc Hr. unfold write_db, bind at 1, on_fst at 1, get_state in Hr. cbn [fst snd] in Hr.
  rewrite Hc in Hr. unfold write_db_post. set (g := database_group path) in *.
  unfold bind at 1, on_fst at 1 in Hr. cbn [fst snd] in Hr.
  pose proof (entered_only g fs) as Ho. pose proof (entered_write_view w g fs) as Hent.
  unfold entered in Ho, Hent. rewrite client_for_group_run in Hr, Ho, Hent. cbn [snd] in Ho, Hent.
  set (c := default default_client (databases fs !! g)) in *.
  set (fs1 := match databases fs !! g with Some _ => fs | None => _ end) in *.
  assert (Hhw : has_writer fs g = read_write c).
  { unfold has_writer, c. by destruct (databases fs !! g). }
  destruct (read_write c) as [db|] eqn:Hrw.
  { assert (Hfs : fs1 = fs).
    { unfold fs1, has_writer in *. by destruct (databases fs !! g). }
    rewrite Hfs in Hr. unfold ret in Hr. simplify_eq.
    assert (Hwv : write_view w' fs' g = Some (db_view w' db)).
    { unfold write_view, has_writer in *. destruct (databases fs' !! g) as [cl|]; [|done].
      cbn in Hhw. by rewrite Hhw. }
    rewrite Hwv, Hhw. split_and!; try done; eauto using only_group_refl. }
  destruct (write_view_no_writer w fs g Hhw) as (Hdv & Hwn & Hws). rewrite Hdv, Hhw.
  unfold bind at 1 in Hr.
  destruct (negb create && negb (bool_decide (is_Some (reader c)))) eqn:Hb; cycle 1.
  { unfold ret at 1 in Hr.
    apply attach_writer_spec in Hr as (Hup & Ho' & Hrd & Hdb & Hfr & Hres); [|done].
    split_and!; [done..|]. destruct r as [db|e|p]; [|split; [|by intros ?%Hres]|done].
    - destruct Hres as (? & ? & ? & ? & ?). split_and!; [done|done| |done..].
      destruct create; [by left|right]. cbn in Hb. apply negb_false_iff, bool_decide_eq_true in Hb.
      unfold write_view, c in *. destruct (databases fs !! g) as [cl|]; [|by destruct Hb].
      cbn in *. rewrite Hrw. destruct Hb as [rd ->]. by eauto.
    - destruct Hres. congruence. }
  apply andb_true_iff in Hb as [Hcr Hrn]. apply negb_true_iff in Hcr as ->.
  apply negb_true_iff, bool_decide_eq_false, eq_None_not_Some in Hrn.
  assert (Hwv : write_view w fs g = stored_at w fs g).
  { unfold write_view, c in *. destruct (databases fs !! g) as [cl|]; [|done].
    cbn in *. by rewrite Hrw, Hrn. }
  pose proof (reader_then_writer path fs fs1 c w r fs' w' Ho Hent Hwv Hhw) as Hpost.
  rewrite Hrw in Hpost. specialize (Hpost Hr). unfold write_db_post in Hpost. fold g in Hpost.
  by rewrite Hdv, Hhw in Hpost.
Qed.
End spec.
