(* ===== verification/FileSystemOps.v ===== *)
(** * From paths to handles: theorems about opening, removing and moving

    The composition of the three layers: a client of the group (FileSystem.v),
    the catalog of its database (DatabaseOps.v) and the handle of the file
    (FileHandleSpec.v). *)

From S2P Require Import Prelude RustStd Error Flags Keys SlateDb ChunkStore ChunkLayout.
From S2P Require Import ChunkManagerSpec FileMetadata FileHandle FileHandleSpec FileRefinement.
From S2P Require Import Transactions DatabaseMetadata DatabaseSpec DatabaseOps Cache.
From S2P Require Import FileSystem GroupSpec FileSystemSpec.

Section catalog.
Context `{MetadataCodec} `{!MetadataCodecLaws}.

(** What an open of [path] leaves: the file [found], the invariant, and the
    other files as they were. *)
Definition opens (m : kv) (path : list byte) (create truncate_existing : bool)
    (found : Z * FileMetadata) (m' : kv) : Prop :=
  wf_catalog m' /\ is_u64 found.1 /\ m' !! path_key path = Some (to_be_bytes found.1) /\
  has_metadata m' found.1 found.2 /\
  (forall q, q <> path -> keeps m m' q) /\ next_id m' <= next_id m + 1 /\
  match m !! path_key path with
  | Some _ => if truncate_existing then file_at m' path [] else m' = m
  | None => create = true /\ file_at m' path []
  end.

Lemma prepared_opens m path create truncate_existing found m' :
  wf_catalog m -> prepared m path create truncate_existing found m' ->
  opens m path create truncate_existing found m'.
Proof.
  intros Hwf. unfold prepared, opens. destruct (m !! path_key path) as [b|] eqn:Hp.
  - intros (-> & Hid & Hrest). destruct truncate_existing.
    + destruct Hrest as [Hf ->]. split_and!; [by eapply wf_emptied|done| | | | |].
      * by rewrite emptied_path.
      * apply has_metadata_fresh; [done|]. by rewrite lookup_emptied, decide_True.
      * intros q Hq. by eapply emptied_keeps.
      * unfold next_id. rewrite emptied_next by done. lia.
      * by apply emptied_file_at.
    + destruct Hrest as [Hm ->]. split_and!; try done. lia.
  - intros (-> & Hid & Hu & Hf & ->). pose proof (next_id_u64 m Hwf) as Hnu. rewrite <-Hid in Hnu.
    split_and!; [by apply wf_created|done| | | | |done|].
    + by rewrite created_path, decide_True.
    + apply has_metadata_fresh; [done|]. by apply created_metadata.
    + intros q Hq. by apply created_keeps.
    + rewrite created_next by done. lia.
    + by apply created_file_at.
Qed.

Lemma has_metadata_unique m id meta meta' :
  has_metadata m id meta -> has_metadata m id meta' -> meta = meta'.
Proof. intros (b & Hb & Hd & _) (b' & Hb' & Hd' & _). congruence. Qed.

(** The bytes at a path are those of the file it maps to. *)
Lemma file_at_stored m path id meta l :
  m !! path_key path = Some (to_be_bytes id) -> is_u64 id -> has_metadata m id meta ->
  file_at m path l -> stored m id meta l.
Proof.
  intros Hp Hid Hm (id' & meta' & Hp' & Hid' & Hm' & Hst). rewrite Hp in Hp'.
  apply (inj Some) in Hp'. apply to_be_bytes_inj in Hp' as <-; [|done..].
  by rewrite (has_metadata_unique m id meta meta').
Qed.
End catalog.

Section ops.
Context {W Db Txn Reader Store CacheT Recorder Metrics : Type} `{World W} `{DbReadOps W Db}
  `{!DbReadLaws W Db} `{DbReadOps W Reader} `{!DbReadLaws W Reader}
  `{DbReadOps W Txn} `{!DbReadLaws W Txn} `{SlateDb W Db Txn} `{!SlateDbLaws W Db Txn}
  `{Clock W} `{!ClockLaws W} `{MetadataCodec} `{!MetadataCodecLaws}
  `{SlateDbOpen W Db Reader Store CacheT Recorder} `{CacheLib CacheT}
  `{!SlateDbOpenLaws W Db Reader Store CacheT Recorder}.
#[local] Abbreviation FS := (SlateDbFileSystem Db Reader Store CacheT Recorder Metrics).

(** The client may be used with the flags. *)
Definition client_allows (client : SlateFileClient Db Reader) (flags : FileOpenFlags) : Prop :=
  match client with
  | ReadOnly _ => Flags.read flags = true /\ Flags.write flags = false
  | ReadWrite _ => True
  end.

(** A handle on the file at [path] of the database the client shows. *)
Lemma new_handle w (client : SlateFileClient Db Reader) id meta flags path :
  validate flags = Ok tt -> client_allows client flags ->
  wf_catalog (cs_view w (chunk_store client)) ->
  cs_view w (chunk_store client) !! path_key path = Some (to_be_bytes id) -> is_u64 id ->
  has_metadata (cs_view w (chunk_store client)) id meta ->
  FileHandle.new client id meta flags = Ok (opened client id meta flags) /\
  forall l, file_at (cs_view w (chunk_store client)) path l ->
  wf_handle w (opened client id meta flags) /\ represents w (opened client id meta flags) l.
Proof.
  intros Hf Hc Hwf Hp Hid Hm. pose proof Hm as (b & _ & _ & Hu & Hl).
  assert (Hopen : openable client meta flags) by done.
  split; [by apply new_ok|]. intros l Hat.
  apply opened_represents; [done|done|done|apply (cat_chunks _ Hwf)|by eapply file_at_stored].
Qed.

Lemma db_chunk_view w (db : Db) :
  cs_view w (chunk_store (ReadWrite db : SlateFileClient Db Reader)) = db_view w db.
Proof. done. Qed.
Lemma reader_chunk_view w (r : Reader) :
  cs_view w (chunk_store (ReadOnly r : SlateFileClient Db Reader)) = db_view w r.
Proof. done. Qed.

Lemma has_writer_read_view w (fs : FS) g db :
  has_writer fs g = Some db -> read_view w fs g = Some (db_view w db).
Proof.
  unfold has_writer, read_view. destruct (databases fs !! g) as [cl|]; [|done]. cbn.
  by intros ->.
Qed.

(** What the opening of a handle for writing leaves and returns. *)
Lemma open_write_handle_spec path flags (fs : FS) (w : W) r fs' w' :
  up w -> closed fs = false -> validate flags = Ok tt -> path <> [] ->
  wf_catalog (default ∅ (write_view w fs (database_group path))) ->
  open_write_handle path flags (fs, w) = (r, (fs', w')) ->
  up w' /\ only_group (database_group path) fs fs' /\
  let m := default ∅ (write_view w fs (database_group path)) in
  match r with
  | Ok h => exists db found,
  has_writer fs' (database_group path) = Some db /\
  h = opened (ReadWrite db) found.1 found.2 flags /\
  opens m path (create flags) (truncate_existing flags) found (db_view w' db) /\
  (forall l, file_at (db_view w' db) path l -> wf_handle w' h /\ represents w' h l)
  | Err e =>
  (code e = CodeFileNotFound /\ create flags = false \/
  code e = CodeMetadataDecode /\ create flags = true /\ next_id m = u64_max) /\
  m !! path_key path = None /\ default ∅ (write_view w' fs' (database_group path)) = m
  | Panic _ => False
  end.
Proof.
  intros Hu Hcl Hf Hp Hwf Hr. cbn zeta. unfold open_write_handle in Hr. unfold bind at 1 in Hr.
  set (g := database_group path) in *.
  destruct (write_db path (create flags) (fs, w)) as [r1 [fs1 w1]] eqn:Hdb.
  apply write_db_spec in Hdb as (Hu1 & Ho & _ & Hviews & _ & Hres); [|done].
  fold g in Hres, Ho. specialize (Hu1 Hu).
  destruct r1 as [db|e|p]; [| |by destruct Hres].
  2:{ simplify_eq. destruct Hres as [Hnf Hcode]. specialize (Hcode Hu).
    destruct (Hnf Hcode) as (Hcr & Hnone & Hnone' & Hw). rewrite Hnone, Hnone'.
    split_and!; [done|done|by left|apply lookup_empty|done]. }
  destruct Hres as (Hhw & Hv & _ & _). rewrite <-Hv in Hwf |- *.
  unfold bind at 1, on_snd in Hr. cbn [fst snd] in Hr.
  destruct (prepare_file_for_open _ _ _ _ w1) as [r2 w2] eqn:Hpr.
  destruct (prepare_file_for_open_atomic db w1 path (create flags) (truncate_existing flags) Hwf Hp
    r2 w2 Hpr) as (_ & _ & Hup & Hok). destruct (Hup Hu1) as [Hu2 Herr].
  destruct r2 as [[id meta]|e|p]; [| |done].
  - specialize (Hok _ eq_refl). apply prepared_opens in Hok; [|done].
    pose proof Hok as (Hwf' & Hid & Hpath & Hm & _). cbn [fst snd] in *.
    destruct (new_handle w2 (ReadWrite db : SlateFileClient Db Reader) id meta flags path)
      as [Hnew Hat]; [done..|].
    unfold lift in Hr. cbn [fst snd] in Hr. rewrite Hnew in Hr. simplify_eq.
    split_and!; [done|done|]. by exists db, (id, meta).
  - simplify_eq. destruct Herr as [[Hnone Hc] Hsame]. split_and!; [done..|].
    unfold write_view, has_writer in *. destruct (databases fs' !! g) as [cl|]; [|done].
    cbn in Hhw. rewrite Hhw. done.
Qed.

(** ** Reading *)

(** [open_file] of the catalog reads, whatever the store does. *)
Lemma open_file_run {D} `{DbReadOps W D} `{!DbReadLaws W D} (d : D) p o (w : W) r w' :
  p <> [] -> lookup_file (db_view w d) p = Ok o ->
  DatabaseMetadata.open_file {| DatabaseMetadata.client := d |} p w = (r, w') ->
  w' ≡ w /\ (up w -> up w' /\ r = ok_or (file_not_found unknown_location (text p)) o) /\
  (forall v, r = Ok v -> o = Some v).
Proof.
  intros Hp Hl Hr. unfold DatabaseMetadata.open_file, bind at 1, lift at 1 in Hr.
  cbn [DatabaseMetadata.client] in Hr. rewrite validate_path_ne in Hr by done. unfold bind in Hr.
  destruct (find_file d p w) as [r1 w1] eqn:Hf.
  destruct (find_file_reads w d p o Hl w r1 w1 ltac:(done) Hf) as (Hw1 & Hup & HQ).
  destruct r1 as [o'|e|msg].
  - rewrite (HQ o' eq_refl) in Hr. unfold lift in Hr. simplify_eq. split_and!; [done| |].
    + by intros [? _]%Hup.
    + intros v. destruct o as [v'|]; cbn; [|done]. by intros [= ->].
  - simplify_eq. split_and!; [done| |done]. by intros (_ & ? & ?)%Hup.
  - simplify_eq. split_and!; [done| |done]. by intros (_ & ? & ?)%Hup.
Qed.

(** Opening through one client: the same for a writer and a reader. *)
Lemma open_through {D} `{DbReadOps W D} `{!DbReadLaws W D} (d : D)
  (client : SlateFileClient Db Reader) flags path (fs : FS) (w : W) r fs' w' :
  (forall w, cs_view w (chunk_store client) = db_view w d) ->
  validate flags = Ok tt -> client_allows client flags -> path <> [] -> wf_catalog (db_view w d) ->
  (let! found := on_snd (DatabaseMetadata.open_file {| DatabaseMetadata.client := d |} path) in
  lift (FileHandle.new client found.1 found.2 flags)) (fs, w) = (r, (fs', w')) ->
  fs' = fs /\ w' ≡ w /\ (up w -> up w') /\
  match r with
  | Ok h => is_Some (db_view w d !! path_key path) /\
  (forall l, file_at (db_view w d) path l -> wf_handle w' h /\ represents w' h l) /\
  exists id meta, db_view w d !! path_key path = Some (to_be_bytes id) /\ is_u64 id /\
    h = opened client id meta flags
  | Err e => up w -> code e = CodeFileNotFound /\ db_view w d !! path_key path = None
  | Panic _ => ~ up w
  end.
Proof.
  intros Hview Hf Ha Hp Hwf Hr. unfold bind, on_snd in Hr. cbn [fst snd] in Hr.
  destruct (DatabaseMetadata.open_file _ _ w) as [r1 w1] eqn:Ho.
  destruct (lookup_file_wf (db_view w d) path Hwf) as [[Hnone Hl]|(id & meta & Hsome & Hid & Hm & Hl)];
    destruct (open_file_run d path _ w r1 w1 Hp Hl Ho) as (Hw1 & Hup & Hok).
  - destruct r1 as [v|e|msg]; [by specialize (Hok v eq_refl)| |];
      simplify_eq; (split_and!; [done|done|by intros [? _]%Hup|]); intros Hu;
      destruct (Hup Hu) as [_ He]; cbn in He; [|done]. by simplify_eq.
  - destruct r1 as [v|e|msg].
    + specialize (Hok v eq_refl). simplify_eq. cbn [fst snd] in Hr. unfold lift in Hr.
      assert (Hv1 : cs_view w1 (chunk_store client) = db_view w d).
      { rewrite Hview. by apply (db_view_proper w1 w Hw1 d d eq_refl). }
      destruct (new_handle w1 client id meta flags path) as [Hnew Hat];
        rewrite ?Hv1; [done..|].
      rewrite Hnew in Hr. simplify_eq. rewrite Hv1 in Hat.
      split_and!; [done|done|by intros [? _]%Hup|by rewrite Hsome|done|by exists id, meta].
    + simplify_eq. split_and!; [done|done|by intros [? _]%Hup|]. intros Hu. by destruct (Hup Hu).
    + simplify_eq. split_and!; [done|done|by intros [? _]%Hup|]. intros Hu. by destruct (Hup Hu).
Qed.

Lemma read_view_client w (fs : FS) g (cl : SlateDbClient Db Reader) :
  databases fs !! g = Some cl ->
  read_view w fs g =
  match read_write cl, reader cl with
  | Some db, _ => Some (db_view w db)
  | None, Some rd => Some (db_view w rd)
  | None, None => stored_at w fs g
  end.
Proof. unfold read_view. by intros ->. Qed.

(** The client a handle opened in group [g] goes through. *)
Definition client_of (fs : FS) (g : list byte) (client : SlateFileClient Db Reader) : Prop :=
  match client with
  | ReadWrite db => has_writer fs g = Some db
  | ReadOnly rd => exists cl, databases fs !! g = Some cl /\ read_write cl = None /\ reader cl = Some rd
  end.

Lemma open_read_handle_spec path flags (fs : FS) (w : W) r fs' w' :
  closed fs = false -> validate flags = Ok tt -> Flags.write flags = false -> path <> [] ->
  wf_catalog (default ∅ (read_view w fs (database_group path))) ->
  open_read_handle path flags (fs, w) = (r, (fs', w')) ->
  let m := default ∅ (read_view w fs (database_group path)) in
  w' ≡ w /\ (up w -> up w') /\ only_group (database_group path) fs fs' /\
  has_writer fs' (database_group path) = has_writer fs (database_group path) /\
  match r with
  | Ok h => is_Some (m !! path_key path) /\
  (forall l, file_at m path l -> wf_handle w' h /\ represents w' h l) /\
  exists client id meta, client_of fs' (database_group path) client /\
    m !! path_key path = Some (to_be_bytes id) /\ is_u64 id /\ h = opened client id meta flags
  | Err e => up w -> code e = CodeFileNotFound /\ m !! path_key path = None
  | Panic _ => ~ up w
  end.
Proof.
  intros Hcl Hf Hnw Hp Hwf Hr. cbn zeta. unfold open_read_handle in Hr. unfold bind at 1 in Hr.
  destruct (read_client path (fs, w)) as [r1 [fs1 w1]] eqn:Hrc.
  apply read_client_spec in Hrc as (Hw1 & Hu1 & Ho & Hhw & Hres); [|done].
  set (g := database_group path) in *.
  assert (Hrd : Flags.read flags = true).
  { apply validate_ok in Hf as (Hf & _). rewrite Hnw, orb_false_r in Hf. done. }
  destruct r1 as [cl|e|p]; cycle 1.
  { simplify_eq. split_and!; [done..|]. intros Hu. destruct Hres as (Hn & Hc & _). specialize (Hc Hu).
    split; [done|]. rewrite (Hn Hc). apply lookup_empty. }
  { by simplify_eq. }
  destruct Hres as (Hlk & Hrv & _ & Hcl' & _). pose proof (read_view_client w1 fs1 g cl Hlk) as Hv.
  rewrite Hrv in Hv. rewrite Hv in Hwf |- *. destruct (read_write cl) as [db|] eqn:Hrw.
  - apply (open_through db (ReadWrite db)) in Hr as (-> & Hw' & Hu' & Hr); [|done..].
    split_and!; [by rewrite Hw'|by auto|done|done|].
    destruct r as [h|e|p]; [|by auto..]. destruct Hr as (? & ? & id & meta & ? & ? & ?).
    split_and!; [done..|]. exists (ReadWrite db), id, meta. split_and!; [|done..].
    unfold client_of, has_writer. by rewrite Hlk.
  - destruct (Hcl' eq_refl) as [rd Hrd']. rewrite Hrd' in Hr, Hwf |- *.
    apply (open_through rd (ReadOnly rd)) in Hr as (-> & Hw' & Hu' & Hr); [|done..].
    split_and!; [by rewrite Hw'|by auto|done|done|].
    destruct r as [h|e|p]; [|by auto..]. destruct Hr as (? & ? & id & meta & ? & ? & ?).
    split_and!; [done..|]. exists (ReadOnly rd), id, meta. split_and!; [|done..]. by exists cl.
Qed.

(** [file_exists] reads, and on a store that answers it tells whether the
    database maps the path; a database that was never written has no files. *)
Lemma file_exists_spec path (fs : FS) (w : W) r fs' w' :
  closed fs = false -> path <> [] -> FileSystem.file_exists path (fs, w) = (r, (fs', w')) ->
  w' ≡ w /\ only_group (database_group path) fs fs' /\
  has_writer fs' (database_group path) = has_writer fs (database_group path) /\
  (up w -> up w' /\ r = Ok (bool_decide
    (is_Some (default ∅ (read_view w fs (database_group path)) !! path_key path)))).
Proof.
  intros Hcl Hp Hr. unfold FileSystem.file_exists in Hr.
  destruct (read_client path (fs, w)) as [r1 [fs1 w1]] eqn:Hrc.
  apply read_client_spec in Hrc as (Hw1 & Hu1 & Ho & Hhw & Hres); [|done].
  set (g := database_group path) in *.
  assert (Hex : forall (D : Type) (HD : DbReadOps W D) (HL : DbReadLaws W D) (d : D),
    default ∅ (read_view w fs g) = db_view w1 d ->
    on_snd (DatabaseMetadata.file_exists {| DatabaseMetadata.client := d |} path) (fs1, w1)
    = (r, (fs', w')) ->
    w' ≡ w /\ fs' = fs1 /\ (up w -> up w' /\ r = Ok (bool_decide
      (is_Some (default ∅ (read_view w fs g) !! path_key path))))).
  { intros D HD HL d Hv Hr'. unfold on_snd in Hr'. cbn [fst snd] in Hr'.
    destruct (DatabaseMetadata.file_exists _ _ w1) as [r2 w3] eqn:He. simplify_eq. rewrite Hv.
    destruct (file_exists_reads w1 d path Hp w1 r w' ltac:(done) He) as (Hw2 & Hup & Hval).
    split_and!; [by rewrite Hw2|done|]. intros Hu. destruct (Hup (Hu1 Hu)) as (Hu' & b & Hb). subst r.
    split; [done|]. by rewrite (Hval b eq_refl). }
  destruct r1 as [cl|e|p].
  - destruct Hres as (Hlk & Hrv & _ & Hcl' & _). pose proof (read_view_client w1 fs1 g cl Hlk) as Hv.
    rewrite Hrv in Hv.
    destruct (read_write cl) as [db|]; [|destruct (Hcl' eq_refl) as [rd Hrd]; rewrite Hrd in Hr, Hv];
      [apply (Hex Db _ _) in Hr as (? & -> & ?)|apply (Hex Reader _ _) in Hr as (? & -> & ?)];
      first [by rewrite Hv|by split_and!].
  - destruct Hres as (Hn & Hc & _).
    assert (Hans : up w -> r = Ok (bool_decide (is_Some (default ∅ (read_view w fs g) !! path_key path)))).
    { intros Hu. specialize (Hc Hu). rewrite (Hn Hc). cbn [default].
      destruct e; try done. rewrite bool_decide_false; [by simplify_eq|].
      cbn. rewrite lookup_empty. by intros []. }
    destruct e; simplify_eq; split_and!; auto.
  - simplify_eq. split_and!; [done..|]. intros Hu. by destruct Hres.
Qed.

(** An update on a store that answers: the writer of the group, then one
    transaction on its database. *)
Lemma update_spec {A} (path : list byte) (create : bool) (f : Db -> M Error W A) (fs : FS) (w : W) (r : Result A) (fs' : FS) (w' : W)
  (Q : A -> kv -> Prop) (E : Error -> Prop) :
  let g := database_group path in
  let m := default ∅ (write_view w fs g) in
  closed fs = false -> up w ->
  (forall db w1, db_view w1 db = m -> atomic db w1 (f db) Q E) ->
  (let! db := write_db path create in on_snd (f db)) (fs, w) = (r, (fs', w')) ->
  up w' /\ only_group g fs fs' /\
  match r with
  | Ok a => exists db, has_writer fs' g = Some db /\ Q a (db_view w' db)
  | Err e => (E e \/ code e = CodeFileNotFound /\ m = ∅) /\ default ∅ (write_view w' fs' g) = m
  | Panic _ => False
  end.
Proof.
  intros g m Hcl Hu Hf Hr. unfold bind in Hr.
  destruct (write_db path create (fs, w)) as [r1 [fs1 w1]] eqn:Hdb.
  apply write_db_spec in Hdb as (Hu1 & Ho & _ & _ & _ & Hres); [|done]. specialize (Hu1 Hu).
  fold g in Hres, Ho. destruct r1 as [db|e|p]; [| |by destruct Hres].
  - destruct Hres as (Hhw & Hv & _ & _). unfold on_snd in Hr. cbn [fst snd] in Hr.
    destruct (f db w1) as [r2 w2] eqn:Hrun. simplify_eq.
    destruct (Hf db w1 Hv r w' Hrun) as (_ & _ & Hup & Hok). destruct (Hup Hu1) as [Hu2 Herr].
    split_and!; [done..|]. destruct r as [a|e|p]; [by exists db; auto| |done].
    destruct Herr as [He Hsame]. split; [by left|]. unfold write_view, has_writer in *.
    destruct (databases fs' !! g) as [cl|]; [|done]. cbn in Hhw. rewrite Hhw. cbn. by rewrite Hsame, Hv.
  - simplify_eq. destruct Hres as [Hn Hc]. specialize (Hc Hu). destruct (Hn Hc) as (_ & Hm & Hm' & _).
    split_and!; [done..|right; unfold m; by rewrite Hm|]. unfold m. by rewrite Hm, Hm'.
Qed.

Lemma remove_file_spec path (fs : FS) (w : W) r (fs' : FS) (w' : W) :
  let g := database_group path in
  let m := default ∅ (write_view w fs g) in
  closed fs = false -> up w -> path <> [] -> wf_catalog m ->
  FileSystem.remove_file path (fs, w) = (r, (fs', w')) ->
  up w' /\ only_group g fs fs' /\
  match r with
  | Ok _ => exists db id, has_writer fs' g = Some db /\ m !! path_key path = Some (to_be_bytes id) /\
      is_u64 id /\ db_view w' db = removed m path id
  | Err e => code e = CodeFileNotFound /\ m !! path_key path = None /\
      default ∅ (write_view w' fs' g) = m
  | Panic _ => False
  end.
Proof.
  intros g m Hcl Hu Hp Hwf Hr. eapply (update_spec path false _ fs w r fs' w'
    (fun _ m' => exists id, m !! path_key path = Some (to_be_bytes id) /\ is_u64 id /\
      m' = removed m path id)
    (fun e => code e = CodeFileNotFound /\ m !! path_key path = None)) in Hr as (? & ? & Hres); [|done..|].
  2:{ intros db w1 Hv. change (db_view w1 db = m) in Hv.
    pose proof (remove_file_atomic db w1 path) as Ha. rewrite Hv in Ha. by apply Ha. }
  split_and!; [done..|]. destruct r as [[]|e|p]; [naive_solver| |done].
  destruct Hres as [[[? ?]|[? Hm]] ?]; split_and!; try done. fold g m in Hm. rewrite Hm. apply lookup_empty.
Qed.

Lemma move_file_spec source target (fs : FS) (w : W) r (fs' : FS) (w' : W) :
  let g := database_group source in
  let m := default ∅ (write_view w fs g) in
  closed fs = false -> up w -> source <> [] -> target <> [] -> source <> target ->
  database_group source = database_group target -> wf_catalog m ->
  FileSystem.move_file source target (fs, w) = (r, (fs', w')) ->
  up w' /\ only_group g fs fs' /\
  match r with
  | Ok _ => exists db id, has_writer fs' g = Some db /\ m !! path_key source = Some (to_be_bytes id) /\
      is_u64 id /\ db_view w' db = moved m source target id
  | Err e => code e = CodeFileNotFound /\ m !! path_key source = None /\
      default ∅ (write_view w' fs' g) = m
  | Panic _ => False
  end.
Proof.
  intros g m Hcl Hu Hs Ht Hne Hg Hwf Hr. unfold FileSystem.move_file in Hr.
  rewrite bool_decide_true in Hr by done. cbn [negb] in Hr.
  eapply (update_spec source false _ fs w r fs' w'
    (fun _ m' => exists id, m !! path_key source = Some (to_be_bytes id) /\ is_u64 id /\
      m' = moved m source target id)
    (fun e => code e = CodeFileNotFound /\ m !! path_key source = None)) in Hr as (? & ? & Hres); [|done..|].
  2:{ intros db w1 Hv. change (db_view w1 db = m) in Hv.
    pose proof (move_file_atomic db w1 source target) as Ha. rewrite Hv in Ha. by apply Ha. }
  split_and!; [done..|]. destruct r as [[]|e|p]; [naive_solver| |done].
  destruct Hres as [[[? ?]|[? Hm]] ?]; split_and!; try done. fold g m in Hm. rewrite Hm. apply lookup_empty.
Qed.
End ops.
