(* ===== verification/GroupFrame.v ===== *)
(** * Groups stay apart: what an operation on one group leaves of the others

    An operation of rust/src/fs.rs on a path changes the client and the
    database of its group.  [beside] says what it leaves alone: the databases,
    the readers and the stored contents of all other groups.  When an operation
    is done, what it changed is durable: every writer shows what is stored. *)

From S2P Require Import Prelude RustStd Error Flags SlateDb FileMetadata FileHandle.
From S2P Require Import FileHandleSpec DatabaseMetadata Locality Cache FileSystem GroupSpec.
From S2P Require Import FileSystemSpec FileSystemOps.

Section durable.
Context {W Db Txn Reader Store CacheT Recorder : Type} `{World W} `{DbReadOps W Db}
  `{!DbReadLaws W Db} `{DbReadOps W Reader} `{!DbReadLaws W Reader}
  `{DbReadOps W Txn} `{!DbReadLaws W Txn} `{SlateDb W Db Txn} `{!SlateDbLaws W Db Txn}
  `{SlateDbOpen W Db Reader Store CacheT Recorder}
  `{!SlateDbOpenLaws W Db Reader Store CacheT Recorder}.

(** A step on a store that answers leaves a database that was settled so. *)
Definition settles (d : Db) (w w' : W) : Prop := up w -> settled w d -> up w' /\ settled w' d.

Definition exists_at (w : W) (d : Db) : Prop := is_Some (contents w (db_home d).1 (db_home d).2).

Lemma settled_equiv w w' (d : Db) : w' ≡ w -> settled w d -> settled w' d.
Proof.
  unfold settled. intros Hw Hs. rewrite (db_view_proper w' w Hw d d eq_refl), <-Hs. by rewrite Hw.
Qed.

Lemma settled_exists w (d : Db) : settled w d -> exists_at w d.
Proof. intros Hs. by eexists. Qed.
End durable.

(** Databases with different homes do not share contents, a transaction is
    durable when it is committed, a flush that succeeds makes the writes before
    it durable, and no write or flush makes a database disappear. *)
Class SlateDbApart (W Db Txn Reader Store CacheT Recorder : Type) `{World W} `{DbReadOps W Db}
    `{!DbReadLaws W Db} `{DbReadOps W Txn} `{!DbReadLaws W Txn} `{SlateDb W Db Txn}
    `{!SlateDbLaws W Db Txn} `{!SlateDbLocal W Db Txn} `{DbReadOps W Reader}
    `{!DbReadLaws W Reader} `{SlateDbOpen W Db Reader Store CacheT Recorder}
    `{!SlateDbOpenLaws W Db Reader Store CacheT Recorder} := {
  elsewhere_view d d' w w' :
    elsewhere d w w' -> db_home d' <> db_home d -> db_view w' d' = db_view w d';
  elsewhere_reader d rd w w' :
    elsewhere d w w' -> reader_home rd <> db_home d -> db_view w' rd = db_view w rd;
  elsewhere_contents d w w' s p :
    elsewhere d w w' -> (s, p) <> db_home d -> contents w' s p = contents w s p;
  begin_settles d level w : settles d w (db_begin d level w).2;
  put_settles t k v w : settles (txn_db t) w (txn_put t k v w).2;
  delete_settles t k w : settles (txn_db t) w (txn_delete t k w).2;
  commit_settles t w : settles (txn_db t) w (txn_commit t w).2;
  write_exists d b w : exists_at w d -> exists_at (db_write d b w).2 d;
  flush_exists d w : exists_at w d -> exists_at (db_flush d w).2 d;
  flush_settles d w w' : exists_at w d -> db_flush d w = (Ok tt, w') -> settled w' d
}.

Section frame.
Context {W Db Txn Reader Store CacheT Recorder Metrics : Type} `{World W} `{DbReadOps W Db}
  `{!DbReadLaws W Db} `{DbReadOps W Reader} `{!DbReadLaws W Reader}
  `{DbReadOps W Txn} `{!DbReadLaws W Txn} `{SlateDb W Db Txn} `{!SlateDbLaws W Db Txn}
  `{!SlateDbLocal W Db Txn} `{Clock W} `{!ClockLaws W} `{MetadataCodec} `{!MetadataCodecLaws}
  `{SlateDbOpen W Db Reader Store CacheT Recorder} `{CacheLib CacheT}
  `{!SlateDbOpenLaws W Db Reader Store CacheT Recorder}
  `{!SlateDbApart W Db Txn Reader Store CacheT Recorder}.
#[local] Abbreviation FS := (SlateDbFileSystem Db Reader Store CacheT Recorder Metrics).

#[local] Instance settles_rel : TxnRel (Txn:=Txn) settles.
Proof.
  split; intros.
  - intros Hu Hs. split; [by auto|by eapply settled_equiv].
  - intros w1 w2 w3 H12 H23 Hu Hs. destruct (H12 Hu Hs). by apply H23.
  - apply begin_settles.
  - apply put_settles.
  - apply delete_settles.
  - apply commit_settles.
Qed.

(** A step of an operation: on one database, durable at the end. *)
Definition touches (d : Db) (w w' : W) : Prop := elsewhere d w w' /\ settles d w w'.
#[local] Instance touches_rel : TxnRel (Txn:=Txn) touches.
Proof. apply both_rel; apply _. Qed.

(** A sync of a handle through [db], when there is something to write. *)
Lemma sync_touches (h : SlateFileHandle Db Reader) w db :
  FileHandle.client h = ReadWrite db -> clean h = false -> touches db w (sync (h, w)).2.2.
Proof.
  intros Hc Hcl. split; [by apply local_sync|]. intros Hu Hs. rewrite sync_run, Hcl, Hc. cbn [writer].
  unfold slate. pose proof (write_exists db (sync_batch h) w (settled_exists w db Hs)) as He.
  destruct (db_write db (sync_batch h) w) as [r w1] eqn:Hw. cbn [snd] in He.
  destruct (db_write_spec w db _ r w1 Hw) as [Hup _]. destruct (Hup Hu) as [-> Hu1]. cbn [try_from].
  destruct (db_flush db w1) as [r2 w2] eqn:Hfl. destruct (db_flush_spec w1 db r2 w2 Hfl) as [Hup2 _].
  destruct (Hup2 Hu1) as [-> Hu2]. split; [done|]. by apply (flush_settles db w1).
Qed.

(** A sync leaves the database where it was, and one that succeeds and had
    something to write makes durable what the database shows. *)
Lemma sync_exists (h : SlateFileHandle Db Reader) w db :
  FileHandle.client h = ReadWrite db -> exists_at w db -> exists_at (sync (h, w)).2.2 db.
Proof.
  intros Hc He. rewrite sync_run, Hc. destruct (clean h); [done|]. cbn [writer]. unfold slate.
  pose proof (write_exists db (sync_batch h) w He) as Hw.
  destruct (db_write db (sync_batch h) w) as [r1 w1]. cbn [snd] in Hw.
  destruct (try_from _ r1); [|done..]. pose proof (flush_exists db w1 Hw) as Hf.
  destruct (db_flush db w1) as [r2 w2]. cbn [snd] in Hf. by destruct (try_from _ r2).
Qed.

Lemma sync_settles (h h' : SlateFileHandle Db Reader) w w' db :
  FileHandle.client h = ReadWrite db -> clean h = false -> exists_at w db ->
  sync (h, w) = (Ok tt, (h', w')) -> settled w' db.
Proof.
  intros Hc Hcl He Hr. rewrite sync_run, Hc, Hcl in Hr. cbn [writer] in Hr. unfold slate in Hr.
  pose proof (write_exists db (sync_batch h) w He) as Hw.
  destruct (db_write db (sync_batch h) w) as [r1 w1]. cbn [snd] in Hw.
  destruct (try_from _ r1); [|done..]. destruct (db_flush db w1) as [r2 w2] eqn:Hf.
  destruct r2 as [[]|e|p]; cbn [try_from] in Hr; simplify_eq. by apply (flush_settles db w1).
Qed.

Lemma home_inj (fs : FS) g g' : home fs g = home fs g' -> g = g'.
Proof. unfold home. intros [= Heq]. by apply slatedb_path_inj in Heq. Qed.

Lemma only_group_home g (fs fs' : FS) g' : only_group g fs fs' -> home fs' g' = home fs g'.
Proof. by intros [-> _]. Qed.

(** Writers and readers are where their groups are stored, and show what is
    stored: a reader when there is no writer beside it. *)
Record clients_ok (w : W) (fs : FS) : Prop := {
  co_writer g db : has_writer fs g = Some db -> db_home db = home fs g /\ settled w db;
  co_reader g rd : client_of fs g (ReadOnly rd) ->
    reader_home rd = home fs g /\ stored_at w fs g = Some (db_view w rd)
}.

(** Between [w] and [w'] only what is stored at the home of [g] may differ. *)
Record beside (fs : FS) (g : list byte) (w w' : W) : Prop := {
  be_view (db : Db) : db_home db <> home fs g -> db_view w' db = db_view w db;
  be_reader (rd : Reader) : reader_home rd <> home fs g -> db_view w' rd = db_view w rd;
  be_stored g' : g' <> g -> stored_at w' fs g' = stored_at w fs g'
}.

Lemma beside_equiv (fs : FS) g w w' : w' ≡ w -> beside fs g w w'.
Proof. intros Hw. split; intros; [by rewrite Hw..|]. by apply stored_at_equiv. Qed.

Lemma beside_trans (fs : FS) g w1 w2 w3 : beside fs g w1 w2 -> beside fs g w2 w3 -> beside fs g w1 w3.
Proof. intros [V1 R1 S1] [V2 R2 S2]. split; intros; [by rewrite V2, V1|by rewrite R2, R1|by rewrite S2, S1]. Qed.

Lemma beside_fs (fs fs' : FS) g w w' : only_group g fs fs' -> beside fs' g w w' -> beside fs g w w'.
Proof.
  intros Ho [V R S]. rewrite (only_group_home g fs fs' g Ho) in V, R. split; [done..|].
  intros g' Hg'. rewrite <-!(only_group_stored g fs fs' _ _ Ho). by apply S.
Qed.

Lemma beside_elsewhere (fs : FS) g db w w' :
  db_home db = home fs g -> elsewhere db w w' -> beside fs g w w'.
Proof.
  intros Hh He. split.
  - intros db' Hne. eapply elsewhere_view; [done|by rewrite Hh].
  - intros rd Hne. eapply elsewhere_reader; [done|by rewrite Hh].
  - intros g' Hg'. eapply elsewhere_contents; [done|]. rewrite Hh. intros Heq. by apply Hg', (home_inj fs).
Qed.

(** ** The clients after an operation on group [g] *)

Lemma has_writer_other g g' (fs fs' : FS) :
  only_group g fs fs' -> g' <> g -> has_writer fs' g' = has_writer fs g'.
Proof. intros [_ Hd] Hg'. unfold has_writer. by rewrite Hd. Qed.

Lemma client_of_other g g' (fs fs' : FS) c :
  only_group g fs fs' -> g' <> g -> client_of fs' g' c <-> client_of fs g' c.
Proof. intros [_ Hd] Hg'. unfold client_of, has_writer. by rewrite Hd. Qed.

Lemma clients_ok_step g (fs fs' : FS) w w' :
  only_group g fs fs' -> beside fs g w w' -> clients_ok w fs ->
  (forall db, has_writer fs' g = Some db -> db_home db = home fs g /\ settled w' db) ->
  (forall rd, client_of fs' g (ReadOnly rd) ->
     reader_home rd = home fs g /\ stored_at w' fs g = Some (db_view w' rd)) ->
  clients_ok w' fs'.
Proof.
  intros Ho [V R S] [Hw Hr] Hwg Hrg. split.
  - intros g' db. rewrite (only_group_home g fs fs' g' Ho). destruct (decide (g' = g)) as [->|Hne].
    + apply Hwg.
    + rewrite (has_writer_other g g' fs fs') by done. intros Hdb. destruct (Hw g' db Hdb) as [Hh Hs].
      split; [done|]. specialize (S g' Hne). unfold settled, stored_at in *. rewrite Hh in Hs |- *.
      cbn [home fst snd] in *. rewrite S, Hs, V; [done|]. rewrite Hh. by intros ?%home_inj.
  - intros g' rd. rewrite (only_group_home g fs fs' g' Ho), (only_group_stored g fs fs' _ _ Ho).
    destruct (decide (g' = g)) as [->|Hne]; [apply Hrg|].
    rewrite (client_of_other g g' fs fs') by done. intros Hc. destruct (Hr g' rd Hc) as [Hh Hs].
    split; [done|]. rewrite S by done. rewrite R; [done|]. rewrite Hh. by intros ?%home_inj.
Qed.

(** An entry for the group without a writer or reader says nothing. *)
Lemma client_of_entered g g' (fs : FS) c : client_of (entered g fs) g' c <-> client_of fs g' c.
Proof.
  destruct (decide (g' = g)) as [->|Hne]; [|by eapply client_of_other; [apply entered_only|]].
  unfold client_of, has_writer. rewrite entered_lookup. destruct (databases fs !! g) as [cl|]; [done|].
  destruct c; cbn; [done|]. naive_solver.
Qed.

Lemma clients_ok_entered g (fs : FS) w : clients_ok w fs -> clients_ok w (entered g fs).
Proof.
  intros [Hw Hr]. pose proof (entered_only g fs) as Ho. split.
  - intros g' db Hdb. rewrite (only_group_home g fs _ g' Ho). apply Hw.
    by apply (client_of_entered g g' fs (ReadWrite db)).
  - intros g' rd Hc%client_of_entered.
    rewrite (only_group_home g fs _ g' Ho), (only_group_stored g fs _ _ _ Ho). by apply Hr.
Qed.

Lemma clients_ok_equiv (fs : FS) w w' : w' ≡ w -> clients_ok w fs -> clients_ok w' fs.
Proof.
  intros Hw [Hwr Hr]. split.
  { intros g db Hdb. destruct (Hwr g db Hdb). split; [done|by eapply settled_equiv]. }
  intros g rd Hc. destruct (Hr g rd Hc) as [? Hs].
  split; [done|]. by rewrite (stored_at_equiv w w'), Hs, (db_view_proper w' w Hw rd rd eq_refl).
Qed.

Lemma read_client_frame path (fs : FS) w r fs' w' :
  closed fs = false -> up w -> clients_ok w fs -> read_client path (fs, w) = (r, (fs', w')) ->
  clients_ok w' fs' /\ forall g c, client_of fs g c -> client_of fs' g c.
Proof.
  intros Hcl Hu Hok Hr. apply read_client_spec in Hr as (Hw & _ & Ho & Hhw & Hres); [|done].
  set (g := database_group path) in *. pose proof (beside_equiv fs g w w' Hw) as Hb.
  destruct r as [cl|e|p]; [| |by destruct Hres].
  - destruct Hres as (Hlk & _ & _ & _ & Hnew). split.
    + apply (clients_ok_step g fs fs' w w'); [done..| |].
      * intros db. rewrite Hhw. apply (co_writer w' fs). by apply (clients_ok_equiv fs w w').
      * intros rd (cl' & Hlk' & Hrw & Hrd). rewrite Hlk in Hlk'. injection Hlk' as <-.
        rewrite (stored_at_equiv w w') by done. destruct Hnew as [Hold|[_ Hnew]]; [|by apply Hnew].
        rewrite (db_view_proper w' w Hw rd rd eq_refl). apply (co_reader w fs Hok). by exists cl.
    + intros g' c. destruct (decide (g' = g)) as [->|Hne]; [|by apply (client_of_other g g' fs fs')].
      destruct c as [db|rd]; unfold client_of; [by rewrite Hhw|]. intros (cl' & Hlk' & Hrw & Hrd).
      destruct Hnew as [Hold|[Hnone _]].
      * exists cl. rewrite Hlk' in Hold. injection Hold as ->. done.
      * destruct (Hnone cl' Hlk'). congruence.
  - destruct Hres as (_ & _ & ->). split; [|intros g' c; apply client_of_entered].
    apply (clients_ok_equiv _ w w' Hw). by apply clients_ok_entered.
Qed.

Lemma write_db_frame path create (fs : FS) w r fs' w' :
  closed fs = false -> up w -> clients_ok w fs -> write_db path create (fs, w) = (r, (fs', w')) ->
  clients_ok w' fs' /\ beside fs (database_group path) w w' /\
  forall db, has_writer fs (database_group path) = Some db -> has_writer fs' (database_group path) = Some db.
Proof.
  intros Hcl Hu Hok Hr. apply write_db_spec in Hr as (_ & Ho & Hrd & Hdb & Hfr & Hres); [|done].
  set (g := database_group path) in *. destruct r as [db|e|p]; [| |by destruct Hres].
  - destruct Hres as (Hhw & _ & _ & Hold).
    assert (Hhome : db_home db = home fs g /\ settled w' db).
    { destruct (has_writer fs g) as [db'|] eqn:Hw; [|apply Hold].
      destruct Hold as (<- & _ & ->). by apply (co_writer w fs Hok). }
    assert (Hb : beside fs g w w').
    { destruct Hhome as [Hhome _]. split; [intros db' Hne; apply Hdb; congruence|done|].
      intros g' Hg'. apply Hfr. intros [_ Heq]. by apply slatedb_path_inj in Heq. }
    split_and!; [|done|].
    + apply (clients_ok_step g fs fs' w w'); [done..| |].
      * intros db'. rewrite Hhw. by intros [= <-].
      * intros rd (cl & Hlk & Hrw & _). unfold has_writer in Hhw. rewrite Hlk in Hhw. cbn in Hhw. congruence.
    + intros db' Hdb'. rewrite Hdb' in Hold. by destruct Hold as (-> & _).
  - destruct Hres as [Hnone Hc]. destruct (Hnone (Hc Hu)) as (_ & Hn & Hn' & Hw).
    pose proof (beside_equiv fs g w w' Hw) as Hb.
    assert (Hnw : has_writer fs g = None).
    { unfold write_view, has_writer in *. destruct (databases fs !! g) as [cl|]; [|done].
      cbn. by destruct (read_write cl). }
    split_and!; [|done|by rewrite Hnw].
    apply (clients_ok_step g fs fs' w w'); [done..| |].
    + intros db Hd. unfold write_view, has_writer in *. destruct (databases fs' !! g) as [cl|]; [|done].
      cbn in Hd. by rewrite Hd in Hn'.
    + intros rd (cl & Hlk & Hrw & Hr). unfold write_view in Hn'. by rewrite Hlk, Hrw, Hr in Hn'.
Qed.

(** A call on the database of the writer of the group. *)
Lemma touches_frame g (fs : FS) db w w' :
  clients_ok w fs -> up w -> has_writer fs g = Some db -> touches db w w' ->
  clients_ok w' fs /\ beside fs g w w'.
Proof.
  intros Hok Hu Hhw [He Hse]. destruct (co_writer w fs Hok g db Hhw) as [Hh Hs].
  assert (Hb : beside fs g w w') by by eapply beside_elsewhere.
  split; [|done]. apply (clients_ok_step g fs fs w w'); [apply only_group_refl|done..| |].
  { intros db'. rewrite Hhw. intros [= <-]. by destruct (Hse Hu Hs). }
  intros rd (cl & Hlk & Hrw & _). unfold has_writer in Hhw. rewrite Hlk in Hhw. cbn in Hhw. congruence.
Qed.

(** An update: the writer of the group, then a call on its database. *)
Lemma update_frame {A} path create (f : Db -> M Error W A) (fs : FS) w r fs' w' :
  closed fs = false -> up w -> clients_ok w fs -> (forall db, local touches db (f db)) ->
  (let! db := write_db path create in on_snd (f db)) (fs, w) = (r, (fs', w')) ->
  clients_ok w' fs' /\ beside fs (database_group path) w w' /\
  forall db, has_writer fs (database_group path) = Some db -> has_writer fs' (database_group path) = Some db.
Proof.
  intros Hcl Hu Hok Hf Hr. unfold bind in Hr.
  destruct (write_db path create (fs, w)) as [r1 [fs1 w1]] eqn:Hdb.
  pose proof (write_db_spec path create fs w r1 fs1 w1 Hcl Hdb) as (Hu1 & Ho & _ & _ & _ & Hres).
  apply write_db_frame in Hdb as (Hok1 & Hb1 & Hst); [|done..].
  destruct r1 as [db|e|p]; [|by simplify_eq..]. destruct Hres as (Hhw & _).
  unfold on_snd in Hr. cbn [fst snd] in Hr. pose proof (Hf db w1) as He.
  destruct (f db w1) as [r2 w2]. simplify_eq. set (g := database_group path) in *.
  destruct (touches_frame g fs' db w1 w' Hok1 (Hu1 Hu) Hhw He) as [Hok2 Hb2].
  split_and!; [done| |exact Hst]. eapply beside_trans; [done|]. by eapply beside_fs.
Qed.

(** ** Operations on paths *)

Lemma open_read_frame path flags (fs : FS) w r fs' w' :
  closed fs = false -> up w -> clients_ok w fs ->
  open_read_handle path flags (fs, w) = (r, (fs', w')) -> w' ≡ w ->
  clients_ok w' fs' /\ forall g c, client_of fs g c -> client_of fs' g c.
Proof.
  intros Hcl Hu Hok Hr Hw. unfold open_read_handle, bind at 1 in Hr.
  destruct (read_client path (fs, w)) as [r1 [fs1 w1]] eqn:Hrc.
  pose proof (read_client_spec path fs w r1 fs1 w1 Hcl Hrc) as (Hw1 & _).
  apply read_client_frame in Hrc as [Hok1 Hcl1]; [|done..].
  assert (Hsame : clients_ok w' fs1).
  { apply (clients_ok_equiv fs1 w1); [|done]. by rewrite Hw, Hw1. }
  assert (fs' = fs1 -> clients_ok w' fs' /\ forall g c, client_of fs g c -> client_of fs' g c)
    as Hfin by (by intros ->).
  apply Hfin. destruct r1 as [cl|e|p]; [|by simplify_eq..].
  destruct (read_write cl) as [db|]; [|destruct (reader cl) as [rd|]].
  1-2: unfold bind, on_snd, lift in Hr; cbn [fst snd] in Hr;
    by destruct (DatabaseMetadata.open_file _ _ w1) as [[] w2]; simplify_eq.
  unfold lift in Hr. by simplify_eq.
Qed.

Lemma file_exists_frame path (fs : FS) w r fs' w' :
  closed fs = false -> up w -> clients_ok w fs -> file_exists path (fs, w) = (r, (fs', w')) ->
  w' ≡ w -> clients_ok w' fs' /\ forall g c, client_of fs g c -> client_of fs' g c.
Proof.
  intros Hcl Hu Hok Hr Hw. unfold file_exists in Hr.
  destruct (read_client path (fs, w)) as [r1 [fs1 w1]] eqn:Hrc.
  pose proof (read_client_spec path fs w r1 fs1 w1 Hcl Hrc) as (Hw1 & _).
  apply read_client_frame in Hrc as [Hok1 Hcl1]; [|done..].
  assert (Hsame : clients_ok w' fs1).
  { apply (clients_ok_equiv fs1 w1); [|done]. by rewrite Hw, Hw1. }
  assert (fs' = fs1 -> clients_ok w' fs' /\ forall g c, client_of fs g c -> client_of fs' g c)
    as Hfin by (by intros ->).
  apply Hfin. destruct r1 as [cl|e|p]; [| |by simplify_eq]; [|by destruct e; simplify_eq].
  destruct (read_write cl) as [db|]; [|destruct (reader cl) as [rd|]]; [..|by simplify_eq].
  all: unfold on_snd in Hr; cbn [fst snd] in Hr;
    by destruct (DatabaseMetadata.file_exists _ _ w1) as [r2 w2]; simplify_eq.
Qed.

Lemma open_write_frame path flags (fs : FS) w r fs' w' :
  closed fs = false -> up w -> clients_ok w fs ->
  open_write_handle path flags (fs, w) = (r, (fs', w')) ->
  clients_ok w' fs' /\ beside fs (database_group path) w w' /\
  forall db, has_writer fs (database_group path) = Some db -> has_writer fs' (database_group path) = Some db.
Proof.
  intros Hcl Hu Hok Hr.
  destruct ((let! db := write_db path (create flags) in
    on_snd (prepare_file_for_open {| DatabaseMetadata.client := db |} path (create flags)
      (truncate_existing flags))) (fs, w)) as [r1 [fs1 w1]] eqn:Hup.
  assert (fs' = fs1 /\ w' = w1) as [-> ->].
  { unfold open_write_handle, bind in *. destruct (write_db _ _ _) as [[db|e|p] [fs2 w2]]; [|by simplify_eq..].
    unfold on_snd, lift in *. cbn [fst snd] in *.
    by destruct (prepare_file_for_open _ _ _ _ w2) as [[] w3]; simplify_eq. }
  eapply update_frame; [done..| |exact Hup]. intros db. apply (local_prepare touches).
Qed.

Lemma remove_file_frame path (fs : FS) w r fs' w' :
  closed fs = false -> up w -> clients_ok w fs -> remove_file path (fs, w) = (r, (fs', w')) ->
  clients_ok w' fs' /\ beside fs (database_group path) w w' /\
  forall db, has_writer fs (database_group path) = Some db -> has_writer fs' (database_group path) = Some db.
Proof. intros Hcl Hu Hok. apply update_frame; [done..|]. intros db. apply (local_remove_file touches). Qed.

Lemma move_file_frame source target (fs : FS) w r fs' w' :
  closed fs = false -> up w -> clients_ok w fs -> database_group source = database_group target ->
  FileSystem.move_file source target (fs, w) = (r, (fs', w')) ->
  clients_ok w' fs' /\ beside fs (database_group source) w w' /\
  forall db, has_writer fs (database_group source) = Some db -> has_writer fs' (database_group source) = Some db.
Proof.
  intros Hcl Hu Hok Hg. unfold FileSystem.move_file. rewrite bool_decide_true by done. cbn [negb].
  apply update_frame; [done..|]. intros db. apply (local_move_file touches).
Qed.
End frame.
