(* ===== verification/VolumeRun.v ===== *)
(** * A filesystem and its open handles against a volume

    Programs of commands on the filesystem of rust/src/fs.rs, the relation
    between its state and the volume of VolumeSpec.v, and what keeps it. *)

From S2P Require Import Prelude RustStd Error Flags Keys SlateDb ChunkStore ChunkLayout.
From S2P Require Import ChunkManager ChunkManagerSpec FileMetadata FileSpec FileHandle.
From S2P Require Import FileHandleSpec FileRefinement Transactions DatabaseMetadata Locality.
From S2P Require Import DatabaseSpec DatabaseOps Cache FileSystem VolumeSpec GroupSpec.
From S2P Require Import FileSystemSpec FileSystemOps GroupFrame.

(** ** Programs *)

Section run.
Context {W Db Txn Reader Store CacheT Recorder Metrics : Type}.
Context `{SlateDb W Db Txn} `{DbReadOps W Db} `{DbReadOps W Txn} `{DbReadOps W Reader}.
Context `{SlateDbOpen W Db Reader Store CacheT Recorder} `{CacheLib CacheT}.
Context `{Clock W} `{MetadataCodec}.
#[local] Abbreviation FS := (SlateDbFileSystem Db Reader Store CacheT Recorder Metrics).
#[local] Abbreviation Handle := (SlateFileHandle Db Reader).

(** The table of open handles, the filesystem and the world. *)
#[local] Abbreviation State := (gmap nat Handle * (FS * W))%type.

(** A call that answers with nothing. *)
Definition on_volume (m : M Error (FS * W) unit) : M Error State Out :=
  let! _ := on_snd m in ret (OutObs OUnit).

(** A handle that is closed is dropped. *)
Definition run_cmd (c : Cmd) : M Error State Out :=
  match c with
  | CmdOpen n path flags => fun '(hs, s) =>
      match FileSystem.open_file path flags s with
      | (Ok h, s) => (Ok (OutObs OUnit), (<[n := h]> hs, s))
      | (Err e, s) => (Err e, (hs, s))
      | (Panic p, s) => (Panic p, (hs, s))
      end
  | CmdOp n o => fun '(hs, (fs, w)) =>
      match hs !! n with
      | None => (Ok (OutObs OUnit), (hs, (fs, w)))
      | Some h =>
          let '(r, (h, w)) := run_op o (h, w) in
          (let? x := r in Ok (OutObs x), (<[n := h]> hs, (fs, w)))
      end
  | CmdClose n => fun '(hs, (fs, w)) =>
      match hs !! n with
      | None => (Ok (OutObs OUnit), (hs, (fs, w)))
      | Some h =>
          let '(r, (h, w)) := FileHandle.close (h, w) in
          (let? _ := r in Ok (OutObs OUnit), (delete n hs, (fs, w)))
      end
  | CmdRemove path => on_volume (FileSystem.remove_file path)
  | CmdMove source target => on_volume (FileSystem.move_file source target)
  | CmdExists path => let! b := on_snd (FileSystem.file_exists path) in ret (OutBool b)
  end.

Definition out (r : Result Out) : option Out :=
  match r with
  | Ok x => Some x
  | Err e => Some (OutObs (OError (code e)))
  | Panic _ => None
  end.

(** Run a program to its end; a panic stops it. *)
Fixpoint run_cmds (cs : list Cmd) (s : State) : option (list Out) * State :=
  match cs with
  | [] => (Some [], s)
  | c :: cs =>
      let '(r, s) := run_cmd c s in
      match out r with
      | None => (None, s)
      | Some x => let '(xs, s) := run_cmds cs s in ((fun xs => x :: xs) <$> xs, s)
      end
  end.
End run.

(** ** The relation *)

Section relation.
Context {W Db Txn Reader Store CacheT Recorder Metrics : Type} `{World W} `{DbReadOps W Db}
  `{!DbReadLaws W Db} `{DbReadOps W Reader} `{!DbReadLaws W Reader}
  `{DbReadOps W Txn} `{!DbReadLaws W Txn} `{SlateDb W Db Txn} `{!SlateDbLaws W Db Txn}
  `{!SlateDbLocal W Db Txn} `{Clock W} `{!ClockLaws W} `{MetadataCodec} `{!MetadataCodecLaws}
  `{SlateDbOpen W Db Reader Store CacheT Recorder} `{CacheLib CacheT}
  `{!SlateDbOpenLaws W Db Reader Store CacheT Recorder}
  `{!SlateDbApart W Db Txn Reader Store CacheT Recorder}.
#[local] Abbreviation FS := (SlateDbFileSystem Db Reader Store CacheT Recorder Metrics).
#[local] Abbreviation Handle := (SlateFileHandle Db Reader).

(** The contents of the database of group [g], nothing if there is none. *)
Definition view (w : W) (fs : FS) (g : list byte) : kv := default ∅ (write_view w fs g).

(** The group of an open file. *)
Definition group_of (e : OpenFile) : list byte := database_group (open_path e).

(** Handle [h] is on the open file [e] and shows [l]. *)
Record attached (w : W) (fs : FS) (h : Handle) (e : OpenFile) (l : list byte) : Prop := {
  at_wf : wf_handle w h;
  at_bytes : represents w h l;
  at_file : VolumeSpec.open_file e = abs h l;
  at_client : client_of fs (group_of e) (FileHandle.client h);
  at_early : match FileHandle.client h with ReadOnly _ => open_early e = true | _ => True end;
  at_path : view w fs (group_of e) !! path_key (open_path e) = Some (to_be_bytes (file_id h));
  at_id : is_u64 (file_id h);
  at_clean : clean h = true -> file_at (view w fs (group_of e)) (open_path e) l
}.

(** The entries of the two handle tables under one number. *)
Definition slot (w : W) (fs : FS) (h : option Handle) (e : option OpenFile) : Prop :=
  match h, e with
  | Some h, Some e => exists l, attached w fs h e l
  | None, None => True
  | _, _ => False
  end.

Record related (w : W) (fs : FS) (hs : gmap nat Handle) (v : Volume) : Prop := {
  rl_up : up w;
  rl_open : closed fs = false;
  rl_clients : clients_ok w fs;
  rl_catalog g : wf_catalog (view w fs g);
  rl_files p l : files v !! p = Some l <-> file_at (view w fs (database_group p)) p l;
  rl_mapped p : is_Some (view w fs (database_group p) !! path_key p) -> is_Some (files v !! p);
  rl_written g : g ∈ written v -> is_Some (has_writer fs g);
  rl_handles n : slot w fs (hs !! n) (handles v !! n);
  rl_exclusive n1 n2 e1 e2 :
    handles v !! n1 = Some e1 -> handles v !! n2 = Some e2 -> open_path e1 = open_path e2 -> n1 = n2
}.

(** ** Views *)

Lemma view_writer w (fs : FS) g db : has_writer fs g = Some db -> view w fs g = db_view w db.
Proof.
  unfold view, has_writer, write_view. destruct (databases fs !! g) as [cl|]; [|done]. cbn.
  by intros ->.
Qed.

Lemma view_stored w (fs : FS) g : has_writer fs g = None -> view w fs g = default ∅ (stored_at w fs g).
Proof. intros Hw. by destruct (write_view_no_writer w fs g Hw). Qed.

(** What the client of the group shows is the view. *)
Lemma client_view w (fs : FS) g c :
  clients_ok w fs -> client_of fs g c -> cs_view w (chunk_store c) = view w fs g.
Proof.
  intros Hok Hc. destruct c as [db|rd].
  - rewrite db_chunk_view. symmetry. by apply view_writer.
  - rewrite reader_chunk_view. destruct (co_reader w fs Hok g rd Hc) as [_ Hs].
    destruct Hc as (cl & Hlk & Hrw & _). rewrite view_stored; [by rewrite Hs|].
    unfold has_writer. by rewrite Hlk.
Qed.

Lemma read_view_view w (fs : FS) g : clients_ok w fs -> default ∅ (read_view w fs g) = view w fs g.
Proof.
  intros Hok. unfold read_view. destruct (databases fs !! g) as [cl|] eqn:Hlk; cycle 1.
  { rewrite view_stored; [done|]. unfold has_writer. by rewrite Hlk. }
  destruct (read_write cl) as [db|] eqn:Hrw; [|destruct (reader cl) as [rd|] eqn:Hrd].
  - cbn. symmetry. apply view_writer. unfold has_writer. by rewrite Hlk.
  - apply (client_view w fs g (ReadOnly rd) Hok). by exists cl.
  - rewrite view_stored; [done|]. unfold has_writer. by rewrite Hlk.
Qed.

(** An operation that opens no writer and leaves an equivalent world. *)
Lemma view_same w w' (fs fs' : FS) g0 g :
  only_group g0 fs fs' -> w' ≡ w -> has_writer fs' g0 = has_writer fs g0 -> view w' fs' g = view w fs g.
Proof.
  intros Ho Hw Hhw. assert (Hg : has_writer fs' g = has_writer fs g).
  { destruct (decide (g = g0)) as [->|Hne]; [done|]. by apply (has_writer_other g0). }
  destruct (has_writer fs g) as [db|] eqn:Hdb.
  - rewrite !(view_writer _ _ g db) by congruence. apply (db_view_proper w' w Hw db db eq_refl).
  - rewrite !view_stored by congruence.
    by rewrite (only_group_stored g0 fs fs' w' g Ho), (stored_at_equiv w w').
Qed.

Lemma view_beside w w' (fs fs' : FS) g0 g :
  clients_ok w fs -> only_group g0 fs fs' -> beside fs g0 w w' -> g <> g0 ->
  view w' fs' g = view w fs g.
Proof.
  intros Hok Ho [V _ S] Hne. pose proof (has_writer_other g0 g fs fs' Ho Hne) as Hg.
  destruct (has_writer fs g) as [db|] eqn:Hdb.
  - rewrite !(view_writer _ _ g db) by congruence. apply V.
    destruct (co_writer w fs Hok g db Hdb) as [-> _]. by intros ?%home_inj.
  - rewrite !view_stored by congruence. by rewrite (only_group_stored g0 fs fs' w' g Ho), S.
Qed.

Lemma keeps_refl (m : kv) q : keeps m m q.
Proof. by split. Qed.

(** A path holds one list of bytes. *)
Lemma file_at_unique (m : kv) p l l' : file_at m p l -> file_at m p l' -> l = l'.
Proof.
  intros (id & meta & Hp & Hid & Hm & Hl) Hat.
  destruct (file_at_stored m p id meta l' Hp Hid Hm Hat) as [Hlen' Hb'].
  destruct Hl as [Hlen Hb], Hm as (_ & _ & _ & [Hs _ _ _] & _).
  apply zbyte_ext; [congruence|]. intros i Hi. rewrite <-Hb, <-Hb'; [done|..];
    unfold is_u64 in *; lia.
Qed.

Lemma file_at_mapped (m : kv) p l : file_at m p l -> is_Some (m !! path_key p).
Proof. intros (id & meta & -> & _). done. Qed.

(** ** Handles that an operation leaves alone *)

Lemma attached_frame w w' (fs fs' : FS) h e l :
  clients_ok w fs -> clients_ok w' fs' -> client_of fs' (group_of e) (FileHandle.client h) ->
  wf_catalog (view w' fs' (group_of e)) ->
  keeps (view w fs (group_of e)) (view w' fs' (group_of e)) (open_path e) ->
  attached w fs h e l -> attached w' fs' h e l.
Proof.
  intros Hok Hok' Hc' Hcat [Hpath Hrec] [Hwf Hrep Hfile Hc Hearly Hp Hid Hclean].
  destruct (Hrec (file_id h) Hid Hp) as [_ Hchunks].
  pose proof (client_view w fs _ _ Hok Hc) as Hv. pose proof (client_view w' fs' _ _ Hok' Hc') as Hv'.
  pose proof (hw_store w h Hwf) as Hst. split; try done.
  - destruct Hwf. split; try done. unfold wf_world. rewrite Hst, Hv'. apply (cat_chunks _ Hcat).
  - apply (represents_frame w); [done| |done]. intros i Hi. by rewrite Hst, Hv, Hv', Hchunks.
  - by rewrite Hpath.
  - intros Hcl. apply (keeps_file_at (view w fs (group_of e))); [done|]. by apply Hclean.
Qed.

(** An entry that a step on group [g0] leaves in place. *)
Definition undisturbed (w w' : W) (fs fs' : FS) (g0 : list byte) (h : option Handle) (e : option OpenFile)
    : Prop :=
  forall h' e', h = Some h' -> e = Some e' -> group_of e' = g0 ->
  client_of fs' g0 (FileHandle.client h') /\ keeps (view w fs g0) (view w' fs' g0) (open_path e').

(** The relation after a step on group [g0]: the files of the group are those
    of its new view, the handles are where they were or on their files. *)
Lemma related_step w w' (fs fs' : FS) hs hs' v v' g0 :
  related w fs hs v -> only_group g0 fs fs' -> beside fs g0 w w' -> clients_ok w' fs' -> up w' ->
  wf_catalog (view w' fs' g0) ->
  (forall p, database_group p <> g0 -> files v' !! p = files v !! p) ->
  (forall p l, database_group p = g0 -> files v' !! p = Some l <-> file_at (view w' fs' g0) p l) ->
  (forall p, database_group p = g0 -> is_Some (view w' fs' g0 !! path_key p) -> is_Some (files v' !! p)) ->
  (forall g, g ∈ written v' -> g ∈ written v \/ g = g0 /\ is_Some (has_writer fs' g0)) ->
  (is_Some (has_writer fs g0) -> is_Some (has_writer fs' g0)) ->
  (forall n, slot w' fs' (hs' !! n) (handles v' !! n) \/
     hs' !! n = hs !! n /\ handles v' !! n = handles v !! n /\
     undisturbed w w' fs fs' g0 (hs !! n) (handles v !! n)) ->
  (forall n1 n2 e1 e2, handles v' !! n1 = Some e1 -> handles v' !! n2 = Some e2 ->
     open_path e1 = open_path e2 -> n1 = n2) ->
  related w' fs' hs' v'.
Proof.
  intros [Hu Hcl Hok Hcat Hfiles Hmap Hwr Hh Hex] Ho Hb Hok' Hu' Hcat' Hother Hat Hmap' Hwr' Hstay Hh' Hex'.
  assert (Hv : forall g, g <> g0 -> view w' fs' g = view w fs g) by (intros; by apply (view_beside w w' fs fs' g0)).
  split; [done|by rewrite (only_group_closed g0 fs fs' Ho)|done| | | | | |done].
  - intros g. destruct (decide (g = g0)) as [->|Hne]; [done|]. by rewrite Hv.
  - intros p l. destruct (decide (database_group p = g0)) as [Hg|Hne]; [rewrite Hg; by apply Hat|].
    by rewrite Hv, Hother.
  - intros p. destruct (decide (database_group p = g0)) as [Hg|Hne]; [rewrite Hg; by apply Hmap'|].
    rewrite Hv, Hother by done. apply Hmap.
  - intros g Hg. destruct (decide (g = g0)) as [->|Hne].
    + destruct (Hwr' g0 Hg) as [?|[_ ?]]; [by apply Hstay, Hwr|done].
    + rewrite (has_writer_other g0 g fs fs') by done. destruct (Hwr' g Hg) as [?|[? _]]; [by apply Hwr|done].
  - intros n. destruct (Hh' n) as [?|(-> & -> & Hun)]; [done|]. specialize (Hh n).
    unfold slot in *. destruct (hs !! n) as [h|], (handles v !! n) as [e|]; try done.
    destruct Hh as [l Hat0]. exists l. destruct (decide (group_of e = g0)) as [Hg|Hne].
    + destruct (Hun h e eq_refl eq_refl Hg) as [Hc Hk].
      apply (attached_frame w w' fs fs'); [done..|by rewrite Hg|by rewrite Hg|by rewrite Hg|done].
    + apply (attached_frame w w' fs fs'); [done..| | | |done].
      * apply (client_of_other g0 (group_of e) fs fs'); [done..|]. apply (at_client _ _ _ _ _ Hat0).
      * by rewrite Hv.
      * rewrite Hv by done. apply keeps_refl.
Qed.

(** A writer that stays serves the handles of its group; a handle that reads
    through a reader is excluded by [may_write]. *)
Lemma client_stays w (fs fs' : FS) hs v g n h e l :
  related w fs hs v -> may_write v g -> handles v !! n = Some e -> attached w fs h e l ->
  group_of e = g -> (forall db, has_writer fs g = Some db -> has_writer fs' g = Some db) ->
  client_of fs' g (FileHandle.client h).
Proof.
  intros Hrl Hmay Hn Hat Hg Hstay. pose proof (at_client _ _ _ _ _ Hat) as Hc.
  pose proof (at_early _ _ _ _ _ Hat) as He. rewrite Hg in Hc.
  destruct (FileHandle.client h) as [db|rd]; [by apply Hstay|].
  destruct Hmay as [Hw|Hall].
  - destruct (rl_written _ _ _ _ Hrl g Hw) as [db Hdb], Hc as (cl & Hlk & Hrw & _).
    unfold has_writer in Hdb. rewrite Hlk in Hdb. cbn in Hdb. congruence.
  - exfalso. by apply (map_Forall_lookup_1 _ _ n e Hall Hn He).
Qed.

(** A step that changes nothing. *)
Lemma related_same w w' (fs fs' : FS) hs v g0 :
  related w fs hs v -> only_group g0 fs fs' -> w' ≡ w -> up w' -> clients_ok w' fs' ->
  has_writer fs' g0 = has_writer fs g0 -> (forall g c, client_of fs g c -> client_of fs' g c) ->
  related w' fs' hs v.
Proof.
  intros Hrl Ho Hw Hu' Hok' Hhw Hc. pose proof (view_same w w' fs fs' g0 g0 Ho Hw Hhw) as Hv.
  apply (related_step w w' fs fs' hs hs v v g0); try done.
  - by apply beside_equiv.
  - rewrite Hv. apply (rl_catalog _ _ _ _ Hrl).
  - intros p l Hp. rewrite Hv, <-Hp. apply (rl_files _ _ _ _ Hrl).
  - intros p Hp. rewrite Hv, <-Hp. apply (rl_mapped _ _ _ _ Hrl).
  - intros g Hg. by left.
  - by rewrite Hhw.
  - intros n. right. split_and!; [done..|]. intros h e Hh He Hg. rewrite Hv. split; [|apply keeps_refl].
    pose proof (rl_handles _ _ _ _ Hrl n) as Hs. rewrite Hh, He in Hs. destruct Hs as [l Hat].
    rewrite <-Hg. apply Hc, (at_client _ _ _ _ _ Hat).
  - apply (rl_exclusive _ _ _ _ Hrl).
Qed.
End relation.
