(* ===== verification/MemFs.v ===== *)
(** * A memory world for the filesystem

    Opening and closing the databases of MemDb.v: one object store, a database
    exists from the moment its writer is first opened, and a writer that opens
    it sees what is stored: writes that were not flushed are lost.  It satisfies
    the laws of FileSystemSpec.v; the examples about fs.rs and ffi.rs run in it. *)

From S2P Require Import Prelude RustStd Error SlateDb MemDb Locality Cache FileSystem.
From S2P Require Import FileSystemSpec GroupFrame.

#[local] Open Scope string_scope.
#[local] Open Scope Z_scope.

Definition mem_missing : slatedb_error :=
  {| slatedb_kind := KindData;
     slatedb_display := "Data error: failed to find latest transactional object" |}.

Definition open_mem_writer (p : list byte) (w : MemWorld) : MemWorld :=
  {| mw_dbs := <[p := mem_stored w p]> (mw_dbs w);
     mw_durable := <[p := mem_stored w p]> (mw_durable w); mw_txns := mw_txns w; mw_next := mw_next w;
     mw_epochs := <[p := S (default 0%nat (mw_epochs w !! p))]> (mw_epochs w);
     mw_fail_in := mw_fail_in w; mw_clock := mw_clock w |}.

#[global] Instance mem_cache_lib : CacheLib unit := {|
    DEFAULT_BLOCK_CACHE_CAPACITY := 64;
    DEFAULT_META_CACHE_CAPACITY := 32;
    default_object_store_cache_options :=
      {| root_folder := None; max_cache_size_bytes := None; part_size_bytes := 4096;
         cache_on_flush := false; cache_on_compaction := false |};
    default_foyer_options := {| max_capacity := 64; shards := 4 |};
    foyer_new_with_opts _ := tt;
    split_cache _ _ := tt
  |}.

#[global] Instance mem_open : SlateDbOpen MemWorld MDb MReader unit unit unit := {|
    db_build b :=
      faulty_w (fun w => ({| mdb_path := builder_path b |}, open_mem_writer (builder_path b) w));
    reader_build _ b := fun w =>
      match faulty_w (fun w => (mw_durable w !! builder_path b, w)) w with
      | (Ok (Some _), w') => (Ok {| mreader_path := builder_path b |}, w')
      | (Ok None, w') => (Err mem_missing, w')
      | (Err e, w') => (Err e, w')
      | (Panic p, w') => (Panic p, w')
      end;
    db_close _ := faulty_w (fun w => (tt, w));
    reader_close _ := faulty_w (fun w => (tt, w));
    cache_close _ := faulty_w (fun w => (tt, w))
  |}.

Lemma mem_stored_open w p q : mem_stored (open_mem_writer p w) q = mem_stored w q.
Proof.
  unfold mem_stored at 1. cbn. rewrite lookup_insert. case_decide as Hq; [by subst|done].
Qed.
Lemma mem_contents_open w p q :
  mem_contents (open_mem_writer p w) q = if decide (p = q) then mem_stored w p else mem_contents w q.
Proof. unfold mem_contents at 1. cbn. rewrite lookup_insert. by case_decide. Qed.

#[global] Program Instance mem_open_laws : SlateDbOpenLaws MemWorld MDb MReader unit unit unit := {|
    contents w _ p := mw_durable w !! p;
    db_home d := (tt, mdb_path d);
    reader_home r := (tt, mreader_path r);
    writer_epoch w _ p := default 0%nat (mw_epochs w !! p)
  |}.
Next Obligation. intros w w' (_ & Hd & _) s ? <- p ? <-. by rewrite Hd. Qed.
Next Obligation. intros w w' (_ & _ & _ & He) s ? <- p ? <-. by rewrite He. Qed.
Next Obligation.
  intros mode b w r w' Hr. unfold reader_build, mem_open in Hr.
  destruct (faulty_w _ w) as [r1 w1] eqn:Hf.
  apply faulty_w_inv in Hf as [(f & a & Hop & -> & Hu)|(-> & -> & Hu)].
  - cbn in Hop. simplify_eq. assert (Hup : up w -> up (set_fault w f)) by (intros Hup; by rewrite (Hu Hup)).
    destruct (mw_durable w !! builder_path b) as [m|] eqn:Hm; simplify_eq.
    + split_and!; [by rewrite set_fault_equiv|done| |by destruct (builder_store b)|done]. cbn. unfold mem_stored. cbn. by rewrite Hm.
    + split_and!; [by rewrite set_fault_equiv|done|done|]. by intros e [= <-].
  - simplify_eq. split_and!; [done|done|done|]. intros e _ Hup. by destruct Hu.
Qed.
Next Obligation.
  intros b w r w' Hr. unfold db_build, mem_open in Hr.
  apply faulty_w_inv in Hr as [(f & a & Hop & -> & Hu)|(-> & -> & Hu)].
  - simplify_eq. split_and!.
    + intros Hup. split; [by rewrite (Hu Hup)|by eexists].
    + intros rd. cbn. by rewrite mem_stored_open.
    + intros d' Hne. cbn. rewrite mem_contents_open, decide_False; [done|]. intros Heq.
      apply Hne. f_equal. destruct d'. by f_equal.
    + intros [] p Hne. assert (builder_path b <> p).
      { intros <-. apply Hne. split; [by destruct (builder_store b)|done]. }
      cbn. by rewrite !lookup_insert_ne.
    + intros d [= <-]. cbn. rewrite !lookup_insert_eq. split_and!; [|done|done|by destruct (builder_store b)].
      by rewrite mem_contents_open, decide_True.
  - split_and!; [done|done|done|done|done].
Qed.

(** ** Locality *)

(** The contents of the databases other than [d] are the same. *)
Definition mem_elsewhere (d : MDb) (w w' : MemWorld) : Prop :=
  forall p, p <> mdb_path d -> mw_dbs w' !! p = mw_dbs w !! p /\ mw_durable w' !! p = mw_durable w !! p.

(** An operation of the memory world is local when its effect is. *)
Lemma mem_local_faulty {A} d (op : MemWorld -> A * MemWorld) w :
  (forall f, mem_elsewhere d w (op (set_fault w f)).2) -> mem_elsewhere d w (faulty_w op w).2.
Proof.
  intros Hop. destruct (faulty_w op w) as [r w'] eqn:Hr.
  apply faulty_w_inv in Hr as [(f & a & Hf & _)|(_ & -> & _)]; [|done].
  specialize (Hop f). by rewrite Hf in Hop.
Qed.

Lemma mem_update_elsewhere d b w f : mem_elsewhere d w (mem_update (set_fault w f) d b).
Proof. intros p Hp. cbn. by rewrite lookup_insert_ne. Qed.
Lemma mem_flush_elsewhere d w : mem_elsewhere d w (mem_flush w d).
Proof. intros p Hp. cbn. by rewrite lookup_insert_ne. Qed.

#[global] Instance mem_elsewhere_trans d : Transitive (mem_elsewhere d).
Proof. intros w1 w2 w3 H12 H23 p Hp. destruct (H12 p Hp), (H23 p Hp). split; congruence. Qed.

#[global] Instance mem_elsewhere_rel : TxnRel (Txn:=MTxn) mem_elsewhere.
Proof.
  split.
  - intros d w w' (Hd & Hs & _) _ p _. by rewrite Hd, Hs.
  - apply _.
  - intros. by apply mem_local_faulty.
  - intros. by apply mem_local_faulty.
  - intros. by apply mem_local_faulty.
  - intros. apply mem_local_faulty. intros f. etrans; [apply mem_update_elsewhere|apply mem_flush_elsewhere].
Qed.

#[global] Program Instance mem_slatedb_local : SlateDbLocal MemWorld MDb MTxn := {|
    elsewhere := mem_elsewhere
  |}.
Next Obligation. intros. apply mem_local_faulty. intros f. apply mem_update_elsewhere. Qed.
Next Obligation. intros d w. apply mem_local_faulty. intros f. apply (mem_flush_elsewhere d (set_fault w f)). Qed.

(** A database of the memory world is settled after a flush, and by a step
    that changes neither what it shows nor what is stored. *)
Lemma mem_flush_settled (w : MemWorld) (d : MDb) : settled (mem_flush w d) d.
Proof. unfold settled. cbn. by rewrite lookup_insert_eq. Qed.

Lemma mem_settles {A} (d : MDb) (op : MemWorld -> A * MemWorld) w :
  (forall f, mw_fail_in (op (set_fault w f)).2 = f) ->
  (forall f, settled w d -> settled (op (set_fault w f)).2 d) ->
  settles d w (faulty_w op w).2.
Proof.
  intros Hf Hop Hu Hs. destruct (faulty_w op w) as [r w'] eqn:Hr.
  apply faulty_w_inv in Hr as [(f & a & Hrun & _ & Hnf)|(_ & _ & Hnu)]; [|done].
  specialize (Hf f). specialize (Hop f Hs). rewrite Hrun in Hf, Hop. cbn [snd] in *.
  split; [unfold up; cbn; rewrite Hf; by apply Hnf|done].
Qed.

(** A step that may fail leaves a database that exists, if its effect does. *)
Lemma mem_exists {A} (d : MDb) (op : MemWorld -> A * MemWorld) w :
  (forall f, exists_at w d -> exists_at (op (set_fault w f)).2 d) ->
  exists_at w d -> exists_at (faulty_w op w).2 d.
Proof.
  intros Hop He. destruct (faulty_w op w) as [r w'] eqn:Hr.
  apply faulty_w_inv in Hr as [(f & a & Hrun & _)|(_ & -> & _)]; [|done].
  specialize (Hop f He). by rewrite Hrun in Hop.
Qed.

(** Databases of the memory world are apart when their paths are. *)
#[global] Program Instance mem_slatedb_apart : SlateDbApart MemWorld MDb MTxn MReader unit unit unit.
Next Obligation.
  intros d d' w w' He Hne. cbn. unfold mem_contents. destruct (He (mdb_path d')) as [-> _]; [|done].
  intros Heq. apply Hne. cbn. by rewrite Heq.
Qed.
Next Obligation.
  intros d rd w w' He Hne. cbn. unfold mem_stored. destruct (He (mreader_path rd)) as [_ ->]; [|done].
  intros Heq. apply Hne. cbn. by rewrite Heq.
Qed.
Next Obligation.
  intros d w w' [] p He Hne. cbn. apply He. intros Heq. apply Hne. cbn. by rewrite Heq.
Qed.
Next Obligation. intros. by apply mem_settles. Qed.
Next Obligation. intros. by apply mem_settles. Qed.
Next Obligation. intros. by apply mem_settles. Qed.
Next Obligation. intros. apply mem_settles; [done|]. intros f _. apply mem_flush_settled. Qed.
Next Obligation. intros d b w. by apply mem_exists. Qed.
Next Obligation.
  intros d w. apply mem_exists. intros f _. eapply settled_exists, mem_flush_settled.
Qed.
Next Obligation.
  intros d w w' _ Hr. apply faulty_w_inv in Hr as [(f & a & [= _ <-] & _)|([=] & _)].
  apply mem_flush_settled.
Qed.
