(* ===== verification/SyncProps.v ===== *)
(** * What a sync makes durable

    Theorems about [sync] of rust/src/file_handle.rs that speak of what the
    object store durably holds ([contents] of FileSystemSpec.v), not of what the
    writer shows: a write is lost with the process until it was flushed, as the
    example at the end shows. *)

From S2P Require Import Prelude RustStd Error Flags Keys SlateDb MemDb ChunkStore ChunkLayout.
From S2P Require Import DatabaseMetadata DatabaseSpec Cache FileSystem FileSystemSpec GroupFrame.
From S2P Require Import MemFs.
From S2P Require Import ChunkManager ChunkManagerSpec ChunkProps FileMetadata FileSpec Locality.
From S2P Require Import FileHandle FileHandleSpec FileRefinement FileProps.

Section props.
Context {W Db Txn Reader Store CacheT Recorder : Type} `{World W} `{DbReadOps W Db}
  `{!DbReadLaws W Db} `{DbReadOps W Reader} `{!DbReadLaws W Reader}
  `{DbReadOps W Txn} `{!DbReadLaws W Txn} `{SlateDb W Db Txn} `{!SlateDbLaws W Db Txn}
  `{!SlateDbLocal W Db Txn} `{Clock W} `{!ClockLaws W} `{MetadataCodec} `{!MetadataCodecLaws}
  `{SlateDbOpen W Db Reader Store CacheT Recorder}
  `{!SlateDbOpenLaws W Db Reader Store CacheT Recorder}
  `{!SlateDbApart W Db Txn Reader Store CacheT Recorder}.

(** What the object store holds for a database. *)
Definition held (w : W) (db : Db) : option kv := contents w (db_home db).1 (db_home db).2.

(** It holds file [id], with its metadata record and the bytes [l]. *)
Definition holds_file (w : W) (db : Db) (id : Z) (meta : FileMetadata) (l : list byte) : Prop :=
  exists m, held w db = Some m /\ has_metadata m id meta /\ stored m id meta l.

(** A successful sync of a handle with changes. *)
Lemma synced_is_held (h : SlateFileHandle Db Reader) l (w : W) h' w' db :
  wf_handle w h -> represents w h l -> client h = ReadWrite db -> clean h = false ->
  exists_at w db -> sync (h, w) = (Ok tt, (h', w')) ->
  clean h' = true /\ settled w' db /\ wf_chunk_keys (db_view w' db) /\
  has_metadata (db_view w' db) (file_id h) (metadata h') /\
  stored (db_view w' db) (file_id h) (metadata h') l.
Proof.
  intros Hwf Hrep Hc Hclean He Hr.
  destruct (sync_ok h l w (Ok tt) h' w' Hwf Hrep Hr)
    as (_ & Hwf' & _ & (Hc' & _) & _ & Hmeta & Hok & _).
  destruct (Hok eq_refl) as [Hcl Hview]. specialize (Hview Hclean db Hc). rewrite Hmeta.
  pose proof (metadata_in_range w h Hwf) as Hm.
  split_and!; [done|by eapply sync_settles| | |].
  - pose proof (hw_world _ _ Hwf') as Hk. unfold wf_world in Hk.
    rewrite (hw_store _ _ Hwf'), Hc', Hc in Hk. exact Hk.
  - exists (encode_to_bytes (metadata h)). rewrite Hview.
    split_and!; [apply lookup_sync_metadata|by apply decode_encode_bytes|done|].
    exact (wf_lay _ (hw_chunks _ _ Hwf)).
  - rewrite Hview. by apply (sync_stored w).
Qed.

(** C7: a sync that succeeds on a handle with changes makes the file durable:
    the object store itself then holds the metadata record of the handle and
    the bytes it shows, so that in any later world, such as after a crash, any
    client that shows what was held reopens the file, with any openable flags,
    at exactly the synced bytes. *)
Theorem sync_is_durable (h : SlateFileHandle Db Reader) l (w : W) h' w' db :
  wf_handle w h -> represents w h l -> client h = ReadWrite db -> clean h = false ->
  exists_at w db -> sync (h, w) = (Ok tt, (h', w')) ->
  clean h' = true /\ settled w' db /\ holds_file w' db (file_id h) (metadata h') l /\
  forall (client' : SlateFileClient Db Reader) flags' w2,
    held w' db = Some (cs_view w2 (chunk_store client')) ->
    openable client' (metadata h') flags' ->
    exists h2, FileHandle.new client' (file_id h) (metadata h') flags' = Ok h2 /\
      wf_handle w2 h2 /\ represents w2 h2 l.
Proof.
  intros Hwf Hrep Hc Hclean He Hr.
  destruct (synced_is_held h l w h' w' db Hwf Hrep Hc Hclean He Hr) as (Hcl & Hs & Hk & Hm & Hst).
  split_and!; [done|done|by exists (db_view w' db)|]. intros client' flags' w2 Hv Hopen.
  unfold held in Hv. rewrite Hs in Hv. apply (inj Some) in Hv. destruct Hm as (b & _ & _ & Hu & _).
  pose proof (wf_file _ (hw_chunks _ _ Hwf)) as Hid. rewrite (hw_id _ _ Hwf) in Hid.
  exists (opened client' (file_id h) (metadata h') flags'). split; [by apply new_ok|].
  apply opened_represents; [done..| |]; by rewrite <-Hv.
Qed.

(** C13: a sync that fails, whether its batch reached the database or not,
    leaves the handle as it was and the bytes it shows unchanged, and a later
    sync, which succeeds as soon as the store answers, makes all of them
    durable: the object store holds them. *)
Theorem failed_sync_loses_nothing (h : SlateFileHandle Db Reader) l (w : W) r h1 w1 w1' db :
  wf_handle w h -> represents w h l -> client h = ReadWrite db -> exists_at w db ->
  sync (h, w) = (r, (h1, w1)) -> r <> Ok tt -> w1' ≡ w1 ->
  h1 = h /\ represents w1 h1 l /\
  (up w1' -> exists h2 w2, sync (h1, w1') = (Ok tt, (h2, w2))) /\
  (forall h2 w2, sync (h1, w1') = (Ok tt, (h2, w2)) ->
   represents w2 h2 l /\ settled w2 db /\ holds_file w2 db (file_id h) (metadata h) l).
Proof.
  intros Hwf Hrep Hc He Hr Hne Hw.
  destruct (sync_ok h l w r h1 w1 Hwf Hrep Hr) as (_ & Hwf1 & Hrep1 & _ & _ & _ & _ & Heq).
  rewrite (Heq Hne) in *. clear h1 Heq.
  pose proof (wf_handle_equiv w1 w1' h Hw Hwf1) as Hwf1'.
  pose proof (represents_equiv w1 w1' h l Hw Hrep1) as Hrep1'.
  assert (He1 : exists_at w1' db).
  { unfold exists_at. rewrite Hw. pose proof (sync_exists h w db Hc He) as He1. by rewrite Hr in He1. }
  split_and!; [done|done| |].
  - intros Hu. destruct (sync (h, w1')) as [r2 [h2 w2]] eqn:Hr2.
    destruct (sync_ok h l w1' r2 h2 w2 Hwf1' Hrep1' Hr2) as (Hup & _).
    destruct (Hup Hu) as [-> _]. by exists h2, w2.
  - intros h2 w2 Hr2. assert (Hclean : clean h = false).
    { destruct (clean h) eqn:Hcl; [|done]. rewrite sync_run, Hcl in Hr. by simplify_eq. }
    destruct (sync_ok h l w1' (Ok tt) h2 w2 Hwf1' Hrep1' Hr2) as (_ & _ & Hrep2 & _ & _ & Hmeta & _).
    destruct (synced_is_held h l w1' h2 w2 db Hwf1' Hrep1' Hc Hclean He1 Hr2) as (_ & Hs & _ & Hm & Hst).
    rewrite Hmeta in Hm, Hst. split_and!; [done|done|]. by exists (db_view w2 db).
Qed.
End props.

(** ** At concrete inputs *)

(** The world of FileProps.v after its write, in which the database exists. *)
Definition ex_written : ExHandle * MemWorld :=
  (ex_dirty.1, set_durable ex_dirty.2 {[ mdb_path ex_db := ∅ ]}).

Lemma ex_written_represents f :
  wf_handle (set_fault ex_written.2 f) ex_written.1 /\
  represents (set_fault ex_written.2 f) ex_written.1 ex_bytes /\
  client ex_written.1 = ReadWrite ex_db /\ clean ex_written.1 = false.
Proof.
  destruct ex_dirty_represents as (Hwf & Hrep & Hc & Hclean).
  split_and!; [by eapply wf_handle_view|by eapply represents_view|done|done].
Qed.
Lemma ex_written_exists f : exists_at (set_fault ex_written.2 f) ex_db.
Proof. by eexists. Qed.

(** The process dies after the sync; what is stored is opened by a reader. *)
Definition ex_reading : SlateFileClient MDb MReader := ReadOnly {| mreader_path := mdb_path ex_db |}.
Definition ex_reopened (w : MemWorld) : MemWorld := mem_world (mw_durable w).

Lemma sync_is_durable_witness :
  exists h2, FileHandle.new ex_reading 1 (metadata (sync ex_written).2.1) read_only = Ok h2 /\
    represents (ex_reopened (sync ex_written).2.2) h2 ex_bytes.
Proof.
  destruct (ex_written_represents None) as (Hwf & Hrep & Hc & Hclean).
  assert (Hok : (sync ex_written).1 = Ok tt) by (by vm_compute).
  pose proof (sync_is_durable ex_written.1 ex_bytes ex_written.2 (sync ex_written).2.1
    (sync ex_written).2.2 ex_db Hwf Hrep Hc Hclean (ex_written_exists None)) as Hd.
  rewrite <-!surjective_pairing, <-Hok, <-surjective_pairing in Hd.
  destruct (Hd eq_refl) as (_ & _ & (m & Hm & _) & Hopen).
  destruct (Hopen ex_reading read_only (ex_reopened (sync ex_written).2.2)) as (h2 & Hn & _ & Hr).
  - cbn in Hm |- *. unfold held, mem_stored in *. cbn in *. by rewrite Hm.
  - exact (conj eq_refl (conj (conj eq_refl eq_refl) ex_layout)).
  - exists h2. split; [exact Hn|exact Hr].
Defined.

(** The flush of the first sync fails; once the store answers again, the second
    sync saves the bytes. *)
Lemma ex_failed_sync_run :
  exists r h1 w1, sync (ex_written.1, set_fault ex_written.2 (Some 1%nat)) = (r, (h1, w1)) /\ r <> Ok tt.
Proof.
  assert (Hne : match (sync (ex_written.1, set_fault ex_written.2 (Some 1%nat))).1 with
                | Ok _ => false | _ => true end = true) by (by vm_compute).
  destruct (sync _) as [r [h1 w1]]. exists r, h1, w1. split; [reflexivity|]. by intros ->.
Qed.

Lemma failed_sync_loses_nothing_witness :
  exists (h1 h2 : ExHandle) w1 w2, sync (h1, set_fault w1 None) = (Ok tt, (h2, w2)) /\
    holds_file w2 ex_db 1 (metadata ex_written.1) ex_bytes.
Proof.
  destruct (ex_written_represents (Some 1%nat)) as (Hwf & Hrep & Hc & _).
  destruct ex_failed_sync_run as (r & h1 & w1 & Hr & Hne).
  destruct (failed_sync_loses_nothing ex_written.1 ex_bytes (set_fault ex_written.2 (Some 1%nat)) r h1 w1
    (set_fault w1 None) ex_db Hwf Hrep Hc (ex_written_exists _) Hr Hne (set_fault_equiv w1 None))
    as (_ & _ & Hlive & Hlater).
  destruct (Hlive eq_refl) as (h2 & w2 & Hr2). exists h1, h2, w1, w2.
  split; [exact Hr2|apply (Hlater h2 w2 Hr2)].
Defined.

(** A batch that was written but not flushed is visible to its writer, and gone
    when the database is opened again. *)
Lemma unflushed_write_is_lost :
  let w := (db_write ex_db (sync_batch ex_written.1) ex_written.2).2 in
  db_view w ex_db !! metadata_key 1 = Some (encode_to_bytes (metadata ex_written.1)) /\
  held w ex_db = Some ∅ /\
  db_view (ex_reopened (db_flush ex_db w).2) ex_db !! metadata_key 1
    = Some (encode_to_bytes (metadata ex_written.1)).
Proof. split_and!; by vm_compute. Qed.
