(* ===== verification/FileSystemProps.v ===== *)
(** * Properties of the filesystem

    The theorems about rust/src/fs.rs that a reader should know, each applied
    at a concrete input in the memory world of MemFs.v. *)

From S2P Require Import Prelude RustStd Error Flags Keys SlateDb MemDb ChunkStore ChunkLayout.
From S2P Require Import ChunkManagerSpec FileMetadata FileSpec FileHandle FileHandleSpec.
From S2P Require Import FileRefinement.
From S2P Require Import Transactions DatabaseMetadata DatabaseSpec DatabaseOps Cache.
From S2P Require Import FileSystem GroupSpec FileSystemSpec FileSystemOps MemFs ChunkProps.
From S2P Require Import FileProps DatabaseProps.

(** ** Names *)

(** the companion files of a database file, and only they, share its
    database: a name that is a stem and a companion suffix belongs to the stem,
    which is unique, and every other name is its own group. *)
Theorem companions_share_database p d :
  (companion p d -> database_group p = d) /\
  ((forall e, ~ companion p e) <-> database_group p = p).
Proof.
  split; [apply group_companion|]. split; [apply group_own|]. intros Hp e He.
  pose proof (group_companion p e He) as Hg. rewrite Hp in Hg. subst e.
  destruct He as (_ & s & Hs & Heq). apply suffix_last in Hs.
  apply (f_equal length) in Heq. rewrite length_app in Heq. destruct s; [done|simpl in Heq; lia].
Qed.

(** C31: databases stay apart in the object store: different groups are stored
    at different paths, never one below another, whatever separators and
    percent signs their names hold. *)
Theorem databases_stay_apart {Db Reader Store CacheT Recorder Metrics}
    (self : SlateDbFileSystem Db Reader Store CacheT Recorder Metrics) g1 g2 rest :
  (slatedb_path self g1 = slatedb_path self g2 <-> g1 = g2) /\
  slatedb_path self g1 <> slatedb_path self g2 ++ byte_slash :: rest.
Proof.
  split; [|apply slatedb_path_flat]. split; [apply slatedb_path_inj|by intros ->].
Qed.

(** cache IDs are 64-bit FNV-1a hashes: within a u64, and names of equal
    length that differ in one byte never collide. *)
Theorem stable_hash_bytes l p s a b :
  is_u64 (stable_hash l) /\
  (stable_hash (p ++ a :: s) = stable_hash (p ++ b :: s) <-> a = b).
Proof.
  split; [by apply fnv_fold_u64|]. split; [apply stable_hash_byte|by intros ->].
Qed.

Section props.
Context {W Db Txn Reader Store CacheT Recorder Metrics : Type} `{World W} `{DbReadOps W Db}
  `{!DbReadLaws W Db} `{DbReadOps W Reader} `{!DbReadLaws W Reader}
  `{DbReadOps W Txn} `{!DbReadLaws W Txn} `{SlateDb W Db Txn} `{!SlateDbLaws W Db Txn}
  `{Clock W} `{!ClockLaws W} `{MetadataCodec} `{!MetadataCodecLaws}
  `{SlateDbOpen W Db Reader Store CacheT Recorder} `{CacheLib CacheT}
  `{!SlateDbOpenLaws W Db Reader Store CacheT Recorder}.
#[local] Abbreviation FS := (SlateDbFileSystem Db Reader Store CacheT Recorder Metrics).

(** ** Opening *)

(** C11: opening a path for writing on a store that answers gives a handle on
    the file of that path: it represents the bytes stored there, no bytes if
    the file was created or emptied; the other files of the database keep
    theirs and the other databases their clients.  A path is refused exactly
    when it is missing and not to be created, or when the file IDs are used
    up, and then nothing of the database changes. *)
Theorem open_for_writing path flags (fs : FS) (w : W) :
  up w -> closed fs = false -> validate flags = Ok tt -> Flags.write flags = true -> path <> [] ->
  wf_catalog (default ∅ (write_view w fs (database_group path))) ->
  exists r fs' w', open_file path flags (fs, w) = (r, (fs', w')) /\ up w' /\
  only_group (database_group path) fs fs' /\
  let m := default ∅ (write_view w fs (database_group path)) in
  match r with
  | Ok h => exists db,
  has_writer fs' (database_group path) = Some db /\ FileHandle.client h = ReadWrite db /\
  (forall l, file_at (db_view w' db) path l -> wf_handle w' h /\ represents w' h l) /\
  (forall q l, q <> path -> (file_at (db_view w' db) q l <-> file_at m q l)) /\
  (if truncate_existing flags || bool_decide (m !! path_key path = None)
   then file_at (db_view w' db) path [] else db_view w' db = m) /\
  (m !! path_key path = None -> create flags = true)
  | Err e =>
  m !! path_key path = None /\ default ∅ (write_view w' fs' (database_group path)) = m /\
  (code e = CodeFileNotFound /\ create flags = false \/
   code e = CodeMetadataDecode /\ create flags = true /\ next_id m = u64_max)
  | Panic _ => False
  end.
Proof.
  intros Hu Hcl Hf Hw Hp Hwf. cbn zeta.
  destruct (open_file path flags (fs, w)) as [r [fs' w']] eqn:Hr. exists r, fs', w'.
  unfold open_file, bind, lift in Hr. rewrite Hf, Hw in Hr.
  apply open_write_handle_spec in Hr as (Hu' & Ho & Hres); [|done..].
  split_and!; [done..|]. destruct r as [h|e|p]; [| |done].
  - destruct Hres as (db & found & Hhw & -> & Hop & Hat). exists db.
    destruct Hop as (_ & _ & _ & _ & Hq & _ & Hm). split_and!; [done|done|done| | |].
    + intros q l Hne. by apply keeps_file_at, Hq.
    + destruct (_ !! path_key path) as [b|].
      * rewrite bool_decide_false by done. by destruct (truncate_existing flags).
      * rewrite bool_decide_true by done. rewrite orb_true_r. apply Hm.
    + intros Hn. rewrite Hn in Hm. apply Hm.
  - destruct Hres as (? & ? & ?). by split_and!.
Qed.

(** C15: opening a path for reading, and asking whether it exists, changes
    nothing anywhere, even when the store fails: no database is created, no
    writer opened or fenced, and no client of another group touched. *)
Theorem reading_changes_nothing path flags (fs : FS) (w : W) :
  closed fs = false -> Flags.write flags = false -> path <> [] ->
  wf_catalog (default ∅ (read_view w fs (database_group path))) ->
  (forall r fs' w', open_file path flags (fs, w) = (r, (fs', w')) ->
  w' ≡ w /\ only_group (database_group path) fs fs' /\
  has_writer fs' (database_group path) = has_writer fs (database_group path)) /\
  (forall r fs' w', file_exists path (fs, w) = (r, (fs', w')) ->
  w' ≡ w /\ only_group (database_group path) fs fs' /\
  has_writer fs' (database_group path) = has_writer fs (database_group path)).
Proof.
  intros Hcl Hnw Hp Hwf. split; intros r fs' w' Hr.
  - unfold open_file, bind at 1, lift in Hr. rewrite Hnw in Hr.
    destruct (validate flags) as [[]|e|p] eqn:Hf; [|simplify_eq; eauto using only_group_refl..].
    by apply open_read_handle_spec in Hr as (? & _ & ? & ? & _).
  - by apply file_exists_spec in Hr as (? & ? & ? & _).
Qed.

(** opening a path for reading on a store that answers finds its file:
    the handle represents the bytes the database holds at the path, and a path
    without a file is reported missing. *)
Theorem open_for_reading path flags (fs : FS) (w : W) :
  up w -> closed fs = false -> validate flags = Ok tt -> Flags.write flags = false -> path <> [] ->
  wf_catalog (default ∅ (read_view w fs (database_group path))) ->
  exists r fs' w', open_file path flags (fs, w) = (r, (fs', w')) /\ up w' /\
  let m := default ∅ (read_view w fs (database_group path)) in
  match r with
  | Ok h => is_Some (m !! path_key path) /\
  forall l, file_at m path l -> wf_handle w' h /\ represents w' h l
  | Err e => code e = CodeFileNotFound /\ m !! path_key path = None
  | Panic _ => False
  end.
Proof.
  intros Hu Hcl Hf Hw Hp Hwf. cbn zeta.
  destruct (open_file path flags (fs, w)) as [r [fs' w']] eqn:Hr. exists r, fs', w'.
  unfold open_file, bind, lift in Hr. rewrite Hf, Hw in Hr.
  apply open_read_handle_spec in Hr as (_ & Hu' & _ & _ & Hres); [|done..].
  split_and!; [done|by auto|]. destruct r; [by destruct Hres as (? & ? & _)|by auto..].
Qed.

(** on a store that answers, [file_exists] tells whether the database
    maps the path to a file; a database that was never written has none. *)
Theorem file_exists_answers path (fs : FS) (w : W) :
  up w -> closed fs = false -> path <> [] ->
  exists fs' w', file_exists path (fs, w) =
  (Ok (bool_decide (is_Some (default ∅ (read_view w fs (database_group path)) !! path_key path))),
  (fs', w')).
Proof.
  intros Hu Hcl Hp. destruct (file_exists path (fs, w)) as [r [fs' w']] eqn:Hr.
  apply file_exists_spec in Hr as (_ & _ & _ & Hans); [|done..].
  destruct (Hans Hu) as [_ ->]. by exists fs', w'.
Qed.

(** ** Writers *)

(** C16: asking for the writer of a path opens one writer per group: once a
    group has a writer every later call returns it and changes nothing, and
    opening one creates and fences nothing outside the group, so writers of
    different databases do not exclude each other. *)
Theorem one_writer_per_group path create (fs : FS) (w : W) db fs' w' :
  closed fs = false -> write_db path create (fs, w) = (Ok db, (fs', w')) ->
  let g := database_group path in
  has_writer fs' g = Some db /\
  (forall path' create', database_group path' = g ->
  write_db path' create' (fs', w') = (Ok db, (fs', w'))) /\
  (forall g', g' <> g -> databases fs' !! g' = databases fs !! g' /\
  stored_at w' fs' g' = stored_at w fs g' /\
  writer_epoch w' (object_store fs') (slatedb_path fs' g')
  = writer_epoch w (object_store fs) (slatedb_path fs g')) /\
  writer_epoch w' (object_store fs) (slatedb_path fs g) =
  (writer_epoch w (object_store fs) (slatedb_path fs g)
  + match has_writer fs g with Some _ => 0 | None => 1 end)%nat /\
  (create = false -> is_Some (write_view w fs g)).
Proof.
  intros Hcl Hr. cbn zeta. apply write_db_spec in Hr as (_ & Ho & _ & _ & Hfr & Hres); [|done].
  set (g := database_group path) in *. destruct Hres as (Hhw & _ & Hc & Hep). split_and!.
  - done.
  - intros path' create' Hg. unfold write_db, bind at 1, on_fst at 1, get_state. cbn [fst snd].
    rewrite (only_group_closed g fs fs' Ho), Hcl, Hg. unfold bind, on_fst. cbn [fst snd].
    rewrite client_for_group_run. unfold has_writer in Hhw. destruct (databases fs' !! g) as [cl|]; [|done].
    cbn in Hhw |- *. by rewrite Hhw.
  - intros g' Hg'. destruct Ho as [Hfs Hdb]. split; [by apply Hdb|].
    rewrite Hfs. unfold stored_at. apply Hfr. intros [_ Heq]. by apply slatedb_path_inj in Heq.
  - destruct (has_writer fs g); [|by rewrite (proj1 Hep), Nat.add_1_r].
    destruct Hep as (_ & _ & ->). by rewrite Nat.add_0_r.
  - intros ->. by destruct Hc.
Qed.

(** ** Moving and removing *)

(** files move only within a database.  Between groups the move is
    refused before anything is opened; within one, on a store that answers,
    the target path gets the file of the source and the other files keep
    theirs, and a missing source, or a missing database, is reported. *)
Theorem moves_stay_in_database source target (fs : FS) (w : W) :
  closed fs = false -> source <> [] -> target <> [] -> source <> target -> up w ->
  let g := database_group source in
  let m := default ∅ (write_view w fs g) in
  wf_catalog m ->
  exists r fs' w', move_file source target (fs, w) = (r, (fs', w')) /\
  if bool_decide (database_group source = database_group target) then
  match r with
  | Ok _ => exists db, has_writer fs' g = Some db /\ is_Some (m !! path_key source) /\
    db_view w' db !! path_key source = None /\
    (forall l, file_at (db_view w' db) target l <-> file_at m source l) /\
    (forall q l, q <> source -> q <> target -> (file_at (db_view w' db) q l <-> file_at m q l))
  | Err e => code e = CodeFileNotFound /\ m !! path_key source = None
  | Panic _ => False
  end
  else fs' = fs /\ w' = w /\ exists e, r = Err e /\ code e = CodeInvalidArgument.
Proof.
  intros Hcl Hs Ht Hne Hu. cbn zeta. intros Hwf.
  destruct (move_file source target (fs, w)) as [r [fs' w']] eqn:Hr. exists r, fs', w'.
  split; [done|]. case_bool_decide as Hg; cycle 1.
  { unfold move_file in Hr. rewrite bool_decide_false in Hr by done. unfold lift in Hr. cbn in Hr.
    simplify_eq. split_and!; [done..|]. by eexists. }
  apply move_file_spec in Hr as (_ & _ & Hres); [|done..].
  set (g := database_group source) in *.
  destruct r as [[]|e|p]; [|by destruct Hres as (? & ? & _)|done].
  destruct Hres as (db & id & Hhw & Hpath & Hid & Hv'). exists db. rewrite Hv'.
  split_and!; [done|by rewrite Hpath|by rewrite moved_path, decide_False, decide_True| |].
  - intros l. by apply moved_file_at.
  - intros q l Hq1 Hq2. apply keeps_file_at. by apply moved_keeps.
Qed.

(** ** Closing *)

(** a closed filesystem refuses every operation on a path as an invalid
    argument, and stays as it is. *)
Theorem closed_filesystem_refuses path target flags (fs : FS) (w : W) :
  closed fs = true -> validate flags = Ok tt ->
  exists e, code e = CodeInvalidArgument /\
  open_file path flags (fs, w) = (Err e, (fs, w)) /\
  file_exists path (fs, w) = (Err e, (fs, w)) /\
  remove_file path (fs, w) = (Err e, (fs, w)) /\
  (database_group path = database_group target ->
  move_file path target (fs, w) = (Err e, (fs, w))).
Proof.
  intros Hc Hf. exists filesystem_closed. split; [done|].
  unfold open_file, file_exists, remove_file, move_file, open_write_handle, open_read_handle, bind,
    lift. rewrite Hf, (closed_read_client path fs w Hc). split_and!.
  - destruct (Flags.write flags); [by rewrite closed_write_db|by rewrite closed_read_client].
  - done.
  - by rewrite closed_write_db.
  - intros Hg. rewrite bool_decide_true by done. cbn [negb]. by rewrite closed_write_db.
Qed.
End props.

(** ** Shutting down *)

(** What a shutdown closes. *)
Inductive Closing (Db Reader CacheT : Type) :=
  | CloseDb (db : Db)
  | CloseReader (r : Reader)
  | CloseCache (c : CacheT).
Arguments CloseDb {Db Reader CacheT}.
Arguments CloseReader {Db Reader CacheT}.
Arguments CloseCache {Db Reader CacheT}.

Section shutdown.
Context {W Db Reader Store CacheT Recorder Metrics : Type}
  `{SlateDbOpen W Db Reader Store CacheT Recorder}.
#[local] Abbreviation FS := (SlateDbFileSystem Db Reader Store CacheT Recorder Metrics).
#[local] Abbreviation Client := (SlateDbClient Db Reader).

Definition close_one (c : Closing Db Reader CacheT) : M slatedb_error W unit :=
  match c with
  | CloseDb db => db_close db
  | CloseReader r => reader_close r
  | CloseCache c => cache_close c
  end.

(** Close everything in order, whatever the outcomes. *)
Fixpoint close_all (l : list (Closing Db Reader CacheT)) (w : W)
    : list (res slatedb_error unit) * W :=
  match l with
  | [] => ([], w)
  | c :: l =>
      let '(r, w) := close_one c w in
      let '(rs, w) := close_all l w in
      (r :: rs, w)
  end.

Definition first_error (rs : list (res slatedb_error unit)) : Result unit :=
  foldl (fun acc r => match acc with
                      | Ok _ => try_from (from_slatedb_error unknown_location) r
                      | acc => acc
                      end) (Ok tt) rs.

Definition client_closings (c : Client) : list (Closing Db Reader CacheT) :=
  (if read_write c is Some db then [CloseDb db] else []) ++
  (if reader c is Some r then [CloseReader r] else []).

Definition closings (clients : list Client) (cache : option CacheT)
    : list (Closing Db Reader CacheT) :=
  (clients ≫= client_closings) ++ (if cache is Some c then [CloseCache c] else []).

(** Fold one more result into the first error. *)
Definition note (acc : Result unit) (r : res slatedb_error unit) : Result unit :=
  match acc with Ok _ => try_from (from_slatedb_error unknown_location) r | acc => acc end.

Lemma keep_first_run (call : M slatedb_error W unit) acc w r w' :
  call w = (r, w') -> is_panic r = false ->
  keep_first call (acc, w) = (Ok tt, (note acc r, w')).
Proof. intros Hr Hp. unfold keep_first. rewrite Hr. destruct r as [[]|e|p], acc as [[]|e'|p']; done. Qed.

Lemma close_all_app l1 l2 w :
  close_all (l1 ++ l2) w =
  let '(rs1, w1) := close_all l1 w in
  let '(rs2, w2) := close_all l2 w1 in (rs1 ++ rs2, w2).
Proof.
  revert w. induction l1 as [|c l1 IH]; intros w; cbn.
  - by destruct (close_all l2 w).
  - destruct (close_one c w) as [r w1]. rewrite IH. destruct (close_all l1 w1) as [rs1 w2].
    by destruct (close_all l2 w2).
Qed.

(** A computation over the running result that closes [l]. *)
Definition closes (l : list (Closing Db Reader CacheT)) (m : M Error (Result unit * W) unit) : Prop :=
  forall acc w rs w', close_all l w = (rs, w') -> Forall (fun r => is_panic r = false) rs ->
  m (acc, w) = (Ok tt, (foldl note acc rs, w')).

Lemma closes_nil : closes [] (ret tt).
Proof. intros acc w rs w' Hr _. cbn in Hr. by simplify_eq. Qed.

Lemma closes_one c : closes [c] (keep_first (close_one c)).
Proof.
  intros acc w rs w' Hr Hp. cbn in Hr. destruct (close_one c w) as [r w1] eqn:Hc.
  injection Hr as <- <-. apply Forall_cons in Hp as [Hp _].
  exact (keep_first_run _ acc w r w1 Hc Hp).
Qed.

Lemma closes_app l1 l2 m1 m2 :
  closes l1 m1 -> closes l2 m2 -> closes (l1 ++ l2) (let! _ := m1 in m2).
Proof.
  intros H1 H2 acc w rs w' Hr Hp. rewrite close_all_app in Hr.
  destruct (close_all l1 w) as [rs1 w1] eqn:Hc1, (close_all l2 w1) as [rs2 w2] eqn:Hc2.
  simplify_eq. apply Forall_app in Hp as [Hp1 Hp2]. unfold bind.
  rewrite (H1 acc w rs1 w1 Hc1 Hp1). rewrite (H2 _ w1 rs2 w' Hc2 Hp2). by rewrite foldl_app.
Qed.

Lemma closes_client c : closes (client_closings c) (close_client c).
Proof.
  apply closes_app.
  - destruct (read_write c) as [db|]; [apply (closes_one (CloseDb db))|apply closes_nil].
  - destruct (reader c) as [r|]; [apply (closes_one (CloseReader r))|apply closes_nil].
Qed.

Lemma closes_clients l : closes (l ≫= client_closings) (for_each l close_client).
Proof.
  induction l as [|c l IH]; [apply closes_nil|]. apply closes_app; [apply closes_client|done].
Qed.

(** C30: [close] closes every open writer and reader and the shared cache,
    each exactly once and even when some of them fail, reports the first
    failure, and leaves the filesystem closed and empty.  ([into_values], the
    order of the map, is any enumeration of its clients; no close panics.) *)
Theorem close_closes_everything (into_values : gmap (list byte) Client -> list Client)
  (fs : FS) (w : W) rs w' :
  (forall m, into_values m ≡ₚ (map_to_list m).*2) ->
  close_all (closings (into_values (databases fs)) (db_cache fs)) w = (rs, w') ->
  Forall (fun r => is_panic r = false) rs ->
  close into_values (fs, w)
  = (first_error rs, (take_db_cache (set_closed (set_databases fs ∅)), w')) /\
  (forall g c db, databases fs !! g = Some c -> read_write c = Some db ->
  CloseDb db ∈ closings (into_values (databases fs)) (db_cache fs)) /\
  (forall g c r, databases fs !! g = Some c -> reader c = Some r ->
  CloseReader r ∈ closings (into_values (databases fs)) (db_cache fs)).
Proof.
  intros Hperm Hr Hp.
  assert (Hin : forall g c x, databases fs !! g = Some c -> x ∈ client_closings c ->
    x ∈ closings (into_values (databases fs)) (db_cache fs)).
  { intros g c x Hg Hx. unfold closings. apply elem_of_app. left. apply list_elem_of_bind.
    exists c. split; [done|]. rewrite Hperm. apply list_elem_of_fmap. exists (g, c).
    split; [done|]. by apply elem_of_map_to_list. }
  split_and!.
  - unfold closings in Hr. rewrite close_all_app in Hr.
    destruct (close_all (_ ≫= _) w) as [rs1 w1] eqn:Hc1.
    set (l2 := if db_cache fs is Some c then [CloseCache c] else []) in Hr.
    destruct (close_all l2 w1) as [rs2 w2] eqn:Hc2. simplify_eq.
    apply Forall_app in Hp as [Hp1 Hp2].
    assert (Hl2 : closes l2 (match db_cache fs with
      | Some cache => keep_first (cache_close cache) | None => ret tt end)).
    { unfold l2. destruct (db_cache fs) as [c|]; [apply (closes_one (CloseCache c))|apply closes_nil]. }
    unfold close, bind, on_fst, get_state, put_state, modify, closing, on_snd, with_local, lift.
    cbn [fst snd]. unfold bind, on_fst, get_state. cbn [fst snd].
    rewrite (closes_clients _ (Ok tt) w rs1 w1 Hc1 Hp1). cbn [fst snd].
    rewrite (Hl2 _ w1 rs2 w' Hc2 Hp2). cbn [fst snd]. unfold first_error.
    by rewrite foldl_app.
  - intros g c db Hg Hc. apply (Hin g c); [done|]. unfold client_closings. rewrite Hc. set_solver.
  - intros g c r Hg Hc. apply (Hin g c); [done|]. unfold client_closings. rewrite Hc. set_solver.
Qed.
End shutdown.

(** ** S3 *)

(** The calls as one list, part by part. *)
Definition optional {A} (f : A -> S3Call) (o : option A) : list S3Call :=
  match o with Some x => [f x] | None => [] end.
Definition credentials (config : S3StorageConfig) : list S3Call :=
  match key_id config, secret config with
  | Some k, Some s => [S3AccessKeyId k; S3SecretAccessKey s] ++ optional S3SessionToken (session_token config)
  | _, _ => [S3SkipSignature]
  end.

Lemma s3_builder_app config :
  s3_builder config =
    [S3Bucket (bucket config); S3DisableConfigLoad; S3DisableEc2Metadata] ++
    optional S3Root (root config) ++
    optional (fun e => S3Endpoint (endpoint_url config e)) (endpoint config) ++
    optional S3Region (region config) ++ credentials config ++
    (if virtual_host_style config then [S3EnableVirtualHostStyle] else []).
Proof.
  unfold s3_builder, credentials, optional.
  destruct (root config), (endpoint config), (region config), (key_id config), (secret config),
    (session_token config), (virtual_host_style config); reflexivity.
Qed.

Lemma elem_of_optional {A} (f : A -> S3Call) o call :
  call ∈ optional f o <-> exists x, o = Some x /\ call = f x.
Proof. destruct o; cbn; rewrite ?list_elem_of_singleton, ?elem_of_nil; naive_solver. Qed.

Lemma elem_of_credentials config call :
  call ∈ credentials config <->
    (exists k s, key_id config = Some k /\ secret config = Some s /\
       (call = S3AccessKeyId k \/ call = S3SecretAccessKey s \/
        exists t, session_token config = Some t /\ call = S3SessionToken t)) \/
    ((key_id config = None \/ secret config = None) /\ call = S3SkipSignature).
Proof.
  unfold credentials. destruct (key_id config), (secret config);
    rewrite ?elem_of_app, ?elem_of_optional, ?elem_of_cons, ?elem_of_nil; naive_solver.
Qed.

(** The calls by their kind. *)
Lemma s3_builder_elem (config : S3StorageConfig) call :
  call ∈ s3_builder config <->
    call = S3Bucket (bucket config) \/ call = S3DisableConfigLoad \/ call = S3DisableEc2Metadata \/
    (exists x, root config = Some x /\ call = S3Root x) \/
    (exists x, endpoint config = Some x /\ call = S3Endpoint (endpoint_url config x)) \/
    (exists x, region config = Some x /\ call = S3Region x) \/
    (exists k s, key_id config = Some k /\ secret config = Some s /\
       (call = S3AccessKeyId k \/ call = S3SecretAccessKey s \/
        exists t, session_token config = Some t /\ call = S3SessionToken t)) \/
    ((key_id config = None \/ secret config = None) /\ call = S3SkipSignature) \/
    (virtual_host_style config = true /\ call = S3EnableVirtualHostStyle).
Proof.
  rewrite s3_builder_app, !elem_of_app, !elem_of_optional, elem_of_credentials, !elem_of_cons,
    elem_of_nil.
  assert (Hv : call ∈ (if virtual_host_style config then [S3EnableVirtualHostStyle] else []) <->
    virtual_host_style config = true /\ call = S3EnableVirtualHostStyle).
  { destruct (virtual_host_style config); rewrite ?list_elem_of_singleton, ?elem_of_nil; naive_solver. }
  rewrite Hv. clear Hv. tauto.
Qed.

(** No setter is called twice. *)
Definition s3_setter (call : S3Call) : nat :=
  match call with
  | S3Bucket _ => 0 | S3DisableConfigLoad => 1 | S3DisableEc2Metadata => 2 | S3Root _ => 3
  | S3Endpoint _ => 4 | S3Region _ => 5 | S3AccessKeyId _ => 6 | S3SecretAccessKey _ => 7
  | S3SessionToken _ => 8 | S3SkipSignature => 9 | S3EnableVirtualHostStyle => 10
  end%nat.

Lemma s3_builder_NoDup config : NoDup (s3_setter <$> s3_builder config).
Proof.
  rewrite s3_builder_app. unfold credentials, optional.
  destruct (root config), (endpoint config), (region config), (key_id config), (secret config),
    (session_token config), (virtual_host_style config); by apply (bool_decide_unpack _).
Qed.

(** ** What OpenDAL is to be told *)

(** An endpoint that names its scheme is used as it is, another one gets that
    of the configuration. *)
Definition has_scheme (endpoint : list byte) : Prop :=
  exists a b, endpoint = a ++ bytes_of "://" ++ b.
Definition endpoint_wanted (config : S3StorageConfig) (given e : list byte) : Prop :=
  has_scheme given /\ e = given \/
  ~ has_scheme given /\
    e = (if use_ssl config then bytes_of "https" else bytes_of "http") ++ bytes_of "://" ++ given.

(** The setters of OpenDAL's builder that a configuration asks for. *)
Definition s3_wanted (config : S3StorageConfig) (call : S3Call) : Prop :=
  match call with
  | S3Bucket b => b = bucket config
  | S3DisableConfigLoad | S3DisableEc2Metadata => True
  | S3Root r => root config = Some r
  | S3Endpoint e => exists given, endpoint config = Some given /\ endpoint_wanted config given e
  | S3Region r => region config = Some r
  | S3AccessKeyId k => key_id config = Some k
  | S3SecretAccessKey k => secret config = Some k
  | S3SessionToken t => session_token config = Some t
  | S3SkipSignature => key_id config = None
  | S3EnableVirtualHostStyle => virtual_host_style config = true
  end.

Lemma endpoint_url_wanted config given e :
  e = endpoint_url config given <-> endpoint_wanted config given e.
Proof.
  unfold endpoint_wanted, has_scheme, endpoint_url. rewrite <-contains_iff.
  destruct (contains given _), (use_ssl config); cbn; naive_solver.
Qed.

Definition s3_valid (config : S3StorageConfig) : Prop :=
  bucket config <> [] /\ (is_Some (key_id config) <-> is_Some (secret config)) /\
  (is_Some (session_token config) -> is_Some (key_id config)).

Lemma s3_builder_wanted config call :
  s3_valid config -> call ∈ s3_builder config <-> s3_wanted config call.
Proof.
  intros (_ & Hk & Ht). rewrite s3_builder_elem. split.
  - intros [->|[->|[->|[(x & Hx & ->)|[(x & Hx & ->)|[(x & Hx & ->)|[(k & s & Hx & Hs & Hc)|
      [[Hx ->]|[Hx ->]]]]]]]]]; cbn [s3_wanted]; try done.
    + exists x. split; [done|]. by apply endpoint_url_wanted.
    + destruct Hc as [->|[->|(t & Htok & ->)]]; done.
    + destruct Hx as [|Hs]; [done|]. apply eq_None_not_Some. intros Hx%Hk. rewrite Hs in Hx. by destruct Hx.
  - assert (Hks : forall k, key_id config = Some k -> exists s, secret config = Some s).
    { intros k Heq. apply Hk. by eexists. }
    assert (Hsk : forall s, secret config = Some s -> exists k, key_id config = Some k).
    { intros s Heq. apply Hk. by eexists. }
    destruct call as [b| | |r|e|r|k|s|t| |]; cbn [s3_wanted].
    + intros ->. by left.
    + intros _. by right; left.
    + intros _. by do 2 right; left.
    + intros Hr. do 3 right; left. by exists r.
    + intros (given & Hg & Hw%endpoint_url_wanted). do 4 right; left. exists given. by rewrite Hw.
    + intros Hr. do 5 right; left. by exists r.
    + intros Hx. destruct (Hks k Hx) as [s Hs]. do 6 right; left. exists k, s. by split_and!; [..|left].
    + intros Hs. destruct (Hsk s Hs) as [k Hx]. do 6 right; left. exists k, s. by split_and!; [..|right; left].
    + intros Htok. destruct Ht as [k Hx]; [by eexists|]. destruct (Hks k Hx) as [s Hs].
      do 6 right; left. exists k, s. split_and!; [done..|]. do 2 right. by exists t.
    + intros Hx. do 7 right; left. by split; [left|].
    + intros Hv. by do 8 right.
Qed.

(** An invalid configuration is refused before OpenDAL is asked, a valid one
    is what OpenDAL is asked for. *)
Lemma build_s3_operator_checks {W Operator Store Recorder Metrics}
    `{Opendal W Operator Store Recorder Metrics} (config : S3StorageConfig) :
  (s3_valid config -> build_s3_operator config
     = new_operator (S3 (s3_builder config)) "failed to initialize OpenDAL S3 storage") /\
  (~ s3_valid config -> exists e, build_s3_operator config = Err e /\ code e = CodeInvalidArgument).
Proof.
  assert (Hsome : forall {A} (o : option A), is_Some o \/ o = None) by (intros ? []; eauto).
  split.
  - intros (Hb & Hk & Ht). unfold build_s3_operator. rewrite bool_decide_false by done.
    rewrite (bool_decide_ext _ _ Hk), eqb_reflx. cbn [negb].
    destruct (bool_decide (is_Some (session_token config))) eqn:Hs; [|done].
    apply bool_decide_eq_true in Hs. destruct (Ht Hs) as [k ->]. done.
  - intros Hv. unfold build_s3_operator. case_bool_decide as Hb; [by eexists|].
    destruct (eqb _ _) eqn:Hk; cbn [negb]; [|by eexists]. apply eqb_prop in Hk.
    destruct (bool_decide (is_Some (session_token config)) && bool_decide (key_id config = None)) eqn:Ht;
      [by eexists|]. destruct Hv. split_and!; [done| |].
    + split; intros Hs.
      * apply (bool_decide_eq_true_1 (is_Some (secret config))). rewrite <-Hk.
        by apply bool_decide_eq_true_2.
      * apply (bool_decide_eq_true_1 (is_Some (key_id config))). rewrite Hk.
        by apply bool_decide_eq_true_2.
    + intros Hs. rewrite (bool_decide_true _ Hs) in Ht. cbn in Ht. apply bool_decide_eq_false in Ht.
      destruct (Hsome _ (key_id config)); [done|]. by destruct Ht.
Qed.

(** C35: which S3 configurations are accepted, and what is asked of OpenDAL
    for those that are: a bucket, keys only as a pair, a session token only
    with keys, anything else is an invalid argument.  OpenDAL's builder is told
    exactly what the configuration says, each setting once: bucket, root,
    region and token as given, both keys or else to leave requests unsigned,
    virtual-host style on request, and the endpoint, with the scheme the
    configuration asks for when it names none; a failure of OpenDAL is an I/O
    error. *)
Theorem s3_configuration {W Operator Store Recorder Metrics} `{Opendal W Operator Store Recorder Metrics}
    (config : S3StorageConfig) :
  (s3_valid config ->
   exists calls, NoDup (s3_setter <$> calls) /\ (forall call, call ∈ calls <-> s3_wanted config call) /\
     match opendal_new (S3 calls) with
     | Ok operator => build_s3_operator config = Ok operator
     | Err _ => exists e, build_s3_operator config = Err e /\ code e = CodeIo
     | Panic msg => build_s3_operator config = Panic msg
     end) /\
  (~ s3_valid config -> exists e, build_s3_operator config = Err e /\ code e = CodeInvalidArgument).
Proof.
  destruct (build_s3_operator_checks config) as [Hok Herr]. split; [|done]. intros Hv.
  exists (s3_builder config). split_and!; [apply s3_builder_NoDup|by intros; apply s3_builder_wanted|].
  rewrite (Hok Hv). unfold new_operator. destruct (opendal_new _); cbn; [done|by eexists|done].
Qed.

(** ** At concrete inputs *)

Abbreviation ExFs := (SlateDbFileSystem MDb MReader unit unit unit unit).
Definition ex_fs : ExFs :=
  {| database_path := bytes_of "duckdb-object-storage"; store_location := bytes_of "memory://";
     object_store := tt; cache_config := default_cache_config; db_cache := Some tt;
     databases := ∅; closed := false; cache_metrics := tt; io_metrics := tt |}.

(** A reader of the database with the files "a" and "b". *)
Definition ex_fs_reading : ExFs :=
  set_databases ex_fs
    {[ bytes_of "a" := {| read_write := None; reader := Some {| mreader_path := bytes_of "db" |} |} ]}.
Definition ex_fs_writing : ExFs :=
  set_databases ex_fs {[ bytes_of "a" := {| read_write := Some ex_db; reader := None |} ]}.

Lemma ex_file_up : up ex_file_world.
Proof. by vm_compute. Qed.
Lemma ex_fs_view : default ∅ (write_view ex_file_world ex_fs (bytes_of "x.db")) = ∅.
Proof. done. Qed.
Lemma ex_reading_view :
  read_view ex_catalog_world ex_fs_reading (bytes_of "a") = Some (db_view ex_catalog_world ex_db).
Proof. done. Qed.
Lemma ex_writing_view :
  write_view ex_catalog_world ex_fs_writing (bytes_of "a") = Some (db_view ex_catalog_world ex_db).
Proof. done. Qed.
Lemma ex_reading_a :
  default ∅ (read_view ex_catalog_world ex_fs_reading (bytes_of "a")) !! path_key (bytes_of "a")
    = Some (to_be_bytes 1).
Proof. by vm_compute. Qed.
Lemma ex_writing_a :
  default ∅ (write_view ex_catalog_world ex_fs_writing (bytes_of "a")) !! path_key (bytes_of "a")
    = Some (to_be_bytes 1).
Proof. by vm_compute. Qed.
Lemma ex_reading_wf : wf_catalog (default ∅ (read_view ex_catalog_world ex_fs_reading (bytes_of "a"))).
Proof. rewrite ex_reading_view. exact ex_catalog_wf. Qed.
Lemma ex_writing_wf : wf_catalog (default ∅ (write_view ex_catalog_world ex_fs_writing (bytes_of "a"))).
Proof. rewrite ex_writing_view. exact ex_catalog_wf. Qed.

Lemma companions_share_database_witness :
  database_group (bytes_of "dir/x.db.wal.checkpoint") = bytes_of "dir/x.db".
Proof.
  apply companions_share_database. split; [by split|].
  exists (bytes_of ".wal.checkpoint"). split; [|done]. right. left.
Defined.

Lemma open_for_writing_witness :
  exists h s, open_file (bytes_of "x.db") open_or_create (ex_fs, ex_file_world) = (Ok h, s) /\
    represents s.2 h [].
Proof.
  destruct (open_for_writing (bytes_of "x.db") open_or_create ex_fs ex_file_world
    ex_file_up eq_refl eq_refl eq_refl ltac:(done) wf_catalog_empty) as (r & fs' & w' & Hr & _ & _ & Hres).
  assert (Hn : default ∅ (write_view ex_file_world ex_fs (database_group (bytes_of "x.db")))
    !! path_key (bytes_of "x.db") = None) by (by vm_compute).
  assert (Hok : is_panic (open_file (bytes_of "x.db") open_or_create (ex_fs, ex_file_world)).1 = false)
    by (by vm_compute).
  cbn zeta in Hres. rewrite Hn in Hres. destruct r as [h|e|p].
  - destruct Hres as (db & _ & _ & Hat & _ & Hl & _). cbn in Hl.
    exists h, (fs', w'). split; [exact Hr|]. apply (Hat [] Hl).
  - exfalso. destruct Hres as (_ & _ & [[_ Hc]|(_ & _ & Hid)]); [discriminate Hc|].
    vm_compute in Hid. discriminate Hid.
  - destruct Hres.
Defined.

Lemma reading_changes_nothing_witness :
  exists r fs' w',
    file_exists (bytes_of "a") (ex_fs_reading, set_fault ex_catalog_world (Some 0%nat)) = (r, (fs', w')) /\
    w' ≡ set_fault ex_catalog_world (Some 0%nat).
Proof.
  destruct (file_exists (bytes_of "a") (ex_fs_reading, set_fault ex_catalog_world (Some 0%nat)))
    as [r [fs' w']] eqn:Hr.
  exists r, fs', w'. split; [reflexivity|].
  assert (Hwf : wf_catalog (default ∅
    (read_view (set_fault ex_catalog_world (Some 0%nat)) ex_fs_reading (database_group (bytes_of "a"))))).
  { rewrite (read_view_equiv ex_catalog_world) by apply set_fault_equiv. exact ex_reading_wf. }
  destruct (reading_changes_nothing (bytes_of "a") read_only ex_fs_reading
    (set_fault ex_catalog_world (Some 0%nat)) eq_refl eq_refl ltac:(done) Hwf) as [_ Hex].
  apply (Hex r fs' w' Hr).
Defined.

Lemma open_for_reading_witness :
  exists h s, open_file (bytes_of "a") read_only (ex_fs_reading, ex_catalog_world) = (Ok h, s).
Proof.
  destruct (open_for_reading (bytes_of "a") read_only ex_fs_reading ex_catalog_world
    ex_catalog_up eq_refl eq_refl eq_refl ltac:(done) ex_reading_wf) as (r & fs' & w' & Hr & _ & Hres).
  change (database_group (bytes_of "a")) with (bytes_of "a") in Hres. cbn zeta in Hres.
  rewrite ex_reading_a in Hres.
  destruct r as [h|e|p]; [by exists h, (fs', w')|exfalso; by destruct Hres|destruct Hres].
Defined.

Lemma file_exists_answers_witness :
  exists s, file_exists (bytes_of "a") (ex_fs_reading, ex_catalog_world) = (Ok true, s).
Proof.
  destruct (file_exists_answers (bytes_of "a") ex_fs_reading ex_catalog_world ex_catalog_up eq_refl
    ltac:(done)) as (fs' & w' & Hr).
  change (database_group (bytes_of "a")) with (bytes_of "a") in Hr.
  rewrite ex_reading_a in Hr.
  rewrite bool_decide_true in Hr by done. by exists (fs', w').
Defined.

Lemma one_writer_per_group_witness :
  exists s, write_db (bytes_of "x.db.wal") false (write_db (bytes_of "x.db") true (ex_fs, ex_file_world)).2
    = (Ok {| mdb_path := slatedb_path ex_fs (bytes_of "x.db") |}, s).
Proof.
  destruct (write_db (bytes_of "x.db") true (ex_fs, ex_file_world)) as [r [fs' w']] eqn:Hr.
  assert (Hok : r = Ok {| mdb_path := slatedb_path ex_fs (bytes_of "x.db") |}).
  { apply (f_equal fst) in Hr. cbn [fst] in Hr. rewrite <-Hr. by vm_compute. }
  rewrite Hok in Hr.
  destruct (one_writer_per_group (bytes_of "x.db") true ex_fs ex_file_world _ fs' w' eq_refl Hr)
    as (_ & Hs & _).
  exists (fs', w'). cbn [snd]. apply Hs. by vm_compute.
Defined.

Lemma moves_stay_in_database_witness :
  (exists s, move_file (bytes_of "a") (bytes_of "a.wal") (ex_fs_writing, ex_catalog_world) = (Ok tt, s)) /\
  exists e s, move_file (bytes_of "a") (bytes_of "b") (ex_fs_writing, ex_catalog_world) = (Err e, s).
Proof.
  split.
  - destruct (moves_stay_in_database (bytes_of "a") (bytes_of "a.wal") ex_fs_writing ex_catalog_world
      eq_refl ltac:(done) ltac:(done) ltac:(done) ex_catalog_up ex_writing_wf)
      as (r & fs' & w' & Hr & Hres).
    change (database_group (bytes_of "a")) with (bytes_of "a") in Hres.
    rewrite ex_writing_a in Hres.
    rewrite bool_decide_true in Hres by (by vm_compute).
    destruct r as [[]|e|p]; [by exists (fs', w')|exfalso; by destruct Hres|destruct Hres].
  - destruct (moves_stay_in_database (bytes_of "a") (bytes_of "b") ex_fs_writing ex_catalog_world
      eq_refl ltac:(done) ltac:(done) ltac:(done) ex_catalog_up ex_writing_wf)
      as (r & fs' & w' & Hr & Hres).
    rewrite bool_decide_false in Hres by (by vm_compute).
    destruct Hres as (_ & _ & e & -> & _). by exists e, (fs', w').
Defined.

Lemma closed_filesystem_refuses_witness :
  exists e, file_exists (bytes_of "a") (set_closed ex_fs, ex_file_world)
    = (Err e, (set_closed ex_fs, ex_file_world)).
Proof.
  destruct (closed_filesystem_refuses (bytes_of "a") (bytes_of "a") read_only (set_closed ex_fs)
    ex_file_world eq_refl eq_refl) as (e & _ & _ & He & _). by exists e.
Defined.

(** Closing while the first close fails. *)
Definition ex_values (m : gmap (list byte) (SlateDbClient MDb MReader)) := (map_to_list m).*2.
Lemma close_closes_everything_witness :
  exists e s, close ex_values (ex_fs_writing, set_fault ex_file_world (Some 0%nat)) = (Err e, s) /\
    closed s.1 = true /\ databases s.1 = ∅.
Proof.
  destruct (close_closes_everything ex_values ex_fs_writing (set_fault ex_file_world (Some 0%nat))
    (close_all (closings (ex_values (databases ex_fs_writing)) (db_cache ex_fs_writing))
      (set_fault ex_file_world (Some 0%nat))).1
    (close_all (closings (ex_values (databases ex_fs_writing)) (db_cache ex_fs_writing))
      (set_fault ex_file_world (Some 0%nat))).2) as [Hc _].
  - done.
  - apply surjective_pairing.
  - vm_compute. repeat constructor.
  - rewrite Hc. assert (exists e, first_error (close_all (closings (ex_values (databases ex_fs_writing))
      (db_cache ex_fs_writing)) (set_fault ex_file_world (Some 0%nat))).1 = Err e) as [e He]
      by (eexists; vm_compute; reflexivity).
    rewrite He. eexists _, _. split; [reflexivity|by split].
Defined.

Definition ex_s3 : S3StorageConfig :=
  {| bucket := bytes_of "data"; root := None; endpoint := Some (bytes_of "localhost:9000");
     region := None; key_id := Some (bytes_of "id"); secret := Some (bytes_of "key");
     session_token := None; use_ssl := false; virtual_host_style := false |}.
#[global] Instance mem_opendal : Opendal MemWorld Service unit unit unit := {|
    opendal_new s := Ok s;
    info_scheme _ := bytes_of "memory"; info_name _ := []; info_root _ := bytes_of "/";
    layered_store _ _ := tt; new_recorder w := (tt, w); new_metrics w := (tt, w);
    create_dir_all _ := ret tt
  |}.

Lemma s3_configuration_witness :
  exists calls, build_s3_operator ex_s3 = Ok (S3 calls) /\
    S3Endpoint (bytes_of "http://localhost:9000") ∈ calls /\ S3SecretAccessKey (bytes_of "key") ∈ calls.
Proof.
  destruct (s3_configuration ex_s3) as (Hok & _).
  destruct Hok as (calls & _ & Hcalls & Hb); [split_and!; [done|split; by eexists|by intros []]|].
  exists calls. split; [exact Hb|]. split; apply Hcalls; [|done].
  exists (bytes_of "localhost:9000"). split; [done|]. by apply endpoint_url_wanted.
Defined.
