(* ===== verification/ClientTasks.v ===== *)
(** * Concurrent requests for a group's client (rust/src/fs.rs)

    The filesystem is shared: its methods take [&self] and their futures run at
    the same time.  [read_client] and [write_db] are the calls that change what
    they share, the map of clients behind its mutex and the client of a group
    behind its own.  FileSystem.v runs each alone; here they are tasks that
    stop at every [await]: the lock of the map, the lock of the client, the
    opening of a reader, the opening of a writer.  The lock of the map is held
    across no other [await], so a look into the map is one step; the lock of a
    client is held until the call returns, the guard being dropped with it.
    The world may change between any two steps: other calls read and write.
    [close] takes [&mut self], so it runs beside none of these tasks. *)

From S2P Require Import Prelude RustStd Error Flags SlateDb FileMetadata FileHandle.
From S2P Require Import DatabaseMetadata Cache FileSystem.

#[local] Open Scope list_scope.

Inductive ClientCall :=
  | ReadClient (path : list byte)
  | WriteDb (path : list byte) (create : bool).

Definition call_group (c : ClientCall) : list byte :=
  match c with ReadClient path | WriteDb path _ => database_group path end.

(** What a call returns. *)
Inductive Answer (Db Reader : Type) :=
  | ReadAnswer (r : Result (SlateDbClient Db Reader))
  | WriteAnswer (r : Result Db).
Arguments ReadAnswer {Db Reader}.
Arguments WriteAnswer {Db Reader}.

(** Where a task is: called; at [client.lock().await] with its share of the
    client; at the [await] of [open_reader] or of [open_writer], holding the
    lock; done. *)
Inductive Task (Db Reader : Type) :=
  | Called (c : ClientCall)
  | Locking (c : ClientCall)
  | OpeningReader (c : ClientCall)
  | OpeningWriter (path : list byte) (create : bool)
  | Returned (c : ClientCall) (a : Answer Db Reader).
Arguments Called {Db Reader}.
Arguments Locking {Db Reader}.
Arguments OpeningReader {Db Reader}.
Arguments OpeningWriter {Db Reader}.
Arguments Returned {Db Reader}.

(** What an observer of the store and of the callers sees. *)
Inductive Event (Db Reader : Type) :=
  | Moved (i : nat)
  | ReaderOpened (group : list byte) (r : Reader)
  | WriterOpened (group : list byte) (db : Db)
  | Answered (i : nat) (c : ClientCall) (a : Answer Db Reader).
Arguments Moved {Db Reader}.
Arguments ReaderOpened {Db Reader}.
Arguments WriterOpened {Db Reader}.
Arguments Answered {Db Reader}.

(** [held g] is the task that holds the lock of the client of [g]. *)
Record Shared (W Db Reader Store CacheT Recorder Metrics : Type) := {
  filesystem : SlateDbFileSystem Db Reader Store CacheT Recorder Metrics;
  world : W;
  held : gmap (list byte) nat;
  tasks : list (Task Db Reader)
}.
Arguments filesystem {W Db Reader Store CacheT Recorder Metrics}.
Arguments world {W Db Reader Store CacheT Recorder Metrics}.
Arguments held {W Db Reader Store CacheT Recorder Metrics}.
Arguments tasks {W Db Reader Store CacheT Recorder Metrics}.
Arguments Build_Shared {W Db Reader Store CacheT Recorder Metrics}.

Section tasks.
Context {W Db Reader Store CacheT Recorder Metrics : Type}.
Context `{SlateDbOpen W Db Reader Store CacheT Recorder} `{CacheLib CacheT}.
#[local] Abbreviation FS := (SlateDbFileSystem Db Reader Store CacheT Recorder Metrics).
#[local] Abbreviation Client := (SlateDbClient Db Reader).
#[local] Abbreviation T := (Task Db Reader).
#[local] Abbreviation E := (Event Db Reader).
#[local] Abbreviation Sys := (Shared W Db Reader Store CacheT Recorder Metrics).

(** The client of a group behind its lock: a fresh entry is the default. *)
Definition slot (self : FS) (group : list byte) : Client :=
  default default_client (databases self !! group).

(** A [?] on an error, or a panic. *)
Definition raises (c : ClientCall) (e : Error) : T :=
  Returned c (match c with
              | ReadClient _ => ReadAnswer (Err e)
              | WriteDb _ _ => WriteAnswer (Err e)
              end).
Definition panics (c : ClientCall) (p : string) : T :=
  Returned c (match c with
              | ReadClient _ => ReadAnswer (Panic p)
              | WriteDb _ _ => WriteAnswer (Panic p)
              end).

Definition call_path (c : ClientCall) : list byte :=
  match c with ReadClient path | WriteDb path _ => path end.

(** From the lock of the client to the next [await]. *)
Definition after_lock (self : FS) (c : ClientCall) : T :=
  let client := slot self (call_group c) in
  match c with
  | ReadClient path =>
      if bool_decide (is_Some (read_write client)) || bool_decide (is_Some (reader client))
      then Returned c (ReadAnswer (Ok client))
      else OpeningReader c
  | WriteDb path create =>
      match read_write client with
      | Some db => Returned c (WriteAnswer (Ok db))
      | None =>
          if negb create && negb (bool_decide (is_Some (reader client))) then OpeningReader c
          else OpeningWriter path create
      end
  end.

(** [open_reader], and what follows it up to the next [await]. *)
Definition after_reader (c : ClientCall) : FS * W -> list E * T * (FS * W) :=
  fun '(self, w) =>
    let group := call_group c in
    match open_reader self group w with
    | (Ok (Some r), w') =>
        let client := {| read_write := read_write (slot self group); reader := Some r |} in
        let self' := set_databases self (<[group := client]> (databases self)) in
        let next :=
          match c with
          | ReadClient _ => Returned c (ReadAnswer (Ok client))
          | WriteDb path create => OpeningWriter path create
          end in
        ([ReaderOpened group r], next, (self', w'))
    | (Ok None, w') =>
        ([], raises c (file_not_found unknown_location (text (call_path c))), (self, w'))
    | (Err e, w') => ([], raises c e, (self, w'))
    | (Panic p, w') => ([], panics c p, (self, w'))
    end.

(** [open_writer], and what follows it. *)
Definition after_writer (path : list byte) (create : bool) : FS * W -> list E * T * (FS * W) :=
  fun '(self, w) =>
    let c := WriteDb path create in
    let group := database_group path in
    match open_writer self group w with
    | (Ok db, w') =>
        let client := {| read_write := Some db; reader := reader (slot self group) |} in
        ([WriterOpened group db], Returned c (WriteAnswer (Ok db)),
         (set_databases self (<[group := client]> (databases self)), w'))
    | (Err e, w') => ([], raises c e, (self, w'))
    | (Panic p, w') => ([], panics c p, (self, w'))
    end.

(** A step of a task that holds the lock of its client. *)
Definition advance (t : T) (s : FS * W) : list E * T * (FS * W) :=
  match t with
  | OpeningReader c => after_reader c s
  | OpeningWriter path create => after_writer path create s
  | _ => ([], t, s)
  end.

(** ** Steps of the system *)

Definition task_call (t : T) : ClientCall :=
  match t with
  | Called c | Locking c | OpeningReader c | Returned c _ => c
  | OpeningWriter path create => WriteDb path create
  end.
Definition returned (t : T) : bool := match t with Returned _ _ => true | _ => false end.
Definition answers (i : nat) (t : T) : list E :=
  match t with Returned c a => [Answered i c a] | _ => [] end.

(** Task [i] gets to [t], inside the lock of its client unless it is done. *)
Definition inside_lock (i : nat) (s : Sys) (es : list E) (t : T) (self : FS) (w : W) : list E * Sys :=
  let group := call_group (task_call t) in
  (Moved i :: es ++ answers i t,
   {| filesystem := self; world := w;
      held := if returned t then delete group (held s) else <[group := i]> (held s);
      tasks := <[i := t]> (tasks s) |}).

Definition task_step (i : nat) (s : Sys) : option (list E * Sys) :=
  match tasks s !! i with
  | Some (Called c) =>
      let self := filesystem s in
      let '(t, self') :=
        if closed self then (raises c filesystem_closed, self)
        else (Locking c, (client_for_group (call_group c) self).2) in
      Some (Moved i :: answers i t,
            {| filesystem := self'; world := world s; held := held s; tasks := <[i := t]> (tasks s) |})
  | Some (Locking c) =>
      match held s !! call_group c with
      | Some _ => None
      | None => Some (inside_lock i s [] (after_lock (filesystem s) c) (filesystem s) (world s))
      end
  | Some (Returned _ _) | None => None
  | Some t =>
      let '(es, t', (self, w)) := advance t (filesystem s, world s) in
      Some (inside_lock i s es t' self w)
  end.

Definition set_world (s : Sys) (w : W) : Sys :=
  {| filesystem := filesystem s; world := w; held := held s; tasks := tasks s |}.

(** [env]: what the rest of the process and other processes may do to the world
    between two steps of the tasks. *)
Context (env : W -> W -> Prop).

Inductive step : Sys -> list E -> Sys -> Prop :=
  | step_task i s es s' : task_step i s = Some (es, s') -> step s es s'
  | step_world s w' : env (world s) w' -> step s [] (set_world s w').

Inductive steps : Sys -> list E -> Sys -> Prop :=
  | steps_refl s : steps s [] s
  | steps_snoc s1 es s2 es' s3 : steps s1 es s2 -> step s2 es' s3 -> steps s1 (es ++ es') s3.

(** Calls that come in, on any filesystem. *)
Definition started (self : FS) (w : W) (cs : list ClientCall) : Sys :=
  {| filesystem := self; world := w; held := ∅; tasks := Called <$> cs |}.
End tasks.
