(* ===== verification/ClientSafety.v ===== *)
(** * Tasks that share a client: mutual exclusion, one writer, no deadlock

    The invariant of the system of ClientTasks.v: the lock of a client is held
    by exactly the task that is opening something for it, what that task opens
    is not open yet, and what was answered is what the client still has. *)

From S2P Require Import Prelude RustStd Error Flags SlateDb FileMetadata FileHandle.
From S2P Require Import DatabaseMetadata Cache FileSystem ClientTasks.

#[local] Open Scope list_scope.
#[local] Arguments database_group : simpl never.

Section safety.
Context {W Db Reader Store CacheT Recorder Metrics : Type}.
Context `{SlateDbOpen W Db Reader Store CacheT Recorder} `{CacheLib CacheT}.
#[local] Abbreviation FS := (SlateDbFileSystem Db Reader Store CacheT Recorder Metrics).
#[local] Abbreviation Client := (SlateDbClient Db Reader).
#[local] Abbreviation T := (Task Db Reader).
#[local] Abbreviation E := (Event Db Reader).
#[local] Abbreviation Sys := (Shared W Db Reader Store CacheT Recorder Metrics).

(** The writers and the readers opened for group [g], in order. *)
Definition writers (g : list byte) (es : list E) : list Db :=
  omap (fun e => match e with
                 | WriterOpened g' db => if decide (g' = g) then Some db else None
                 | _ => None
                 end) es.
Definition readers (g : list byte) (es : list E) : list Reader :=
  omap (fun e => match e with
                 | ReaderOpened g' r => if decide (g' = g) then Some r else None
                 | _ => None
                 end) es.

(** What a client has is what it had and what was opened for it: a list of at
    most one writer and one of at most one reader. *)
Definition logged (g : list byte) (es : list E) (c c' : Client) : Prop :=
  option_list (read_write c') = option_list (read_write c) ++ writers g es /\
  option_list (reader c') = option_list (reader c) ++ readers g es.

Lemma logged_refl g c : logged g [] c c.
Proof. split; by rewrite app_nil_r. Qed.

Lemma logged_trans g es1 es2 c1 c2 c3 :
  logged g es1 c1 c2 -> logged g es2 c2 c3 -> logged g (es1 ++ es2) c1 c3.
Proof.
  intros [Hw1 Hr1] [Hw2 Hr2]. unfold logged, writers, readers in *. rewrite !omap_app.
  split; by rewrite ?Hw2, ?Hw1, ?Hr2, ?Hr1, app_assoc.
Qed.

Lemma option_list_grows {A} (o o' : option A) l a :
  option_list o' = option_list o ++ l -> o = Some a -> o' = Some a.
Proof. intros Hl ->. destruct o'; by simplify_eq/=. Qed.

(** What a caller got is what the client has. *)
Definition kept (client : Client) (a : Answer Db Reader) : Prop :=
  match a with
  | ReadAnswer (Ok c) =>
      (is_Some (read_write c) \/ is_Some (reader c)) /\
      (forall db, read_write c = Some db -> read_write client = Some db) /\
      (forall r, reader c = Some r -> reader client = Some r)
  | WriteAnswer (Ok db) => read_write client = Some db
  | _ => True
  end.

Lemma kept_logged g es c c' a : logged g es c c' -> kept c a -> kept c' a.
Proof.
  intros [Hw Hr]. destruct a as [[cl| |]|[db| |]]; cbn; [|done|done| |done|done].
  - intros (? & Hwr & Hrd). split_and!; [done| |].
    + intros db Hdb. by eapply option_list_grows, Hwr.
    + intros r Hr'. by eapply option_list_grows, Hrd.
  - by eapply option_list_grows.
Qed.

(** The group whose lock a task holds between two steps. *)
Definition inside (t : T) : option (list byte) :=
  match t with
  | OpeningReader _ | OpeningWriter _ _ => Some (call_group (task_call t))
  | _ => None
  end.
(** What a task opens is not open. *)
Definition wants (t : T) (client : Client) : Prop :=
  match t with
  | OpeningReader _ => read_write client = None /\ reader client = None
  | OpeningWriter _ _ => read_write client = None
  | _ => True
  end.

Record wf_shared (s : Sys) : Prop := {
  wf_held g i : held s !! g = Some i -> exists t, tasks s !! i = Some t /\ inside t = Some g;
  wf_inside i t g : tasks s !! i = Some t -> inside t = Some g ->
    held s !! g = Some i /\ wants t (slot (filesystem s) g);
  wf_answer i c a : tasks s !! i = Some (Returned c a) ->
    kept (slot (filesystem s) (call_group c)) a
}.

(** ** The shared filesystem between two steps *)

(** [self'] differs from [self] at most in the client of [g]. *)
Record stays (g : list byte) (es : list E) (self self' : FS) : Prop := {
  st_setup : self' = set_databases self (databases self');
  st_logged : logged g es (slot self g) (slot self' g);
  st_other g' : g' <> g -> slot self' g' = slot self g' /\ writers g' es = [] /\ readers g' es = []
}.

Lemma stays_refl g self : stays g [] self self.
Proof. split; [by destruct self|apply logged_refl|done]. Qed.

Lemma slot_put g g' client (self : FS) :
  slot (set_databases self (<[g := client]> (databases self))) g' =
  if decide (g = g') then client else slot self g'.
Proof. unfold slot. cbn. rewrite lookup_insert. by case_decide. Qed.

Lemma slot_entered g g' (self : FS) : slot (client_for_group g self).2 g' = slot self g'.
Proof.
  unfold client_for_group, bind, get_state. destruct (databases self !! g) eqn:Hg; [done|].
  change (slot (set_databases self (<[g:=default_client]> (databases self))) g' = slot self g').
  rewrite slot_put. case_decide; [|done]. subst. unfold slot. by rewrite Hg.
Qed.

Lemma stays_entered g (self : FS) : stays g [] self (client_for_group g self).2.
Proof.
  split.
  - unfold client_for_group, bind, get_state. destruct (databases self !! g); by destruct self.
  - rewrite slot_entered. apply logged_refl.
  - intros g' _. by rewrite slot_entered.
Qed.

Lemma stays_logged g g' es (self self' : FS) : stays g es self self' -> logged g' es (slot self g') (slot self' g').
Proof.
  intros [_ Hl Ho]. destruct (decide (g' = g)) as [->|Hne]; [done|].
  destruct (Ho g' Hne) as (-> & Hw & Hr). split; by rewrite ?Hw, ?Hr, app_nil_r.
Qed.

(** ** A step of a task that holds the lock *)

(** Openings are events of the store alone. *)
Definition opening (e : E) : Prop :=
  match e with ReaderOpened _ _ | WriterOpened _ _ => True | _ => False end.

(** How many steps a task has left at most. *)
Definition rank (t : T) : nat :=
  match t with
  | Called _ => 4
  | Locking _ => 3
  | OpeningReader _ => 2
  | OpeningWriter _ _ => 1
  | Returned _ _ => 0
  end%nat.

(** What a step of task [t] ends in. *)
Definition lands (t t' : T) (client : Client) : Prop :=
  task_call t' = task_call t /\ (rank t' < rank t)%nat /\
  match t' with
  | Returned _ a => kept client a
  | Called _ | Locking _ => False
  | _ => wants t' client
  end.

Lemma after_lock_lands (self : FS) c : lands (Locking c) (after_lock self c) (slot self (call_group c)).
Proof.
  unfold after_lock, lands. destruct c as [path|path []]; destruct (slot self _) as [[db|] [r|]];
    (split; [done|split; [cbn; lia|cbn; naive_solver]]).
Qed.

Lemma raises_lands t e client : returned t = false -> lands t (raises (task_call t) e) client.
Proof. intros Ht. by destruct t as [[]|[]|[]| |]; repeat split; cbn; try lia. Qed.
Lemma panics_lands t p client : returned t = false -> lands t (panics (task_call t) p) client.
Proof. intros Ht. by destruct t as [[]|[]|[]| |]; repeat split; cbn; try lia. Qed.

Lemma reader_put g (self : FS) (r : Reader) :
  reader (slot self g) = None ->
  stays g [ReaderOpened g r] self
    (set_databases self
       (<[g := {| read_write := read_write (slot self g); reader := Some r |}]> (databases self))).
Proof.
  intros Hr. split; [done| |].
  - rewrite slot_put, decide_True by done. unfold logged. cbn. by rewrite decide_True, Hr, app_nil_r.
  - intros g' Hne. rewrite slot_put, decide_False by congruence. cbn. by rewrite decide_False by congruence.
Qed.

Lemma writer_put g (self : FS) (db : Db) :
  read_write (slot self g) = None ->
  stays g [WriterOpened g db] self
    (set_databases self (<[g := {| read_write := Some db; reader := reader (slot self g) |}]> (databases self))).
Proof.
  intros Hw. split; [done| |].
  - rewrite slot_put, decide_True by done. unfold logged. cbn. by rewrite decide_True, Hw, app_nil_r.
  - intros g' Hne. rewrite slot_put, decide_False by congruence. cbn. by rewrite decide_False by congruence.
Qed.

Lemma advance_lands t g (self : FS) w es t' self' w' :
  inside t = Some g -> wants t (slot self g) -> advance t (self, w) = (es, t', (self', w')) ->
  stays g es self self' /\ lands t t' (slot self' g) /\ Forall opening es.
Proof.
  intros Hin Hwant Hadv.
  destruct t as [| |c|path create|]; cbn in Hin, Hwant, Hadv; simplify_eq.
  - unfold after_reader in Hadv. destruct (open_reader self (call_group c) w) as [[[r|]|e|p] w1];
      simplify_eq; [|split; [apply stays_refl|split; [|constructor]]..].
    + destruct Hwant as [Hw Hr]. split; [by apply reader_put|]. split; [|by repeat constructor].
      rewrite slot_put, decide_True by done. destruct c; repeat split; cbn; try done; [lia| |lia].
      right. by eexists.
    + by apply (raises_lands (OpeningReader c)).
    + by apply (raises_lands (OpeningReader c)).
    + by apply (panics_lands (OpeningReader c)).
  - unfold after_writer in Hadv. destruct (open_writer self (database_group path) w) as [[db|e|p] w1];
      simplify_eq; [|split; [apply stays_refl|split; [|constructor]]..].
    + split; [by apply writer_put|]. split; [|by repeat constructor].
      rewrite slot_put, decide_True by done. repeat split. cbn. lia.
    + by apply (raises_lands (OpeningWriter path create)).
    + by apply (panics_lands (OpeningWriter path create)).
Qed.

(** ** A step of the system *)

Lemma writers_moved g i (es : list E) (t : T) : writers g (Moved i :: es ++ answers i t) = writers g es.
Proof. cbn. unfold writers. rewrite omap_app. destruct t; by rewrite app_nil_r. Qed.
Lemma readers_moved g i (es : list E) (t : T) : readers g (Moved i :: es ++ answers i t) = readers g es.
Proof. cbn. unfold readers. rewrite omap_app. destruct t; by rewrite app_nil_r. Qed.

Lemma stays_moved g i es (t : T) self self' :
  stays g es self self' -> stays g (Moved i :: es ++ answers i t) self self'.
Proof.
  intros [Hs [Hw Hr] Ho]. split; [done| |].
  - unfold logged. by rewrite writers_moved, readers_moved.
  - intros g' Hne. rewrite writers_moved, readers_moved. by apply Ho.
Qed.

(** What task [i] does in a step from [s] to [s'], on the client of [g]. *)
Record moves (i : nat) (g : list byte) (s : Sys) (es : list E) (s' : Sys) (t t' : T) : Prop := {
  mv_from : tasks s !! i = Some t;
  mv_group : call_group (task_call t) = g;
  mv_call : task_call t' = task_call t;
  mv_rank : (rank t' < rank t)%nat;
  mv_events : exists es1, es = Moved i :: es1 ++ answers i t' /\ Forall opening es1;
  mv_tasks : tasks s' = <[i := t']> (tasks s);
  mv_stays : stays g es (filesystem s) (filesystem s');
  mv_kept c a : t' = Returned c a -> kept (slot (filesystem s') g) a;
  mv_lock :
    (inside t = None /\ inside t' = None /\ held s' = held s /\
     slot (filesystem s') g = slot (filesystem s) g) \/
    ((held s !! g = None \/ held s !! g = Some i) /\ wants t' (slot (filesystem s') g) /\
     held s' = match inside t' with Some _ => <[g := i]> (held s) | None => delete g (held s) end)
}.

#[local] Arguments mv_rank {_ _ _ _ _ _ _} _.
#[local] Arguments mv_events {_ _ _ _ _ _ _} _.
#[local] Arguments mv_from {_ _ _ _ _ _ _} _.
#[local] Arguments mv_group {_ _ _ _ _ _ _} _.
#[local] Arguments mv_call {_ _ _ _ _ _ _} _.
#[local] Arguments mv_tasks {_ _ _ _ _ _ _} _.
#[local] Arguments mv_stays {_ _ _ _ _ _ _} _.
#[local] Arguments mv_kept {_ _ _ _ _ _ _} _ {_ _} _.
#[local] Arguments mv_lock {_ _ _ _ _ _ _} _.

Lemma inside_lock_moves i (s : Sys) es t t' self w es' s' :
  let g := call_group (task_call t) in
  tasks s !! i = Some t -> held s !! g = None \/ held s !! g = Some i ->
  stays g es (filesystem s) self -> lands t t' (slot self g) -> Forall opening es ->
  inside_lock i s es t' self w = (es', s') -> moves i g s es' s' t t'.
Proof.
  intros g Ht Hh Hst (Hcall & Hrank & Hland) Hes Hin. unfold inside_lock in Hin. simplify_eq.
  split; try done.
  - by exists es.
  - by apply stays_moved.
  - intros c a ->. done.
  - right. rewrite Hcall. cbn. destruct t'; try done.
Qed.

Lemma task_step_moves i (s : Sys) es s' :
  wf_shared s -> task_step i s = Some (es, s') -> exists g t t', moves i g s es s' t t'.
Proof.
  intros Hwf Hst. unfold task_step in Hst. destruct (tasks s !! i) as [t|] eqn:Ht; [|done].
  exists (call_group (task_call t)), t.
  destruct t as [c|c|c|path create|c a]; [| | | |done].
  - destruct (closed (filesystem s)); simplify_eq.
    + exists (raises c filesystem_closed). split; try done; cbn.
      * lia.
      * by exists [].
      * apply (stays_moved _ i [] (raises c filesystem_closed)), stays_refl.
      * intros ? ? [= <- <-]. by destruct c.
      * by left.
    + exists (Locking c). split; try done; cbn.
      * lia.
      * by exists [].
      * apply (stays_moved _ i [] (Locking c)), stays_entered.
      * left. split_and!; [done..|apply slot_entered].
  - destruct (held s !! call_group c) eqn:Hh; [done|]. apply (inj Some) in Hst. eexists.
    eapply inside_lock_moves; [done|by left|apply stays_refl|apply after_lock_lands|done|exact Hst].
  - destruct (advance (OpeningReader c) (filesystem s, world s)) as [[es1 t'] [self w]] eqn:Hadv.
    apply (inj Some) in Hst. destruct (wf_inside s Hwf i _ _ Ht eq_refl) as [Hh Hwants].
    apply (advance_lands _ (call_group c)) in Hadv as (Hsy & Hl & Hes); [|done..]. eexists.
    eapply inside_lock_moves; [done|by right|done..].
  - destruct (advance (OpeningWriter path create) (filesystem s, world s)) as [[es1 t'] [self w]] eqn:Hadv.
    apply (inj Some) in Hst. destruct (wf_inside s Hwf i _ _ Ht eq_refl) as [Hh Hwants].
    apply (advance_lands _ (database_group path)) in Hadv as (Hsy & Hl & Hes); [|done..]. eexists.
    eapply inside_lock_moves; [done|by right|done..].
Qed.

Lemma inside_group t g : inside t = Some g -> call_group (task_call t) = g.
Proof. destruct t; naive_solver. Qed.

(** The tasks other than the one that moves. *)
Lemma moves_other i g s es s' t t' j t0 :
  moves i g s es s' t t' -> tasks s' !! j = Some t0 -> (j = i /\ t0 = t') \/ (j <> i /\ tasks s !! j = Some t0).
Proof.
  intros Hm. rewrite (mv_tasks Hm). destruct (decide (j = i)) as [->|Hne].
  - rewrite list_lookup_insert_eq by (eapply lookup_lt_Some, (mv_from Hm)).
    intros [= <-]. by left.
  - rewrite list_lookup_insert_ne by done. by right.
Qed.

Lemma moves_self i g s es s' t t' : moves i g s es s' t t' -> tasks s' !! i = Some t'.
Proof.
  intros Hm. rewrite (mv_tasks Hm).
  by rewrite list_lookup_insert_eq by (eapply lookup_lt_Some, (mv_from Hm)).
Qed.

Lemma moves_held i g s es s' t t' g' j :
  wf_shared s -> moves i g s es s' t t' -> held s' !! g' = Some j ->
  exists t0, tasks s' !! j = Some t0 /\ inside t0 = Some g'.
Proof.
  intros Hwf Hm Hh. assert (Hold : held s !! g' = Some j -> j <> i \/ inside t <> Some g' ->
    exists t0, tasks s' !! j = Some t0 /\ inside t0 = Some g').
  { intros Hj Hne. destruct (wf_held s Hwf g' j Hj) as (t0 & Ht0 & Hin). exists t0. split; [|done].
    pose proof (mv_from Hm). rewrite (mv_tasks Hm).
    destruct (decide (j = i)) as [->|]; [naive_solver|]. by rewrite list_lookup_insert_ne. }
  destruct (mv_lock Hm) as [(Hi & _ & Heq & _)|(_ & _ & Heq)]; rewrite Heq in Hh.
  { apply Hold; [done|]. right. by rewrite Hi. }
  assert (Hg : inside t = Some g' -> g' = g).
  { intros Hin%inside_group. by rewrite <-Hin, (mv_group Hm). }
  destruct (inside t') as [g1|] eqn:Hin.
  - destruct (decide (g' = g)) as [->|Hne].
    + rewrite lookup_insert_eq in Hh. injection Hh as <-. exists t'.
      split; [by eapply moves_self|]. rewrite Hin. apply inside_group in Hin.
      by rewrite (mv_call Hm), (mv_group Hm) in Hin; subst.
    + rewrite lookup_insert_ne in Hh by done. apply Hold; [done|]. right. naive_solver.
  - apply lookup_delete_Some in Hh as [Hne Hh]. apply Hold; [done|]. right. naive_solver.
Qed.

Lemma moves_inside i g s es s' t t' j t0 g' :
  wf_shared s -> moves i g s es s' t t' -> tasks s' !! j = Some t0 -> inside t0 = Some g' ->
  held s' !! g' = Some j /\ wants t0 (slot (filesystem s') g').
Proof.
  intros Hwf Hm Hj Hin. destruct (moves_other _ _ _ _ _ _ _ _ _ Hm Hj) as [[-> ->]|[Hne Hj']].
  - assert (g' = g) as ->.
    { apply inside_group in Hin. by rewrite <-Hin, (mv_call Hm), (mv_group Hm). }
    destruct (mv_lock Hm) as [(_ & Hn & _)|(_ & Hw & ->)]; [congruence|].
    rewrite Hin. split; [by rewrite lookup_insert_eq|done].
  - destruct (wf_inside s Hwf j t0 g' Hj' Hin) as [Hh Hw].
    destruct (mv_lock Hm) as [(_ & _ & -> & Hs)|(Hfree & _ & ->)].
    + split; [done|]. destruct (decide (g' = g)) as [->|Hg]; [by rewrite Hs|].
      by rewrite (proj1 (st_other _ _ _ _ (mv_stays Hm) g' Hg)).
    + destruct (decide (g' = g)) as [->|Hg]; [exfalso; naive_solver|].
      rewrite (proj1 (st_other _ _ _ _ (mv_stays Hm) g' Hg)). split; [|done].
      destruct (inside t'); by rewrite ?lookup_insert_ne, ?lookup_delete_ne.
Qed.

Lemma moves_wf i g s es s' t t' : wf_shared s -> moves i g s es s' t t' -> wf_shared s'.
Proof.
  intros Hwf Hm. split.
  - intros g' j. by eapply moves_held.
  - intros j t0 g'. by eapply moves_inside.
  - intros j c a Hj. destruct (moves_other _ _ _ _ _ _ _ _ _ Hm Hj) as [[-> <-]|[Hne Hj']].
    + pose proof (mv_call Hm) as Hc. pose proof (mv_group Hm) as Hg.
      cbn in Hc. subst c. rewrite Hg. by eapply mv_kept.
    + eapply kept_logged; [by eapply stays_logged, mv_stays|]. by eapply wf_answer.
Qed.

(** ** Reachable states *)

Context (env : W -> W -> Prop).

Lemma started_wf self w cs : wf_shared (started self w cs).
Proof.
  split; cbn.
  - intros g i. by rewrite lookup_empty.
  - intros i t g Ht. apply list_lookup_fmap_Some in Ht as (c & -> & _). done.
  - intros i c a Ht. by apply list_lookup_fmap_Some in Ht as (c' & ? & _).
Qed.

Lemma step_wf (s : Sys) es s' :
  wf_shared s -> step env s es s' ->
  wf_shared s' /\ (forall g, logged g es (slot (filesystem s) g) (slot (filesystem s') g)) /\
  task_call <$> tasks s' = task_call <$> tasks s.
Proof.
  intros Hwf Hs. destruct Hs as [i s es s' Hst|s w' _].
  - destruct (task_step_moves _ _ _ _ Hwf Hst) as (g & t & t' & Hm). split_and!.
    + by eapply moves_wf.
    + intros g'. by eapply stays_logged, mv_stays.
    + rewrite (mv_tasks Hm), list_fmap_insert, (mv_call Hm).
      apply list_insert_id. by rewrite list_lookup_fmap, (mv_from Hm).
  - split_and!; [by destruct Hwf|intros; apply logged_refl|done].
Qed.

Lemma steps_wf (s : Sys) es s' :
  wf_shared s -> steps env s es s' ->
  wf_shared s' /\ (forall g, logged g es (slot (filesystem s) g) (slot (filesystem s') g)) /\
  task_call <$> tasks s' = task_call <$> tasks s.
Proof.
  intros Hwf. induction 1 as [s|s1 es1 s2 es2 s3 _ IH Hst].
  - split_and!; [done|intros; apply logged_refl|done].
  - destruct (IH Hwf) as (Hwf2 & Hl & Hc). destruct (step_wf s2 es2 s3 Hwf2 Hst) as (Hwf3 & Hl2 & Hc2).
    split_and!; [done| |congruence]. intros g. by eapply logged_trans.
Qed.

(** ** Steps are bounded and answers are given once *)

(** The steps the tasks took. *)
Definition turns (es : list E) : nat :=
  length (omap (fun e => match e with Moved i => Some i | _ => None end) es).
(** What task [i] was answered. *)
Definition answered (i : nat) (es : list E) : list (ClientCall * Answer Db Reader) :=
  omap (fun e => match e with
                 | Answered j c a => if decide (j = i) then Some (c, a) else None
                 | _ => None
                 end) es.
Definition answer_of (t : T) : list (ClientCall * Answer Db Reader) :=
  match t with Returned c a => [(c, a)] | _ => [] end.
Definition work (s : Sys) : nat := sum_list (rank <$> tasks s).

Lemma openings_quiet i es : Forall opening es -> turns es = 0%nat /\ answered i es = [].
Proof. induction 1 as [|e es He _ [IH1 IH2]]; [done|]. by destruct e. Qed.

Lemma moves_events i j g s es s' t t' :
  moves i g s es s' t t' ->
  turns es = 1%nat /\ answered j es = (if decide (i = j) then answer_of t' else []).
Proof.
  intros Hm. destruct (mv_events Hm) as (es1 & -> & Hes).
  destruct (openings_quiet j es1 Hes) as [Ht Ha]. unfold turns, answered in *. cbn.
  rewrite !omap_app, Ha, length_app, Ht. destruct t'; cbn; by repeat case_decide.
Qed.

Lemma sum_list_insert (l : list nat) i x y :
  l !! i = Some x -> (sum_list (<[i := y]> l) + x = sum_list l + y)%nat.
Proof.
  revert i. induction l as [|z l IH]; intros [|i] Hl; simplify_eq/=; [lia|].
  specialize (IH i Hl). lia.
Qed.

Lemma moves_work i g s es s' t t' : moves i g s es s' t t' -> (turns es + work s' <= work s)%nat.
Proof.
  intros Hm. destruct (moves_events i i _ _ _ _ _ _ Hm) as [-> _]. unfold work.
  rewrite (mv_tasks Hm), list_fmap_insert. pose proof (mv_rank Hm).
  pose proof (sum_list_insert (rank <$> tasks s) i (rank t) (rank t')) as Hs.
  rewrite list_lookup_fmap, (mv_from Hm) in Hs. specialize (Hs eq_refl). lia.
Qed.

Lemma turns_app es1 es2 : turns (es1 ++ es2) = (turns es1 + turns es2)%nat.
Proof. unfold turns. by rewrite omap_app, length_app. Qed.
Lemma answered_app i es1 es2 : answered i (es1 ++ es2) = answered i es1 ++ answered i es2.
Proof. apply omap_app. Qed.

Lemma steps_work (s : Sys) es s' :
  wf_shared s -> steps env s es s' -> (turns es + work s' <= work s)%nat.
Proof.
  intros Hwf. induction 1 as [s|s1 es1 s2 es2 s3 Hs IH Hst]; [done|].
  destruct (steps_wf _ _ _ Hwf Hs) as (Hwf2 & _). specialize (IH Hwf). rewrite turns_app.
  enough (turns es2 + work s3 <= work s2)%nat by lia.
  destruct Hst as [i s2 es2 s3 Hst|s2 w' _]; [|done].
  destruct (task_step_moves _ _ _ _ Hwf2 Hst) as (g & t & t' & Hm). by eapply moves_work.
Qed.

Lemma steps_answers (s : Sys) es s' i :
  wf_shared s -> steps env s es s' ->
  (answer_of <$> tasks s' !! i) = ((fun t => answer_of t ++ answered i es) <$> tasks s !! i).
Proof.
  intros Hwf. induction 1 as [s|s1 es1 s2 es2 s3 Hs IH Hst].
  { destruct (tasks s !! i); cbn; [|done]. by rewrite app_nil_r. }
  destruct (steps_wf _ _ _ Hwf Hs) as (Hwf2 & _). specialize (IH Hwf).
  destruct Hst as [j s2 es2 s3 Hst|s2 w' _].
  2:{ by rewrite app_nil_r. }
  destruct (task_step_moves _ _ _ _ Hwf2 Hst) as (g & t & t' & Hm).
  destruct (moves_events j i _ _ _ _ _ _ Hm) as [_ Ha]. rewrite answered_app, Ha, (mv_tasks Hm).
  case_decide as Hji.
  - subst j. rewrite list_lookup_insert_eq by (eapply lookup_lt_Some, (mv_from Hm)).
    rewrite (mv_from Hm) in IH. destruct (tasks s1 !! i) as [t0|]; [|done]. cbn in IH |- *.
    injection IH as Heq. rewrite app_assoc, <-Heq. pose proof (mv_rank Hm). destruct t; cbn in *; [done..|lia].
  - rewrite list_lookup_insert_ne, IH by done. destruct (tasks s1 !! i); cbn; [|done]. by rewrite app_nil_r.
Qed.

(** A task that cannot move is done, or waits for a task that can. *)
Lemma blocked i (s : Sys) t :
  tasks s !! i = Some t -> task_step i s = None ->
  returned t = true \/ exists c j, t = Locking c /\ held s !! call_group c = Some j.
Proof.
  intros Ht. unfold task_step. rewrite Ht. destruct t as [c|c|c|path create|c a]; [| | | |by left].
  - destruct (closed (filesystem s)); done.
  - destruct (held s !! call_group c) as [j|] eqn:Hh; [|done]. intros _. right. by exists c, j.
  - by destruct (advance _ _) as [[? ?] [? ?]].
  - by destruct (advance _ _) as [[? ?] [? ?]].
Qed.

Lemma no_deadlock (s : Sys) :
  wf_shared s -> (forall i, task_step i s = None) -> Forall (fun t => returned t = true) (tasks s).
Proof.
  intros Hwf Hno. apply Forall_lookup. intros i t Ht.
  destruct (blocked i s t Ht (Hno i)) as [?|(c & j & -> & Hh)]; [done|].
  destruct (wf_held s Hwf _ _ Hh) as (t' & Ht' & Hin).
  destruct (blocked j s t' Ht' (Hno j)) as [Hr|(c' & ? & -> & _)]; [by destruct t'|done].
Qed.

Lemma started_work self w cs : work (started self w cs) = (4 * length cs)%nat.
Proof. unfold work. cbn. induction cs as [|c cs IH]; cbn in *; lia. Qed.
End safety.
Arguments mv_from {W Db Reader Store CacheT Recorder Metrics i g s es s' t t'}.
Arguments mv_group {W Db Reader Store CacheT Recorder Metrics i g s es s' t t'}.
Arguments mv_call {W Db Reader Store CacheT Recorder Metrics i g s es s' t t'}.
Arguments mv_rank {W Db Reader Store CacheT Recorder Metrics i g s es s' t t'}.
Arguments mv_events {W Db Reader Store CacheT Recorder Metrics i g s es s' t t'}.
Arguments mv_tasks {W Db Reader Store CacheT Recorder Metrics i g s es s' t t'}.
Arguments mv_stays {W Db Reader Store CacheT Recorder Metrics i g s es s' t t'}.
Arguments mv_lock {W Db Reader Store CacheT Recorder Metrics i g s es s' t t'}.
