(* ===== verification/ClientLinear.v ===== *)
(** * Tasks that share a client: one after the other

    For each group the tasks of ClientTasks.v have the outcomes of the same
    calls of FileSystem.v made one after the other, in the order in which they
    return.  Tasks of other groups and the rest of the world run in between:
    the argument needs that opening a database neither depends on nor changes
    what is at other paths of the store. *)

From S2P Require Import Prelude RustStd Error Flags SlateDb FileMetadata FileHandle.
From S2P Require Import DatabaseMetadata Cache FileSystem GroupSpec ClientTasks ClientSafety.

#[local] Open Scope list_scope.
#[local] Arguments database_group : simpl never.

(** [same_at s p w w']: opening the database at path [p] of store [s] goes the
    same way in [w] and [w'].  It depends on nothing elsewhere, and opening a
    database at another path changes nothing of it. *)
Class SlateDbOpenApart (W Db Reader Store CacheT Recorder : Type)
    `{SlateDbOpen W Db Reader Store CacheT Recorder} := {
  same_at : Store -> list byte -> W -> W -> Prop;
  same_at_equiv s p :: Equivalence (same_at s p);
  db_build_same b w1 w2 :
    same_at (builder_store b) (builder_path b) w1 w2 ->
    (db_build b w1).1 = (db_build b w2).1 /\
    same_at (builder_store b) (builder_path b) (db_build b w1).2 (db_build b w2).2;
  reader_build_same mode b w1 w2 :
    same_at (builder_store b) (builder_path b) w1 w2 ->
    (reader_build mode b w1).1 = (reader_build mode b w2).1 /\
    same_at (builder_store b) (builder_path b) (reader_build mode b w1).2 (reader_build mode b w2).2;
  db_build_apart b s p w :
    (s, p) <> (builder_store b, builder_path b) -> same_at s p w (db_build b w).2;
  reader_build_apart mode b s p w :
    (s, p) <> (builder_store b, builder_path b) -> same_at s p w (reader_build mode b w).2
}.

Section linear.
Context {W Db Reader Store CacheT Recorder Metrics : Type}.
Context `{SlateDbOpenApart W Db Reader Store CacheT Recorder} `{CacheLib CacheT}.
#[local] Abbreviation FS := (SlateDbFileSystem Db Reader Store CacheT Recorder Metrics).
#[local] Abbreviation Client := (SlateDbClient Db Reader).
#[local] Abbreviation T := (Task Db Reader).
#[local] Abbreviation E := (Event Db Reader).
#[local] Abbreviation Ans := (Answer Db Reader).
#[local] Abbreviation Sys := (Shared W Db Reader Store CacheT Recorder Metrics).

(** ** The calls one after the other *)

Definition run_call (c : ClientCall) (s : FS * W) : Ans * (FS * W) :=
  match c with
  | ReadClient path => let '(r, s') := read_client path s in (ReadAnswer r, s')
  | WriteDb path create => let '(r, s') := write_db path create s in (WriteAnswer r, s')
  end.

Fixpoint run_client_calls (cs : list ClientCall) (s : FS * W) : list Ans * (FS * W) :=
  match cs with
  | [] => ([], s)
  | c :: cs =>
      let '(a, s) := run_call c s in
      let '(l, s) := run_client_calls cs s in (a :: l, s)
  end.

(** The calls answered on group [g], in the order of their returns. *)
Definition history (g : list byte) (es : list E) : list (ClientCall * Ans) :=
  omap (fun e => match e with
                 | Answered _ c a => if decide (call_group c = g) then Some (c, a) else None
                 | _ => None
                 end) es.

(** The rest of a call whose task holds the lock. *)
Definition finish (t : T) (s : FS * W) : T * (FS * W) :=
  let '(_, t1, s1) := advance t s in
  let '(_, t2, s2) := advance t1 s1 in (t2, s2).

Lemma client_for_group_slot g (self : FS) :
  client_for_group g self = (Ok (slot self g), (client_for_group g self).2).
Proof. unfold client_for_group, slot, bind, get_state. by destruct (databases self !! g). Qed.

(** A call is its look at the client, and the rest. *)
Lemma run_call_finish c (self : FS) w :
  closed self = false ->
  exists a s, run_call c (self, w) = (a, s) /\
  finish (after_lock (client_for_group (call_group c) self).2 c)
    ((client_for_group (call_group c) self).2, w) = (Returned c a, s).
Proof.
  intros Hcl. pose proof (slot_entered (call_group c) (call_group c) self) as Hsl.
  pose proof (st_setup _ _ _ _ (stays_entered (call_group c) self)) as Hst.
  pose proof (client_for_group_slot (call_group c) self) as Hrun.
  set (self' := (client_for_group (call_group c) self).2) in *.
  assert (Hor : forall g, open_reader self' g = open_reader self g) by (intros; by rewrite Hst).
  assert (Hop : forall m g, open_writer (set_databases self' m) g = open_writer self g)
    by (intros; by rewrite Hst).
  assert (How : forall g, open_writer self' g = open_writer self g) by (intros; by rewrite Hst).
  destruct c as [path|path create]; cbn [run_call call_group] in *;
    unfold read_client, write_db, bind, on_fst, on_snd, get_state, lift; cbn [fst snd];
    rewrite Hcl; cbn [fst snd]; rewrite ?Hrun; unfold after_lock; cbn [call_group]; rewrite Hsl.
  - destruct (slot self (database_group path)) as [[db|] [r|]] eqn:Hs; cbn [read_write reader].
    1-3: by eexists _, _.
    rewrite !bool_decide_false by (by intros []). cbn [negb orb andb]. unfold finish, advance, after_reader.
    cbn [call_group call_path fst snd]. rewrite Hor, Hsl.
    destruct (open_reader self (database_group path) w) as [[[r|]|e|p] w1]; by eexists _, _.
  - destruct (slot self (database_group path)) as [[db|] rdr] eqn:Hs; cbn [read_write reader];
      [by eexists _, _|].
    destruct (negb create && negb (bool_decide (is_Some rdr))).
    + unfold finish. cbn [advance]. unfold after_reader. cbn [call_group call_path fst snd]. rewrite Hor, Hsl.
      destruct (open_reader self (database_group path) w) as [[[r|]|e|p] w1]; [|by eexists _, _..].
      cbn. rewrite !Hop, slot_put, decide_True by done.
      by destruct (open_writer self (database_group path) w1) as [[db|e|p] w2]; eexists _, _.
    + unfold finish. cbn [advance]. unfold after_writer, ret. cbn [fst snd]. rewrite How, Hsl.
      by destruct (open_writer self (database_group path) w) as [[db|e|p] w2]; eexists _, _.
Qed.

(** ** What a group can tell apart *)

(** The same filesystem but for the clients of other groups, in worlds where
    the database of [g] opens the same way. *)
Record agree (g : list byte) (s1 s2 : FS * W) : Prop := {
  ag_setup : s2.1 = set_databases s1.1 (databases s2.1);
  ag_slot : slot s1.1 g = slot s2.1 g;
  ag_world : same_at (object_store s1.1) (slatedb_path s1.1 g) s1.2 s2.2
}.

#[local] Instance agree_equiv g : Equivalence (agree g).
Proof.
  split.
  - intros [self w]. split; [by destruct self|done|reflexivity].
  - intros [f1 w1] [f2 w2] [Hs Hsl Hw]. cbn in *. rewrite Hs in *. split; cbn; [by destruct f1|done|].
    by symmetry.
  - intros [f1 w1] [f2 w2] [f3 w3] [Hs1 Hsl1 Hw1] [Hs2 Hsl2 Hw2]. cbn in *.
    rewrite Hs2, Hs1. rewrite Hs1 in Hw2. split; cbn; [done| |by etransitivity].
    by rewrite Hsl1, Hsl2, Hs2, Hs1.
Qed.

Lemma agree_stays g g' es (self self' : FS) w w' :
  stays g' es self self' -> (g' = g -> slot self' g = slot self g) ->
  same_at (object_store self) (slatedb_path self g) w w' -> agree g (self, w) (self', w').
Proof.
  intros [Hs _ Ho] Hg Hw. split; [done| |done]. cbn. destruct (decide (g' = g)) as [Heq|Hne].
  - by rewrite Hg.
  - by destruct (Ho g) as [-> _].
Qed.

Lemma open_reader_agree g f1 f2 w1 w2 :
  agree g (f1, w1) (f2, w2) ->
  (open_reader f2 g w2).1 = (open_reader f1 g w1).1 /\
  same_at (object_store f1) (slatedb_path f1 g) (open_reader f1 g w1).2 (open_reader f2 g w2).2.
Proof.
  intros [Hs _ Hw]. cbn in Hs. rewrite Hs. change (builder f1 g) with (builder (set_databases f1 (databases f2)) g).
  unfold open_reader. destruct (reader_build_same ManagedCheckpoint (builder f1 g) w1 w2 Hw) as [Hr Hw'].
  change (builder (set_databases f1 (databases f2)) g) with (builder f1 g).
  destruct (reader_build _ _ w1) as [r1 w1'], (reader_build _ _ w2) as [r2 w2']. cbn in Hr, Hw'. subst r2.
  destruct r1 as [r|e|p]; [done| |done]. by destruct (never_written e).
Qed.

Lemma open_writer_agree g f1 f2 w1 w2 :
  agree g (f1, w1) (f2, w2) ->
  (open_writer f2 g w2).1 = (open_writer f1 g w1).1 /\
  same_at (object_store f1) (slatedb_path f1 g) (open_writer f1 g w1).2 (open_writer f2 g w2).2.
Proof.
  intros [Hs _ Hw]. cbn in Hs. rewrite Hs. unfold open_writer, slate.
  destruct (db_build_same (builder f1 g) w1 w2 Hw) as [Hr Hw'].
  change (builder (set_databases f1 (databases f2)) g) with (builder f1 g).
  destruct (db_build _ w1) as [r1 w1'], (db_build _ w2) as [r2 w2']. cbn in Hr, Hw'. by subst r2.
Qed.

Lemma agree_put g (f1 f2 : FS) (w1 w2 w1' w2' : W) client :
  agree g (f1, w1) (f2, w2) -> same_at (object_store f1) (slatedb_path f1 g) w1' w2' ->
  agree g (set_databases f1 (<[g := client]> (databases f1)), w1')
    (set_databases f2 (<[g := client]> (databases f2)), w2').
Proof.
  intros [Hs _ _] Hw. cbn in Hs. split; cbn [fst snd]; [by rewrite Hs| |done].
  by rewrite !slot_put, !decide_True.
Qed.

(** A task does the same in states its group cannot tell apart. *)
Lemma advance_agree t g s1 s2 :
  call_group (task_call t) = g -> agree g s1 s2 ->
  (advance t s2).1 = (advance t s1).1 /\ agree g (advance t s1).2 (advance t s2).2.
Proof.
  intros Hg Hag. destruct s1 as [f1 w1], s2 as [f2 w2].
  destruct t as [| |c|path create|]; [done|done| | |done]; cbn [advance task_call call_group] in *.
  - unfold after_reader. rewrite Hg. destruct (open_reader_agree g f1 f2 w1 w2 Hag) as [Hr Hw].
    destruct (open_reader f1 g w1) as [r1 w1'], (open_reader f2 g w2) as [r2 w2'].
    cbn in Hr, Hw. subst r2. pose proof (ag_slot _ _ _ Hag) as Hsl. cbn in Hsl. rewrite <-Hsl.
    destruct r1 as [[r|]|e|p]; (split; [done|]); cbn [snd].
    1: by apply (agree_put g f1 f2 w1 w2).
    all: by destruct Hag; split.
  - unfold after_writer. cbn in Hg. rewrite Hg. destruct (open_writer_agree g f1 f2 w1 w2 Hag) as [Hr Hw].
    destruct (open_writer f1 g w1) as [r1 w1'], (open_writer f2 g w2) as [r2 w2'].
    cbn in Hr, Hw. subst r2. pose proof (ag_slot _ _ _ Hag) as Hsl. cbn in Hsl. rewrite <-Hsl.
    destruct r1 as [db|e|p]; (split; [done|]); cbn [snd].
    1: by apply (agree_put g f1 f2 w1 w2).
    all: by destruct Hag; split.
Qed.

Lemma advance_call t (s : FS * W) : task_call (advance t s).1.2 = task_call t.
Proof.
  destruct s as [self w], t as [| |c|path create|]; try done; cbn.
  - by destruct (open_reader _ _ w) as [[[r|]|e|p] w1], c.
  - by destruct (open_writer _ _ w) as [[db|e|p] w1].
Qed.

(** A task that holds the lock is done after at most two steps. *)
Lemma advance_inside t (s : FS * W) g :
  inside t = Some g ->
  returned (advance t s).1.2 = true \/ exists path create, (advance t s).1.2 = OpeningWriter path create.
Proof.
  destruct s as [self w], t as [| |c|path create|]; try done; intros _; cbn.
  - destruct (open_reader _ _ w) as [[[r|]|e|p] w1], c; cbn; eauto.
  - destruct (open_writer _ _ w) as [[db|e|p] w1]; cbn; auto.
Qed.
Lemma advance_writer path create (s : FS * W) : returned (advance (OpeningWriter path create) s).1.2 = true.
Proof. destruct s as [self w]. cbn. by destruct (open_writer _ _ w) as [[db|e|p] w1]. Qed.

Lemma finish_eq t (s : FS * W) : finish t s = ((advance (advance t s).1.2 (advance t s).2).1.2,
  (advance (advance t s).1.2 (advance t s).2).2).
Proof. unfold finish. destruct (advance t s) as [[es t1] s1]. cbn. by destruct (advance t1 s1) as [[? ?] ?]. Qed.

Lemma advance_returned t (s : FS * W) : returned t = true -> advance t s = ([], t, s).
Proof. by destruct t. Qed.

(** A step inside the lock keeps what is left to do. *)
Lemma finish_advance t (s : FS * W) g :
  inside t = Some g -> finish (advance t s).1.2 (advance t s).2 = finish t s.
Proof.
  intros Hin. rewrite !finish_eq.
  destruct (advance_inside t s g Hin) as [Hr|(path & create & Hw)].
  - rewrite !(advance_returned (advance t s).1.2 _ Hr). done.
  - rewrite Hw. pose proof (advance_writer path create (advance t s).2) as Hr.
    by rewrite (advance_returned _ _ Hr).
Qed.

Lemma finish_returned t (s : FS * W) : returned t = true -> finish t s = (t, s).
Proof. by destruct t. Qed.

Lemma finish_agree t g s1 s2 :
  call_group (task_call t) = g -> agree g s1 s2 ->
  (finish t s2).1 = (finish t s1).1 /\ agree g (finish t s1).2 (finish t s2).2.
Proof.
  intros Hg Hag. rewrite !finish_eq. destruct (advance_agree t g s1 s2 Hg Hag) as [Heq Hag1].
  rewrite Heq. pose proof (advance_call t s1) as Hc. cbn [fst snd].
  destruct (advance_agree (advance t s1).1.2 g (advance t s1).2 (advance t s2).2) as [Heq2 Hag2];
    [by rewrite Hc|done|]. by rewrite Heq2.
Qed.

(** ** Tasks of other groups *)

Lemma open_apart (self : FS) g g' w :
  g' <> g ->
  same_at (object_store self) (slatedb_path self g) w (open_reader self g' w).2 /\
  same_at (object_store self) (slatedb_path self g) w (open_writer self g' w).2.
Proof.
  intros Hne. assert (Hp : (object_store self, slatedb_path self g) <>
    (builder_store (builder self g'), builder_path (builder self g'))).
  { cbn. intros [= Heq]. by apply slatedb_path_inj in Heq. }
  split.
  - unfold open_reader. pose proof (reader_build_apart ManagedCheckpoint _ _ _ w Hp) as Hs.
    destruct (reader_build _ _ w) as [[r|e|p] w1]; [done| |done]. by destruct (never_written e).
  - unfold open_writer, slate. pose proof (db_build_apart _ _ _ w Hp) as Hs.
    by destruct (db_build _ w) as [r w1].
Qed.

Lemma advance_apart t g (self : FS) w :
  call_group (task_call t) <> g ->
  same_at (object_store self) (slatedb_path self g) w (advance t (self, w)).2.2.
Proof.
  intros Hne. destruct t as [| |c|path create|]; cbn in *; try reflexivity.
  - destruct (open_apart self g (call_group c) w Hne) as [Hs _].
    by destruct (open_reader _ _ w) as [[[r|]|e|p] w1].
  - destruct (open_apart self g (database_group path) w Hne) as [_ Hs].
    by destruct (open_writer _ _ w) as [[db|e|p] w1].
Qed.

(** ** The simulation *)

Lemma history_app g es1 es2 : history g (es1 ++ es2) = history g es1 ++ history g es2.
Proof. apply omap_app. Qed.

Lemma history_moved g i (es : list E) t :
  Forall opening es ->
  history g (Moved i :: es ++ answers i t) =
  match t with
  | Returned c a => if decide (call_group c = g) then [(c, a)] else []
  | _ => []
  end.
Proof.
  intros Hes. unfold history. cbn. rewrite omap_app.
  assert (Hq : history g es = []) by (induction Hes as [|e es He _ IH]; [done|by destruct e]).
  unfold history in Hq. rewrite Hq. destruct t; cbn; try done. by case_decide.
Qed.

Lemma run_client_calls_snoc cs c s l s1 a s2 :
  run_client_calls cs s = (l, s1) -> run_call c s1 = (a, s2) ->
  run_client_calls (cs ++ [c]) s = (l ++ [a], s2).
Proof.
  revert s l. induction cs as [|c0 cs IH]; intros s l Hr Hc; cbn in *.
  - simplify_eq. by rewrite Hc.
  - destruct (run_call c0 s) as [a0 s0]. destruct (run_client_calls cs s0) as [l0 s0'] eqn:Hl0. simplify_eq.
    by rewrite (IH s0 l0 Hl0 Hc).
Qed.

(** The state of the calls made one after the other, [s1], against the system:
    the same for [g], or after the call whose task holds the lock. *)
Definition pending (g : list byte) (s : Sys) (s1 : FS * W) : Prop :=
  match held s !! g with
  | None => agree g s1 (filesystem s, world s)
  | Some i =>
      exists t a s2, tasks s !! i = Some t /\ inside t = Some g /\ run_call (task_call t) s1 = (a, s2) /\
      (finish t (filesystem s, world s)).1 = Returned (task_call t) a /\
      agree g s2 (finish t (filesystem s, world s)).2
  end.

Record linear (g : list byte) (s0 : FS * W) (s : Sys) (es : list E) : Prop := {
  ln_closed : closed (filesystem s) = false;
  ln_run : exists s1, run_client_calls (fst <$> history g es) s0 = (snd <$> history g es, s1) /\
    closed s1.1 = false /\ pending g s s1
}.

(** A step that [g] does not notice. *)
Lemma pending_agree g (s s' : Sys) s1 :
  held s' !! g = held s !! g -> (forall i, held s !! g = Some i -> tasks s' !! i = tasks s !! i) ->
  agree g (filesystem s, world s) (filesystem s', world s') -> pending g s s1 -> pending g s' s1.
Proof.
  intros Hh Ht Hag. unfold pending. rewrite Hh. destruct (held s !! g) as [i|] eqn:Hi.
  - intros (t & a & s2 & Hti & Hin & Hrun & Hfin & Hag2). exists t, a, s2. rewrite (Ht i eq_refl).
    destruct (finish_agree t g _ _ (inside_group t g Hin) Hag) as [Heq Hag3]. rewrite Heq.
    split_and!; try done. by etransitivity.
  - intros Hp. by etransitivity.
Qed.

Lemma stays_closed g es (self self' : FS) : stays g es self self' -> closed self' = closed self.
Proof. by intros [-> _ _]. Qed.

Lemma linear_unnoticed g s0 (s s' : Sys) es es' :
  linear g s0 s es -> history g es' = [] -> closed (filesystem s') = closed (filesystem s) ->
  held s' !! g = held s !! g -> (forall i, held s !! g = Some i -> tasks s' !! i = tasks s !! i) ->
  agree g (filesystem s, world s) (filesystem s', world s') -> linear g s0 s' (es ++ es').
Proof.
  intros [Hcl (s1 & Hrun & Hcl1 & Hp)] Hh Hc Hheld Ht Hag. split; [by rewrite Hc|].
  rewrite history_app, Hh, app_nil_r. exists s1. split_and!; [done..|]. by eapply pending_agree.
Qed.

(** A task gets to [t'] inside the lock, with the rest of its call to do. *)
Lemma linear_inside g s0 (s s' : Sys) es es1 es' i t' self' w' s1 a s2 :
  closed self' = false -> (i < length (tasks s))%nat -> call_group (task_call t') = g -> Forall opening es1 ->
  returned t' = true \/ inside t' = Some g ->
  run_client_calls (fst <$> history g es) s0 = (snd <$> history g es, s1) -> closed s1.1 = false ->
  run_call (task_call t') s1 = (a, s2) -> (finish t' (self', w')).1 = Returned (task_call t') a ->
  agree g s2 (finish t' (self', w')).2 -> inside_lock i s es1 t' self' w' = (es', s') ->
  linear g s0 s' (es ++ es').
Proof.
  intros Hcl Hi Hg Hes Hor Hrun Hcl1 Hcall Hfin Hag Hin. unfold inside_lock in Hin. rewrite Hg in Hin.
  simplify_eq. split; [done|]. rewrite history_app, history_moved by done. unfold pending. cbn [held tasks filesystem world].
  destruct (returned t') eqn:Hr.
  - rewrite (finish_returned t' _ Hr) in Hfin, Hag. cbn [fst snd] in Hfin, Hag. rewrite Hfin in Hcall |- *. cbn in Hcall.
    rewrite decide_True by done. exists s2. rewrite !fmap_app, lookup_delete_eq. cbn.
    split_and!; [by eapply run_client_calls_snoc| |done].
    pose proof (ag_setup _ _ _ Hag) as Hs. cbn in Hs. by rewrite Hs in Hcl.
  - destruct Hor as [|Hin]; [done|]. exists s1. rewrite lookup_insert_eq.
    assert (Hh : match t' with Returned c a => if decide (call_group c = call_group (task_call t'))
      then [(c, a)] else [] | _ => [] end = []) by by destruct t'.
    rewrite Hh, app_nil_r. split_and!; [done..|]. exists t', a, s2. by rewrite list_lookup_insert_eq.
Qed.

Lemma task_step_world i (s : Sys) es s' t :
  tasks s !! i = Some t -> task_step i s = Some (es, s') ->
  world s' = (advance t (filesystem s, world s)).2.2.
Proof.
  intros Ht. unfold task_step. rewrite Ht. destruct t as [c|c|c|path create|c a]; [| | | |done].
  - destruct (closed (filesystem s)); intros Hs; by simplify_eq.
  - destruct (held s !! _); [done|]. intros Hs. unfold inside_lock in Hs. by simplify_eq.
  - destruct (advance _ _) as [[es1 t1] [f1 w1]]. intros Hs. unfold inside_lock in Hs. by simplify_eq.
  - destruct (advance _ _) as [[es1 t1] [f1 w1]]. intros Hs. unfold inside_lock in Hs. by simplify_eq.
Qed.

(** A step of a task of another group. *)
Lemma linear_other g g' s0 i (s s' : Sys) es es' t t' :
  wf_shared s -> moves i g' s es' s' t t' -> task_step i s = Some (es', s') -> g' <> g ->
  linear g s0 s es -> linear g s0 s' (es ++ es').
Proof.
  intros Hwf Hm Hst Hne Hl. pose proof (mv_group Hm) as Hg.
  apply (linear_unnoticed g s0 s); [done| | | | |].
  - destruct (mv_events Hm) as (es1 & -> & Hes). rewrite history_moved by done. pose proof (mv_call Hm) as Hc.
    destruct t'; try done. cbn in Hc. by rewrite decide_False by congruence.
  - by eapply stays_closed, mv_stays.
  - destruct (mv_lock Hm) as [(_ & _ & -> & _)|(_ & _ & ->)]; [done|].
    destruct (inside t'); by rewrite ?lookup_insert_ne, ?lookup_delete_ne.
  - intros j Hj. rewrite (mv_tasks Hm). destruct (wf_held s Hwf g j Hj) as (t0 & Ht0 & Hin).
    apply list_lookup_insert_ne. intros ->. pose proof (mv_from Hm). apply inside_group in Hin. naive_solver.
  - eapply agree_stays; [by eapply mv_stays|done|]. rewrite (task_step_world _ _ _ _ _ (mv_from Hm) Hst).
    apply advance_apart. congruence.
Qed.

(** A call that comes in. *)
Lemma linear_called g s0 i (s s' : Sys) es es' c :
  wf_shared s -> tasks s !! i = Some (Called c) -> task_step i s = Some (es', s') -> call_group c = g ->
  linear g s0 s es -> linear g s0 s' (es ++ es').
Proof.
  intros Hwf Ht Hst Hg Hl. unfold task_step in Hst. rewrite Ht, (ln_closed _ _ _ _ Hl) in Hst.
  simplify_eq. apply (linear_unnoticed _ s0 s); try done; cbn.
  - eapply stays_closed, stays_entered.
  - intros j Hj. destruct (wf_held s Hwf _ j Hj) as (t0 & Ht0 & Hin).
    apply list_lookup_insert_ne. intros ->. naive_solver.
  - eapply agree_stays; [apply stays_entered| |reflexivity]. intros _. apply slot_entered.
Qed.

(** A task that takes the lock. *)
Lemma linear_locking g s0 i (s s' : Sys) es es' c :
  tasks s !! i = Some (Locking c) -> task_step i s = Some (es', s') -> call_group c = g ->
  linear g s0 s es -> linear g s0 s' (es ++ es').
Proof.
  intros Ht Hst Hg [Hcl (s1 & Hrun & Hcl1 & Hp)]. unfold task_step in Hst. rewrite Ht in Hst.
  destruct (held s !! call_group c) eqn:Hh; [done|]. apply (inj Some) in Hst.
  unfold pending in Hp. subst g. rewrite Hh in Hp. destruct s1 as [f1 w1].
  destruct (run_call_finish c f1 w1 Hcl1) as (a & s2 & Hcall & Hfin).
  assert (Hag : agree (call_group c) ((client_for_group (call_group c) f1).2, w1) (filesystem s, world s)).
  { etransitivity; [|done]. symmetry. eapply agree_stays; [apply stays_entered| |reflexivity].
    intros _. apply slot_entered. }
  assert (Hsame : after_lock (client_for_group (call_group c) f1).2 c = after_lock (filesystem s) c).
  { unfold after_lock. pose proof (ag_slot _ _ _ Hag) as Hsl. cbn [fst] in Hsl. by rewrite Hsl. }
  rewrite Hsame in Hfin. destruct (after_lock_lands (filesystem s) c) as (Hc & _ & Hland). cbn in Hc.
  destruct (finish_agree (after_lock (filesystem s) c) (call_group c) _ _ (f_equal _ Hc) Hag) as [Hf1 Hag1].
  rewrite Hfin in Hf1, Hag1.
  eapply (linear_inside _ s0 s s' es [] es' i _ (filesystem s) (world s) (f1, w1) a s2); try done.
  - by eapply lookup_lt_Some.
  - by rewrite Hc.
  - destruct (after_lock _ c); cbn in *; try done; [right|right|by left]; by subst.
  - by rewrite Hc.
  - by rewrite Hc.
Qed.

(** A task that holds the lock. *)
Lemma task_step_inside i (s : Sys) t g :
  tasks s !! i = Some t -> inside t = Some g ->
  task_step i s =
  Some (let '(es, t', (self, w)) := advance t (filesystem s, world s) in inside_lock i s es t' self w).
Proof.
  intros Ht Hin. unfold task_step. rewrite Ht.
  destruct t; try done; by destruct (advance _ _) as [[? ?] [? ?]].
Qed.

Lemma linear_advance g s0 i (s s' : Sys) es es' t :
  wf_shared s -> tasks s !! i = Some t -> inside t = Some g -> task_step i s = Some (es', s') ->
  linear g s0 s es -> linear g s0 s' (es ++ es').
Proof.
  intros Hwf Ht Hin Hst [Hcl (s1 & Hrun & Hcl1 & Hp)].
  destruct (wf_inside s Hwf i t g Ht Hin) as [Hh Hwants]. unfold pending in Hp. rewrite Hh in Hp.
  destruct Hp as (t0 & a & s2 & Ht0 & _ & Hcall & Hfin & Hag). assert (t0 = t) as -> by congruence.
  rewrite <-(finish_advance t _ g Hin) in Hfin, Hag.
  rewrite (task_step_inside i s t g Ht Hin) in Hst. apply (inj Some) in Hst.
  pose proof (advance_call t (filesystem s, world s)) as Hc.
  destruct (advance t (filesystem s, world s)) as [[es1 t'] [f' w']] eqn:Hadv. cbn [fst snd] in Hc, Hfin, Hag.
  destruct (advance_lands t g (filesystem s) (world s) es1 t' f' w' Hin Hwants Hadv) as (Hstay & Hl & Hes).
  eapply (linear_inside g s0 s s' es es1 es' i t' f' w' s1 a s2); try done.
  - by rewrite (stays_closed _ _ _ _ Hstay).
  - by eapply lookup_lt_Some.
  - rewrite Hc. by apply inside_group.
  - destruct Hl as (_ & _ & Hl). apply inside_group in Hin.
    destruct t'; cbn in *; try done; [right|right|by left]; by rewrite <-Hin, <-Hc.
  - by rewrite Hc.
  - by rewrite Hc.
Qed.

Context (env : W -> W -> Prop).

Lemma linear_step g s0 (s : Sys) es es' s' :
  (forall w w', env w w' -> same_at (object_store (filesystem s)) (slatedb_path (filesystem s) g) w w') ->
  wf_shared s -> step env s es' s' -> linear g s0 s es -> linear g s0 s' (es ++ es').
Proof.
  intros Henv Hwf Hs Hl. destruct Hs as [i s es' s' Hst|s w' Hw].
  - destruct (task_step_moves _ _ _ _ Hwf Hst) as (g' & t & t' & Hm).
    destruct (decide (g' = g)) as [->|Hne]; [|by eapply linear_other].
    pose proof (mv_from Hm) as Ht. pose proof (mv_group Hm) as Hg.
    destruct t as [c|c|c|path create|c a].
    + by eapply linear_called.
    + by eapply linear_locking.
    + eapply linear_advance; try done. cbn in Hg |- *. by subst.
    + eapply linear_advance; try done. cbn in Hg |- *. by subst.
    + pose proof (mv_rank Hm). cbn in *. lia.
  - eapply linear_unnoticed; try done. eapply agree_stays; [apply (stays_refl g)|done|by apply Henv].
Qed.

Lemma steps_setup (s : Sys) es s' :
  wf_shared s -> steps env s es s' ->
  filesystem s' = set_databases (filesystem s) (databases (filesystem s')).
Proof.
  intros Hwf. induction 1 as [s|s1 es1 s2 es2 s3 Hs IH Hst]; [by destruct (filesystem s)|].
  specialize (IH Hwf). destruct (steps_wf env _ _ _ Hwf Hs) as (Hwf2 & _).
  destruct Hst as [i s2 es2 s3 Hst|s2 w' _]; [|done].
  destruct (task_step_moves _ _ _ _ Hwf2 Hst) as (g & t & t' & Hm).
  rewrite (st_setup _ _ _ _ (mv_stays Hm)). by rewrite IH.
Qed.

Lemma linear_steps g (s : Sys) s0 es s' :
  (forall w w', env w w' -> same_at (object_store (filesystem s)) (slatedb_path (filesystem s) g) w w') ->
  wf_shared s -> linear g s0 s [] -> steps env s es s' -> linear g s0 s' es.
Proof.
  intros Henv Hwf Hl. induction 1 as [s|s1 es1 s2 es2 s3 Hs IH Hst]; [done|].
  destruct (steps_wf env _ _ _ Hwf Hs) as (Hwf2 & _). eapply linear_step; [|done..|by apply IH].
  by rewrite (steps_setup _ _ _ Hwf Hs).
Qed.

Lemma linear_started g self w cs : closed self = false -> linear g (self, w) (started self w cs) [].
Proof.
  intros Hcl. split; [done|]. exists (self, w). split_and!; [done..|]. unfold pending. cbn.
  rewrite lookup_empty. reflexivity.
Qed.
End linear.
