(* ===== verification/ClientProps.v ===== *)
(** * Concurrent requests for clients: properties

    Any number of [read_client] and [write_db] calls run at the same time on one
    filesystem, interleaved in any way at their [await]s.  They share one writer
    and one reader per group, they behave as if made one after the other, and
    they all return. *)

From S2P Require Import Prelude RustStd Error Flags SlateDb FileMetadata FileHandle.
From S2P Require Import DatabaseMetadata Cache FileSystem MemFs ClientTasks ClientSafety.
From S2P Require Import ClientLinear.

#[local] Open Scope list_scope.

Section props.
Context {W Db Reader Store CacheT Recorder Metrics : Type}.
Context `{SlateDbOpen W Db Reader Store CacheT Recorder} `{CacheLib CacheT}.
#[local] Abbreviation FS := (SlateDbFileSystem Db Reader Store CacheT Recorder Metrics).
#[local] Abbreviation Sys := (Shared W Db Reader Store CacheT Recorder Metrics).

(** C17: whatever else happens in the store between the steps of the calls, two
    calls are never inside the lock of one group; a group never gets a second
    writer or a second reader, so this process never fences itself; and every
    caller got the writer, or the reader, that the group still has. *)
Theorem concurrent_calls_share_clients (env : W -> W -> Prop) (self : FS) w cs es (s : Sys) :
  steps env (started self w cs) es s ->
  (forall i j t u g, tasks s !! i = Some t -> tasks s !! j = Some u ->
     inside t = Some g -> inside u = Some g -> i = j) /\
  (forall g, option_list (read_write (slot (filesystem s) g)) =
     option_list (read_write (slot self g)) ++ writers g es /\
   option_list (reader (slot (filesystem s) g)) =
     option_list (reader (slot self g)) ++ readers g es) /\
  (forall i c a, tasks s !! i = Some (Returned c a) ->
     cs !! i = Some c /\ kept (slot (filesystem s) (call_group c)) a).
Proof.
  intros Hs. destruct (steps_wf env _ _ _ (started_wf self w cs) Hs) as (Hwf & Hl & Hc). split_and!.
  - intros i j t u g Ht Hu Hti Hui. destruct (wf_inside s Hwf _ _ _ Ht Hti) as [Hi _].
    destruct (wf_inside s Hwf _ _ _ Hu Hui) as [Hj _]. congruence.
  - intros g. apply Hl.
  - intros i c a Ht. split; [|by eapply wf_answer]. apply (f_equal (.!! i)) in Hc. cbn in Hc.
    rewrite !list_lookup_fmap, Ht in Hc. by destruct (cs !! i).
Qed.

(** C18: the calls always return: together they take at most four steps per call,
    however they are interleaved, and they are never all waiting: when none of them can
    move every one has its answer. *)
Theorem concurrent_calls_return (env : W -> W -> Prop) (self : FS) w cs es (s : Sys) :
  steps env (started self w cs) es s ->
  (turns es <= 4 * length cs)%nat /\
  ((forall i, task_step i s = None) ->
   forall i c, cs !! i = Some c -> exists a, tasks s !! i = Some (Returned c a) /\ answered i es = [(c, a)]).
Proof.
  intros Hs. destruct (steps_wf env _ _ _ (started_wf self w cs) Hs) as (Hwf & _ & Hc). split.
  - pose proof (steps_work env _ _ _ (started_wf self w cs) Hs) as Hw. rewrite started_work in Hw. lia.
  - intros Hno i c Hi. pose proof (steps_answers env _ _ _ i (started_wf self w cs) Hs) as Ha.
    apply (f_equal (.!! i)) in Hc. cbn in Hc, Ha. rewrite !list_lookup_fmap, Hi in Hc.
    rewrite list_lookup_fmap, Hi in Ha. destruct (tasks s !! i) as [t|] eqn:Ht; [|done]. cbn in Hc, Ha.
    pose proof (no_deadlock s Hwf Hno) as Hd. rewrite Forall_lookup in Hd. specialize (Hd i t Ht).
    destruct t as [| | | |c' a]; try done. cbn in *. exists a. by simplify_eq.
Qed.
End props.

Section linear.
Context {W Db Reader Store CacheT Recorder Metrics : Type}.
Context `{SlateDbOpenApart W Db Reader Store CacheT Recorder} `{CacheLib CacheT}.
#[local] Abbreviation FS := (SlateDbFileSystem Db Reader Store CacheT Recorder Metrics).
#[local] Abbreviation Sys := (Shared W Db Reader Store CacheT Recorder Metrics).

(** C5: concurrent calls are linearizable.  Whenever no call is inside the lock
    of a group, the calls on it that have returned had the answers of the same
    calls made one after the other in the order of their returns, and left the
    client and the database of the group as those would, as long as nobody else
    changes that database; calls on other groups run in between. *)
Theorem concurrent_calls_linearize (env : W -> W -> Prop) (self : FS) w cs es (s : Sys) g :
  closed self = false ->
  (forall w1 w2, env w1 w2 -> same_at (object_store self) (slatedb_path self g) w1 w2) ->
  steps env (started self w cs) es s -> held s !! g = None ->
  (exists s1, run_client_calls (fst <$> history g es) (self, w) = (snd <$> history g es, s1) /\
     agree g s1 (filesystem s, world s)) /\
  (forall i t, tasks s !! i = Some t -> answered i es = answer_of t).
Proof.
  intros Hcl Henv Hs Hheld. pose proof (started_wf self w cs) as Hwf0. split.
  - enough (linear g (self, w) s es) as [_ (s1 & Hrun & _ & Hp)].
    { exists s1. split; [done|]. unfold pending in Hp. by rewrite Hheld in Hp. }
    by apply (linear_steps env g (started self w cs)); [| |apply linear_started|].
  - intros i t Ht. pose proof (steps_answers env _ _ _ i Hwf0 Hs) as Ha. cbn in Ha.
    rewrite Ht, list_lookup_fmap in Ha. destruct (cs !! i); [|done]. by injection Ha.
Qed.
End linear.

(** ** At a concrete input: a table of databases, some of whose openings fail *)

(** How many writers a database has had, and whether its next openings work. *)
Definition Table : Type := gmap (list byte) (nat * list bool).

Definition table_broken : slatedb_error := {| slatedb_kind := KindUnavailable; slatedb_display := "down" |}.

Definition table_open (writer : bool) (p : list byte) (w : Table) : res slatedb_error nat * Table :=
  match w !! p with
  | None => if writer then (Ok 1%nat, <[p := (1%nat, [])]> w) else (Err mem_missing, w)
  | Some (n, false :: outcomes) => (Err table_broken, <[p := (n, outcomes)]> w)
  | Some (n, outcomes) =>
      let n := if writer then S n else n in (Ok n, <[p := (n, tail outcomes)]> w)
  end.

#[local] Instance table_slatedb_open : SlateDbOpen Table (list byte * nat) (list byte) unit unit unit := {|
    db_build b := fun w =>
      let '(r, w') := table_open true (builder_path b) w in
      (res_bind r (fun n => Ok (builder_path b, n)), w');
    reader_build _ b := fun w =>
      let '(r, w') := table_open false (builder_path b) w in
      (res_bind r (fun _ => Ok (builder_path b)), w');
    db_close _ := ret tt;
    reader_close _ := ret tt;
    cache_close _ := ret tt
  |}.

Lemma table_open_same writer p w1 w2 :
  w1 !! p = w2 !! p ->
  (table_open writer p w1).1 = (table_open writer p w2).1 /\
  (table_open writer p w1).2 !! p = (table_open writer p w2).2 !! p.
Proof.
  unfold table_open, Table in *. intros Heq. rewrite Heq.
  destruct (w2 !! p) as [[n [|[] os]]|] eqn:Hp, writer; cbn; split; try done;
    by rewrite ?Hp, ?Heq, ?lookup_insert_eq, ?lookup_insert_eq.
Qed.

Lemma table_open_apart writer p q w : q <> p -> (table_open writer p w).2 !! q = w !! q.
Proof.
  intros Hq. unfold table_open, Table in *.
  destruct (w !! p) as [[n [|[] os]]|], writer; cbn; by rewrite ?lookup_insert_ne by congruence.
Qed.

#[local] Program Instance table_open_apart_laws :
    SlateDbOpenApart Table (list byte * nat) (list byte) unit unit unit := {|
    same_at _ p w1 w2 := w1 !! p = w2 !! p
  |}.
Next Obligation. intros s p. split; [done|by intros ? ?|intros ? ? ?; congruence]. Qed.
Next Obligation.
  intros b w1 w2 Heq. cbn. destruct (table_open_same true _ w1 w2 Heq) as [Hr Hw].
  destruct (table_open _ _ w1), (table_open _ _ w2). cbn in *. by subst.
Qed.
Next Obligation.
  intros mode b w1 w2 Heq. cbn. destruct (table_open_same false _ w1 w2 Heq) as [Hr Hw].
  destruct (table_open _ _ w1), (table_open _ _ w2). cbn in *. by subst.
Qed.
Next Obligation.
  intros b [] p w Hne. cbn. assert (Hp : p <> builder_path b) by (intros ->; by destruct b as [? []]).
  pose proof (table_open_apart true _ _ w Hp). by destruct (table_open _ _ w).
Qed.
Next Obligation.
  intros mode b [] p w Hne. cbn. assert (Hp : p <> builder_path b) by (intros ->; by destruct b as [? []]).
  pose proof (table_open_apart false _ _ w Hp). by destruct (table_open _ _ w).
Qed.

#[local] Abbreviation TableFs := (SlateDbFileSystem (list byte * nat) (list byte) unit unit unit unit).
#[local] Abbreviation TableSys := (Shared Table (list byte * nat) (list byte) unit unit unit unit).
#[local] Abbreviation TableEvent := (Event (list byte * nat) (list byte)).

(** Let the tasks of a schedule move, one after the other. *)
Fixpoint run_tasks (schedule : list nat) (es : list TableEvent) (s : TableSys)
    : option (list TableEvent * TableSys) :=
  match schedule with
  | [] => Some (es, s)
  | i :: schedule =>
      match task_step i s with
      | Some (es', s') => run_tasks schedule (es ++ es') s'
      | None => None
      end
  end.

Lemma run_tasks_steps (env : Table -> Table -> Prop) schedule (es : list TableEvent) (s0 s s' : TableSys) es' :
  steps env s0 es s -> run_tasks schedule es s = Some (es', s') -> steps env s0 es' s'.
Proof.
  revert es s. induction schedule as [|i schedule IH]; intros es s Hs Hr; cbn in Hr.
  - by simplify_eq.
  - destruct (task_step i s) as [[es1 s1]|] eqn:Hst; [|done]. eapply IH; [|done].
    eapply steps_snoc; [done|]. by apply (step_task _ i).
Qed.

Definition table_fs : TableFs :=
  {| database_path := bytes_of "root"; store_location := bytes_of "memory://"; object_store := tt;
     cache_config := default_cache_config; db_cache := Some tt; databases := ∅; closed := false;
     cache_metrics := tt; io_metrics := tt |}.
(** The database of "a" exists, and its second opening fails. *)
Definition table_world : Table := {[ slatedb_path table_fs (bytes_of "a") := (0%nat, [true; false]) ]}.
Definition table_calls : list ClientCall :=
  [WriteDb (bytes_of "a") false; ReadClient (bytes_of "a.wal"); WriteDb (bytes_of "a") true;
   ReadClient (bytes_of "b")].
(** The first call fails after it opened a reader, the third one opens the
    writer, the second one gets both. *)
Definition table_schedule : list nat := [0; 1; 2; 3; 0; 3; 0; 3; 0; 2; 2; 1]%nat.
Definition table_writer : list byte * nat := (slatedb_path table_fs (bytes_of "a"), 1%nat).

Definition table_run : list TableEvent * TableSys :=
  default ([], started table_fs table_world table_calls)
    (run_tasks table_schedule [] (started table_fs table_world table_calls)).

Lemma table_run_steps env : steps env (started table_fs table_world table_calls) table_run.1 table_run.2.
Proof.
  unfold table_run. destruct (run_tasks _ _ _) as [[es s]|] eqn:Hr; [|constructor].
  eapply run_tasks_steps; [|exact Hr]. constructor.
Qed.

Lemma done_stuck i (s : TableSys) : forallb returned (tasks s) = true -> task_step i s = None.
Proof.
  rewrite forallb_forall. intros Hall. unfold task_step. destruct (tasks s !! i) as [t|] eqn:Ht; [|done].
  apply list_elem_of_lookup_2, list_elem_of_In in Ht. specialize (Hall t Ht). by destruct t.
Qed.

Lemma table_run_done i : task_step i table_run.2 = None.
Proof. apply done_stuck. vm_compute. reflexivity. Qed.

Lemma concurrent_calls_share_clients_witness :
  read_write (slot (filesystem table_run.2) (bytes_of "a")) = Some table_writer /\
  writers (bytes_of "a") table_run.1 = [table_writer].
Proof.
  destruct (concurrent_calls_share_clients (fun _ _ => True) table_fs table_world table_calls table_run.1
    table_run.2 (table_run_steps _)) as (_ & Hw & Ha). split.
  - apply (Ha 2%nat (WriteDb (bytes_of "a") true) (WriteAnswer (Ok table_writer))). by vm_compute.
  - destruct (Hw (bytes_of "a")) as [Hl _]. change (writers (bytes_of "a") table_run.1) with
      ([] ++ writers (bytes_of "a") table_run.1). etransitivity; [symmetry; exact Hl|]. by vm_compute.
Defined.

Lemma concurrent_calls_return_witness :
  (turns table_run.1 <= 16)%nat /\
  exists a, tasks table_run.2 !! 3%nat = Some (Returned (ReadClient (bytes_of "b")) a).
Proof.
  destruct (concurrent_calls_return (fun _ _ => True) table_fs table_world table_calls table_run.1
    table_run.2 (table_run_steps _)) as [Ht Hret]. split; [exact Ht|].
  destruct (Hret table_run_done 3%nat (ReadClient (bytes_of "b")) eq_refl) as (a & Ha & _). by exists a.
Defined.

Lemma concurrent_calls_linearize_witness :
  exists s1, (run_client_calls
    [WriteDb (bytes_of "a") false; WriteDb (bytes_of "a") true; ReadClient (bytes_of "a.wal")]
    (table_fs, table_world)).2 = s1 /\ slot s1.1 (bytes_of "a") = slot (filesystem table_run.2) (bytes_of "a").
Proof.
  destruct (concurrent_calls_linearize eq table_fs table_world table_calls table_run.1 table_run.2
    (bytes_of "a") eq_refl) as [(s1 & Hrun & Hag) _].
  - by intros w1 w2 ->.
  - apply table_run_steps.
  - by vm_compute.
  - assert (Hh : (history (bytes_of "a") table_run.1).*1 =
      [WriteDb (bytes_of "a") false; WriteDb (bytes_of "a") true; ReadClient (bytes_of "a.wal")])
      by (vm_compute; reflexivity).
    exists s1. rewrite <-Hh, Hrun. split; [reflexivity|apply (ag_slot _ _ _ Hag)].
Defined.
