(* ===== verification/Durability.v ===== *)
(** * Durability across the layers

    The catalog, the handle and the filesystem together: a handle opened for
    writing tracks the file at its path, whatever is done to it, and a close
    makes the path hold the bytes the handle shows. *)

From S2P Require Import Prelude RustStd Error Flags Keys SlateDb MemDb ChunkStore ChunkManager.
From S2P Require Import ChunkManagerSpec FileMetadata FileSpec FileHandle FileHandleSpec.
From S2P Require Import FileRefinement.
From S2P Require Import HandleReads.
From S2P Require Import FileProps.
From S2P Require Import DatabaseMetadata DatabaseSpec DatabaseOps DatabaseProps Cache FileSystem.
From S2P Require Import FileSystemSpec FileSystemOps MemFs FileSystemProps.

#[local] Open Scope string_scope.
#[local] Open Scope list_scope.
#[local] Open Scope Z_scope.

Section handle.
Context {W Db Txn Reader : Type} `{World W} `{DbReadOps W Db} `{!DbReadLaws W Db}
  `{DbReadOps W Txn} `{!DbReadLaws W Txn} `{SlateDb W Db Txn} `{!SlateDbLaws W Db Txn}
  `{DbReadOps W Reader} `{!DbReadLaws W Reader} `{Clock W} `{!ClockLaws W}
  `{MetadataCodec} `{!MetadataCodecLaws}.
#[local] Abbreviation Handle := (SlateFileHandle Db Reader).

(** ** Handles that track a path *)

(** A sync of the handle at a path leaves the other paths alone. *)
Lemma synced_keeps w (h : Handle) m path q :
  wf_handle w h -> wf_catalog m -> m !! path_key path = Some (to_be_bytes (FileHandle.file_id h)) ->
  q <> path -> keeps m (apply_batch m (sync_batch h)) q.
Proof.
  intros Hwf Hcat Hpath Hne. split; [by eapply synced_path|]. intros id Hid Hq.
  assert (id <> FileHandle.file_id h).
  { intros ->. apply Hne. by eapply (cat_inj m Hcat). }
  split; [by apply (sync_batch_other w h m id 0)|]. intros i Hi. by apply (sync_batch_other w h m id i).
Qed.

(** The database maps the path to the handle's file, and holds the bytes the
    handle shows unless some are staged; the other paths are as in [m0]. *)
Record tracks (m0 : kv) (w : W) (db : Db) (path : list byte) (h : Handle) (l : list byte)
  : Prop := {
  tr_wf : wf_handle w h;
  tr_bytes : represents w h l;
  tr_client : FileHandle.client h = ReadWrite db;
  tr_catalog : wf_catalog (db_view w db);
  tr_path : db_view w db !! path_key path = Some (to_be_bytes (FileHandle.file_id h));
  tr_id : is_u64 (FileHandle.file_id h);
  tr_stored : clean h = true -> file_at (db_view w db) path l;
  tr_others q l' : q <> path -> (file_at (db_view w db) q l' <-> file_at m0 q l')
}.

Lemma same_contents_bytes w w' (h h' : Handle) l l' :
  w' ≡ w -> wf_handle w h -> same_contents h h' -> represents w h l -> represents w' h' l' -> l' = l.
Proof.
  intros Hw Hwf (Hc & Hs & _) Hrep [Hl' Hb'].
  apply (represents_unique w h); [|done|apply (hw_size _ _ Hwf)].
  split; [congruence|]. intros p Hp. rewrite <-(byte_at_equiv w' w), <-Hc by done. by apply Hb'.
Qed.

Lemma sync_tracks m0 w db path (h : Handle) l r h' w' :
  tracks m0 w db path h l -> up w -> sync (h, w) = (r, (h', w')) ->
  r = Ok tt /\ up w' /\ tracks m0 w' db path h' l /\ clean h' = true /\ abs h' l = abs h l.
Proof.
  intros [Hwf Hrep Hc Hcat Hpath Hid Hst Hoth] Hu Hr.
  destruct (sync_ok h l w r h' w' Hwf Hrep Hr)
    as (Hup & Hwf' & Hrep' & (Hc' & Hid' & Hf') & Hpos & _ & Hok & _).
  destruct (Hup Hu) as [-> Hu']. destruct (Hok eq_refl) as [Hcl Hview].
  split_and!; [done|done| |done|unfold abs; congruence].
  destruct (clean h) eqn:Hclean.
  { rewrite sync_run, Hclean in Hr. simplify_eq. split; try done. intros _. by apply Hst. }
  specialize (Hview eq_refl db Hc).
  assert (Hrange : 1 <= FileHandle.file_id h < next_id (db_view w db)).
  { destruct (cat_path _ Hcat path _ Hpath) as (id & meta & Heq & Hlt & _).
    pose proof (next_id_u64 _ Hcat) as [_ Hn]. apply to_be_bytes_inj in Heq; [by subst|done|split; lia]. }
  split; [done|done|congruence| | |by rewrite Hid'| |].
  - rewrite Hview. by eapply advances_synced.
  - by rewrite Hview, (synced_path w), Hid'.
  - intros _. exists (FileHandle.file_id h), (metadata h). rewrite Hview.
    split_and!; [by rewrite (synced_path w)|done|by eapply synced_metadata|by apply (sync_stored w)].
  - intros q l' Hq. rewrite Hview, <-Hoth by done. apply keeps_file_at. by eapply synced_keeps.
Qed.

Lemma op_tracks m0 o w db path (h : Handle) l r h' w' :
  tracks m0 w db path h l -> up w -> op_u64 o -> ~ short_op w h o ->
  run_op o (h, w) = (r, (h', w')) ->
  exists l', tracks m0 w' db path h' l' /\ up w' /\ abs h' l' = (spec_step o (abs h l)).2.
Proof.
  intros Htr Hu Ho Hs Hr. pose proof Htr as [Hwf Hrep Hc Hcat Hpath Hid Hst Hoth].
  destruct (decide (o = OpSync)) as [->|Hns].
  { cbn [run_op] in Hr. unfold bind in Hr. destruct (sync (h, w)) as [r1 [h1 w1]] eqn:Hsy.
    destruct (sync_tracks m0 w db path h l r1 h1 w1 Htr Hu Hsy) as (-> & Hu1 & Htr1 & _ & Habs).
    unfold ret in Hr. injection Hr as <- <- <-. exists l. by split_and!. }
  destruct (step_refines o h l w r h' w' Hwf Hrep Hu Ho Hs Hr)
    as (l' & _ & Habs & Hwf' & Hrep' & Hu' & (Hc' & Hid' & _)).
  destruct (op_stages o h l w r h' w') as [Hw Hun]; [done..|].
  pose proof (db_view_proper w' w Hw db db eq_refl) as Hv.
  exists l'. split_and!; [|done|done].
  split; [done|done|congruence|by rewrite Hv|by rewrite Hv, Hid'|by rewrite Hid'| |by rewrite Hv].
  intros Hcl. specialize (Hun Hcl). rewrite Hv.
  rewrite (same_contents_bytes w w' h h' l l') by done. apply Hst.
  destruct Hun as (Hch & _ & Hd). unfold clean in *. by rewrite <-Hch, <-Hd.
Qed.

Lemma run_tracks m0 os w db path (h : Handle) l xs h' w' :
  tracks m0 w db path h l -> up w -> Forall op_u64 os ->
  run_ops os h w = (Some xs, (h', w')) ->
  exists l', tracks m0 w' db path h' l' /\ up w' /\ abs h' l' = (spec_run os (abs h l)).2.
Proof.
  revert w h l xs. induction os as [|o os IH]; intros w h l xs Htr Hu Hos Hr.
  { cbn in Hr. simplify_eq. by exists l. }
  apply Forall_cons in Hos as [Ho Hos]. cbn [run_ops] in Hr.
  destruct (run_op o (h, w)) as [r [h1 w1]] eqn:Hstep.
  destruct (decide (short_op w h o)) as [Hshort|Hshort].
  { destruct (step_panics o h w (tr_wf _ _ _ _ _ _ Htr) Hu Ho Hshort) as (w2 & _ & Hp).
    rewrite Hp in Hstep. by simplify_eq. }
  destruct (op_tracks m0 o w db path h l r h1 w1 Htr Hu Ho Hshort Hstep) as (l1 & Htr1 & Hu1 & Habs1).
  destruct (obs r); [|done]. destruct (run_ops os h1 w1) as [[ys|] s] eqn:Hrun; [|done].
  cbn in Hr. simplify_eq.
  destruct (IH w1 h1 l1 ys Htr1 Hu1 Hos Hrun) as (l' & Htr' & Hu' & Habs').
  exists l'. split_and!; [done|done|]. cbn [spec_run].
  destruct (spec_step o (abs h l)) as [x f]. cbn in Habs1. subst f.
  by destruct (spec_run os (abs h1 l1)).
Qed.
End handle.

(** ** From open to reopen *)

Section filesystem.
Context {W Db Txn Reader Store CacheT Recorder Metrics : Type} `{World W} `{DbReadOps W Db}
  `{!DbReadLaws W Db} `{DbReadOps W Reader} `{!DbReadLaws W Reader}
  `{DbReadOps W Txn} `{!DbReadLaws W Txn} `{SlateDb W Db Txn} `{!SlateDbLaws W Db Txn}
  `{Clock W} `{!ClockLaws W} `{MetadataCodec} `{!MetadataCodecLaws}
  `{SlateDbOpen W Db Reader Store CacheT Recorder} `{CacheLib CacheT}
  `{!SlateDbOpenLaws W Db Reader Store CacheT Recorder}.
#[local] Abbreviation FS := (SlateDbFileSystem Db Reader Store CacheT Recorder Metrics).

(** The bytes a handle opened with [flags] shows first. *)
Definition first_bytes (m : kv) (path : list byte) (flags : FileOpenFlags) (l : list byte) : Prop :=
  if truncate_existing flags || bool_decide (m !! path_key path = None) then l = []
  else file_at m path l.

Lemma open_tracks path flags l (fs : FS) (w : W) h fs1 w1 :
  up w -> closed fs = false -> validate flags = Ok tt -> path <> [] ->
  wf_catalog (default ∅ (write_view w fs (database_group path))) ->
  first_bytes (default ∅ (write_view w fs (database_group path))) path flags l ->
  open_write_handle path flags (fs, w) = (Ok h, (fs1, w1)) ->
  up w1 /\ closed fs1 = false /\ exists db, has_writer fs1 (database_group path) = Some db /\
    tracks (default ∅ (write_view w fs (database_group path))) w1 db path h l.
Proof.
  intros Hu Hcl Hf Hp Hwf Hl Hr.
  destruct (open_write_handle_spec path flags fs w (Ok h) fs1 w1 Hu Hcl Hf Hp Hwf Hr)
    as (Hu1 & Ho & db & found & Hhw & -> & (Hwf1 & Hid & Hpath & Hm & Hoth & _ & Hfirst) & Hat).
  split_and!; [done|by rewrite (only_group_closed _ _ _ Ho)|]. exists db. split; [done|].
  set (m := default ∅ _) in *.
  assert (Hfile : file_at (db_view w1 db) path l).
  { unfold first_bytes in Hl. destruct (m !! path_key path) as [b|] eqn:Hm0.
    - rewrite (bool_decide_false (Some b = None)) in Hl by done. rewrite orb_false_r in Hl.
      destruct (truncate_existing flags); [by subst l|]. by rewrite Hfirst.
    - rewrite (bool_decide_true (None = None)), orb_true_r in Hl by done. subst l. apply Hfirst. }
  destruct (Hat l Hfile) as [Hwfh Hrep]. split; try done.
  intros q l' Hq. by apply keeps_file_at, Hoth.
Qed.

(** Closing the handle and opening the path again. *)
Lemma close_and_reopen m0 path db (h : SlateFileHandle Db Reader) l (fs : FS) (w : W) :
  up w -> closed fs = false -> path <> [] -> has_writer fs (database_group path) = Some db ->
  tracks m0 w db path h l ->
  exists h1 w1 h2 fs2 w2,
    FileHandle.close (h, w) = (Ok tt, (h1, w1)) /\
    open_file path read_only (fs, w1) = (Ok h2, (fs2, w2)) /\
    wf_handle w2 h2 /\ represents w2 h2 l /\
    forall q l', q <> path -> (file_at (db_view w2 db) q l' <-> file_at m0 q l').
Proof.
  intros Hu Hcl Hp Hhw Htr. destruct (sync (h, w)) as [r [h1 w1]] eqn:Hs.
  destruct (sync_tracks m0 w db path h l r h1 w1 Htr Hu Hs) as (-> & Hu1 & Htr1 & Hclean & _).
  pose proof (has_writer_read_view w1 fs (database_group path) db Hhw) as Hv.
  destruct (open_read_handle path read_only (fs, w1)) as [r2 [fs2 w2]] eqn:Ho.
  pose proof (tr_catalog _ _ _ _ _ _ Htr1) as Hcat.
  pose proof (tr_stored _ _ _ _ _ _ Htr1 Hclean) as Hfile.
  destruct (open_read_handle_spec path read_only fs w1 r2 fs2 w2) as (Hw2 & Hu2 & _ & _ & Hres);
    [done..|by rewrite Hv|done|].
  rewrite Hv in Hres. cbn [default from_option id] in Hres. exists h1, w1.
  assert (Hopen : open_file path read_only (fs, w1) = (r2, (fs2, w2))) by exact Ho.
  destruct r2 as [h2|e|p]; [| |done].
  2:{ destruct (Hres Hu1) as [_ Hn]. by rewrite (tr_path _ _ _ _ _ _ Htr1) in Hn. }
  exists h2, fs2, w2. destruct Hres as (_ & Hres & _). destruct (Hres l Hfile) as [Hwf2 Hrep2].
  split_and!; [done|done|done|done|]. intros q l' Hq.
  rewrite (db_view_proper w2 w1 Hw2 db db eq_refl). by apply (tr_others _ _ _ _ _ _ Htr1).
Qed.

(** C8: what is written is there to be read: a file opened for writing, changed
    by any sequence of operations and closed, holds, when its path is opened
    again, the bytes a plain file would hold after the same operations; the
    files at the other paths of the database are as they were. *)
Theorem written_file_survives_reopening path flags os l (fs : FS) (w : W) h fs1 w1 xs h2 w2 :
  up w -> closed fs = false -> validate flags = Ok tt -> Flags.write flags = true -> path <> [] ->
  wf_catalog (default ∅ (write_view w fs (database_group path))) ->
  first_bytes (default ∅ (write_view w fs (database_group path))) path flags l ->
  Forall op_u64 os ->
  open_file path flags (fs, w) = (Ok h, (fs1, w1)) ->
  run_ops os h w1 = (Some xs, (h2, w2)) ->
  exists h3 w3 h4 fs4 w4 db,
    FileHandle.close (h2, w2) = (Ok tt, (h3, w3)) /\
    open_file path read_only (fs1, w3) = (Ok h4, (fs4, w4)) /\
    wf_handle w4 h4 /\ represents w4 h4 (bytes (spec_run os (abs h l)).2) /\
    has_writer fs1 (database_group path) = Some db /\
    forall q l', q <> path -> (file_at (db_view w4 db) q l' <->
      file_at (default ∅ (write_view w fs (database_group path))) q l').
Proof.
  intros Hu Hcl Hf Hw Hp Hwf Hl Hos Hopen Hrun.
  unfold open_file, bind, lift in Hopen. rewrite Hf, Hw in Hopen.
  destruct (open_tracks path flags l fs w h fs1 w1) as (Hu1 & Hcl1 & db & Hhw & Htr); [done..|].
  destruct (run_tracks _ os w1 db path h l xs h2 w2 Htr Hu1 Hos Hrun) as (l2 & Htr2 & Hu2 & Habs).
  destruct (close_and_reopen _ path db h2 l2 fs1 w2 Hu2 Hcl1 Hp Hhw Htr2)
    as (h3 & w3 & h4 & fs4 & w4 & Hclose & Hreopen & Hwf4 & Hrep4 & Hoth).
  exists h3, w3, h4, fs4, w4, db. split_and!; [done|done|done| |done|done].
  by rewrite <-Habs.
Qed.
End filesystem.

(** ** At a concrete input *)

Definition ex_x : list byte := bytes_of "x.db".
Definition ex_opened := open_file ex_x open_or_create (ex_fs, ex_file_world).
Definition ex_edits : list Op := [OpWrite (bytes_of "hello world"); OpSync; OpSeek 6; OpWrite (bytes_of "there")].
Definition ex_edited : option (option (list Obs) * (ExHandle * MemWorld)) :=
  match ex_opened with
  | (Ok h, (_, w)) => Some (run_ops ex_edits h w)
  | _ => None
  end.
Lemma ex_edited_ok :
  exists h s xs s2, ex_opened = (Ok h, s) /\ run_ops ex_edits h s.2 = (Some xs, s2) /\
    abs h [] = {| bytes := []; pos := 0; readable := true; writable := true; appending := false |}.
Proof.
  assert (Hok : match ex_edited with Some (Some _, _) => true | _ => false end = true) by (by vm_compute).
  assert (Habs : match ex_opened with
                 | (Ok h, _) => (position h, flags h) = (0, open_or_create)
                 | _ => False
                 end) by (by vm_compute).
  unfold ex_edited in Hok. destruct ex_opened as [[h|e|p] [fs1 w1]]; [|done|done].
  destruct (run_ops ex_edits h w1) as [[xs|] s2] eqn:Hrun; [|done].
  exists h, (fs1, w1), xs, s2. split; [reflexivity|]. split; [exact Hrun|].
  injection Habs as Hp Hf. unfold abs. rewrite Hp, Hf. reflexivity.
Qed.

Lemma written_file_survives_reopening_witness :
  exists (fs1 : ExFs) w3 h4 s, open_file ex_x read_only (fs1, w3) = (Ok h4, s) /\
    represents s.2 h4 (bytes_of "hello there").
Proof.
  destruct ex_edited_ok as (h & [fs1 w1] & xs & [h2 w2] & Hopen & Hrun & Habs).
  destruct (written_file_survives_reopening ex_x open_or_create ex_edits [] ex_fs ex_file_world
    h fs1 w1 xs h2 w2 ex_file_up eq_refl eq_refl eq_refl ltac:(done) wf_catalog_empty eq_refl
    ltac:(repeat constructor; by vm_compute) Hopen Hrun)
    as (h3 & w3 & h4 & fs4 & w4 & db & _ & Hre & _ & Hrep & _).
  rewrite Habs in Hrep.
  exists fs1, w3, h4, (fs4, w4). split; [exact Hre|exact Hrep].
Defined.
