(* ===== verification/VolumeSteps.v ===== *)
(** * The commands of a volume, one by one

    Each command on the filesystem, its databases and its handles is the
    command of VolumeSpec.v under the relation of VolumeRun.v: it gives the same
    answer and keeps the relation. *)

From S2P Require Import Prelude RustStd Error Flags Keys SlateDb ChunkStore ChunkLayout.
From S2P Require Import ChunkManager ChunkManagerSpec FileMetadata FileSpec FileHandle.
From S2P Require Import FileHandleSpec FileRefinement Transactions DatabaseMetadata Locality.
From S2P Require Import DatabaseSpec DatabaseOps Cache FileSystem VolumeSpec GroupSpec.
From S2P Require Import FileSystemSpec FileSystemOps GroupFrame Durability VolumeRun.

#[local] Open Scope Z_scope.

Section steps.
Context {W Db Txn Reader Store CacheT Recorder Metrics : Type} `{World W} `{DbReadOps W Db}
  `{!DbReadLaws W Db} `{DbReadOps W Reader} `{!DbReadLaws W Reader}
  `{DbReadOps W Txn} `{!DbReadLaws W Txn} `{SlateDb W Db Txn} `{!SlateDbLaws W Db Txn}
  `{!SlateDbLocal W Db Txn} `{Clock W} `{!ClockLaws W} `{MetadataCodec} `{!MetadataCodecLaws}
  `{SlateDbOpen W Db Reader Store CacheT Recorder} `{CacheLib CacheT}
  `{!SlateDbOpenLaws W Db Reader Store CacheT Recorder}
  `{!SlateDbApart W Db Txn Reader Store CacheT Recorder}.
#[local] Abbreviation FS := (SlateDbFileSystem Db Reader Store CacheT Recorder Metrics).
#[local] Abbreviation Handle := (SlateFileHandle Db Reader).

(** ** Parts of a step *)

Lemma mapped_iff w (fs : FS) (hs : gmap nat Handle) v p :
  related w fs hs v ->
  is_Some (view w fs (database_group p) !! path_key p) <-> is_Some (files v !! p).
Proof.
  intros Hrl. split; [apply (rl_mapped _ _ _ _ Hrl)|]. intros [l Hl].
  apply (file_at_mapped _ _ l). by apply (rl_files _ _ _ _ Hrl).
Qed.

Lemma unmapped w (fs : FS) (hs : gmap nat Handle) v p :
  related w fs hs v -> view w fs (database_group p) !! path_key p = None -> files v !! p = None.
Proof.
  intros Hrl Hn. apply eq_None_not_Some. rewrite <-(mapped_iff w fs hs) by done.
  rewrite Hn. by intros [].
Qed.

Lemma mapped_file w (fs : FS) (hs : gmap nat Handle) v p b :
  related w fs hs v -> view w fs (database_group p) !! path_key p = Some b ->
  exists l, files v !! p = Some l /\ file_at (view w fs (database_group p)) p l.
Proof.
  intros Hrl Hp. destruct (proj1 (mapped_iff w fs hs v p Hrl)) as [l Hl]; [by rewrite Hp|].
  exists l. split; [done|]. by apply (rl_files _ _ _ _ Hrl).
Qed.

(** An update of the files of one group, the open handles left in place. *)
Lemma related_update w w' (fs fs' : FS) (hs : gmap nat Handle) v g0 m :
  related w fs hs v -> only_group g0 fs fs' -> up w' ->
  clients_ok w' fs' /\ beside fs g0 w w' /\
    (forall db, has_writer fs g0 = Some db -> has_writer fs' g0 = Some db) ->
  may_write v g0 -> wf_catalog (view w' fs' g0) ->
  (forall p, database_group p <> g0 -> m !! p = files v !! p) ->
  (forall p l, database_group p = g0 -> m !! p = Some l <-> file_at (view w' fs' g0) p l) ->
  (forall p, database_group p = g0 -> is_Some (view w' fs' g0 !! path_key p) -> is_Some (m !! p)) ->
  (forall n e, handles v !! n = Some e -> group_of e = g0 ->
     keeps (view w fs g0) (view w' fs' g0) (open_path e)) ->
  related w' fs' hs (set_files v m).
Proof.
  intros Hrl Ho Hu' (Hok' & Hb & Hst) Hmay Hcat Hother Hat Hmap Hkeep.
  apply (related_step w w' fs fs' hs hs v (set_files v m) g0); try done.
  - intros g Hg. by left.
  - intros [db Hdb]. rewrite (Hst db Hdb). by eexists.
  - intros n. right. split_and!; [done..|]. intros h e Hh He Hg.
    pose proof (rl_handles _ _ _ _ Hrl n) as Hs. rewrite Hh, He in Hs. destruct Hs as [l Hatt].
    split; [by eapply client_stays|by eapply Hkeep].
  - apply (rl_exclusive _ _ _ _ Hrl).
Qed.

(** An update that fails changes no file. *)
Lemma related_refused w w' (fs fs' : FS) (hs : gmap nat Handle) v g0 :
  related w fs hs v -> only_group g0 fs fs' -> up w' ->
  clients_ok w' fs' /\ beside fs g0 w w' /\
    (forall db, has_writer fs g0 = Some db -> has_writer fs' g0 = Some db) ->
  may_write v g0 -> view w' fs' g0 = view w fs g0 -> related w' fs' hs v.
Proof.
  intros Hrl Ho Hu' Hfr Hmay Hv.
  assert (Heq : set_files v (files v) = v) by by destruct v. rewrite <-Heq.
  apply (related_update w w' fs fs' hs v g0); try done; rewrite Hv.
  - apply (rl_catalog _ _ _ _ Hrl).
  - intros p l <-. apply (rl_files _ _ _ _ Hrl).
  - intros p <-. apply (rl_mapped _ _ _ _ Hrl).
  - intros. apply keeps_refl.
Qed.

(** A handle in the table. *)
Lemma related_insert w (fs : FS) (hs : gmap nat Handle) v n h e l :
  related w fs hs v -> attached w fs h e l ->
  (forall k e', k <> n -> handles v !! k = Some e' -> open_path e' <> open_path e) ->
  related w fs (<[n := h]> hs) (set_handles v (<[n := e]> (handles v))).
Proof.
  intros [? ? ? ? ? ? ? Hh Hex] Hat Hne. split; try done.
  - intros k. cbn. rewrite !lookup_insert. case_decide; [by exists l|apply Hh].
  - intros n1 n2 e1 e2. cbn. rewrite !lookup_insert. repeat case_decide; subst; try done.
    + intros [= <-] Hk Hp. by destruct (Hne n2 e2).
    + intros Hk [= <-] Hp. by destruct (Hne n1 e1).
    + apply Hex.
Qed.

Lemma related_delete w (fs : FS) (hs : gmap nat Handle) v n :
  related w fs hs v -> related w fs (delete n hs) (set_handles v (delete n (handles v))).
Proof.
  intros [? ? ? ? ? ? ? Hh Hex]. split; try done.
  - intros k. cbn. rewrite !lookup_delete. by case_decide.
  - intros n1 n2 e1 e2. cbn. intros [_ Hk1]%lookup_delete_Some [_ Hk2]%lookup_delete_Some. by apply Hex.
Qed.

Lemma related_written w (fs : FS) (hs : gmap nat Handle) v g :
  related w fs hs v -> is_Some (has_writer fs g) -> related w fs hs (add_written v g).
Proof. intros [] Hg. split; try done. intros g' [->%elem_of_singleton|?]%elem_of_union; auto. Qed.

(** The same databases, in which at most [k] more file IDs are given out. *)
Record goes_on (k : Z) (w : W) (fs : FS) (w' : W) (fs' : FS) : Prop := {
  go_next g : next_id (view w' fs' g) <= next_id (view w fs g) + k;
  go_store : object_store fs' = object_store fs;
  go_path : database_path fs' = database_path fs
}.

Lemma goes_on_refl k w (fs : FS) : 0 <= k -> goes_on k w fs w fs.
Proof. split; [intros; lia|done|done]. Qed.

Lemma goes_on_trans k1 k2 w1 w2 w3 (fs1 fs2 fs3 : FS) :
  goes_on k1 w1 fs1 w2 fs2 -> goes_on k2 w2 fs2 w3 fs3 -> goes_on (k1 + k2) w1 fs1 w3 fs3.
Proof.
  intros [N1 S1 P1] [N2 S2 P2]. split; [|congruence..]. intros g. specialize (N1 g). specialize (N2 g). lia.
Qed.

Lemma goes_on_group w w' (fs fs' : FS) g0 :
  clients_ok w fs -> only_group g0 fs fs' -> beside fs g0 w w' ->
  next_id (view w' fs' g0) <= next_id (view w fs g0) + 1 -> goes_on 1 w fs w' fs'.
Proof.
  intros Hok Ho Hb Hg. split; [|by rewrite (proj1 Ho)..]. intros g.
  destruct (decide (g = g0)) as [->|Hne]; [done|].
  rewrite (view_beside w w' fs fs' g0 g) by done. lia.
Qed.

Lemma goes_on_same w w' (fs fs' : FS) g0 :
  only_group g0 fs fs' -> w' ≡ w -> has_writer fs' g0 = has_writer fs g0 -> goes_on 1 w fs w' fs'.
Proof.
  intros Ho Hw Hhw. split; [|by rewrite (proj1 Ho)..]. intros g.
  rewrite (view_same w w' fs fs' g0 g) by done. lia.
Qed.

(** What a command leaves and returns. *)
Definition stepped (c : Cmd) (w : W) (fs : FS) (v : Volume) (r : Result Out) (hs' : gmap nat Handle)
    (fs' : FS) (w' : W) : Prop :=
  out r = Some (spec_cmd c v).1 /\ related w' fs' hs' (spec_cmd c v).2 /\ goes_on 1 w fs w' fs'.

Lemma stepped_by c x v' w (fs : FS) v r hs' fs' w' :
  spec_cmd c v = (x, v') -> out r = Some x -> related w' fs' hs' v' -> goes_on 1 w fs w' fs' ->
  stepped c w fs v r hs' fs' w'.
Proof. intros Hs. unfold stepped. by rewrite Hs. Qed.

(** ** Commands on paths *)

Lemma step_exists path w (fs : FS) (hs : gmap nat Handle) v r hs' fs' w' :
  related w fs hs v -> path <> [] -> run_cmd (CmdExists path) (hs, (fs, w)) = (r, (hs', (fs', w'))) ->
  stepped (CmdExists path) w fs v r hs' fs' w'.
Proof.
  intros Hrl Hp Hr. cbn [run_cmd] in Hr. unfold bind, on_snd in Hr. cbn [fst snd] in Hr.
  destruct (FileSystem.file_exists path (fs, w)) as [r1 [fs1 w1]] eqn:He.
  pose proof (rl_up _ _ _ _ Hrl) as Hu. pose proof (rl_open _ _ _ _ Hrl) as Hcl.
  pose proof (rl_clients _ _ _ _ Hrl) as Hok.
  destruct (file_exists_spec path fs w r1 fs1 w1 Hcl Hp He) as (Hw & Ho & Hhw & Hans).
  destruct (Hans Hu) as [Hu' ->].
  destruct (file_exists_frame path fs w _ fs1 w1 Hcl Hu Hok He Hw) as [Hok' Hc].
  unfold ret in Hr. simplify_eq. split_and!.
  - rewrite read_view_view by done. cbn. do 2 f_equal. apply bool_decide_ext.
    by apply (mapped_iff w fs hs').
  - by apply (related_same w w' fs fs' hs' v (database_group path)).
  - by apply (goes_on_same w w' fs fs' (database_group path)).
Qed.

Lemma step_remove path w (fs : FS) (hs : gmap nat Handle) v r hs' fs' w' :
  related w fs hs v -> path <> [] -> closed_path v path -> may_write v (database_group path) ->
  run_cmd (CmdRemove path) (hs, (fs, w)) = (r, (hs', (fs', w'))) ->
  stepped (CmdRemove path) w fs v r hs' fs' w'.
Proof.
  intros Hrl Hp Hclosed Hmay Hr. cbn [run_cmd] in Hr. unfold on_volume, bind, on_snd in Hr.
  cbn [fst snd] in Hr. destruct (FileSystem.remove_file path (fs, w)) as [r1 [fs1 w1]] eqn:He.
  pose proof (rl_up _ _ _ _ Hrl) as Hu. pose proof (rl_open _ _ _ _ Hrl) as Hcl.
  pose proof (rl_clients _ _ _ _ Hrl) as Hok. pose proof (rl_catalog _ _ _ _ Hrl) as Hcat.
  set (g := database_group path) in *.
  destruct (remove_file_spec path fs w r1 fs1 w1 Hcl Hu Hp (Hcat g) He) as (Hu' & Ho & Hres).
  pose proof (remove_file_frame path fs w r1 fs1 w1 Hcl Hu Hok He) as Hfr.
  fold g in Ho, Hfr, Hres. change (default ∅ (write_view w fs g)) with (view w fs g) in Hres.
  destruct r1 as [[]|e|p]; [| |done]; unfold ret in Hr; simplify_eq.
  - destruct Hres as (db & id & Hhw & Hpath & Hid & Hv).
    rewrite <-(view_writer w' fs' g db Hhw) in Hv.
    destruct (mapped_file w fs hs' v path _ Hrl Hpath) as (l & Hl & _).
    pose proof (fun q => removed_keeps (view w fs g) path id q (Hcat g) Hpath Hid) as Hkeep.
    eapply stepped_by; [by cbn; unfold spec_remove; rewrite Hl|done| |].
    + apply (related_update w w' fs fs' hs' v g); rewrite ?Hv; try done.
      * by apply wf_removed.
      * intros p Hne. rewrite lookup_delete_ne by (by intros <-). done.
      * intros p l' Hg. destruct (decide (p = path)) as [->|Hne].
        -- rewrite lookup_delete_eq. split; [done|]. intros Hat%file_at_mapped.
           rewrite lookup_removed_path in Hat. by destruct Hat.
        -- rewrite lookup_delete_ne by done. rewrite (keeps_file_at _ _ _ _ (Hkeep p Hne)), <-Hg.
           apply (rl_files _ _ _ _ Hrl).
      * intros p Hg. destruct (decide (p = path)) as [->|Hne].
        -- rewrite lookup_removed_path. by intros [].
        -- rewrite lookup_delete_ne by done. rewrite (proj1 (Hkeep p Hne)), <-Hg.
           apply (rl_mapped _ _ _ _ Hrl).
      * intros n e Hn _. apply Hkeep. by apply (Hclosed n e).
    + apply (goes_on_group w w' fs fs' g); [done..|apply Hfr|]. rewrite Hv. unfold next_id.
      rewrite next_id_removed by done. lia.
  - destruct Hres as (Hc & Hn & Hv). pose proof (unmapped w fs hs' v path Hrl Hn) as Hl.
    eapply stepped_by; [by cbn; unfold spec_remove; rewrite Hl|by cbn; rewrite Hc| |].
    + by apply (related_refused w w' fs fs' hs' v g).
    + apply (goes_on_group w w' fs fs' g); [done..|apply Hfr|].
      change (default ∅ (write_view w' fs' g)) with (view w' fs' g) in Hv. rewrite Hv. lia.
Qed.

(** A move in one group, where the source is mapped. *)
Lemma related_moved w w' (fs fs' : FS) (hs : gmap nat Handle) v source target id l :
  let g := database_group source in
  related w fs hs v -> only_group g fs fs' -> up w' ->
  clients_ok w' fs' /\ beside fs g w w' /\
    (forall db, has_writer fs g = Some db -> has_writer fs' g = Some db) ->
  may_write v g -> closed_path v source -> closed_path v target -> source <> target ->
  database_group target = g -> view w fs g !! path_key source = Some (to_be_bytes id) -> is_u64 id ->
  files v !! source = Some l -> view w' fs' g = moved (view w fs g) source target id ->
  related w' fs' hs (set_files v (<[target := l]> (delete source (files v)))).
Proof.
  intros g Hrl Ho Hu' Hfr Hmay Hcs Hct Hne Hg Hpath Hid Hl Hv.
  pose proof (rl_catalog _ _ _ _ Hrl g) as Hcat.
  pose proof (moved_keeps (view w fs g) source target id Hcat) as Hkeep.
  assert (Hlook : forall q, q <> source -> q <> target ->
    (<[target := l]> (delete source (files v)) : gmap (list byte) (list byte)) !! q = files v !! q).
  { intros q Hq1 Hq2. by rewrite lookup_insert_ne, lookup_delete_ne by done. }
  apply (related_update w w' fs fs' hs v g); rewrite ?Hv; try done.
  - by apply wf_moved.
  - intros p Hp. apply Hlook; intros ->; by apply Hp.
  - intros p l' Hp. destruct (decide (p = target)) as [->|Htp].
    { rewrite lookup_insert_eq, moved_file_at by done. unfold g. rewrite <-(rl_files _ _ _ _ Hrl source l'). by rewrite Hl. }
    destruct (decide (p = source)) as [->|Hsp].
    + rewrite lookup_insert_ne, lookup_delete_eq by done. split; [done|].
      intros Hat%file_at_mapped. rewrite moved_path, decide_False, decide_True in Hat by done.
      by destruct Hat.
    + rewrite Hlook, (keeps_file_at _ _ _ _ (Hkeep p Hsp Htp)), <-Hp by done. apply (rl_files _ _ _ _ Hrl).
  - intros p Hp. rewrite moved_path. destruct (decide (p = target)) as [->|Htp].
    { by rewrite lookup_insert_eq. }
    destruct (decide (p = source)) as [->|Hsp]; [by intros []|].
    rewrite Hlook, <-Hp by done. apply (rl_mapped _ _ _ _ Hrl).
  - intros n e Hn _. apply Hkeep; [by apply (Hcs n e)|by apply (Hct n e)].
Qed.

Lemma step_move source target w (fs : FS) (hs : gmap nat Handle) v r hs' fs' w' :
  related w fs hs v -> admissible (CmdMove source target) v ->
  run_cmd (CmdMove source target) (hs, (fs, w)) = (r, (hs', (fs', w'))) ->
  stepped (CmdMove source target) w fs v r hs' fs' w'.
Proof.
  intros Hrl (Hps & Hpt & Hne & Hcs & Hct & Hmay) Hr. cbn [run_cmd] in Hr.
  unfold on_volume, bind, on_snd in Hr. cbn [fst snd] in Hr.
  destruct (decide (database_group source = database_group target)) as [Hg|Hg]; cycle 1.
  { unfold FileSystem.move_file in Hr. rewrite bool_decide_false in Hr by done. cbn in Hr.
    simplify_eq. eapply stepped_by; [|done|done|by apply goes_on_refl].
    cbn. unfold spec_move. by rewrite bool_decide_false. }
  destruct (FileSystem.move_file source target (fs, w)) as [r1 [fs1 w1]] eqn:He.
  pose proof (rl_up _ _ _ _ Hrl) as Hu. pose proof (rl_open _ _ _ _ Hrl) as Hcl.
  pose proof (rl_clients _ _ _ _ Hrl) as Hok. pose proof (rl_catalog _ _ _ _ Hrl) as Hcat.
  set (g := database_group source) in *.
  destruct (move_file_spec source target fs w r1 fs1 w1 Hcl Hu Hps Hpt Hne Hg (Hcat g) He)
    as (Hu' & Ho & Hres).
  pose proof (move_file_frame source target fs w r1 fs1 w1 Hcl Hu Hok Hg He) as Hfr.
  fold g in Ho, Hfr, Hres. change (default ∅ (write_view w fs g)) with (view w fs g) in Hres.
  assert (Hspec : forall m, files v !! source = m -> spec_cmd (CmdMove source target) v =
    match m with
    | None => (OutObs (OError CodeFileNotFound), v)
    | Some l => (OutObs OUnit, set_files v (<[target := l]> (delete source (files v))))
    end).
  { intros m <-. cbn. unfold spec_move. fold g. rewrite bool_decide_true by done. cbn.
    by destruct (files v !! source). }
  destruct r1 as [[]|e|p]; [| |done]; unfold ret in Hr; injection Hr as <- <- <- <-.
  - destruct Hres as (db & id & Hhw & Hpath & Hid & Hv). rewrite <-(view_writer w1 fs1 g db Hhw) in Hv.
    destruct (mapped_file w fs hs v source _ Hrl Hpath) as (l & Hl & _).
    eapply stepped_by; [by rewrite (Hspec _ Hl)|done|by eapply related_moved|].
    apply (goes_on_group w w1 fs fs1 g); [done..|apply Hfr|]. rewrite Hv. unfold next_id.
    rewrite moved_next by auto. lia.
  - destruct Hres as (Hc & Hn & Hv). pose proof (unmapped w fs hs v source Hrl Hn) as Hl.
    change (default ∅ (write_view w1 fs1 g)) with (view w1 fs1 g) in Hv.
    eapply stepped_by; [by rewrite (Hspec _ Hl)|by cbn; rewrite Hc|by eapply related_refused|].
    apply (goes_on_group w w1 fs fs1 g); [done..|apply Hfr|]. rewrite Hv. lia.
Qed.

(** ** Opening *)

Lemma opened_attached w (fs : FS) path flags (client : SlateFileClient Db Reader) id meta l early :
  let g := database_group path in
  let h := opened client id meta flags in
  client_of fs g client -> view w fs g !! path_key path = Some (to_be_bytes id) -> is_u64 id ->
  file_at (view w fs g) path l -> wf_handle w h -> represents w h l ->
  match client with ReadOnly _ => early = true | _ => True end ->
  attached w fs h {| open_path := path; open_file := fresh_file l flags; open_early := early |} l.
Proof.
  intros g h Hc Hpath Hid Hat Hwf Hrep Hearly. split; try done.
  destruct Hrep as [Hlen _]. cbn in Hlen. unfold abs, fresh_file. cbn. by rewrite Hlen.
Qed.

(** The file an open for writing starts from. *)
Lemma opens_bytes w (fs : FS) (hs : gmap nat Handle) v path flags found m' :
  related w fs hs v -> Flags.write flags = true ->
  opens (view w fs (database_group path)) path (create flags) (truncate_existing flags) found m' ->
  exists l, open_bytes v path flags = Some l /\ file_at m' path l.
Proof.
  intros Hrl Hw (_ & _ & _ & _ & _ & _ & Hm). unfold open_bytes. rewrite Hw. cbn.
  destruct (view w fs (database_group path) !! path_key path) as [b|] eqn:Hp.
  - destruct (mapped_file w fs hs v path b Hrl Hp) as (l & -> & Hl).
    destruct (truncate_existing flags); [by exists []|]. rewrite Hm. by exists l.
  - rewrite (unmapped w fs hs v path Hrl Hp). destruct Hm as [-> ?]. by exists [].
Qed.

Lemma spec_open_some n path flags v l :
  open_bytes v path flags = Some l ->
  spec_cmd (CmdOpen n path flags) v =
  (OutObs OUnit,
   let v' := set_handles (set_files v (<[path := l]> (files v)))
     (<[n := {| open_path := path; open_file := fresh_file l flags;
                open_early := negb (Flags.write flags) &&
                  bool_decide (database_group path ∉ written v) |}]> (handles v)) in
   if Flags.write flags then add_written v' (database_group path) else v').
Proof. intros Hl. cbn. unfold spec_open. by rewrite Hl. Qed.

Lemma spec_open_none n path flags v :
  open_bytes v path flags = None ->
  spec_cmd (CmdOpen n path flags) v = (OutObs (OError CodeFileNotFound), v).
Proof. intros Hl. cbn. unfold spec_open. by rewrite Hl. Qed.

Lemma step_open_write n path flags w (fs : FS) (hs : gmap nat Handle) v r hs' fs' w' :
  let g := database_group path in
  related w fs hs v -> admissible (CmdOpen n path flags) v -> Flags.write flags = true ->
  next_id (view w fs g) < u64_max ->
  run_cmd (CmdOpen n path flags) (hs, (fs, w)) = (r, (hs', (fs', w'))) ->
  stepped (CmdOpen n path flags) w fs v r hs' fs' w'.
Proof.
  intros g Hrl (Hn & Hp & Hf & Hclosed & Hmay) Hw Hnext Hr. specialize (Hmay Hw). fold g in Hmay.
  cbn [run_cmd] in Hr. unfold FileSystem.open_file in Hr. unfold bind at 1, lift in Hr.
  rewrite Hf, Hw in Hr. destruct (open_write_handle path flags (fs, w)) as [r1 [fs1 w1]] eqn:He.
  pose proof (rl_up _ _ _ _ Hrl) as Hu. pose proof (rl_open _ _ _ _ Hrl) as Hcl.
  pose proof (rl_clients _ _ _ _ Hrl) as Hok. pose proof (rl_catalog _ _ _ _ Hrl g) as Hcat.
  destruct (open_write_handle_spec path flags fs w r1 fs1 w1 Hu Hcl Hf Hp Hcat He) as (Hu1 & Ho & Hres).
  pose proof (open_write_frame path flags fs w r1 fs1 w1 Hcl Hu Hok He) as Hfr.
  cbn zeta in Hres. fold g in Ho, Hfr, Hres.
  change (default ∅ (write_view w fs g)) with (view w fs g) in Hres.
  destruct r1 as [h|e|p]; [| |done]; injection Hr as <- <- <- <-.
  - destruct Hres as (db & found & Hhw & -> & Hopens & Hrep).
    destruct (opens_bytes w fs hs v path flags found _ Hrl Hw Hopens) as (l & Hl & Hat).
    rewrite <-(view_writer w1 fs1 g db Hhw) in Hopens, Hat, Hrep.
    destruct (Hrep l Hat) as [Hwf Hre].
    destruct Hopens as (Hcat' & Hid & Hpath & _ & Hkeep & Hnb & _).
    eapply stepped_by; [by rewrite (spec_open_some _ _ _ _ l Hl), Hw|done| |].
    + apply related_written; [|by exists db].
      apply (related_insert _ _ _ (set_files v _) _ _ _ l).
      2:{ by apply opened_attached. }
      2:{ intros k e' _ He'. by apply (Hclosed k e'). }
      apply (related_update w w1 fs fs1 hs v g); try done.
      * intros p Hne. rewrite lookup_insert_ne; [done|]. intros ->. by apply Hne.
      * intros p l' Hg. destruct (decide (p = path)) as [->|Hne].
        -- rewrite lookup_insert_eq. split; [by intros [= <-]|]. intros Hat'.
           by rewrite (file_at_unique _ _ _ _ Hat Hat').
        -- rewrite lookup_insert_ne, (keeps_file_at _ _ _ _ (Hkeep p Hne)), <-Hg by done.
           apply (rl_files _ _ _ _ Hrl).
      * intros p Hg. destruct (decide (p = path)) as [->|Hne]; [by rewrite lookup_insert_eq|].
        rewrite lookup_insert_ne, (proj1 (Hkeep p Hne)), <-Hg by done. apply (rl_mapped _ _ _ _ Hrl).
      * intros k e He' _. apply Hkeep. by apply (Hclosed k e).
    + apply (goes_on_group w w1 fs fs1 g); [done..|apply Hfr|done].
  - destruct Hres as ([[Hc Hcr]|(_ & _ & Hmax)] & Hnone & Hv); [|lia].
    change (default ∅ (write_view w1 fs1 g)) with (view w1 fs1 g) in Hv.
    eapply stepped_by; [|by cbn; rewrite Hc|by eapply related_refused|].
    + apply spec_open_none. unfold open_bytes. rewrite (unmapped w fs hs v path Hrl Hnone), Hcr.
      by rewrite andb_false_r.
    + apply (goes_on_group w w1 fs fs1 g); [done..|apply Hfr|]. rewrite Hv. lia.
Qed.

Lemma step_open_read n path flags w (fs : FS) (hs : gmap nat Handle) v r hs' fs' w' :
  related w fs hs v -> admissible (CmdOpen n path flags) v -> Flags.write flags = false ->
  run_cmd (CmdOpen n path flags) (hs, (fs, w)) = (r, (hs', (fs', w'))) ->
  stepped (CmdOpen n path flags) w fs v r hs' fs' w'.
Proof.
  intros Hrl (Hn & Hp & Hf & Hclosed & _) Hw Hr. set (g := database_group path).
  cbn [run_cmd] in Hr. unfold FileSystem.open_file in Hr. unfold bind at 1, lift in Hr.
  rewrite Hf, Hw in Hr. destruct (open_read_handle path flags (fs, w)) as [r1 [fs1 w1]] eqn:He.
  pose proof (rl_up _ _ _ _ Hrl) as Hu. pose proof (rl_open _ _ _ _ Hrl) as Hcl.
  pose proof (rl_clients _ _ _ _ Hrl) as Hok. pose proof (rl_catalog _ _ _ _ Hrl g) as Hcat.
  assert (Hm : default ∅ (read_view w fs (database_group path)) = view w fs g)
    by by apply read_view_view.
  destruct (open_read_handle_spec path flags fs w r1 fs1 w1) as (Hw1 & Hu1 & Ho & Hhw & Hres);
    [done..|by rewrite Hm|done|].
  destruct (open_read_frame path flags fs w r1 fs1 w1 Hcl Hu Hok He Hw1) as [Hok1 Hst].
  rewrite Hm in Hres. fold g in Ho, Hhw, Hres. specialize (Hu1 Hu).
  pose proof (related_same w w1 fs fs1 hs v g Hrl Ho Hw1 Hu1 Hok1 Hhw Hst) as Hrl1.
  pose proof (goes_on_same w w1 fs fs1 g Ho Hw1 Hhw) as Hnb.
  destruct r1 as [h|e|p]; [| |by destruct Hres]; injection Hr as <- <- <- <-.
  - destruct Hres as ([b Hpath] & Hrep & client & id & meta & Hc & Hpath' & Hid & ->).
    destruct (mapped_file w fs hs v path b Hrl Hpath) as (l & Hl & Hat). fold g in Hat.
    destruct (Hrep l Hat) as [Hwf Hre].
    assert (Hob : open_bytes v path flags = Some l) by (unfold open_bytes; by rewrite Hl, Hw).
    eapply stepped_by; [by rewrite (spec_open_some _ _ _ _ l Hob), Hw|done| |done].
    cbn zeta. assert (Hsame : set_files v (<[path := l]> (files v)) = v).
    { rewrite insert_id by done. by destruct v. }
    rewrite Hsame. apply (related_insert _ _ _ _ _ _ _ l); [done| |].
    2:{ intros k e' _ He'. by apply (Hclosed k e'). }
    rewrite <-(view_same w w1 fs fs1 g g) in Hpath', Hat by done.
    apply opened_attached; [done..|]. destruct client as [db|rd]; [done|]. cbn.
    apply bool_decide_eq_true. intros Hwr. destruct (rl_written _ _ _ _ Hrl1 g Hwr) as [db Hdb].
    destruct Hc as (cl & Hlk & Hrw & _). unfold has_writer in Hdb. rewrite Hlk in Hdb. cbn in Hdb.
    congruence.
  - destruct (Hres Hu) as [Hc Hnone].
    eapply stepped_by; [|by cbn; rewrite Hc|done|done].
    apply spec_open_none. unfold open_bytes. by rewrite (unmapped w fs hs v path Hrl Hnone), Hw.
Qed.

(** ** Open handles *)

(** The handle of a table entry. *)
Lemma handle_of w (fs : FS) (hs : gmap nat Handle) v n e :
  related w fs hs v -> handles v !! n = Some e ->
  exists h l, hs !! n = Some h /\ attached w fs h e l.
Proof.
  intros Hrl He. pose proof (rl_handles _ _ _ _ Hrl n) as Hs. rewrite He in Hs.
  destruct (hs !! n) as [h|]; [|done]. destruct Hs as [l ?]. by exists h, l.
Qed.

Lemma sync_same w (fs : FS) (hs : gmap nat Handle) v n h e l :
  related w fs hs v -> hs !! n = Some h -> handles v !! n = Some e -> attached w fs h e l ->
  clean h = true -> related w fs (<[n := h]> hs) (spec_sync e v).
Proof.
  intros Hrl Hh He Hat Hcl. rewrite insert_id by done. unfold spec_sync. rewrite insert_id; [by destruct v|].
  apply (rl_files _ _ _ _ Hrl). rewrite (at_file _ _ _ _ _ Hat). by apply (at_clean _ _ _ _ _ Hat).
Qed.

(** What a handle through a writer is for its path. *)
Lemma attached_tracks w (fs : FS) h e l db :
  clients_ok w fs -> wf_catalog (view w fs (group_of e)) -> attached w fs h e l ->
  FileHandle.client h = ReadWrite db ->
  view w fs (group_of e) = db_view w db /\ tracks (db_view w db) w db (open_path e) h l.
Proof.
  intros Hok Hcat [Hwf Hrep _ Hc _ Hp Hid Hcl] Hdb. rewrite Hdb in Hc.
  assert (Hv : view w fs (group_of e) = db_view w db) by by apply view_writer.
  rewrite Hv in Hcat, Hp, Hcl. done.
Qed.

(** A sync that writes: the batch of the handle in the database of its group. *)
Lemma sync_dirty w (fs : FS) (hs : gmap nat Handle) v n h e l db h' w' :
  let g := group_of e in
  related w fs hs v -> handles v !! n = Some e -> attached w fs h e l ->
  FileHandle.client h = ReadWrite db -> touches db w w' -> up w' ->
  tracks (db_view w db) w' db (open_path e) h' l -> clean h' = true -> abs h' l = abs h l ->
  view w' fs g = apply_batch (view w fs g) (sync_batch h) ->
  related w' fs (<[n := h']> hs) (spec_sync e v).
Proof.
  intros g Hrl He Hat Hdb Hel Hu' Htr Hclean Habs Hv.
  pose proof (rl_clients _ _ _ _ Hrl) as Hok. pose proof (rl_catalog _ _ _ _ Hrl g) as Hcat.
  pose proof (at_client _ _ _ _ _ Hat) as Hc. rewrite Hdb in Hc.
  destruct (attached_tracks w fs h e l db Hok Hcat Hat Hdb) as [Hvd _]. fold g in Hvd, Hc.
  destruct (touches_frame g fs db w w' Hok (rl_up _ _ _ _ Hrl) Hc Hel) as [Hok' Hb].
  assert (Hvd' : view w' fs g = db_view w' db) by by apply view_writer.
  destruct Htr as [Hwf' Hrep' Hdb' Hcat' Hpath' Hid' Hst' Hoth'].
  rewrite <-Hvd' in Hcat', Hpath', Hst', Hoth'. rewrite <-Hvd in Hoth'. specialize (Hst' Hclean).
  apply (related_step w w' fs fs hs (<[n := h']> hs) v (spec_sync e v) g); try done;
    unfold spec_sync; cbn [files handles written set_files].
  - apply only_group_refl.
  - intros p Hne. rewrite lookup_insert_ne; [done|]. intros <-. by apply Hne.
  - intros p l' Hp. rewrite (at_file _ _ _ _ _ Hat). cbn [abs bytes].
    destruct (decide (p = open_path e)) as [->|Hne].
    + rewrite lookup_insert_eq. split; [by intros [= <-]|]. intros Hl'.
      by rewrite (file_at_unique _ _ _ _ Hst' Hl').
    + rewrite lookup_insert_ne, Hoth', <-Hp by done. apply (rl_files _ _ _ _ Hrl).
  - intros p Hp Hs. destruct (decide (p = open_path e)) as [->|Hne]; [by rewrite lookup_insert_eq|].
    rewrite lookup_insert_ne by done. rewrite Hv, (synced_path w), <-Hp in Hs by apply Hat.
    by apply (rl_mapped _ _ _ _ Hrl).
  - intros g' Hg'. by left.
  - intros k. destruct (decide (k = n)) as [->|Hne].
    + left. rewrite lookup_insert_eq, He. exists l. split; try done.
      * by rewrite Habs, (at_file _ _ _ _ _ Hat).
      * by rewrite Hdb'.
      * by rewrite Hdb'.
    + right. rewrite lookup_insert_ne by done. split_and!; [done..|]. intros h1 e1 Hh1 He1 Hg1.
      pose proof (rl_handles _ _ _ _ Hrl k) as Hs. rewrite Hh1, He1 in Hs. destruct Hs as [l1 Hat1].
      split; [rewrite <-Hg1; apply Hat1|]. rewrite Hv.
      apply (synced_keeps w h (view w fs g) (open_path e)); [apply Hat|done|apply Hat|].
      intros Hp. by apply Hne, (rl_exclusive _ _ _ _ Hrl k n e1 e).
  - apply (rl_exclusive _ _ _ _ Hrl).
Qed.

Lemma sync_step w (fs : FS) (hs : gmap nat Handle) v n h e l r h' w' :
  related w fs hs v -> hs !! n = Some h -> handles v !! n = Some e -> attached w fs h e l ->
  sync (h, w) = (r, (h', w')) ->
  r = Ok tt /\ related w' fs (<[n := h']> hs) (spec_sync e v) /\ goes_on 1 w fs w' fs.
Proof.
  intros Hrl Hh He Hat Hr. pose proof Hat as [Hwf Hrep _ _ _ _ Hid _].
  destruct (clean h) eqn:Hclean.
  { rewrite sync_run, Hclean in Hr. simplify_eq. split_and!; [done|by eapply sync_same|by apply goes_on_refl]. }
  destruct (FileHandle.client h) as [db|rd] eqn:Hdb; cycle 1.
  { pose proof (hw_read_only _ _ Hwf) as Hro. rewrite Hdb in Hro. destruct Hro as (_ & Hp & Hd).
    exfalso. revert Hclean. unfold clean, has_pending_changes. rewrite Hp, Hd. by vm_compute. }
  pose proof (rl_clients _ _ _ _ Hrl) as Hok. pose proof (rl_up _ _ _ _ Hrl) as Hu.
  pose proof (rl_catalog _ _ _ _ Hrl (group_of e)) as Hcat.
  destruct (attached_tracks w fs h e l db Hok Hcat Hat Hdb) as [Hvd Htr].
  destruct (sync_tracks _ w db (open_path e) h l r h' w' Htr Hu Hr) as (-> & Hu' & Htr' & Hcl' & Habs).
  pose proof (sync_touches h w db Hdb Hclean) as Hel. rewrite Hr in Hel. cbn [snd] in Hel.
  destruct (sync_ok h l w _ h' w' Hwf Hrep Hr) as (_ & _ & _ & _ & _ & _ & Hview & _).
  destruct (Hview eq_refl) as [_ Hv]. specialize (Hv Hclean db Hdb).
  pose proof (at_client _ _ _ _ _ Hat) as Hc. rewrite Hdb in Hc.
  rewrite <-Hvd, <-(view_writer w' fs (group_of e) db Hc) in Hv.
  split_and!; [done|by eapply sync_dirty|].
  destruct (touches_frame (group_of e) fs db w w' Hok Hu Hc Hel) as [_ Hb].
  apply (goes_on_group w w' fs fs (group_of e)); [done|apply only_group_refl|done|].
  rewrite Hv. unfold next_id. rewrite (lookup_synced_next w) by done. lia.
Qed.

Lemma step_close n w (fs : FS) (hs : gmap nat Handle) v r hs' fs' w' :
  related w fs hs v -> is_Some (handles v !! n) ->
  run_cmd (CmdClose n) (hs, (fs, w)) = (r, (hs', (fs', w'))) ->
  stepped (CmdClose n) w fs v r hs' fs' w'.
Proof.
  intros Hrl [e He] Hr. destruct (handle_of w fs hs v n e Hrl He) as (h & l & Hh & Hat).
  cbn [run_cmd] in Hr. rewrite Hh in Hr. unfold FileHandle.close in Hr.
  destruct (sync (h, w)) as [r1 [h1 w1]] eqn:Hs.
  destruct (sync_step w fs hs v n h e l r1 h1 w1 Hrl Hh He Hat Hs) as (-> & Hrl1 & Hnb).
  cbn in Hr. injection Hr as <- <- <- <-.
  eapply stepped_by; [cbn; unfold spec_close; by rewrite He|done| |done].
  apply (related_delete _ _ _ _ n) in Hrl1. by rewrite delete_insert_eq in Hrl1.
Qed.

(** The command reads past the end of a short chunk. *)
Definition short_cmd (w : W) (hs : gmap nat Handle) (c : Cmd) : Prop :=
  match c with
  | CmdOp n o => exists h, hs !! n = Some h /\ short_op w h o
  | _ => False
  end.

(** A handle that staged something is on its file as it is now. *)
Lemma staged_handle n w (fs : FS) (hs : gmap nat Handle) v h e l h' l' w' :
  related w fs hs v -> hs !! n = Some h -> handles v !! n = Some e -> attached w fs h e l ->
  stages w h w' h' -> wf_handle w' h' -> represents w' h' l' -> up w' ->
  related w' fs (<[n := h']> hs)
    (set_handles v (<[n := {| open_path := open_path e; open_file := abs h' l';
                              open_early := open_early e |}]> (handles v))) /\
  goes_on 1 w fs w' fs.
Proof.
  intros Hrl Hh He Hat (Hw & (Hc' & Hid' & _) & Hun) Hwf' Hrep' Hu'.
  pose proof (rl_clients _ _ _ _ Hrl) as Hok. pose proof Hat as [Hwf Hrep Hfile Hc Hearly Hp Hid Hclean].
  pose proof (view_same w w' fs fs (group_of e) (group_of e) (only_group_refl _ _) Hw eq_refl) as Hv.
  split; [|by apply (goes_on_same w w' fs fs [] (only_group_refl _ _))].
  apply (related_insert _ _ _ _ _ _ _ l').
  - apply (related_same w w' fs fs hs v (group_of e));
      [done|apply only_group_refl|done|done| |done|done].
    by apply (clients_ok_equiv fs w).
  - split; cbn [open_path VolumeSpec.open_file open_early]; rewrite ?Hc', ?Hid'; try done.
    + change (group_of _) with (group_of e). by rewrite Hv.
    + intros Hcl. change (group_of _) with (group_of e). specialize (Hun Hcl). rewrite Hv.
      rewrite (same_contents_bytes w w' h h' l l') by done. apply Hclean.
      destruct Hun as (Hch & _ & Hd). unfold clean in *. by rewrite <-Hch, <-Hd.
  - intros k e' Hne He' Hpe. by apply Hne, (rl_exclusive _ _ _ _ Hrl k n e' e).
Qed.

(** An operation other than a sync stages what it changes. *)
Lemma staged_step o n w (fs : FS) (hs : gmap nat Handle) v h e l r h' w' :
  related w fs hs v -> hs !! n = Some h -> handles v !! n = Some e -> attached w fs h e l ->
  op_u64 o -> o <> OpSync -> ~ short_op w h o -> run_op o (h, w) = (r, (h', w')) ->
  obs r = Some (spec_step o (open_file e)).1 /\ goes_on 1 w fs w' fs /\
  related w' fs (<[n := h']> hs)
    (set_handles v (<[n := {| open_path := open_path e; open_file := (spec_step o (open_file e)).2;
                              open_early := open_early e |}]> (handles v))).
Proof.
  intros Hrl Hh He Hat Ho Hns Hs Hr. pose proof (rl_up _ _ _ _ Hrl) as Hu.
  destruct (step_refines o h l w r h' w' (at_wf _ _ _ _ _ Hat) (at_bytes _ _ _ _ _ Hat) Hu Ho Hs Hr)
    as (l' & Hobs & Habs & Hwf' & Hrep' & Hu' & _).
  pose proof (op_stages_all o h l w r h' w' (at_wf _ _ _ _ _ Hat) (at_bytes _ _ _ _ _ Hat) Hu Ho Hns Hs Hr)
    as Hst.
  destruct (staged_handle n w fs hs v h e l h' l' w') as [Hrl' Hgo]; [done..|].
  rewrite (at_file _ _ _ _ _ Hat), <-Habs. by split_and!.
Qed.

Lemma step_op n o w (fs : FS) (hs : gmap nat Handle) v r hs' fs' w' :
  related w fs hs v -> admissible (CmdOp n o) v -> ~ short_cmd w hs (CmdOp n o) ->
  run_cmd (CmdOp n o) (hs, (fs, w)) = (r, (hs', (fs', w'))) ->
  stepped (CmdOp n o) w fs v r hs' fs' w'.
Proof.
  intros Hrl [[e He] Ho] Hs Hr. destruct (handle_of w fs hs v n e Hrl He) as (h & l & Hh & Hat).
  cbn [run_cmd] in Hr. rewrite Hh in Hr. destruct (run_op o (h, w)) as [r1 [h1 w1]] eqn:Hrun.
  destruct (decide (o = OpSync)) as [->|Hns].
  - cbn [run_op] in Hrun. unfold bind in Hrun. destruct (sync (h, w)) as [r2 [h2 w2]] eqn:Hsy.
    destruct (sync_step w fs hs v n h e l r2 h2 w2 Hrl Hh He Hat Hsy) as (-> & Hrl1 & Hnb).
    unfold ret in Hrun. simplify_eq.
    eapply stepped_by; [|done|exact Hrl1|done].
    cbn. unfold spec_op. rewrite He. cbn. do 2 f_equal.
    destruct e. rewrite insert_id by done. by destruct v.
  - destruct (staged_step o n w fs hs v h e l r1 h1 w1) as (Hobs & Hgo & Hrl1); [done..| |done|].
    { intros Hso. apply Hs. by exists h. }
    eapply (stepped_by _ (OutObs (spec_step o (VolumeSpec.open_file e)).1)).
    + cbn. unfold spec_op. rewrite He, (surjective_pairing (spec_step o _)).
      by rewrite bool_decide_false.
    + destruct r1; cbn in Hr, Hobs; simplify_eq; cbn; congruence.
    + destruct r1; cbn in Hr; simplify_eq; exact Hrl1.
    + destruct r1; cbn in Hr; simplify_eq; exact Hgo.
Qed.
(** ** All of them *)

Lemma step_cmd c w (fs : FS) (hs : gmap nat Handle) v r hs' fs' w' :
  related w fs hs v -> admissible c v -> ~ short_cmd w hs c ->
  (forall g, next_id (view w fs g) < u64_max) ->
  run_cmd c (hs, (fs, w)) = (r, (hs', (fs', w'))) -> stepped c w fs v r hs' fs' w'.
Proof.
  intros Hrl Ha Hs Hb Hr. destruct c as [n path flags|n o|n|path|source target|path].
  - destruct (Flags.write flags) eqn:Hw; [by eapply step_open_write|by eapply step_open_read].
  - by eapply step_op.
  - by eapply step_close.
  - destruct Ha as (? & ? & ?). by eapply step_remove.
  - by eapply step_move.
  - by eapply step_exists.
Qed.

End steps.
