(* ===== verification/VolumeRefinement.v ===== *)
(** * The filesystem implements the volume

    Every program of commands, from a filesystem that was just opened on what
    its store holds, and from another one opened where the first one stopped. *)

From S2P Require Import Prelude RustStd Error Flags Keys SlateDb ChunkStore ChunkLayout.
From S2P Require Import ChunkManager ChunkManagerSpec FileMetadata FileSpec FileHandle.
From S2P Require Import FileHandleSpec FileRefinement Transactions DatabaseMetadata Locality.
From S2P Require Import DatabaseSpec DatabaseOps Cache FileSystem VolumeSpec GroupSpec.
From S2P Require Import FileSystemSpec FileSystemOps GroupFrame VolumeRun VolumeSteps.

#[local] Open Scope Z_scope.

Section refinement.
Context {W Db Txn Reader Store CacheT Recorder Metrics : Type} `{World W} `{DbReadOps W Db}
  `{!DbReadLaws W Db} `{DbReadOps W Reader} `{!DbReadLaws W Reader}
  `{DbReadOps W Txn} `{!DbReadLaws W Txn} `{SlateDb W Db Txn} `{!SlateDbLaws W Db Txn}
  `{!SlateDbLocal W Db Txn} `{Clock W} `{!ClockLaws W} `{MetadataCodec} `{!MetadataCodecLaws}
  `{SlateDbOpen W Db Reader Store CacheT Recorder} `{CacheLib CacheT}
  `{!SlateDbOpenLaws W Db Reader Store CacheT Recorder}
  `{!SlateDbApart W Db Txn Reader Store CacheT Recorder}.
#[local] Abbreviation FS := (SlateDbFileSystem Db Reader Store CacheT Recorder Metrics).
#[local] Abbreviation Handle := (SlateFileHandle Db Reader).

(** A read of a short chunk panics. *)
Lemma short_cmd_panics c w (fs : FS) (hs : gmap nat Handle) v :
  related w fs hs v -> admissible c v -> short_cmd w hs c -> out (run_cmd c (hs, (fs, w))).1 = None.
Proof.
  intros Hrl Ha Hs. destruct c as [|n o| | | |]; try done. destruct Hs as (h & Hh & Hs).
  destruct Ha as [[e He] Ho]. destruct (handle_of w fs hs v n e Hrl He) as (h' & l & Hh' & Hat).
  rewrite Hh in Hh'. injection Hh' as <-. destruct (step_panics o h w (at_wf _ _ _ _ _ Hat) (rl_up _ _ _ _ Hrl) Ho Hs)
    as (w' & _ & Hp). cbn [run_cmd]. by rewrite Hh, Hp.
Qed.

Lemma short_cmd_dec w (hs : gmap nat Handle) c : short_cmd w hs c \/ ~ short_cmd w hs c.
Proof.
  destruct c as [|n o| | | |]; cbn; try (right; by intros []). destruct (hs !! n) as [h|].
  - destruct (decide (short_op w h o)); [left; by exists h|right; intros (? & [= <-] & ?); done].
  - right. by intros (? & ? & _).
Qed.

(** What a program leaves and returns: what the volume shows, unless it stops
    at a read of a short chunk. *)
Definition ran (cs : list Cmd) (w : W) (fs : FS) (hs : gmap nat Handle) (v : Volume)
    (res : option (list Out) * (gmap nat Handle * (FS * W))) : Prop :=
  match res with
  | (Some xs, (hs', (fs', w'))) =>
      xs = (spec_cmds cs v).1 /\ related w' fs' hs' (spec_cmds cs v).2 /\
      goes_on (zlen cs) w fs w' fs'
  | (None, _) => exists cs1 c cs2 hs1 fs1 w1, cs = cs1 ++ c :: cs2 /\
      run_cmds cs1 (hs, (fs, w)) = (Some (spec_cmds cs1 v).1, (hs1, (fs1, w1))) /\ short_cmd w1 hs1 c
  end.

Lemma spec_cmds_cons c cs v :
  spec_cmds (c :: cs) v =
  ((spec_cmd c v).1 :: (spec_cmds cs (spec_cmd c v).2).1, (spec_cmds cs (spec_cmd c v).2).2).
Proof. cbn. destruct (spec_cmd c v) as [x v1]. cbn [fst snd]. by destruct (spec_cmds cs v1). Qed.

(** A command that goes through, then the rest. *)
Lemma ran_cons c cs w (fs : FS) hs v r hs1 fs1 w1 :
  run_cmd c (hs, (fs, w)) = (r, (hs1, (fs1, w1))) -> stepped c w fs v r hs1 fs1 w1 ->
  ran cs w1 fs1 hs1 (spec_cmd c v).2 (run_cmds cs (hs1, (fs1, w1))) ->
  ran (c :: cs) w fs hs v (run_cmds (c :: cs) (hs, (fs, w))).
Proof.
  intros Hr (Hout & _ & Hgo) Hran. unfold ran in *. rewrite spec_cmds_cons. cbn [run_cmds fst snd].
  rewrite Hr, Hout. destruct (run_cmds cs (hs1, (fs1, w1))) as [[xs|] [hs2 [fs2 w2]]];
    cbn [fmap option_fmap option_map].
  - destruct Hran as (-> & ? & Hgo2). split_and!; [done..|].
    pose proof (goes_on_trans _ _ _ _ _ _ _ _ Hgo Hgo2) as Hgo3.
    replace (zlen (c :: cs)) with (1 + zlen cs) by (unfold zlen; cbn; lia). done.
  - destruct Hran as (cs1 & c' & cs2 & hs3 & fs3 & w3 & -> & Hrun & Hs3).
    exists (c :: cs1), c', cs2, hs3, fs3, w3. split_and!; [done| |done].
    cbn [run_cmds]. by rewrite Hr, Hout, Hrun, spec_cmds_cons.
Qed.

Lemma run_volume cs w (fs : FS) (hs : gmap nat Handle) v :
  related w fs hs v -> admissible_run cs v ->
  (forall g, next_id (view w fs g) + zlen cs <= u64_max) ->
  ran cs w fs hs v (run_cmds cs (hs, (fs, w))).
Proof.
  revert w fs hs v. induction cs as [|c cs IH]; intros w fs hs v Hrl Ha Hb.
  { split_and!; [done..|by apply goes_on_refl]. }
  destruct Ha as [Ha Has]. pose proof (zlen_nonneg cs) as Hnn.
  assert (Hlen : zlen (c :: cs) = zlen cs + 1) by (unfold zlen; cbn; lia). rewrite Hlen in Hb.
  destruct (run_cmd c (hs, (fs, w))) as [r [hs1 [fs1 w1]]] eqn:Hr.
  destruct (short_cmd_dec w hs c) as [Hs|Hs].
  { pose proof (short_cmd_panics c w fs hs v Hrl Ha Hs) as Hp. rewrite Hr in Hp. cbn [fst] in Hp.
    cbn [run_cmds]. rewrite Hr, Hp. exists [], c, cs, hs, fs, w. by split_and!. }
  assert (Hst : stepped c w fs v r hs1 fs1 w1).
  { eapply step_cmd; [done..| |done]. intros g. specialize (Hb g). lia. }
  eapply ran_cons; [done..|]. destruct Hst as (_ & Hrl1 & [Hnb _ _]). apply IH; [done..|].
  intros g. specialize (Hb g). specialize (Hnb g). lia.
Qed.

(** A filesystem that no group was used in yet, on what its store holds. *)
Record starts (w : W) (fs : FS) (m : gmap (list byte) (list byte)) : Prop := {
  st_up : up w;
  st_open : closed fs = false;
  st_none : databases fs = ∅;
  st_catalog g : wf_catalog (default ∅ (stored_at w fs g));
  st_files p l : m !! p = Some l <-> file_at (default ∅ (stored_at w fs (database_group p))) p l;
  st_mapped p : is_Some (default ∅ (stored_at w fs (database_group p)) !! path_key p) -> is_Some (m !! p)
}.

Definition on_disk (m : gmap (list byte) (list byte)) : Volume :=
  {| files := m; handles := ∅; written := ∅ |}.

Lemma starts_view w (fs : FS) m g : starts w fs m -> view w fs g = default ∅ (stored_at w fs g).
Proof. intros []. apply view_stored. unfold has_writer. by rewrite st_none0, lookup_empty. Qed.

Lemma starts_related w (fs : FS) m : starts w fs m -> related w fs ∅ (on_disk m).
Proof.
  intros Hs. pose proof (fun g => starts_view w fs m g Hs) as Hv.
  destruct Hs as [Hu Hcl Hn Hcat Hf Hm]. split; try done.
  - split.
    + intros g db. unfold has_writer. by rewrite Hn, lookup_empty.
    + intros g rd (cl & Hlk & _). by rewrite Hn, lookup_empty in Hlk.
  - intros g. by rewrite Hv.
  - intros p l. by rewrite Hv.
  - intros p. rewrite Hv. apply Hm.
Qed.

(** ** Stopping and starting again *)

(** What the operations see is what is durable. *)
Lemma view_durable w (fs : FS) g : clients_ok w fs -> view w fs g = default ∅ (stored_at w fs g).
Proof.
  intros Hok. destruct (has_writer fs g) as [db|] eqn:Hw; [|by apply view_stored].
  rewrite (view_writer w fs g db Hw). destruct (co_writer w fs Hok g db Hw) as [Hh Hs].
  unfold settled in Hs. rewrite Hh in Hs. unfold stored_at. cbn in Hs. by rewrite Hs.
Qed.

(** A filesystem on the same databases as [fs] that was not used yet. *)
Record reopens (fs fs' : FS) : Prop := {
  ro_store : object_store fs' = object_store fs;
  ro_path : database_path fs' = database_path fs;
  ro_open : closed fs' = false;
  ro_none : databases fs' = ∅
}.

Lemma reopens_stored w (fs fs' : FS) g : reopens fs fs' -> stored_at w fs' g = stored_at w fs g.
Proof. intros [Hs Hp _ _]. unfold stored_at, slatedb_path. by rewrite Hs, Hp. Qed.

Lemma related_reopens w (fs fs' : FS) hs v : related w fs hs v -> reopens fs fs' -> starts w fs' (files v).
Proof.
  intros Hrl Hre. pose proof (rl_clients _ _ _ _ Hrl) as Hok.
  assert (Hv : forall g, default ∅ (stored_at w fs' g) = view w fs g).
  { intros g. rewrite (reopens_stored w fs fs' g Hre). symmetry. by apply view_durable. }
  split; [apply Hrl|apply Hre|apply Hre| | |].
  - intros g. rewrite Hv. apply (rl_catalog _ _ _ _ Hrl).
  - intros p l. rewrite Hv. apply (rl_files _ _ _ _ Hrl).
  - intros p. rewrite Hv. apply (rl_mapped _ _ _ _ Hrl).
Qed.

Lemma reopens_after k w w' (fs fs' fs'' : FS) :
  goes_on k w fs w' fs' -> reopens fs fs'' -> reopens fs' fs''.
Proof. intros [_ Hs Hp] [? ? ? ?]. split; congruence. Qed.
End refinement.
