(* ===== verification/VolumeProps.v ===== *)
(** * The contract of the filesystem

    From a filesystem that was just opened, every admissible program of opens,
    operations on handles, closes, removals, moves and lookups shows what the
    volume of VolumeSpec.v shows. *)

From S2P Require Import Prelude RustStd Error Flags Keys SlateDb MemDb ChunkStore ChunkManager.
From S2P Require Import FileMetadata FileSpec FileHandle FileHandleSpec FileProps Transactions.
From S2P Require Import DatabaseMetadata Locality DatabaseSpec DatabaseProps Cache FileSystem.
From S2P Require Import VolumeSpec.
From S2P Require Import FileSystemSpec FileSystemOps GroupFrame MemFs FileSystemProps VolumeRun.
From S2P Require Import VolumeRefinement.

#[local] Open Scope string_scope.
#[local] Open Scope list_scope.
#[local] Open Scope Z_scope.

Section props.
Context {W Db Txn Reader Store CacheT Recorder Metrics : Type} `{World W} `{DbReadOps W Db}
  `{!DbReadLaws W Db} `{DbReadOps W Reader} `{!DbReadLaws W Reader}
  `{DbReadOps W Txn} `{!DbReadLaws W Txn} `{SlateDb W Db Txn} `{!SlateDbLaws W Db Txn}
  `{!SlateDbLocal W Db Txn} `{Clock W} `{!ClockLaws W} `{MetadataCodec} `{!MetadataCodecLaws}
  `{SlateDbOpen W Db Reader Store CacheT Recorder} `{CacheLib CacheT}
  `{!SlateDbOpenLaws W Db Reader Store CacheT Recorder}
  `{!SlateDbApart W Db Txn Reader Store CacheT Recorder}.
#[local] Abbreviation FS := (SlateDbFileSystem Db Reader Store CacheT Recorder Metrics).

(** C1: the filesystem is a volume. A program that opens files, works on several
    handles at once, closes, removes, moves and looks up paths, in any number
    of databases, gets from every command exactly the answer the abstract
    volume gives, errors included, and at the end each path of the databases
    holds the bytes the volume has there and each open handle shows its file; the
    program stops early only at a read that starts past the end of a short
    chunk.  The store answers, at most 2^64 - 1 file IDs are given out, and a
    path has one handle at a time. *)
Theorem filesystem_refines_volume (cs : list Cmd) (w : W) (fs : FS)
    (m : gmap (list byte) (list byte)) :
  starts w fs m -> admissible_run cs (on_disk m) ->
  (forall g, next_id (default ∅ (stored_at w fs g)) + zlen cs <= u64_max) ->
  match run_cmds cs (∅, (fs, w)) with
  | (Some xs, (hs', (fs', w'))) =>
      xs = (spec_cmds cs (on_disk m)).1 /\
      let v' := (spec_cmds cs (on_disk m)).2 in
      (forall p l, files v' !! p = Some l <-> file_at (view w' fs' (database_group p)) p l) /\
      (forall n, slot w' fs' (hs' !! n) (handles v' !! n))
  | (None, _) =>
      exists cs1 n o cs2 hs1 fs1 w1 h, cs = cs1 ++ CmdOp n o :: cs2 /\
      run_cmds cs1 (∅, (fs, w)) = (Some (spec_cmds cs1 (on_disk m)).1, (hs1, (fs1, w1))) /\
      hs1 !! n = Some h /\ short_op w1 h o
  end.
Proof.
  intros Hs Ha Hb. pose proof (starts_related w fs m Hs) as Hrl.
  pose proof (run_volume cs w fs ∅ (on_disk m) Hrl Ha) as Hran.
  specialize (Hran ltac:(intros g; rewrite (starts_view w fs m g Hs); apply Hb)).
  destruct (run_cmds cs (∅, (fs, w))) as [[xs|] [hs' [fs' w']]].
  - destruct Hran as (-> & [_ _ _ _ Hf _ _ Hh _] & _). done.
  - destruct Hran as (cs1 & c & cs2 & hs1 & fs1 & w1 & -> & Hrun & Hsh).
    destruct c as [|n o| | | |]; [by destruct Hsh| |by destruct Hsh..].
    destruct Hsh as (h & Hh & Hsh). by exists cs1, n, o, cs2, hs1, fs1, w1, h.
Qed.

(** C2: what is synced survives a crash, and nothing else does. When the process
    dies after any admissible program, its handles lost and its writers never
    closed, a filesystem opened on the same databases is again the volume, with
    every file as it was last synced: a further program gets the answers of the
    volume that has the synced bytes and no handle. *)
Theorem synced_files_survive_a_crash (cs : list Cmd) (w : W) (fs : FS)
    (m : gmap (list byte) (list byte)) xs hs' (fs' : FS) (w' : W) (fs2 : FS) (cs2 : list Cmd) :
  starts w fs m -> admissible_run cs (on_disk m) ->
  (forall g, next_id (default ∅ (stored_at w fs g)) + zlen cs + zlen cs2 <= u64_max) ->
  run_cmds cs (∅, (fs, w)) = (Some xs, (hs', (fs', w'))) -> reopens fs fs2 ->
  let synced := files (spec_cmds cs (on_disk m)).2 in
  admissible_run cs2 (on_disk synced) ->
  starts w' fs2 synced /\ ran cs2 w' fs2 ∅ (on_disk synced) (run_cmds cs2 (∅, (fs2, w'))).
Proof.
  intros Hs Ha Hb Hrun Hre synced Ha2. pose proof (zlen_nonneg cs2) as Hnn.
  pose proof (run_volume cs w fs ∅ (on_disk m) (starts_related w fs m Hs) Ha) as Hran.
  rewrite Hrun in Hran. destruct Hran as (_ & Hrl & Hgo).
  { intros g. rewrite (starts_view w fs m g Hs). specialize (Hb g). lia. }
  pose proof (reopens_after _ w w' fs fs' fs2 Hgo Hre) as Hre'.
  pose proof (related_reopens w' fs' fs2 hs' _ Hrl Hre') as Hs2. split; [done|].
  apply run_volume; [by apply starts_related|done|]. intros g.
  rewrite (starts_view w' fs2 _ g Hs2), (reopens_stored w' fs' fs2 g Hre').
  rewrite <-(view_durable w' fs' g) by apply Hrl. destruct Hgo as [Hnext _ _]. specialize (Hnext g).
  rewrite (starts_view w fs m g Hs) in Hnext. specialize (Hb g). lia.
Qed.
End props.

(** ** At a concrete input *)

Lemma ex_starts : starts ex_file_world ex_fs ∅.
Proof.
  split; [apply ex_file_up|done|done| | |].
  - intros g. apply wf_catalog_empty.
  - intros p l. split; [by rewrite lookup_empty|]. intros Hat. apply file_at_mapped in Hat. by destruct Hat.
  - intros p. by intros [].
Qed.

(** Two databases: a file and its log, renamed while a file of another
    database is open, and a file that is removed. *)
Definition ex_program : list Cmd :=
  let x := bytes_of "x.db" in
  let wal := bytes_of "x.db.wal" in
  let y := bytes_of "y.db" in
  [ CmdExists x; CmdOpen 0 x open_or_create; CmdOp 0 (OpWrite (bytes_of "hello"));
    CmdOpen 1 y open_or_create; CmdOp 1 (OpWrite (bytes_of "other")); CmdOp 0 OpSync;
    CmdOp 0 (OpPwrite (bytes_of "j") 0); CmdClose 0; CmdMove x wal; CmdMove wal (bytes_of "z.db"); CmdExists x;
    CmdOpen 2 wal read_only; CmdOp 2 (OpRead 9); CmdOp 2 (OpTruncate 1); CmdClose 2;
    CmdRemove wal; CmdOpen 3 wal read_only; CmdOp 1 (OpPread 9 0) ].

Definition ex_answers : list Out :=
  [ OutBool false; OutObs OUnit; OutObs (ONum 5); OutObs OUnit; OutObs (ONum 5); OutObs OUnit;
    OutObs OUnit; OutObs OUnit; OutObs OUnit; OutObs (OError CodeInvalidArgument); OutBool false;
    OutObs OUnit; OutObs (OBytes (bytes_of "jello")); OutObs (OError CodeReadOnlyViolation); OutObs OUnit;
    OutObs OUnit; OutObs (OError CodeFileNotFound); OutObs (OBytes (bytes_of "other")) ].

Lemma ex_program_admissible : admissible_run ex_program (on_disk ∅).
Proof. apply (bool_decide_unpack _). by vm_compute. Qed.

Lemma ex_program_runs : is_Some (run_cmds ex_program (∅, (ex_fs, ex_file_world))).1.
Proof. vm_compute. by eexists. Qed.

Lemma filesystem_refines_volume_witness :
  exists s, run_cmds ex_program (∅, (ex_fs, ex_file_world)) = (Some ex_answers, s).
Proof.
  pose proof (filesystem_refines_volume ex_program ex_file_world ex_fs ∅ ex_starts
    ex_program_admissible ltac:(intros g; by vm_compute)) as Hran.
  pose proof ex_program_runs as Hok.
  destruct (run_cmds ex_program (∅, (ex_fs, ex_file_world))) as [[xs|] [hs' [fs' w']]];
    [|by destruct Hok].
  destruct Hran as [-> _]. exists (hs', (fs', w')). by vm_compute.
Defined.

(** The process dies with bytes staged in one file and synced in the other. *)
Definition ex_crash : list Cmd :=
  [ CmdOpen 0 (bytes_of "x.db") open_or_create; CmdOp 0 (OpWrite (bytes_of "kept")); CmdOp 0 OpSync;
    CmdOp 0 (OpWrite (bytes_of " lost")); CmdOpen 1 (bytes_of "y.db") open_or_create;
    CmdOp 1 (OpWrite (bytes_of "lost")) ].
Definition ex_after : list Cmd :=
  [ CmdOpen 0 (bytes_of "x.db") read_only; CmdOp 0 (OpRead 9); CmdOpen 1 (bytes_of "y.db") read_only;
    CmdOp 1 OpSize ].
Definition ex_after_answers : list Out :=
  [ OutObs OUnit; OutObs (OBytes (bytes_of "kept")); OutObs OUnit; OutObs (ONum 0) ].
Definition ex_crashed : MemWorld := (run_cmds ex_crash (∅, (ex_fs, ex_file_world))).2.2.2.

Lemma ex_after_admissible : admissible_run ex_after (on_disk (files (spec_cmds ex_crash (on_disk ∅)).2)).
Proof. apply (bool_decide_unpack _). by vm_compute. Qed.

Lemma synced_files_survive_a_crash_witness :
  exists s, run_cmds ex_after (∅, (ex_fs, ex_crashed)) = (Some ex_after_answers, s).
Proof.
  assert (Ha : admissible_run ex_crash (on_disk ∅)) by (apply (bool_decide_unpack _); by vm_compute).
  assert (Hok : is_Some (run_cmds ex_crash (∅, (ex_fs, ex_file_world))).1) by (vm_compute; by eexists).
  assert (Hok2 : is_Some (run_cmds ex_after (∅, (ex_fs, ex_crashed))).1) by (vm_compute; by eexists).
  unfold ex_crashed in *.
  destruct (run_cmds ex_crash (∅, (ex_fs, ex_file_world))) as [r [hs' [fs' w']]] eqn:Hrun.
  destruct Hok as [xs Hxs]. cbn [fst snd] in *. subst r.
  destruct (synced_files_survive_a_crash ex_crash ex_file_world ex_fs ∅ xs hs' fs' w' ex_fs ex_after
    ex_starts Ha ltac:(intros g; by vm_compute) Hrun ltac:(by split) ex_after_admissible) as [_ Hran].
  destruct (run_cmds ex_after (∅, (ex_fs, w'))) as [[ys|] s]; [|by destruct Hok2].
  destruct s as [hs2 [fs2 w2]]. destruct Hran as [-> _]. exists (hs2, (fs2, w2)). by vm_compute.
Defined.
