(* ===== verification/IoMetrics.v ===== *)
(** * I/O statistics (rust/src/io_metrics.rs)

    Counts, bytes and latencies per kind of request.  The mean and the squared
    deviations are kept by Welford's recurrence over [f64].  The operations
    are written over any arithmetic [F]: the code's is [f64], IEEE 754 binary64
    as the standard library's [SpecFloat] specifies it; in exact arithmetic
    (any field) the recurrence is the textbook mean and variance. *)

From Stdlib Require Import Field Qcanon.
From Stdlib Require SpecFloat.
From S2P Require Import Prelude.

#[local] Open Scope string_scope.
#[local] Open Scope Z_scope.

(** ** Arithmetic *)

Class FloatArith (F : Type) := {
  f_zero : F;
  f_add : F -> F -> F;
  f_sub : F -> F -> F;
  f_mul : F -> F -> F;
  f_div : F -> F -> F;
  (** [n as f64]. *)
  f_of_u64 : Z -> F
}.

Class FloatConv (F : Type) := {
  f_sqrt : F -> F;
  f_max : F -> F -> F;
  (** The nanoseconds nearest to a number of seconds, ties to even; [None] if
      it is negative, not a number, or out of range. *)
  f_nanos : F -> option Z
}.

Definition f64 : Type := SpecFloat.spec_float.

#[global] Instance f64_arith : FloatArith f64 := {|
    f_zero := SpecFloat.S754_zero false;
    f_add := SpecFloat.SFadd 53 1024;
    f_sub := SpecFloat.SFsub 53 1024;
    f_mul := SpecFloat.SFmul 53 1024;
    f_div := SpecFloat.SFdiv 53 1024;
    f_of_u64 n := SpecFloat.binary_normalize 53 1024 n 0 false
  |}.

(** [num * 2^e] rounded to an integer, ties to even. *)
Definition round_half_even (num e : Z) : Z :=
  if 0 <=? e then num * 2 ^ e
  else
    let d := 2 ^ (- e) in
    let q := num / d in
    match 2 * (num mod d) ?= d with
    | Lt => q
    | Gt => q + 1
    | Eq => if Z.even q then q else q + 1
    end.

Definition NANOS_PER_SEC : Z := 1000000000.

#[global] Instance f64_conv : FloatConv f64 := {|
    f_sqrt := SpecFloat.SFsqrt 53 1024;
    f_max x y :=
      match SpecFloat.SFcompare x y with
      | Some Lt => y
      | Some _ => x
      | None => match x with SpecFloat.S754_nan => y | _ => x end
      end;
    f_nanos x :=
      match x with
      | SpecFloat.S754_zero _ => Some 0
      | SpecFloat.S754_finite false m e =>
          let n := round_half_even (Z.pos m * NANOS_PER_SEC) e in
          if n <? 2 ^ 64 * NANOS_PER_SEC then Some n else None
      | _ => None
      end
  |}.

(** ** [std::time::Duration] *)

Record Duration := { secs : Z; nanos : Z }.
Definition duration_of_nanos (n : Z) : Duration :=
  {| secs := n / NANOS_PER_SEC; nanos := n mod NANOS_PER_SEC |}.

Definition as_secs_f64 {F} `{FloatArith F} (d : Duration) : F :=
  f_add (f_of_u64 (secs d)) (f_div (f_of_u64 (nanos d)) (f_of_u64 NANOS_PER_SEC)).
Definition from_secs_f64 {E F} `{FloatConv F} (x : F) : res E Duration :=
  match f_nanos x with
  | Some n => Ok (duration_of_nanos n)
  | None => Panic "cannot convert float seconds to Duration"
  end.

(** ** Running statistics *)

Record IoOperationStats := {
  request_count : Z;
  stats_bytes : Z;
  average_latency : Duration;
  stddev_latency : Duration
}.

Record IoStats := {
  stats_read : IoOperationStats;
  stats_write : IoOperationStats;
  stats_stat : IoOperationStats;
  stats_delete : IoOperationStats;
  stats_list : IoOperationStats
}.

Record RunningStats (F : Type) := {
  count : Z;
  bytes : Z;
  mean : F;
  squared_deviation_sum : F
}.
Arguments count {F}.
Arguments bytes {F}.
Arguments mean {F}.
Arguments squared_deviation_sum {F}.

Section stats.
Context {F : Type} `{FloatArith F}.

Definition default_stats : RunningStats F :=
  {| count := 0; bytes := 0; mean := f_zero; squared_deviation_sum := f_zero |}.

(** The counters wrap in release builds. *)
Definition record (self : RunningStats F) (duration : Duration) (n : Z) : RunningStats F :=
  let latency := as_secs_f64 duration in
  let count := wrap64 (count self + 1) in
  let bytes := wrap64 (bytes self + n) in
  let delta := f_sub latency (mean self) in
  let mean := f_add (mean self) (f_div delta (f_of_u64 count)) in
  let delta_after_mean_update := f_sub latency mean in
  {| count := count; bytes := bytes; mean := mean;
     squared_deviation_sum :=
     f_add (squared_deviation_sum self) (f_mul delta delta_after_mean_update) |}.

Definition snapshot_stats {E} `{FloatConv F} (self : RunningStats F) : res E IoOperationStats :=
  let variance :=
    if count self =? 0 then f_zero
    else f_max (f_div (squared_deviation_sum self) (f_of_u64 (count self))) f_zero in
  let? average := from_secs_f64 (mean self) in
  let? stddev := from_secs_f64 (f_sqrt variance) in
  Ok {| request_count := count self; stats_bytes := bytes self;
        average_latency := average; stddev_latency := stddev |}.
End stats.

(** ** The metrics of a filesystem *)

(** [std::sync::Mutex]: poisoned when a thread panicked with the lock held. *)
Record Mutex (A : Type) := { contents : A; poisoned : bool }.
Arguments contents {A}.
Arguments poisoned {A}.

(** The contents, poisoned or not. *)
Definition lock_or_recover {A} (mutex : Mutex A) : A := contents mutex.

Record IoMetrics (F : Type) := {
  read : Mutex (RunningStats F);
  write : Mutex (RunningStats F);
  stat : Mutex (RunningStats F);
  delete : Mutex (RunningStats F);
  list_ : Mutex (RunningStats F)
}.
Arguments read {F}.
Arguments write {F}.
Arguments stat {F}.
Arguments delete {F}.
Arguments list_ {F}.

Section metrics.
Context {F : Type} `{FloatArith F}.

Definition new_mutex {A} (a : A) : Mutex A := {| contents := a; poisoned := false |}.
Definition default_metrics : IoMetrics F :=
  {| read := new_mutex default_stats; write := new_mutex default_stats;
     stat := new_mutex default_stats; delete := new_mutex default_stats;
     list_ := new_mutex default_stats |}.

(** An update under the lock. *)
Definition recorded_in (m : Mutex (RunningStats F)) (duration : Duration) (n : Z)
    : Mutex (RunningStats F) :=
  {| contents := record (lock_or_recover m) duration n; poisoned := poisoned m |}.

Definition record_read (self : IoMetrics F) (duration : Duration) (n : Z) : IoMetrics F :=
  {| read := recorded_in (read self) duration n; write := write self; stat := stat self;
     delete := delete self; list_ := list_ self |}.
Definition record_write (self : IoMetrics F) (duration : Duration) (n : Z) : IoMetrics F :=
  {| read := read self; write := recorded_in (write self) duration n; stat := stat self;
     delete := delete self; list_ := list_ self |}.
Definition record_stat (self : IoMetrics F) (duration : Duration) : IoMetrics F :=
  {| read := read self; write := write self; stat := recorded_in (stat self) duration 0;
     delete := delete self; list_ := list_ self |}.
Definition record_delete (self : IoMetrics F) (duration : Duration) : IoMetrics F :=
  {| read := read self; write := write self; stat := stat self;
     delete := recorded_in (delete self) duration 0; list_ := list_ self |}.
Definition record_list (self : IoMetrics F) (duration : Duration) : IoMetrics F :=
  {| read := read self; write := write self; stat := stat self; delete := delete self;
     list_ := recorded_in (list_ self) duration 0 |}.

(** [IoMetrics::snapshot], which [SlateDbFileSystem::io_stats] returns. *)
Definition snapshot {E} `{FloatConv F} (self : IoMetrics F) : res E IoStats :=
  let? r := snapshot_stats (lock_or_recover (read self)) in
  let? w := snapshot_stats (lock_or_recover (write self)) in
  let? s := snapshot_stats (lock_or_recover (stat self)) in
  let? d := snapshot_stats (lock_or_recover (delete self)) in
  let? l := snapshot_stats (lock_or_recover (list_ self)) in
  Ok {| stats_read := r; stats_write := w; stats_stat := s; stats_delete := d; stats_list := l |}.
End metrics.
