(* ===== verification/IoMetricsProps.v ===== *)
(** * Properties of the I/O statistics

    In exact arithmetic the running statistics are the mean and the variance
    of the recorded latencies; in binary64 the crate's own example comes out
    as its test says. *)

From Stdlib Require Import Field Qcanon.
From Stdlib Require SpecFloat.
From S2P Require Import Prelude IoMetrics.

#[local] Open Scope Z_scope.

(** Arithmetic without rounding: a field that contains the natural numbers. *)
Class ExactArith (F : Type) `{FloatArith F} := {
  f_one : F;
  f_opp : F -> F;
  f_inv : F -> F;
  exact_field : field_theory f_zero f_one f_add f_mul f_sub f_opp f_div f_inv eq;
  f_of_u64_0 : f_of_u64 0 = f_zero;
  f_of_u64_succ n : 0 <= n -> f_of_u64 (n + 1) = f_add (f_of_u64 n) f_one;
  f_of_u64_pos n : 0 < n -> f_of_u64 n <> f_zero
}.

Section exact.
Context {F : Type} `{ExactArith F}.
Add Field exact_arith : exact_field.

Definition f_sum (l : list F) : F := foldr f_add f_zero l.
Definition latencies (l : list (Duration * Z)) : list F := (fun p => as_secs_f64 p.1) <$> l.

(** The definitions of mean and sum of squared deviations. *)
Definition true_mean (l : list F) : F := f_div (f_sum l) (f_of_u64 (zlen l)).
Definition square (x : F) : F := f_mul x x.
Definition true_deviations (l : list F) : F :=
  f_sum ((fun x => square (f_sub x (true_mean l))) <$> l).

Definition record_all (l : list (Duration * Z)) (s : RunningStats F) : RunningStats F :=
  foldl (fun s p => record s p.1 p.2) s l.

Lemma f_sum_app l1 l2 : f_sum (l1 ++ l2) = f_add (f_sum l1) (f_sum l2).
Proof.
  induction l1 as [|x l1 IH]; simpl; [ring|]. rewrite IH. ring.
Qed.

Lemma zlen_snoc {A} (l : list A) x : zlen (l ++ [x]) = zlen l + 1.
Proof. unfold zlen. rewrite length_app. simpl. lia. Qed.

(** The sum of squared deviations from any point. *)
Lemma sum_deviations l c :
  f_sum ((fun x => square (f_sub x c)) <$> l) =
  f_add (f_sub (f_sum (square <$> l)) (f_mul (f_mul (f_add f_one f_one) c) (f_sum l)))
    (f_mul (f_of_u64 (zlen l)) (square c)).
Proof.
  induction l as [|x l IH].
  - change (zlen []) with 0. rewrite f_of_u64_0. simpl. unfold square. ring.
  - rewrite !fmap_cons. simpl f_sum. rewrite IH.
    replace (zlen (x :: l)) with (zlen l + 1) by (unfold zlen; simpl; lia).
    rewrite f_of_u64_succ by apply zlen_nonneg. unfold square. ring.
Qed.

Lemma true_deviations_sums l :
  l <> [] ->
  true_deviations l =
  f_sub (f_sum (square <$> l)) (f_div (square (f_sum l)) (f_of_u64 (zlen l))).
Proof.
  intros Hl. unfold true_deviations. rewrite sum_deviations. unfold true_mean, square.
  assert (f_of_u64 (zlen l) <> f_zero).
  { apply f_of_u64_pos. destruct l; [done|]. unfold zlen. simpl. lia. }
  field. done.
Qed.

(** What the recurrence keeps, as sums. *)
Definition welford (l : list F) (s : RunningStats F) : Prop :=
  f_mul (f_of_u64 (zlen l)) (mean s) = f_sum l /\
  f_mul (f_of_u64 (zlen l)) (squared_deviation_sum s) =
  f_sub (f_mul (f_of_u64 (zlen l)) (f_sum (square <$> l))) (square (f_sum l)).

Lemma mul_cancel (a b c : F) : a <> f_zero -> f_mul a b = c -> b = f_div c a.
Proof. intros Ha <-. field. done. Qed.

Lemma record_all_snoc l p s : record_all (l ++ [p]) s = record (record_all l s) p.1 p.2.
Proof. unfold record_all. by rewrite foldl_app. Qed.

Lemma record_all_counts l :
  count (record_all l default_stats) = wrap64 (zlen l) /\
  bytes (record_all l default_stats) = wrap64 (foldr Z.add 0 l.*2).
Proof.
  induction l as [|p l [IHc IHb]] using rev_ind; [done|].
  rewrite record_all_snoc. cbn [record count bytes]. rewrite IHc, IHb. unfold wrap64.
  rewrite !Zplus_mod_idemp_l. split; [by rewrite zlen_snoc|]. f_equal.
  rewrite fmap_app, foldr_app. cbn [fmap list_fmap foldr].
  generalize (l.*2). clear. intros zs. induction zs as [|z zs IH]; cbn [foldr]; lia.
Qed.

Lemma record_all_welford l :
  zlen l < 2 ^ 64 ->
  mean (record_all l default_stats) =
  (if bool_decide (l = []) then f_zero else true_mean (latencies l)) /\
  squared_deviation_sum (record_all l default_stats) =
  (if bool_decide (l = []) then f_zero else true_deviations (latencies l)).
Proof.
  induction l as [|p l IH] using rev_ind; intros Hlen; [done|].
  rewrite zlen_snoc in Hlen. pose proof (zlen_nonneg l) as Hn0.
  destruct (IH ltac:(lia)) as [IHm IHs]. rewrite bool_decide_false by (by destruct l).
  rewrite record_all_snoc. cbn [record mean squared_deviation_sum].
  destruct (record_all_counts l) as [-> _].
  replace (wrap64 (wrap64 (zlen l) + 1)) with (zlen l + 1).
  2:{ unfold wrap64. rewrite Zplus_mod_idemp_l. by rewrite Z.mod_small by lia. }
  set (x := as_secs_f64 p.1). set (ls := latencies l) in *.
  assert (Hls : latencies (l ++ [p]) = ls ++ [x]) by (unfold latencies; by rewrite fmap_app).
  assert (Hzl : zlen ls = zlen l) by (unfold zlen, ls, latencies; by rewrite length_fmap).
  assert (Hn1 : f_of_u64 (zlen l + 1) <> f_zero) by (apply f_of_u64_pos; lia).
  rewrite f_of_u64_succ in Hn1 by done. rewrite Hls, true_deviations_sums by (by destruct ls).
  unfold true_mean. rewrite zlen_snoc, Hzl, f_of_u64_succ by done.
  rewrite fmap_app, !f_sum_app. simpl f_sum.
  case_bool_decide as Hl.
  - subst l. change (zlen []) with 0 in *. rewrite f_of_u64_0 in *. subst ls.
    rewrite IHm, IHs. cbn. unfold square. split; field; apply (Field_theory.F_1_neq_0 exact_field).
  - assert (Hn : f_of_u64 (zlen l) <> f_zero).
    { apply f_of_u64_pos. destruct l; [done|]. unfold zlen. simpl. lia. }
    rewrite IHm, IHs, true_deviations_sums by (intros Heq; apply (f_equal zlen) in Heq;
      rewrite Hzl in Heq; by destruct l).
    unfold true_mean, square. rewrite Hzl. split; field; by split.
Qed.

(** C37: the one-pass statistics are the two-pass ones.  In exact arithmetic,
    after any sequence of fewer than 2^64 recorded requests, the mean is the
    sum of the latencies divided by their number and the squared deviation sum
    is the sum of the squared distances to that mean; count and bytes are
    those of the requests, modulo 2^64. *)
Theorem statistics_are_exact (l : list (Duration * Z)) :
  l <> [] -> zlen l < 2 ^ 64 ->
  let s := record_all l default_stats in
  count s = zlen l /\
  bytes s = wrap64 (foldr Z.add 0 l.*2) /\
  mean s = true_mean (latencies l) /\
  squared_deviation_sum s = true_deviations (latencies l).
Proof.
  intros Hl Hlen. pose proof (zlen_nonneg l). cbn zeta.
  destruct (record_all_counts l) as [-> ->], (record_all_welford l Hlen) as [-> ->].
  rewrite bool_decide_false by done. split_and!; [by apply Z.mod_small|done..].
Qed.
End exact.

(** ** Rational arithmetic is exact *)

#[global] Instance qc_arith : FloatArith Qc := {|
    f_zero := 0%Qc; f_add := Qcplus; f_sub := Qcminus; f_mul := Qcmult; f_div := Qcdiv;
    f_of_u64 n := Q2Qc (QArith_base.inject_Z n)
  |}.
#[global] Program Instance qc_exact : ExactArith Qc := {|
    f_one := 1%Qc; f_opp := Qcopp; f_inv := Qcinv; exact_field := Qcft
  |}.
Next Obligation. by apply Qc_is_canon. Qed.
Next Obligation.
  intros n _. apply Qc_is_canon. simpl. rewrite !Qreduction.Qred_correct.
  rewrite QArith_base.inject_Z_plus. done.
Qed.
Next Obligation.
  intros n Hn Heq. apply (f_equal this) in Heq. simpl in Heq.
  pose proof (Qreduction.Qred_correct (QArith_base.inject_Z n)) as Hq. rewrite Heq in Hq.
  unfold QArith_base.Qeq in Hq. simpl in Hq. lia.
Qed.

(** ** At concrete inputs: the crate's own test *)

Definition ex_requests : list (Duration * Z) :=
  [({| secs := 1; nanos := 0 |}, 5); ({| secs := 3; nanos := 0 |}, 7)].

Lemma statistics_are_exact_witness :
  mean (F:=Qc) (record_all ex_requests default_stats) = true_mean (latencies ex_requests) /\
  true_mean (latencies (F:=Qc) ex_requests) = Q2Qc (QArith_base.inject_Z 2).
Proof.
  split; [apply (statistics_are_exact (F:=Qc) ex_requests); done|by apply Qc_is_canon].
Defined.

(** In binary64: two requests of one and three seconds. *)
Example calculates_population_average_and_standard_deviation :
  snapshot_stats (E:=Empty_set) (F:=f64) (record_all (F:=f64) ex_requests default_stats) =
    Ok {| request_count := 2; stats_bytes := 12;
          average_latency := {| secs := 2; nanos := 0 |};
          stddev_latency := {| secs := 1; nanos := 0 |} |}.
Proof. by vm_compute. Qed.
