(* ===== verification/IoLayer.v ===== *)
(** * The metrics layer of OpenDAL (rust/src/opendal_io_metrics_layer.rs)

    The layer wraps a service, and the readers, writers, deleters and listers
    it hands out, forwards every call, and records each request once, when it
    ends: at its last call or when the wrapper is dropped.  The wrapped objects
    are OpenDAL's, parameters; [W] is the world they act on, and the shared
    metrics ([Arc<IoMetrics>]) are threaded beside it. *)

From S2P Require Import Prelude IoMetrics.

#[local] Open Scope Z_scope.

(** The parts of OpenDAL's service traits that the layer measures; [Args] stands
    for the path and the options of a call.  [Instant]s
    are nanoseconds of a clock the calls do not turn back. *)
Class OpendalService (W OpErr Service Args Reader Stream Writer Deleter Lister Meta Entry : Type) := {
  instant_now : W -> Z;
  inner_stat : Service -> Args -> M OpErr W Meta;
  inner_read : Service -> Args -> M OpErr W Reader;
  inner_write : Service -> Args -> M OpErr W Writer;
  inner_delete : Service -> M OpErr W Deleter;
  inner_list : Service -> Args -> M OpErr W Lister;
  reader_open : Reader -> Args -> M OpErr W (Meta * Stream);
  reader_read : Reader -> Args -> M OpErr W (Meta * list byte);
  stream_read : M OpErr (Stream * W) (list byte);
  writer_write : list byte -> M OpErr (Writer * W) unit;
  writer_copy_from : Args -> M OpErr (Writer * W) unit;
  writer_close : M OpErr (Writer * W) Meta;
  writer_abort : M OpErr (Writer * W) unit;
  deleter_delete : Args -> M OpErr (Deleter * W) unit;
  deleter_close : M OpErr (Deleter * W) unit;
  lister_next : M OpErr (Lister * W) (option Entry)
}.

(** The calls of a service that the layer hands on as they are; a call on two
    paths takes its options with the second. *)
Class OpendalForwarded (W OpErr Service Args Info Cap Meta Copier Composer : Type) := {
  inner_info : Service -> Info;
  inner_capability : Service -> Cap;
  inner_create_dir : Service -> Args -> M OpErr W Meta;
  inner_copy : Service -> Args -> Args -> M OpErr W Copier;
  inner_compose : Service -> Args -> M OpErr W Composer;
  inner_rename : Service -> Args -> Args -> M OpErr W Meta;
  inner_restore : Service -> Args -> M OpErr W Meta;
  inner_presign : Service -> Args -> M OpErr W Meta
}.

Record IoMetricsService (Service : Type) := { service_inner : Service }.
Arguments service_inner {Service}.
Record IoMetricsReader (Reader : Type) := { reader_inner : Reader }.
Arguments reader_inner {Reader}.
Record IoMetricsReadStream (Stream : Type) := {
  stream_inner : Stream; stream_start : Z; stream_bytes : Z; stream_recorded : bool
}.
Arguments stream_inner {Stream}.
Arguments stream_start {Stream}.
Arguments stream_bytes {Stream}.
Arguments stream_recorded {Stream}.
Record IoMetricsWriter (Writer : Type) := {
  writer_inner : Writer; writer_start : Z; writer_bytes : Z; writer_recorded : bool
}.
Arguments writer_inner {Writer}.
Arguments writer_start {Writer}.
Arguments writer_bytes {Writer}.
Arguments writer_recorded {Writer}.
Record IoMetricsDeleter (Deleter : Type) := {
  deleter_inner : Deleter; deleter_start : Z; deleter_recorded : bool
}.
Arguments deleter_inner {Deleter}.
Arguments deleter_start {Deleter}.
Arguments deleter_recorded {Deleter}.
Record IoMetricsLister (Lister : Type) := {
  lister_inner : Lister; lister_start : Z; lister_recorded : bool
}.
Arguments lister_inner {Lister}.
Arguments lister_start {Lister}.
Arguments lister_recorded {Lister}.

Section layer.
Context {F : Type} `{FloatArith F}.
Context {W OpErr Service Args Reader Stream Writer Deleter Lister Meta Entry : Type}.
Context `{HO : OpendalService W OpErr Service Args Reader Stream Writer Deleter Lister Meta Entry}.

(** The state of a call on the service: the shared metrics and the world. *)
#[local] Abbreviation MW := (IoMetrics F * W)%type.

(** [start.elapsed()]; [Instant]s do not run backwards. *)
Definition elapsed (start : Z) (w : W) : Duration :=
  duration_of_nanos (saturating_sub (instant_now w) start).

(** A call on the inner object, and the instant before it. *)
Definition timed {A} (m : M OpErr W A) (f : Z -> res OpErr A -> W -> IoMetrics F -> IoMetrics F)
    : M OpErr MW A :=
  fun '(metrics, w) =>
    let start := instant_now w in
    let '(r, w') := m w in
    (r, (f start r w' metrics, w')).

(** ** The service *)

Definition service_stat (self : IoMetricsService Service) (args : Args) : M OpErr MW Meta :=
  timed (inner_stat (service_inner self) args)
    (fun start r w metrics =>
      if is_panic r then metrics else record_stat metrics (elapsed start w)).

(** A call that opens a wrapper: only a failure is recorded. *)
Definition opening {A B} (m : M OpErr W A) (wrap : A -> Z -> B)
    (record : IoMetrics F -> Duration -> IoMetrics F) : M OpErr MW B :=
  fun '(metrics, w) =>
    let start := instant_now w in
    match m w with
    | (Ok inner, w') => (Ok (wrap inner start), (metrics, w'))
    | (Err error, w') => (Err error, (record metrics (elapsed start w'), w'))
    | (Panic p, w') => (Panic p, (metrics, w'))
    end.

Definition service_read (self : IoMetricsService Service) (args : Args)
    : M OpErr MW (IoMetricsReader Reader) :=
  opening (inner_read (service_inner self) args)
    (fun inner _ => {| reader_inner := inner |}) (fun metrics d => record_read metrics d 0).

Definition service_write (self : IoMetricsService Service) (args : Args)
    : M OpErr MW (IoMetricsWriter Writer) :=
  opening (inner_write (service_inner self) args)
    (fun inner start => {| writer_inner := inner; writer_start := start; writer_bytes := 0;
                           writer_recorded := false |})
    (fun metrics d => record_write metrics d 0).

Definition service_delete (self : IoMetricsService Service) : M OpErr MW (IoMetricsDeleter Deleter) :=
  opening (inner_delete (service_inner self))
    (fun inner start => {| deleter_inner := inner; deleter_start := start;
                           deleter_recorded := false |}) record_delete.

Definition service_list (self : IoMetricsService Service) (args : Args)
    : M OpErr MW (IoMetricsLister Lister) :=
  opening (inner_list (service_inner self) args)
    (fun inner start => {| lister_inner := inner; lister_start := start;
                           lister_recorded := false |}) record_list.

(** [apply_service]; the [Arc] of the metrics is the state of the calls. *)
Definition apply_service (inner : Service) : IoMetricsService Service := {| service_inner := inner |}.

(** *** The calls that are forwarded *)

Section forwarded.
Context {Info Cap Copier Composer : Type}.
Context `{HF : OpendalForwarded W OpErr Service Args Info Cap Meta Copier Composer}.

Definition info (self : IoMetricsService Service) : Info := inner_info (service_inner self).
Definition capability (self : IoMetricsService Service) : Cap := inner_capability (service_inner self).
Definition create_dir (self : IoMetricsService Service) (args : Args) : M OpErr MW Meta :=
  on_snd (inner_create_dir (service_inner self) args).
Definition copy (self : IoMetricsService Service) (source target : Args) : M OpErr MW Copier :=
  on_snd (inner_copy (service_inner self) source target).
Definition compose (self : IoMetricsService Service) (to : Args) : M OpErr MW Composer :=
  on_snd (inner_compose (service_inner self) to).
Definition rename (self : IoMetricsService Service) (source target : Args) : M OpErr MW Meta :=
  on_snd (inner_rename (service_inner self) source target).
Definition restore (self : IoMetricsService Service) (path : Args) : M OpErr MW Meta :=
  on_snd (inner_restore (service_inner self) path).
Definition presign (self : IoMetricsService Service) (path : Args) : M OpErr MW Meta :=
  on_snd (inner_presign (service_inner self) path).
End forwarded.

(** ** Readers *)

Definition open (self : IoMetricsReader Reader) (range : Args)
    : M OpErr MW (Meta * IoMetricsReadStream Stream) :=
  opening (reader_open (reader_inner self) range)
    (fun '(response, stream) start =>
      (response, {| stream_inner := stream; stream_start := start; stream_bytes := 0;
                    stream_recorded := false |}))
    (fun metrics d => record_read metrics d 0).

Definition read_range (self : IoMetricsReader Reader) (range : Args)
    : M OpErr MW (Meta * list byte) :=
  timed (reader_read (reader_inner self) range)
    (fun start r w metrics =>
      match r with
      | Ok (_, buffer) => record_read metrics (elapsed start w) (zlen buffer)
      | Err _ => record_read metrics (elapsed start w) 0
      | Panic _ => metrics
      end).

(** ** Streams: the state is the wrapper, the metrics and the world *)

#[local] Abbreviation S A := (A * MW)%type.

Definition stream_record_once : S (IoMetricsReadStream Stream) -> S (IoMetricsReadStream Stream) :=
  fun '(self, (metrics, w)) =>
    if stream_recorded self then (self, (metrics, w))
    else ({| stream_inner := stream_inner self; stream_start := stream_start self;
             stream_bytes := stream_bytes self; stream_recorded := true |},
          (record_read metrics (elapsed (stream_start self) w) (stream_bytes self), w)).

Definition set_stream_inner (self : IoMetricsReadStream Stream) (inner : Stream) :=
  {| stream_inner := inner; stream_start := stream_start self;
     stream_bytes := stream_bytes self; stream_recorded := stream_recorded self |}.

Definition stream_next : M OpErr (S (IoMetricsReadStream Stream)) (list byte) :=
  fun '(self, (metrics, w)) =>
    let '(result, (inner, w)) := stream_read (stream_inner self, w) in
    let self := set_stream_inner self inner in
    let s :=
      match result with
      | Ok ((_ :: _) as buffer) =>
          ({| stream_inner := inner; stream_start := stream_start self;
              stream_bytes := wrap64 (stream_bytes self + zlen buffer);
              stream_recorded := stream_recorded self |}, (metrics, w))
      | Ok [] | Err _ => stream_record_once (self, (metrics, w))
      | Panic _ => (self, (metrics, w))
      end in
    (result, s).

(** ** Writers *)

Definition set_writer_inner (self : IoMetricsWriter Writer) (inner : Writer) :=
  {| writer_inner := inner; writer_start := writer_start self;
     writer_bytes := writer_bytes self; writer_recorded := writer_recorded self |}.

Definition writer_record_once : S (IoMetricsWriter Writer) -> S (IoMetricsWriter Writer) :=
  fun '(self, (metrics, w)) =>
    if writer_recorded self then (self, (metrics, w))
    else ({| writer_inner := writer_inner self; writer_start := writer_start self;
             writer_bytes := writer_bytes self; writer_recorded := true |},
          (record_write metrics (elapsed (writer_start self) w) (writer_bytes self), w)).

(** A call on the inner writer. *)
Definition on_writer {A} (m : M OpErr (Writer * W) A) : M OpErr (S (IoMetricsWriter Writer)) A :=
  fun '(self, (metrics, w)) =>
    let '(r, (inner, w)) := m (writer_inner self, w) in
    (r, (set_writer_inner self inner, (metrics, w))).

(** A call that ends the request when it returns. *)
Definition ending {A T} (m : M OpErr T A) (record_once : T -> T) : M OpErr T A :=
  fun s =>
    match m s with
    | (Panic p, s) => (Panic p, s)
    | (r, s) => (r, record_once s)
    end.

Definition write (buffer : list byte) : M OpErr (S (IoMetricsWriter Writer)) unit :=
  let len := zlen buffer in
  let! _ := on_writer (writer_write buffer) in
  on_fst (modify (fun self =>
    {| writer_inner := writer_inner self; writer_start := writer_start self;
       writer_bytes := wrap64 (writer_bytes self + len);
       writer_recorded := writer_recorded self |})).
Definition copy_from (args : Args) : M OpErr (S (IoMetricsWriter Writer)) unit :=
  on_writer (writer_copy_from args).
Definition close : M OpErr (S (IoMetricsWriter Writer)) Meta :=
  ending (on_writer writer_close) writer_record_once.
Definition abort : M OpErr (S (IoMetricsWriter Writer)) unit :=
  ending (on_writer writer_abort) writer_record_once.

(** ** Deleters *)

Definition deleter_record_once : S (IoMetricsDeleter Deleter) -> S (IoMetricsDeleter Deleter) :=
  fun '(self, (metrics, w)) =>
    if deleter_recorded self then (self, (metrics, w))
    else ({| deleter_inner := deleter_inner self; deleter_start := deleter_start self;
             deleter_recorded := true |},
          (record_delete metrics (elapsed (deleter_start self) w), w)).

Definition on_deleter {A} (m : M OpErr (Deleter * W) A) : M OpErr (S (IoMetricsDeleter Deleter)) A :=
  fun '(self, (metrics, w)) =>
    let '(r, (inner, w)) := m (deleter_inner self, w) in
    (r, ({| deleter_inner := inner; deleter_start := deleter_start self;
            deleter_recorded := deleter_recorded self |}, (metrics, w))).

Definition delete (args : Args) : M OpErr (S (IoMetricsDeleter Deleter)) unit :=
  on_deleter (deleter_delete args).
Definition close_deleter : M OpErr (S (IoMetricsDeleter Deleter)) unit :=
  ending (on_deleter deleter_close) deleter_record_once.

(** ** Listers *)

Definition lister_record_once : S (IoMetricsLister Lister) -> S (IoMetricsLister Lister) :=
  fun '(self, (metrics, w)) =>
    if lister_recorded self then (self, (metrics, w))
    else ({| lister_inner := lister_inner self; lister_start := lister_start self;
             lister_recorded := true |},
          (record_list metrics (elapsed (lister_start self) w), w)).

Definition next : M OpErr (S (IoMetricsLister Lister)) (option Entry) :=
  fun '(self, (metrics, w)) =>
    let '(result, (inner, w)) := lister_next (lister_inner self, w) in
    let self := {| lister_inner := inner; lister_start := lister_start self;
                   lister_recorded := lister_recorded self |} in
    let s := match result with
             | Ok (Some _) | Panic _ => (self, (metrics, w))
             | _ => lister_record_once (self, (metrics, w))
             end in
    (result, s).
End layer.
