(* ===== verification/IoLayerProps.v ===== *)
(** * Properties of the metrics layer

    Every request is recorded exactly once, whatever calls are made, fail or
    panic before the wrapper is dropped, and the caller sees what the wrapped
    object returns.  The argument is the same for the four wrappers: it is made
    once, in Section [once], over what a call gains and whether it ends the
    request. *)

From S2P Require Import Prelude IoMetrics IoLayer.

#[local] Open Scope Z_scope.

(** Run calls in order; a panic ends the sequence. *)
Fixpoint run_calls {E T O A} (run : O -> M E T A) (os : list O) (s : T) : list (res E A) * T :=
  match os with
  | [] => ([], s)
  | o :: os =>
      let '(r, s) := run o s in
      if is_panic r then ([r], s)
      else let '(rs, s) := run_calls run os s in (r :: rs, s)
  end.

(** The world in which the first call that ends a request returns, or the last
    call if none does. *)
Fixpoint end_world {E I W O A} (run : O -> M E (I * W) A) (gain : O -> res E A -> option Z)
    (os : list O) (s : I * W) : W :=
  match os with
  | [] => s.2
  | o :: os =>
      let '(r, s) := run o s in
      match gain o r with
      | Some _ => if is_panic r then s.2 else end_world run gain os s
      | None => s.2
      end
  end.

(** The bytes gained by calls until one ends the request: [gain o r] is what
    call [o] gained when it returned [r], [None] if that ended the request. *)
Fixpoint gained {E O A} (gain : O -> res E A -> option Z) (os : list O) (rs : list (res E A)) : Z :=
  match os, rs with
  | o :: os, r :: rs =>
      match gain o r with
      | Some g => g + gained gain os rs
      | None => 0
      end
  | _, _ => 0
  end.

Section once.
Context {F : Type} {E T I W O A : Type}.
(** A wrapper [T] over the shared metrics, the wrapped object [I] and the
    world [W]; when a request began, the time it took by a world, how it is
    recorded; its calls and their inner calls. *)
Context (recorded : T -> bool) (bytes : T -> Z) (began : T -> Z) (took : Z -> W -> Duration).
Context (rec : IoMetrics F -> Duration -> Z -> IoMetrics F).
Context (inner : T -> I) (run : O -> M E (T * (IoMetrics F * W)) A) (run_inner : O -> M E (I * W) A).
Context (gain : O -> res E A -> option Z).
Context (record_once : T * (IoMetrics F * W) -> T * (IoMetrics F * W)).

Record once_laws : Prop := {
  once_call o self m w r self' m' w' :
  run o (self, (m, w)) = (r, (self', (m', w'))) ->
  run_inner o (inner self, w) = (r, (inner self', w')) /\
  (recorded self = true -> recorded self' = true /\ m' = m) /\
  (recorded self = false -> is_u64 (bytes self) -> began self' = began self /\
     match gain o r with
     | Some g => recorded self' = false /\ m' = m /\ bytes self' = wrap64 (bytes self + g)
     | None => recorded self' = true /\ m' = rec m (took (began self) w') (bytes self)
     end);
  once_drop self m w :
  (recorded self = true -> (record_once (self, (m, w))).2.1 = m) /\
  (recorded self = false ->
     (record_once (self, (m, w))).2.1 = rec m (took (began self) w) (bytes self))
}.

Context (Hlaws : once_laws).

(** After its end a request is not recorded again. *)
Lemma run_ended os self m w rs self' m' w' :
  recorded self = true -> run_calls run os (self, (m, w)) = (rs, (self', (m', w'))) ->
  recorded self' = true /\ m' = m /\ run_calls run_inner os (inner self, w) = (rs, (inner self', w')).
Proof.
  revert self m w rs. induction os as [|o os IH]; intros self m w rs Hrec Hr; cbn in *.
  { by simplify_eq. }
  destruct (run o (self, (m, w))) as [r [self1 [m1 w1]]] eqn:Ho.
  destruct (once_call Hlaws _ _ _ _ _ _ _ _ Ho) as (-> & Hend & _).
  destruct (Hend Hrec) as [Hrec1 ->]. destruct (is_panic r); [by simplify_eq|].
  destruct (run_calls run os (self1, (m, w1))) as [rs1 [self2 [m2 w2]]] eqn:Hrun. simplify_eq.
  destruct (IH _ _ _ _ Hrec1 Hrun) as (? & ? & ->). done.
Qed.

Lemma run_open os self m w rs self' m' w' total :
  recorded self = false -> bytes self = wrap64 total ->
  run_calls run os (self, (m, w)) = (rs, (self', (m', w'))) ->
  run_calls run_inner os (inner self, w) = (rs, (inner self', w')) /\
  let w_end := end_world run_inner gain os (inner self, w) in
  if recorded self' then m' = rec m (took (began self) w_end) (wrap64 (total + gained gain os rs))
  else m' = m /\ bytes self' = wrap64 (total + gained gain os rs) /\ w' = w_end /\
    began self' = began self.
Proof.
  revert self w rs total. induction os as [|o os IH]; intros self w rs total Hrec Hb Hr; cbn in *.
  { simplify_eq. by rewrite Hrec, Z.add_0_r. }
  destruct (run o (self, (m, w))) as [r [self1 [m1 w1]]] eqn:Ho.
  destruct (once_call Hlaws _ _ _ _ _ _ _ _ Ho) as (-> & _ & Hopen).
  assert (Hu : is_u64 (bytes self)) by (rewrite Hb; apply Z.mod_pos_bound; lia).
  destruct (Hopen Hrec Hu) as [Hbegan Hgain]. clear Hopen.
  destruct (gain o r) as [g|] eqn:Hg.
  - destruct Hgain as (Hrec1 & -> & Hb1). rewrite Hb in Hb1. unfold wrap64 in Hb1 at 2.
    unfold wrap64 in Hb1. rewrite Zplus_mod_idemp_l in Hb1.
    destruct (is_panic r) eqn:Hp.
    { simplify_eq. cbn. rewrite Hg, Hrec1. split_and!; [done|done| |done|done].
      rewrite Hb1. destruct os; by rewrite Z.add_0_r. }
    destruct (run_calls run os (self1, (m, w1))) as [rs1 [self2 [m2 w2]]] eqn:Hrun. simplify_eq.
    destruct (IH self1 w1 rs1 (total + g) Hrec1 Hb1 Hrun) as [-> Hres].
    cbn. rewrite Hg. split; [done|]. by rewrite <-Z.add_assoc, Hbegan in Hres.
  - destruct Hgain as [Hrec1 ->]. destruct (is_panic r) eqn:Hp.
    { simplify_eq. cbn. by rewrite Hg, Hrec1, Z.add_0_r, <-Hb. }
    destruct (run_calls run os (self1, (_, w1))) as [rs1 [self2 [m2 w2]]] eqn:Hrun. simplify_eq.
    apply run_ended in Hrun as (Hrec2 & -> & ->); [|done].
    cbn. by rewrite Hg, Hrec2, Z.add_0_r, <-Hb.
Qed.

(** The calls of a fresh wrapper, and its drop: one record, of the time the
    request took and the bytes gained before its end, and the outcomes of the
    wrapped object. *)
Lemma recorded_once os self m w rs self' m' w' :
  recorded self = false -> bytes self = 0 ->
  run_calls run os (self, (m, w)) = (rs, (self', (m', w'))) ->
  run_calls run_inner os (inner self, w) = (rs, (inner self', w')) /\
  (record_once (self', (m', w'))).2.1 =
    rec m (took (began self) (end_world run_inner gain os (inner self, w))) (wrap64 (gained gain os rs)).
Proof.
  intros Hrec Hb Hr. destruct (run_open os self m w rs self' m' w' 0 Hrec Hb Hr) as [Hin Hres].
  change (0 + gained gain os rs) with (gained gain os rs) in Hres. cbn zeta in Hres.
  split; [done|]. destruct (once_drop Hlaws self' m' w') as [Hd1 Hd2].
  destruct (recorded self').
  - by rewrite Hd1.
  - destruct Hres as (-> & <- & <- & <-). by apply Hd2.
Qed.
End once.

(** A reader hands out a stream, or the bytes themselves. *)
Inductive ReadResult (Meta S : Type) :=
  | AStream (meta : Meta) (stream : S)
  | SomeBytes (meta : Meta) (buffer : list byte).
Arguments AStream {Meta S}.
Arguments SomeBytes {Meta S}.

(** ** The four wrappers *)

Section layer.
Context {F : Type} `{FloatArith F}.
Context {W OpErr Service Args Reader Stream Writer Deleter Lister Meta Entry : Type}.
Context `{HO : OpendalService W OpErr Service Args Reader Stream Writer Deleter Lister Meta Entry}.
#[local] Abbreviation MW := (IoMetrics F * W)%type.

(** A stream gains the buffers it delivers; an empty one or an error ends it. *)
Definition stream_gain (_ : unit) (r : res OpErr (list byte)) : option Z :=
  match r with
  | Ok [] | Err _ => None
  | Ok buffer => Some (zlen buffer)
  | Panic _ => Some 0
  end.

(** Each law is a case analysis on the outcome of the inner call and on
    whether the request has been recorded. *)
Ltac once_tac :=
  cbn in *; simplify_eq; cbn in *; rewrite ?Z.add_0_r, ?wrap64_small by done;
  split_and!; intros; try done; eauto.

Lemma stream_once :
  once_laws (F:=F) (W:=W) (O:=unit) stream_recorded stream_bytes stream_start elapsed record_read stream_inner
  (fun _ => stream_next) (fun _ => stream_read) stream_gain stream_record_once.
Proof.
  split.
  - intros [] self m w r self' m' w' Hr. unfold stream_next, stream_record_once in Hr.
    destruct (stream_read (stream_inner self, w)) as [r1 [inner w1]]. cbn in Hr.
    destruct r1 as [[|b l]|e|p]; cbn in Hr; destruct (stream_recorded self) eqn:Hrec;
      once_tac; by rewrite ?Z.add_0_r, ?wrap64_small.
  - intros self m w. unfold stream_record_once. destruct (stream_recorded self); once_tac.
Qed.

(** The calls of a writer. *)
Inductive WriterOp :=
  | WWrite (buffer : list byte)
  | WCopyFrom (args : Args)
  | WClose
  | WAbort.

Definition run_writer (o : WriterOp) : M OpErr (IoMetricsWriter Writer * MW) unit :=
  match o with
  | WWrite buffer => write buffer
  | WCopyFrom args => copy_from args
  | WClose => let! _ := close in ret tt
  | WAbort => abort
  end.
Definition run_inner_writer (o : WriterOp) : M OpErr (Writer * W) unit :=
  match o with
  | WWrite buffer => writer_write buffer
  | WCopyFrom args => writer_copy_from args
  | WClose => let! _ := writer_close in ret tt
  | WAbort => writer_abort
  end.

(** A writer gains the buffers it wrote; a close or abort that returns ends it. *)
Definition writer_gain (o : WriterOp) (r : res OpErr unit) : option Z :=
  match o, r with
  | WWrite buffer, Ok _ => Some (zlen buffer)
  | (WClose | WAbort), (Ok _ | Err _) => None
  | _, _ => Some 0
  end.

Lemma writer_once :
  once_laws (F:=F) (W:=W) writer_recorded writer_bytes writer_start elapsed record_write writer_inner
  run_writer run_inner_writer writer_gain writer_record_once.
Proof.
  split.
  - intros [buffer|args| |] self m w r self' m' w' Hr; cbn in Hr |- *.
    + unfold write, bind, on_writer, on_fst, modify in Hr.
      destruct (writer_write buffer (writer_inner self, w)) as [[[]|e|p] [inner w1]]; once_tac;
        by rewrite ?Z.add_0_r, ?wrap64_small.
    + unfold copy_from, on_writer in Hr.
      destruct (writer_copy_from args (writer_inner self, w)) as [[[]|e|p] [inner w1]]; once_tac;
        by rewrite ?Z.add_0_r, ?wrap64_small.
    + unfold bind, ret, close, ending, on_writer, writer_record_once in Hr |- *.
      destruct (writer_close (writer_inner self, w)) as [[v|e|p] [inner w1]]; cbn in Hr;
        destruct (writer_recorded self) eqn:Hrec; once_tac; by rewrite ?Z.add_0_r, ?wrap64_small.
    + unfold abort, ending, on_writer, writer_record_once in Hr.
      destruct (writer_abort (writer_inner self, w)) as [[v|e|p] [inner w1]]; cbn in Hr;
        destruct (writer_recorded self) eqn:Hrec; once_tac; by rewrite ?Z.add_0_r, ?wrap64_small.
  - intros self m w. unfold writer_record_once. destruct (writer_recorded self); once_tac.
Qed.

(** The calls of a deleter; a delete carries no bytes. *)
Definition run_deleter (o : option Args) : M OpErr (IoMetricsDeleter Deleter * MW) unit :=
  match o with Some args => delete args | None => close_deleter end.
Definition run_inner_deleter (o : option Args) : M OpErr (Deleter * W) unit :=
  match o with Some args => deleter_delete args | None => deleter_close end.
Definition deleter_gain (o : option Args) (r : res OpErr unit) : option Z :=
  match o, r with None, (Ok _ | Err _) => None | _, _ => Some 0 end.

Lemma deleter_once :
  once_laws (F:=F) (W:=W) deleter_recorded (fun _ => 0) deleter_start elapsed (fun m d _ => record_delete m d)
  deleter_inner run_deleter run_inner_deleter deleter_gain deleter_record_once.
Proof.
  split.
  - intros [args|] self m w r self' m' w' Hr; cbn in Hr |- *.
    + unfold delete, on_deleter in Hr.
      destruct (deleter_delete args (deleter_inner self, w)) as [[[]|e|p] [inner w1]]; once_tac.
    + unfold close_deleter, ending, on_deleter, deleter_record_once in Hr.
      destruct (deleter_close (deleter_inner self, w)) as [[v|e|p] [inner w1]]; cbn in Hr;
        destruct (deleter_recorded self) eqn:Hrec; once_tac.
  - intros self m w. unfold deleter_record_once. destruct (deleter_recorded self); once_tac.
Qed.

Definition lister_gain (_ : unit) (r : res OpErr (option Entry)) : option Z :=
  match r with Ok (Some _) | Panic _ => Some 0 | _ => None end.

Lemma lister_once :
  once_laws (F:=F) (W:=W) (O:=unit) lister_recorded (fun _ => 0) lister_start elapsed (fun m d _ => record_list m d)
  lister_inner (fun _ => next) (fun _ => lister_next) lister_gain lister_record_once.
Proof.
  split.
  - intros [] self m w r self' m' w' Hr. unfold next, lister_record_once in Hr.
    destruct (lister_next (lister_inner self, w)) as [[[v|]|e|p] [inner w1]]; cbn in Hr;
      destruct (lister_recorded self) eqn:Hrec; once_tac.
  - intros self m w. unfold lister_record_once. destruct (lister_recorded self); once_tac.
Qed.

(** *** The calls of the service itself *)

Section service.
Context {Info Cap Copier Composer : Type}.
Context `{HF : OpendalForwarded W OpErr Service Args Info Cap Meta Copier Composer}.

Inductive ServiceOp :=
  | Stat (args : Args)
  | Read (args : Args)
  | Write (args : Args)
  | Delete
  | List (args : Args)
  | CreateDir (args : Args)
  | Copy (source target : Args)
  | Compose (target : Args)
  | Rename (source target : Args)
  | Restore (args : Args)
  | Presign (args : Args).

(** What a call hands out, and the same without the wrapper. *)
Inductive Served :=
  | AMeta (meta : Meta)
  | AReader (r : Reader)
  | AWriter (r : Writer)
  | ADeleter (r : Deleter)
  | ALister (r : Lister)
  | ACopier (r : Copier)
  | AComposer (r : Composer).
Inductive Wrapped :=
  | Plain (x : Served)
  | WrappedReader (r : IoMetricsReader Reader)
  | WrappedWriter (r : IoMetricsWriter Writer)
  | WrappedDeleter (r : IoMetricsDeleter Deleter)
  | WrappedLister (r : IoMetricsLister Lister).
Definition bare (x : Wrapped) : Served :=
  match x with
  | Plain x => x
  | WrappedReader r => AReader (reader_inner r)
  | WrappedWriter r => AWriter (writer_inner r)
  | WrappedDeleter r => ADeleter (deleter_inner r)
  | WrappedLister r => ALister (lister_inner r)
  end.

(** A wrapper whose request began at [start] and is not recorded. *)
Definition fresh_stream (start : Z) (s : IoMetricsReadStream Stream) : Prop :=
  stream_start s = start /\ stream_bytes s = 0 /\ stream_recorded s = false.
Definition fresh_writer (start : Z) (s : IoMetricsWriter Writer) : Prop :=
  writer_start s = start /\ writer_bytes s = 0 /\ writer_recorded s = false.
Definition fresh_deleter (start : Z) (s : IoMetricsDeleter Deleter) : Prop :=
  deleter_start s = start /\ deleter_recorded s = false.
Definition fresh_lister (start : Z) (s : IoMetricsLister Lister) : Prop :=
  lister_start s = start /\ lister_recorded s = false.
Definition fresh (start : Z) (x : Wrapped) : Prop :=
  match x with
  | Plain _ | WrappedReader _ => True
  | WrappedWriter r => fresh_writer start r
  | WrappedDeleter r => fresh_deleter start r
  | WrappedLister r => fresh_lister start r
  end.

Definition run_service (o : ServiceOp) (self : IoMetricsService Service) : M OpErr MW Wrapped :=
  match o with
  | Stat args => let! r := service_stat self args in ret (Plain (AMeta r))
  | Read args => let! r := service_read self args in ret (WrappedReader r)
  | Write args => let! r := service_write self args in ret (WrappedWriter r)
  | Delete => let! r := service_delete self in ret (WrappedDeleter r)
  | List args => let! r := service_list self args in ret (WrappedLister r)
  | CreateDir args => let! r := create_dir self args in ret (Plain (AMeta r))
  | Copy source target => let! r := copy self source target in ret (Plain (ACopier r))
  | Compose target => let! r := compose self target in ret (Plain (AComposer r))
  | Rename source target => let! r := rename self source target in ret (Plain (AMeta r))
  | Restore args => let! r := restore self args in ret (Plain (AMeta r))
  | Presign args => let! r := presign self args in ret (Plain (AMeta r))
  end.

Definition run_inner_service (o : ServiceOp) (self : Service) : M OpErr W Served :=
  match o with
  | Stat args => let! r := inner_stat self args in ret (AMeta r)
  | Read args => let! r := inner_read self args in ret (AReader r)
  | Write args => let! r := inner_write self args in ret (AWriter r)
  | Delete => let! r := inner_delete self in ret (ADeleter r)
  | List args => let! r := inner_list self args in ret (ALister r)
  | CreateDir args => let! r := inner_create_dir self args in ret (AMeta r)
  | Copy source target => let! r := inner_copy self source target in ret (ACopier r)
  | Compose target => let! r := inner_compose self target in ret (AComposer r)
  | Rename source target => let! r := inner_rename self source target in ret (AMeta r)
  | Restore args => let! r := inner_restore self args in ret (AMeta r)
  | Presign args => let! r := inner_presign self args in ret (AMeta r)
  end.

(** How a call on the service is recorded: a [stat] always, the opening of a
    wrapper when it fails, the others never. *)
Definition record_of (o : ServiceOp) (r : res OpErr Wrapped)
    : option (IoMetrics F -> Duration -> IoMetrics F) :=
  match o, r with
  | Stat _, (Ok _ | Err _) => Some record_stat
  | Read _, Err _ => Some (fun m d => record_read m d 0)
  | Write _, Err _ => Some (fun m d => record_write m d 0)
  | Delete, Err _ => Some record_delete
  | List _, Err _ => Some record_list
  | _, _ => None
  end.

(** A call on the layered service has the outcome of the service. *)
Lemma service_call_recorded o self (m : IoMetrics F) (w : W) r m' w' :
  run_service o self (m, w) = (r, (m', w')) ->
  run_inner_service o (service_inner self) w = (res_bind r (fun x => Ok (bare x)), w') /\
  (forall x, r = Ok x -> fresh (instant_now w) x) /\
  m' = match record_of o r with Some rec => rec m (elapsed (instant_now w) w') | None => m end.
Proof.
  intros Hr. destruct o; cbn [run_service run_inner_service record_of] in *;
    unfold service_stat, timed, service_read, service_write, service_delete, service_list, opening,
      create_dir, copy, compose, rename, restore, presign in *; unfold bind, ret, on_snd in *;
    cbn [fst snd] in *; repeat (case_match; simplify_eq/=); split_and!; try done;
    intros ? [= <-]; done.
Qed.
End service.

(** *** The calls of a reader *)

Inductive ReaderOp :=
  | OpenRange (range : Args)
  | ReadRange (range : Args).

Definition run_reader (o : ReaderOp) (self : IoMetricsReader Reader)
    : M OpErr MW (ReadResult Meta (IoMetricsReadStream Stream)) :=
  match o with
  | OpenRange range => let! (meta, s) := open self range in ret (AStream meta s)
  | ReadRange range => let! (meta, buffer) := read_range self range in ret (SomeBytes meta buffer)
  end.
Definition run_inner_reader (o : ReaderOp) (self : Reader) : M OpErr W (ReadResult Meta Stream) :=
  match o with
  | OpenRange range => let! (meta, s) := reader_open self range in ret (AStream meta s)
  | ReadRange range => let! (meta, buffer) := reader_read self range in ret (SomeBytes meta buffer)
  end.
Definition bare_read (x : ReadResult Meta (IoMetricsReadStream Stream)) : ReadResult Meta Stream :=
  match x with
  | AStream meta s => AStream meta (stream_inner s)
  | SomeBytes meta buffer => SomeBytes meta buffer
  end.

(** The bytes a call on a reader is recorded with: a ranged read with those it
    delivered, a failure with none; a stream that was opened records itself. *)
Definition reader_record {S} (o : ReaderOp) (r : res OpErr (ReadResult Meta S)) : option Z :=
  match o, r with
  | ReadRange _, Ok (SomeBytes _ buffer) => Some (zlen buffer)
  | _, Err _ => Some 0
  | _, _ => None
  end.

Lemma reader_call_recorded o self (m : IoMetrics F) (w : W) r m' w' :
  run_reader o self (m, w) = (r, (m', w')) ->
  run_inner_reader o (reader_inner self) w = (res_bind r (fun x => Ok (bare_read x)), w') /\
  (forall meta s, r = Ok (AStream meta s) -> fresh_stream (instant_now w) s) /\
  m' = match reader_record o r with
       | Some n => record_read m (elapsed (instant_now w) w') n
       | None => m
       end.
Proof.
  intros Hr. destruct o; cbn [run_reader run_inner_reader] in *; unfold open, read_range, timed, opening in *;
    unfold bind, ret in *; repeat (case_match; simplify_eq/=); split_and!; try done;
    intros ? ? [= <- <-]; done.
Qed.

(** C38: whatever is called on a stream, writer, deleter or lister the layer
    handed out, in whatever order and with whatever outcomes, the callers get
    what the wrapped object returns, and by the time the wrapper is dropped its
    request has been recorded exactly once, under its own kind only, with the
    time from its start to its end: a stream with the bytes it delivered
    before its end, a writer with the bytes written before its first close or
    abort, the others with none.  A ranged read of a reader has the outcome of
    the wrapped reader and is recorded once as a read, with the bytes it
    delivered or none if it failed; opening a stream is recorded only if it
    fails, otherwise the stream it hands out has its record still to come.  A
    call on the service itself has the outcome of the wrapped service; a
    [stat], or a call that fails to hand out a wrapper, is recorded once,
    nothing else is, and a wrapper that is handed out has its record still to
    come. *)
Theorem requests_recorded_once {Info Cap Copier Composer : Type}
    `{HF : OpendalForwarded W OpErr Service Args Info Cap Meta Copier Composer}
    (m : IoMetrics F) (w : W) start :
  (forall self os rs self' m' w', fresh_stream start self ->
   run_calls (fun _ : unit => stream_next) os (self, (m, w)) = (rs, (self', (m', w'))) ->
   run_calls (fun _ => stream_read) os (stream_inner self, w) = (rs, (stream_inner self', w')) /\
   (stream_record_once (self', (m', w'))).2.1 =
     record_read m (elapsed start (end_world (fun _ => stream_read) stream_gain os (stream_inner self, w)))
       (wrap64 (gained stream_gain os rs))) /\
  (forall self os rs self' m' w', fresh_writer start self ->
   run_calls run_writer os (self, (m, w)) = (rs, (self', (m', w'))) ->
   run_calls run_inner_writer os (writer_inner self, w) = (rs, (writer_inner self', w')) /\
   (writer_record_once (self', (m', w'))).2.1 =
     record_write m (elapsed start (end_world run_inner_writer writer_gain os (writer_inner self, w)))
       (wrap64 (gained writer_gain os rs))) /\
  (forall self os rs self' m' w', fresh_deleter start self ->
   run_calls run_deleter os (self, (m, w)) = (rs, (self', (m', w'))) ->
   run_calls run_inner_deleter os (deleter_inner self, w) = (rs, (deleter_inner self', w')) /\
   (deleter_record_once (self', (m', w'))).2.1 =
     record_delete m (elapsed start (end_world run_inner_deleter deleter_gain os (deleter_inner self, w)))) /\
  (forall self os rs self' m' w', fresh_lister start self ->
   run_calls (fun _ : unit => next) os (self, (m, w)) = (rs, (self', (m', w'))) ->
   run_calls (fun _ => lister_next) os (lister_inner self, w) = (rs, (lister_inner self', w')) /\
   (lister_record_once (self', (m', w'))).2.1 =
     record_list m (elapsed start (end_world (fun _ => lister_next) lister_gain os (lister_inner self, w)))) /\
  (forall o self r m' w', run_reader o self (m, w) = (r, (m', w')) ->
   run_inner_reader o (reader_inner self) w = (res_bind r (fun x => Ok (bare_read x)), w') /\
   (forall meta s, r = Ok (AStream meta s) -> fresh_stream (instant_now w) s) /\
   m' = match reader_record o r with
        | Some n => record_read m (elapsed (instant_now w) w') n
        | None => m
        end) /\
  (forall o inner r m' w', run_service o (apply_service inner) (m, w) = (r, (m', w')) ->
   run_inner_service o inner w = (res_bind r (fun x => Ok (bare x)), w') /\
   (forall x, r = Ok x -> fresh (instant_now w) x) /\
   m' = match record_of o r with Some rec => rec m (elapsed (instant_now w) w') | None => m end).
Proof.
  split_and!.
  - intros self os rs self' m' w' (<- & ? & ?) Hr. by apply (recorded_once _ _ _ _ _ _ _ _ _ _ stream_once) in Hr.
  - intros self os rs self' m' w' (<- & ? & ?) Hr. by apply (recorded_once _ _ _ _ _ _ _ _ _ _ writer_once) in Hr.
  - intros self os rs self' m' w' (<- & ?) Hr. by apply (recorded_once _ _ _ _ _ _ _ _ _ _ deleter_once) in Hr.
  - intros self os rs self' m' w' (<- & ?) Hr. by apply (recorded_once _ _ _ _ _ _ _ _ _ _ lister_once) in Hr.
  - intros o self r m' w'. apply reader_call_recorded.
  - intros o inner r m' w'. apply service_call_recorded.
Qed.
End layer.

(** ** At a concrete input: objects in memory, a clock that ticks *)

#[global] Instance mem_opendal_service :
    OpendalService Z string unit unit unit (list (list byte)) (list byte) nat nat unit nat := {|
    instant_now w := w;
    inner_stat _ _ := fun w => (Ok tt, w + 1);
    inner_read _ _ := fun w => (Ok tt, w);
    inner_write _ _ := fun w => (Ok [], w);
    inner_delete _ := fun w => (Ok 0%nat, w);
    inner_list _ _ := fun w => (Ok 0%nat, w);
    reader_open _ _ := fun w => (Ok (tt, []), w);
    reader_read _ _ := fun w => (Ok (tt, [x00; x00]), w + 1);
    stream_read := fun '(s, w) => match s with [] => (Ok [], ([], w + 1)) | b :: s => (Ok b, (s, w + 1)) end;
    writer_write b := fun '(s, w) => (Ok tt, (s ++ b, w + 1));
    writer_copy_from _ := fun '(s, w) => (Ok tt, (s, w + 1));
    writer_close := fun '(s, w) => (Err "disk full"%string, (s, w + 1));
    writer_abort := fun '(s, w) => (Ok tt, (s, w + 1));
    deleter_delete _ := fun '(s, w) => (Ok tt, (S s, w + 1));
    deleter_close := fun '(s, w) => (Ok tt, (s, w + 1));
    lister_next := fun '(s, w) => (Ok None, (s, w + 1))
  |}.

#[global] Instance mem_opendal_forwarded :
    OpendalForwarded Z string unit unit string string unit unit unit := {|
    inner_info _ := "memory"%string;
    inner_capability _ := "read, write"%string;
    inner_create_dir _ _ := ret tt;
    inner_copy _ _ _ := ret tt;
    inner_compose _ _ := ret tt;
    inner_rename _ _ _ := ret tt;
    inner_restore _ _ := ret tt;
    inner_presign _ _ := fun w => (Err "no signer"%string, w)
  |}.

(** A writer that writes two buffers, fails to close and is aborted, and a
    ranged read. *)
Definition ex_writer : IoMetricsWriter (list byte) :=
  {| writer_inner := []; writer_start := 0; writer_bytes := 0; writer_recorded := false |}.
Definition ex_writer_ops : list (WriterOp (Args:=unit)) := [WWrite [x00; x00]; WWrite [x00]; WClose; WAbort].

Lemma requests_recorded_once_witness :
  (writer_record_once (run_calls run_writer ex_writer_ops
     (ex_writer, (default_metrics (F:=f64), 0))).2).2.1 = record_write default_metrics (elapsed 0 3) 3 /\
  (run_reader (ReadRange tt) {| reader_inner := tt |} (default_metrics (F:=f64), 0)).2.1
    = record_read default_metrics (elapsed 0 1) 2.
Proof.
  destruct (requests_recorded_once (default_metrics (F:=f64)) 0 0) as (_ & Hw & _ & _ & Hrd & _). split.
  - destruct (run_calls run_writer ex_writer_ops _) as [rs [self' [m' w']]] eqn:Hs.
    assert (Hrs : wrap64 (gained writer_gain ex_writer_ops rs) = 3).
    { change rs with (rs, (self', (m', w'))).1. rewrite <-Hs. by vm_compute. }
    destruct (Hw ex_writer ex_writer_ops rs self' m' w' ltac:(done) Hs) as [_ Hd].
    cbn [fst snd] in *. rewrite Hd, Hrs. reflexivity.
  - destruct (run_reader _ _ _) as [r [m' w']] eqn:Hr.
    destruct (Hrd (ReadRange tt) _ r m' w' Hr) as (Hin & _ & Hm). cbn [fst snd]. rewrite Hm.
    assert (Hok : res_bind r (fun x => Ok (bare_read x)) = Ok (SomeBytes tt [x00; x00]) /\ w' = 1).
    { split; [apply (f_equal fst) in Hin|apply (f_equal snd) in Hin]; exact (eq_sym Hin). }
    destruct Hok as [Hok ->]. destruct r as [[meta s|meta buffer]|e|p]; try discriminate Hok.
    cbn in Hok. injection Hok as _ ->. reflexivity.
Defined.
