(* ===== verification/Ffi.v ===== *)
(** * The C ABI (rust/src/ffi.rs): state and entry points

    Each [slatedb_*] function checks the pointers it is given, runs one
    operation of the filesystem or of a file handle on the runtime of its
    context, and reports a status code; the message of a failure is kept in a
    thread-local.

    A pointer is an [option] of what it points at: [None] is null, and a
    non-null pointer points at live memory, as the contract of the unsafe
    functions demands.  A C string is the bytes before its NUL.  An opaque
    pointer the caller holds is the object it owns, so an output of type
    [*mut *mut T] is an [option (option T)].  The state of a call is what its
    pointers point at, the world, and the calling thread's last message. *)

From S2P Require Import Prelude RustStd Error SlateDb FileMetadata FileHandle DatabaseMetadata.
From S2P Require Import Cache FileSystem IoMetrics.
From S2P Require Flags.

#[local] Open Scope string_scope.
#[local] Open Scope list_scope.
#[local] Open Scope Z_scope.

Definition DATABASE_PATH : list byte := bytes_of "duckdb-object-storage".

(** ** Data *)

(** Booleans cross the interface as i32. *)
Record FfiOpenOptions := {
  read : Z;
  write : Z;
  create : Z;
  append : Z;
  truncate_existing : Z
}.

(** [*const c_char]. *)
Abbreviation c_str := (option (list byte)).

Record FfiS3Config := {
  bucket : c_str;
  root : c_str;
  endpoint : c_str;
  region : c_str;
  key_id : c_str;
  secret : c_str;
  session_token : c_str;
  use_ssl : Z;
  virtual_host_style : Z
}.

Record FfiCacheConfig := {
  block_cache_size_bytes : Z;
  metadata_cache_size_bytes : Z;
  cache_shards : Z;
  persistent_cache_path : c_str;
  persistent_cache_size_bytes : Z;
  persistent_cache_part_size_bytes : Z;
  persistent_cache_on_flush : Z;
  persistent_cache_on_compaction : Z
}.

Record FfiRuntimeConfig := {
  async_threads : Z;
  blocking_threads : Z
}.

Record RuntimeConfig := {
  config_async_threads : option Z;
  config_blocking_threads : option Z
}.
Definition default_runtime_config : RuntimeConfig :=
  {| config_async_threads := None; config_blocking_threads := None |}.

Record FfiCacheStats := {
  block_cache_hits : Z;
  block_cache_misses : Z;
  metadata_cache_hits : Z;
  metadata_cache_misses : Z;
  persistent_cache_hits : Z;
  persistent_cache_misses : Z;
  persistent_cache_entries : Z;
  stats_persistent_cache_size_bytes : Z;
  persistent_cache_evictions : Z;
  persistent_cache_evicted_bytes : Z
}.

Record FfiIoStats (F : Type) := {
  read_request_count : Z;
  read_average_latency_ms : F;
  read_stddev_latency_ms : F;
  write_request_count : Z;
  write_average_latency_ms : F;
  write_stddev_latency_ms : F;
  stat_request_count : Z;
  stat_average_latency_ms : F;
  stat_stddev_latency_ms : F;
  delete_request_count : Z;
  delete_average_latency_ms : F;
  delete_stddev_latency_ms : F;
  list_request_count : Z;
  list_average_latency_ms : F;
  list_stddev_latency_ms : F;
  read_bytes : Z;
  write_bytes : Z
}.

(** [std::sync::RwLock]: poisoned by a panic under the exclusive guard. *)
Record RwLock (A : Type) := { guarded : A; lock_poisoned : bool }.
Arguments guarded {A}.
Arguments lock_poisoned {A}.
Definition new_lock {A} (a : A) : RwLock A := {| guarded := a; lock_poisoned := false |}.

Record FfiFileSystem (Runtime Fs : Type) := { runtime : Runtime; fs : Fs }.
Arguments runtime {Runtime Fs}.
Arguments fs {Runtime Fs}.

(** [SlateFileHandle] is the crate's one implementation of the boxed trait. *)
Record FfiFileHandle (Runtime Handle : Type) := {
  handle_runtime : Runtime;
  handle : RwLock (option Handle)
}.
Arguments handle_runtime {Runtime Handle}.
Arguments handle {Runtime Handle}.

(** ** Status codes and the last error *)

(** [CString::new(bytes).expect(...)]. *)
Definition c_string (l : list byte) : res Empty_set (list byte) :=
  if bool_decide (x00 ∈ l) then Panic "escaped error message cannot contain NUL" else Ok l.

(** The thread-local message is the state. *)
Definition store_error (error : Error) : M Empty_set (list byte) Z :=
  let code := error_code_i32 (code error) in
  let! message := lift (c_string (replace_byte (bytes_of (display_error error)) x00
                                               (bytes_of "\0"))) in
  let! _ := put_state message in
  ret code.

(** A panic is caught and reported; its payload is its message.  A panic of
    the result would unwind into the caller. *)
Definition ffi_result {S} (operation : M Error S unit) : M Empty_set (S * list byte) Z :=
  fun '(s, last) =>
    match operation s with
    | (Ok _, s') => (Ok 0, (s', last))
    | (Err error, s') => on_snd (store_error error) (s', last)
    | (Panic payload, s') =>
        on_snd (store_error (invalid_argument unknown_location
                  ("Rust panic while handling FFI call: " +:+ payload))) (s', last)
    end.

Definition slatedb_fs_last_error_message (last : list byte) : list byte := last.

(** ** Arguments *)

Definition arg_error (msg : string) : Error := invalid_argument unknown_location msg.

Definition require_path (path : c_str) (name : string) : Result (list byte) :=
  match path with
  | None => Err (arg_error (name +:+ " must not be null"))
  | Some path =>
      if utf8_valid path then Ok path else Err (arg_error (name +:+ " must be valid UTF-8"))
  end.

Definition optional_string (value : c_str) (name : string) : Result (option (list byte)) :=
  match value with
  | None => Ok None
  | Some value =>
      if negb (utf8_valid value) then Err (arg_error (name +:+ " must be valid UTF-8"))
      else if bool_decide (value = []) then Ok None
      else Ok (Some value)
  end.

(** [usize::try_from] of a u64, on a 64-bit platform. *)
Definition usize_try_from (value : Z) (msg : string) : Result Z :=
  if value <=? u64_max then Ok value else Err (arg_error msg).

Definition require_s3_config (config : option FfiS3Config) : Result S3StorageConfig :=
  let? config := ok_or (arg_error "S3 config must not be null") config in
  let? bucket := require_path (bucket config) "S3 bucket" in
  let? root := optional_string (root config) "S3 root" in
  let? endpoint := optional_string (endpoint config) "S3 endpoint" in
  let? region := optional_string (region config) "S3 region" in
  let? key_id := optional_string (key_id config) "S3 key ID" in
  let? secret := optional_string (secret config) "S3 secret" in
  let? session_token := optional_string (session_token config) "S3 session token" in
  Ok {| FileSystem.bucket := bucket;
        FileSystem.root := root;
        FileSystem.endpoint := endpoint;
        FileSystem.region := region;
        FileSystem.key_id := key_id;
        FileSystem.secret := secret;
        FileSystem.session_token := session_token;
        FileSystem.use_ssl := negb (use_ssl config =? 0);
        FileSystem.virtual_host_style := negb (virtual_host_style config =? 0) |}.

Definition parse_cache_config {CacheT} `{CacheLib CacheT} (config : option FfiCacheConfig)
  : Result CacheConfig :=
  match config with
  | None => Ok default_cache_config
  | Some config =>
      let? path := optional_string (persistent_cache_path config) "persistent cache path" in
      let? size := usize_try_from (persistent_cache_size_bytes config)
                     "persistent cache size does not fit this platform" in
      let? part_size := usize_try_from (persistent_cache_part_size_bytes config)
                          "persistent cache part size does not fit this platform" in
      let? _ :=
        if bool_decide (is_Some path) then
          if size =? 0 then
            Err (arg_error "persistent cache size must be greater than zero")
          else if (part_size =? 0) || negb (part_size mod 1024 =? 0) then
            Err (arg_error "persistent cache part size must be a non-zero multiple of 1024 bytes")
          else Ok tt
        else Ok tt in
      let? cache_shards :=
        if cache_shards config =? 0 then Ok None
        else
          let? value := usize_try_from (cache_shards config)
                          "cache shard count does not fit this platform" in
          Ok (Some value) in
      Ok {| Cache.block_cache_size_bytes := block_cache_size_bytes config;
            Cache.metadata_cache_size_bytes := metadata_cache_size_bytes config;
            Cache.cache_shards := cache_shards;
            Cache.persistent_cache_path := path;
            Cache.persistent_cache_size_bytes := size;
            Cache.persistent_cache_part_size_bytes := part_size;
            Cache.persistent_cache_on_flush := negb (persistent_cache_on_flush config =? 0);
            Cache.persistent_cache_on_compaction :=
              negb (persistent_cache_on_compaction config =? 0) |}
  end.

Definition require_options (options : option FfiOpenOptions) : Result Flags.FileOpenFlags :=
  let? options := ok_or (arg_error "open options must not be null") options in
  Ok {| Flags.read := negb (read options =? 0);
        Flags.write := negb (write options =? 0);
        Flags.create := negb (create options =? 0);
        Flags.append := negb (append options =? 0);
        Flags.truncate_existing := negb (truncate_existing options =? 0) |}.

Definition optional_thread_count (value : Z) (name : string) : Result (option Z) :=
  if value =? 0 then Ok None
  else
    let? value := usize_try_from value (name +:+ " does not fit this platform") in
    Ok (Some value).

Definition parse_runtime_config (config : option FfiRuntimeConfig) : Result RuntimeConfig :=
  match config with
  | None => Ok default_runtime_config
  | Some config =>
      let? async_threads := optional_thread_count (async_threads config) "async thread count" in
      let? blocking_threads :=
        optional_thread_count (blocking_threads config) "blocking thread count" in
      Ok {| config_async_threads := async_threads;
            config_blocking_threads := blocking_threads |}
  end.

(** A pointer the call writes through; the pointee is the state. *)
Definition require_output {T} (name : string) : M Error (option T) unit :=
  fun output =>
    match output with
    | Some _ => (Ok tt, output)
    | None => (Err (arg_error (name +:+ " must not be null")), output)
    end.
(** [*output = value]. *)
Definition assign {T} (value : T) : M Error (option T) unit := put_state (Some value).

(** [slice::from_raw_parts(buffer, len)] is the first [len] bytes of the
    memory at the pointer. *)
Definition buffer_slice (name : string) (buffer : option (list byte)) (len : Z)
  : Result (list byte) :=
  match buffer with
  | None => if len =? 0 then Ok [] else Err (arg_error (name +:+ " must not be null"))
  | Some memory => Ok (take (Z.to_nat len) memory)
  end.
Definition read_buffer : option (list byte) -> Z -> Result (list byte) :=
  buffer_slice "read buffer".
Definition write_buffer : option (list byte) -> Z -> Result (list byte) :=
  buffer_slice "write buffer".

Definition duration_as_milliseconds {F} `{FloatArith F} (duration : Duration) : F :=
  f_add (f_mul (f_of_u64 (secs duration)) (f_of_u64 1000))
        (f_div (f_of_u64 (nanos duration)) (f_of_u64 1000000)).

(** ** The environment *)

(** The calls on tokio's builder. *)
Record RuntimeBuilder := {
  worker_threads : option Z;
  max_blocking_threads : option Z;
  all_enabled : bool
}.
Definition new_multi_thread : RuntimeBuilder :=
  {| worker_threads := None; max_blocking_threads := None; all_enabled := false |}.
Definition set_worker_threads (self : RuntimeBuilder) (n : Z) : RuntimeBuilder :=
  {| worker_threads := Some n; max_blocking_threads := max_blocking_threads self;
     all_enabled := all_enabled self |}.
Definition set_max_blocking_threads (self : RuntimeBuilder) (n : Z) : RuntimeBuilder :=
  {| worker_threads := worker_threads self; max_blocking_threads := Some n;
     all_enabled := all_enabled self |}.
Definition enable_all (self : RuntimeBuilder) : RuntimeBuilder :=
  {| worker_threads := worker_threads self; max_blocking_threads := max_blocking_threads self;
     all_enabled := true |}.

(** [runtime_build] is tokio's [Builder::build]; the two readers are the
    shared statistics as they are in a world. *)
Class FfiEnv (W Runtime Recorder IoRef F : Type) := {
  runtime_build : RuntimeBuilder -> M io_error W Runtime;
  recorded_metrics : W -> Recorder -> Cache.Metrics;
  recorded_io : W -> IoRef -> IoMetrics F
}.

Section ffi.
Context {W Db Txn Reader Operator Store CacheT Recorder IoRef Runtime F : Type}.
Context `{SlateDb W Db Txn} `{DbReadOps W Db} `{DbReadOps W Txn} `{DbReadOps W Reader}.
Context `{SlateDbOpen W Db Reader Store CacheT Recorder} `{CacheLib CacheT}.
Context `{Opendal W Operator Store Recorder IoRef} `{Clock W} `{MetadataCodec}.
Context `{FfiEnv W Runtime Recorder IoRef F} `{FloatArith F} `{FloatConv F}.

#[local] Abbreviation Handle := (SlateFileHandle Db Reader).
#[local] Abbreviation FS := (SlateDbFileSystem Db Reader Store CacheT Recorder IoRef).
#[local] Abbreviation FfiFs := (FfiFileSystem Runtime FS).
#[local] Abbreviation FfiHandle := (FfiFileHandle Runtime Handle).

(** [Runtime::block_on] runs the future on the calling thread to its end. *)
Definition block_on {A} (runtime : Runtime) (future : A) : A := future.

Definition create_runtime (config : RuntimeConfig) : M Error W Runtime :=
  let builder := new_multi_thread in
  let builder := match config_async_threads config with
                 | Some async_threads => set_worker_threads builder async_threads
                 | None => builder
                 end in
  let builder := match config_blocking_threads config with
                 | Some blocking_threads => set_max_blocking_threads builder blocking_threads
                 | None => builder
                 end in
  fun w =>
    let '(r, w') := runtime_build (enable_all builder) w in
    (try_from (fun source => io_with_source unknown_location
                               "failed to initialize Tokio runtime" (io_display source)) r, w').

(** ** Creating and destroying a filesystem *)

Definition slatedb_fs_create_memory (cache_config : option FfiCacheConfig)
  (runtime_config : option FfiRuntimeConfig)
  : M Empty_set (option (option FfiFs) * W * list byte) Z :=
  ffi_result (
    let! _ := on_fst (require_output "filesystem output") in
    let! _ := on_fst (assign None) in
    let! runtime_config := lift (parse_runtime_config runtime_config) in
    let! cache_config := lift (parse_cache_config cache_config) in
    let! runtime := on_snd (create_runtime runtime_config) in
    let! fs := on_snd (block_on runtime
                 (open_in_memory_with_cache_config DATABASE_PATH cache_config)) in
    on_fst (assign (Some {| runtime := runtime; fs := fs |}))).

Definition slatedb_fs_create_local (root : c_str) (cache_config : option FfiCacheConfig)
  (runtime_config : option FfiRuntimeConfig)
  : M Empty_set (option (option FfiFs) * W * list byte) Z :=
  ffi_result (
    let! _ := on_fst (require_output "filesystem output") in
    let! _ := on_fst (assign None) in
    let! runtime_config := lift (parse_runtime_config runtime_config) in
    let! root := lift (require_path root "local root") in
    if bool_decide (root = []) then lift (Err (arg_error "local root must not be empty"))
    else
      let! cache_config := lift (parse_cache_config cache_config) in
      let! runtime := on_snd (create_runtime runtime_config) in
      let! fs := on_snd (block_on runtime
                   (open_local_with_cache_config DATABASE_PATH root cache_config)) in
      on_fst (assign (Some {| runtime := runtime; fs := fs |}))).

Definition slatedb_fs_create_s3 (config : option FfiS3Config)
  (cache_config : option FfiCacheConfig) (runtime_config : option FfiRuntimeConfig)
  : M Empty_set (option (option FfiFs) * W * list byte) Z :=
  ffi_result (
    let! _ := on_fst (require_output "filesystem output") in
    let! _ := on_fst (assign None) in
    let! runtime_config := lift (parse_runtime_config runtime_config) in
    let! config := lift (require_s3_config config) in
    let! cache_config := lift (parse_cache_config cache_config) in
    let! runtime := on_snd (create_runtime runtime_config) in
    let! fs := on_snd (block_on runtime
                 (open_s3_with_cache_config DATABASE_PATH config cache_config)) in
    on_fst (assign (Some {| runtime := runtime; fs := fs |}))).

(** The filesystem is dropped; the outcome of the close is, too. *)
Definition slatedb_fs_destroy (into_values : gmap (list byte) (SlateDbClient Db Reader) ->
                                             list (SlateDbClient Db Reader))
  (pointer : option FfiFs) (w : W) : W :=
  match pointer with
  | None => w
  | Some self =>
      let '(_, (_, w')) := block_on (runtime self) (FileSystem.close into_values) (fs self, w) in w'
  end.

(** ** Calls on a filesystem *)

Definition require_fs : M Error (option FfiFs) FfiFs :=
  fun pointer => (ok_or (arg_error "filesystem pointer must not be null") pointer, pointer).

(** A method call through the reference [require_fs] returned. *)
Definition with_fs {A} (self : FfiFs) (operation : M Error (FS * W) A)
  : M Error (option FfiFs * W) A :=
  fun '(_, w) =>
    let '(r, (fs', w')) := operation (fs self, w) in
    (r, (Some {| runtime := runtime self; fs := fs' |}, w')).

Definition slatedb_fs_get_cache_stats
  : M Empty_set (option FfiCacheStats * (option FfiFs * W) * list byte) Z :=
  ffi_result (
    let! self := on_snd (on_fst require_fs) in
    let! _ := on_fst (require_output "cache stats output") in
    let! w := on_snd (on_snd get_state) in
    let stats := cache_stats (recorded_metrics w (cache_metrics (fs self))) in
    on_fst (assign
      {| block_cache_hits := Cache.block_cache_hits stats;
         block_cache_misses := Cache.block_cache_misses stats;
         metadata_cache_hits := Cache.metadata_cache_hits stats;
         metadata_cache_misses := Cache.metadata_cache_misses stats;
         persistent_cache_hits := Cache.persistent_cache_hits stats;
         persistent_cache_misses := Cache.persistent_cache_misses stats;
         persistent_cache_entries := Cache.persistent_cache_entries stats;
         stats_persistent_cache_size_bytes := Cache.stats_persistent_cache_size_bytes stats;
         persistent_cache_evictions := Cache.persistent_cache_evictions stats;
         persistent_cache_evicted_bytes := Cache.persistent_cache_evicted_bytes stats |})).

Definition slatedb_fs_get_io_stats
  : M Empty_set (option (FfiIoStats F) * (option FfiFs * W) * list byte) Z :=
  ffi_result (
    let! self := on_snd (on_fst require_fs) in
    let! _ := on_fst (require_output "I/O stats output") in
    let! w := on_snd (on_snd get_state) in
    let! stats := lift (snapshot (recorded_io w (io_metrics (fs self)))) in
    on_fst (assign
      {| read_request_count := request_count (stats_read stats);
         read_average_latency_ms := duration_as_milliseconds (average_latency (stats_read stats));
         read_stddev_latency_ms := duration_as_milliseconds (stddev_latency (stats_read stats));
         write_request_count := request_count (stats_write stats);
         write_average_latency_ms := duration_as_milliseconds (average_latency (stats_write stats));
         write_stddev_latency_ms := duration_as_milliseconds (stddev_latency (stats_write stats));
         stat_request_count := request_count (stats_stat stats);
         stat_average_latency_ms := duration_as_milliseconds (average_latency (stats_stat stats));
         stat_stddev_latency_ms := duration_as_milliseconds (stddev_latency (stats_stat stats));
         delete_request_count := request_count (stats_delete stats);
         delete_average_latency_ms :=
           duration_as_milliseconds (average_latency (stats_delete stats));
         delete_stddev_latency_ms := duration_as_milliseconds (stddev_latency (stats_delete stats));
         list_request_count := request_count (stats_list stats);
         list_average_latency_ms := duration_as_milliseconds (average_latency (stats_list stats));
         list_stddev_latency_ms := duration_as_milliseconds (stddev_latency (stats_list stats));
         read_bytes := stats_bytes (stats_read stats);
         write_bytes := stats_bytes (stats_write stats) |})).

Definition slatedb_fs_open_file (path : c_str) (options : option FfiOpenOptions)
  : M Empty_set (option (option FfiHandle) * (option FfiFs * W) * list byte) Z :=
  ffi_result (
    let! _ := on_fst (require_output "file handle output") in
    let! _ := on_fst (assign None) in
    let! self := on_snd (on_fst require_fs) in
    let! path := lift (require_path path "file path") in
    let! flags := lift (require_options options) in
    let! handle := on_snd (with_fs self (block_on (runtime self)
                     (FileSystem.open_file path flags))) in
    on_fst (assign (Some {| handle_runtime := runtime self; handle := new_lock (Some handle) |}))).

Definition slatedb_fs_file_exists (path : c_str)
  : M Empty_set (option Z * (option FfiFs * W) * list byte) Z :=
  ffi_result (
    let! _ := on_fst (require_output "file exists output") in
    let! _ := on_fst (assign 0) in
    let! self := on_snd (on_fst require_fs) in
    let! path := lift (require_path path "file path") in
    let! exists_ := on_snd (with_fs self (block_on (runtime self)
                      (FileSystem.file_exists path))) in
    on_fst (assign (Z.b2z exists_))).

Definition slatedb_fs_remove_file (path : c_str)
  : M Empty_set (option FfiFs * W * list byte) Z :=
  ffi_result (
    let! self := on_fst require_fs in
    let! path := lift (require_path path "file path") in
    with_fs self (block_on (runtime self) (FileSystem.remove_file path))).

Definition slatedb_fs_move_file (source target : c_str)
  : M Empty_set (option FfiFs * W * list byte) Z :=
  ffi_result (
    let! self := on_fst require_fs in
    let! source := lift (require_path source "source path") in
    let! target := lift (require_path target "target path") in
    with_fs self (block_on (runtime self) (FileSystem.move_file source target))).

Definition slatedb_fs_can_handle (pointer : option FfiFs) (path : c_str) : Z :=
  match pointer, path with
  | Some self, Some path =>
      if utf8_valid path then Z.b2z (can_handle (fs self) path) else 0
  | _, _ => 0
  end.

(** The static bytes, with their NUL. *)
Definition slatedb_fs_name : list byte := bytes_of "SlateDBFileSystem" ++ [x00].

(** ** Calls on a file handle *)

(** Shared guard: the operation sees the handle, and a panic under the guard
    does not poison the lock. *)
Definition with_shared_file_handle {S T} (operation : Runtime -> Handle -> M Error S T)
  : M Error (option FfiHandle * S) T :=
  fun '(pointer, s) =>
    match pointer with
    | None => (Err (arg_error "file handle pointer must not be null"), (pointer, s))
    | Some self =>
        if lock_poisoned (handle self) then
          (Err (arg_error "file handle lock is poisoned"), (pointer, s))
        else
          match guarded (handle self) with
          | None => (Err (arg_error "file handle is closed"), (pointer, s))
          | Some file =>
              let '(r, s') := operation (handle_runtime self) file s in (r, (pointer, s'))
          end
    end.

(** Exclusive guard: the operation updates the handle in place, and a panic
    under the guard poisons the lock. *)
Definition with_exclusive_file_handle {S T} (operation : Runtime -> M Error (Handle * S) T)
  : M Error (option FfiHandle * S) T :=
  fun '(pointer, s) =>
    match pointer with
    | None => (Err (arg_error "file handle pointer must not be null"), (pointer, s))
    | Some self =>
        if lock_poisoned (handle self) then
          (Err (arg_error "file handle lock is poisoned"), (pointer, s))
        else
          match guarded (handle self) with
          | None => (Err (arg_error "file handle is closed"), (pointer, s))
          | Some file =>
              let '(r, (file', s')) := operation (handle_runtime self) (file, s) in
              (r, (Some {| handle_runtime := handle_runtime self;
                           handle := {| guarded := Some file';
                                        lock_poisoned := is_panic r |} |}, s'))
          end
    end.

(** A call that fills the caller's buffer: it works on the slice. *)
Definition into_buffer {A} (len : Z) (operation : M Error (option FfiHandle * (list byte * W)) A)
  : M Error (option FfiHandle * (option (list byte) * W)) A :=
  fun '(pointer, (memory, w)) =>
    match read_buffer memory len with
    | Ok slice =>
        let '(r, (pointer', (slice', w'))) := operation (pointer, (slice, w)) in
        (r, (pointer', ((fun l => slice' ++ drop (Z.to_nat len) l) <$> memory, w')))
    | Err e => (Err e, (pointer, (memory, w)))
    | Panic p => (Panic p, (pointer, (memory, w)))
    end.

Definition slatedb_file_read (len : Z)
  : M Empty_set (option Z * (option FfiHandle * (option (list byte) * W)) * list byte) Z :=
  ffi_result (
    let! _ := on_fst (require_output "bytes read output") in
    let! _ := on_fst (assign 0) in
    let! n := on_snd (into_buffer len (with_exclusive_file_handle (fun runtime =>
                block_on runtime FileHandle.read))) in
    on_fst (assign n)).

Definition slatedb_file_pread (len offset : Z)
  : M Empty_set (option Z * (option FfiHandle * (option (list byte) * W)) * list byte) Z :=
  ffi_result (
    let! _ := on_fst (require_output "bytes read output") in
    let! _ := on_fst (assign 0) in
    let! n := on_snd (into_buffer len (with_shared_file_handle (fun runtime file =>
                block_on runtime (FileHandle.pread file offset)))) in
    on_fst (assign n)).

Definition slatedb_file_write (buffer : option (list byte)) (len : Z)
  : M Empty_set (option Z * (option FfiHandle * W) * list byte) Z :=
  ffi_result (
    let! _ := on_fst (require_output "bytes written output") in
    let! _ := on_fst (assign 0) in
    let! buffer := lift (write_buffer buffer len) in
    let! n := on_snd (with_exclusive_file_handle (fun runtime =>
                block_on runtime (FileHandle.write buffer))) in
    on_fst (assign n)).

Definition slatedb_file_pwrite (buffer : option (list byte)) (len offset : Z)
  : M Empty_set (option FfiHandle * W * list byte) Z :=
  ffi_result (
    let! buffer := lift (write_buffer buffer len) in
    with_exclusive_file_handle (fun runtime =>
      block_on runtime (FileHandle.pwrite buffer offset))).

Definition slatedb_file_sync : M Empty_set (option FfiHandle * W * list byte) Z :=
  ffi_result (with_exclusive_file_handle (fun runtime => block_on runtime FileHandle.sync)).

Definition slatedb_file_truncate (new_size : Z)
  : M Empty_set (option FfiHandle * W * list byte) Z :=
  ffi_result (with_exclusive_file_handle (fun runtime =>
    block_on runtime (FileHandle.truncate new_size))).

Definition slatedb_file_seek (position : Z)
  : M Empty_set (option FfiHandle * W * list byte) Z :=
  ffi_result (with_exclusive_file_handle (fun _ =>
    on_fst (modify (fun file => FileHandle.seek file position)))).

Definition slatedb_file_get_position
  : M Empty_set (option Z * (option FfiHandle * W) * list byte) Z :=
  ffi_result (
    let! _ := on_fst (require_output "file position output") in
    let! _ := on_fst (assign 0) in
    let! position := on_snd (with_shared_file_handle (fun _ file => ret (seek_position file))) in
    on_fst (assign position)).

Definition slatedb_file_get_size
  : M Empty_set (option Z * (option FfiHandle * W) * list byte) Z :=
  ffi_result (
    let! _ := on_fst (require_output "file size output") in
    let! _ := on_fst (assign 0) in
    let! size := on_snd (with_shared_file_handle (fun _ file => ret (file_size file))) in
    on_fst (assign size)).

(** A failed close keeps the handle open; a closed handle closes again. *)
Definition close_file : M Error (option FfiHandle * W) unit :=
  fun '(pointer, w) =>
    match pointer with
    | None => (Err (arg_error "file handle pointer must not be null"), (pointer, w))
    | Some self =>
        if lock_poisoned (handle self) then
          (Err (arg_error "file handle lock is poisoned"), (pointer, w))
        else
          match guarded (handle self) with
          | None => (Ok tt, (pointer, w))
          | Some file =>
              let '(r, (file', w')) :=
                block_on (handle_runtime self) FileHandle.close (file, w) in
              let kept := match r with Ok _ => None | _ => Some file' end in
              (r, (Some {| handle_runtime := handle_runtime self;
                           handle := {| guarded := kept; lock_poisoned := is_panic r |} |}, w'))
          end
    end.
Definition slatedb_file_close : M Empty_set (option FfiHandle * W * list byte) Z :=
  ffi_result close_file.

(** Closes, reports nothing but the last message, and frees the handle. *)
Definition slatedb_file_destroy (pointer : option FfiHandle) (w : W) (last : list byte)
  : W * list byte :=
  match pointer with
  | None => (w, last)
  | Some _ => let '(_, (_, w', last')) := slatedb_file_close (pointer, w, last) in (w', last')
  end.
End ffi.
