(* ===== verification/FfiSpec.v ===== *)
(** * The C ABI: what a caller of a file handle sees

    A program over a handle is a sequence of [slatedb_file_*] calls.  A call
    is specified on a file of FileSpec.v, or on a closed handle: the status it
    returns, what it leaves in the caller's buffer and in its output, and the
    file afterwards. *)

From S2P Require Import Prelude RustStd Error SlateDb ChunkStore ChunkManager ChunkManagerSpec.
From S2P Require Import FileMetadata FileSpec FileHandle FileHandleSpec FileRefinement.
From S2P Require Import HandleReads Ffi.
From S2P Require Flags.

#[local] Open Scope string_scope.
#[local] Open Scope list_scope.
#[local] Open Scope Z_scope.

(** The calls with the pointers they are given, but for the handle. *)
Inductive HandleCall :=
  | FileRead (memory : option (list byte)) (len : Z) (output : option Z)
  | FilePread (memory : option (list byte)) (len offset : Z) (output : option Z)
  | FileWrite (buffer : option (list byte)) (len : Z) (output : option Z)
  | FilePwrite (buffer : option (list byte)) (len offset : Z)
  | FileSync
  | FileTruncate (new_size : Z)
  | FileSeek (position : Z)
  | FileGetPosition (output : option Z)
  | FileGetSize (output : option Z)
  | FileClose.
#[global] Instance HandleCall_eq_dec : EqDecision HandleCall.
Proof. solve_decision. Defined.

(** The status a call returned, and what its pointers point at afterwards. *)
Record Reply := {
  reply_status : res Empty_set Z;
  reply_memory : option (list byte);
  reply_output : option Z
}.

(** ** The specification *)

Definition invalid_status : Z := error_code_i32 CodeInvalidArgument.

Definition obs_status (o : Obs) : Z :=
  match o with OError c => error_code_i32 c | _ => 0 end.

Definition spec_read (memory : option (list byte)) (o : Obs) : Reply :=
  match o with
  | OBytes l => {| reply_status := Ok 0; reply_memory := overwrite l <$> memory;
                   reply_output := Some (zlen l) |}
  | _ => {| reply_status := Ok (obs_status o); reply_memory := memory; reply_output := Some 0 |}
  end.
Definition spec_number (o : Obs) : Reply :=
  {| reply_status := Ok (obs_status o); reply_memory := None;
     reply_output := Some (match o with ONum n => n | _ => 0 end) |}.
Definition spec_status (z : Z) : Reply :=
  {| reply_status := Ok z; reply_memory := None; reply_output := None |}.

(** What a call with valid pointers does to an open file. *)
Definition spec_open_call (c : HandleCall) (f : File) : Reply * option File :=
  let through (o : Op) (k : Obs -> Reply) :=
    let '(x, f') := spec_step o f in (k x, Some f') in
  let data buffer len := take (Z.to_nat len) (default [] buffer) in
  match c with
  | FileRead memory len _ => through (OpRead len) (spec_read memory)
  | FilePread memory len offset _ => through (OpPread len offset) (spec_read memory)
  | FileWrite buffer len _ => through (OpWrite (data buffer len)) spec_number
  | FilePwrite buffer len offset =>
      through (OpPwrite (data buffer len) offset) (fun x => spec_status (obs_status x))
  | FileSync => through OpSync (fun x => spec_status (obs_status x))
  | FileTruncate n => through (OpTruncate n) (fun x => spec_status (obs_status x))
  | FileSeek p => through (OpSeek p) (fun x => spec_status (obs_status x))
  | FileGetPosition _ => (spec_number (ONum (pos f)), Some f)
  | FileGetSize _ => through OpSize spec_number
  | FileClose => (spec_status 0, None)
  end.

(** A closed handle closes again and refuses the rest. *)
Definition spec_closed_call (c : HandleCall) : Reply :=
  match c with
  | FileRead memory _ _ | FilePread memory _ _ _ =>
      {| reply_status := Ok invalid_status; reply_memory := memory; reply_output := Some 0 |}
  | FileWrite _ _ _ | FileGetPosition _ | FileGetSize _ =>
      spec_number (OError CodeInvalidArgument)
  | FileClose => spec_status 0
  | _ => spec_status invalid_status
  end.

Definition spec_call (c : HandleCall) (f : option File) : Reply * option File :=
  match f with
  | Some f => spec_open_call c f
  | None => (spec_closed_call c, None)
  end.

Fixpoint spec_calls (cs : list HandleCall) (f : option File) : list Reply * option File :=
  match cs with
  | [] => ([], f)
  | c :: cs =>
      let '(x, f) := spec_call c f in
      let '(xs, f) := spec_calls cs f in
      (x :: xs, f)
  end.

(** A buffer holds the bytes it is said to hold; null only if that is none. *)
Definition valid_buffer (memory : option (list byte)) (len : Z) : Prop :=
  is_u64 len /\ match memory with Some l => len <= zlen l | None => len = 0 end.
Definition valid_call (c : HandleCall) : Prop :=
  match c with
  | FileRead memory len output => valid_buffer memory len /\ is_Some output
  | FilePread memory len offset output =>
      valid_buffer memory len /\ is_u64 offset /\ is_Some output
  | FileWrite buffer len output => valid_buffer buffer len /\ is_Some output
  | FilePwrite buffer len offset => valid_buffer buffer len /\ is_u64 offset
  | FileTruncate n | FileSeek n => is_u64 n
  | FileGetPosition output | FileGetSize output => is_Some output
  | FileSync | FileClose => True
  end.

(** ** Programs *)

Section program.
Context {W Db Txn Reader Runtime : Type} `{World W} `{DbReadOps W Db} `{!DbReadLaws W Db}
  `{DbReadOps W Txn} `{!DbReadLaws W Txn} `{SlateDb W Db Txn} `{!SlateDbLaws W Db Txn}
  `{DbReadOps W Reader} `{!DbReadLaws W Reader} `{Clock W} `{!ClockLaws W}
  `{MetadataCodec} `{!MetadataCodecLaws}.
#[local] Abbreviation Handle := (SlateFileHandle Db Reader).
#[local] Abbreviation FfiHandle := (FfiFileHandle Runtime Handle).

(** The handle, the world and the thread's last message. *)
#[local] Abbreviation State := (option FfiHandle * W * list byte)%type.

Definition run_call (c : HandleCall) : State -> Reply * State :=
  let status r memory output :=
    {| reply_status := r; reply_memory := memory; reply_output := output |} in
  fun '(h, w, last) =>
    match c with
    | FileRead memory len output =>
        let '(r, (output', (h', (memory', w')), last')) :=
          slatedb_file_read len (output, (h, (memory, w)), last) in
        (status r memory' output', (h', w', last'))
    | FilePread memory len offset output =>
        let '(r, (output', (h', (memory', w')), last')) :=
          slatedb_file_pread len offset (output, (h, (memory, w)), last) in
        (status r memory' output', (h', w', last'))
    | FileWrite buffer len output =>
        let '(r, (output', (h', w'), last')) :=
          slatedb_file_write buffer len (output, (h, w), last) in
        (status r None output', (h', w', last'))
    | FilePwrite buffer len offset =>
        let '(r, s') := slatedb_file_pwrite buffer len offset (h, w, last) in
        (status r None None, s')
    | FileSync => let '(r, s') := slatedb_file_sync (h, w, last) in (status r None None, s')
    | FileTruncate n =>
        let '(r, s') := slatedb_file_truncate n (h, w, last) in (status r None None, s')
    | FileSeek p => let '(r, s') := slatedb_file_seek p (h, w, last) in (status r None None, s')
    | FileGetPosition output =>
        let '(r, (output', (h', w'), last')) :=
          slatedb_file_get_position (output, (h, w), last) in
        (status r None output', (h', w', last'))
    | FileGetSize output =>
        let '(r, (output', (h', w'), last')) := slatedb_file_get_size (output, (h, w), last) in
        (status r None output', (h', w', last'))
    | FileClose => let '(r, s') := slatedb_file_close (h, w, last) in (status r None None, s')
    end.

Fixpoint run_calls (cs : list HandleCall) (s : State) : list Reply * State :=
  match cs with
  | [] => ([], s)
  | c :: cs =>
      let '(x, s) := run_call c s in
      let '(xs, s) := run_calls cs s in
      (x :: xs, s)
  end.

(** ** States *)

(** A handle whose lock is not poisoned. *)
Definition live (rt : Runtime) (h : option Handle) : option FfiHandle :=
  Some {| handle_runtime := rt; handle := new_lock h |}.
Definition poisoned_handle (rt : Runtime) (h : option Handle) : option FfiHandle :=
  Some {| handle_runtime := rt; handle := {| guarded := h; lock_poisoned := true |} |}.

(** The handle is open on the file, or closed. *)
Definition denotes (w : W) (p : option FfiHandle) (f : option File) : Prop :=
  exists rt h, p = live rt h /\
  match h, f with
  | Some h, Some f => exists l, wf_handle w h /\ represents w h l /\ f = abs h l
  | None, None => True
  | _, _ => False
  end.

(** The call is a read that panics: see [short_op]. *)
Definition short_call (c : HandleCall) (w : W) (p : option FfiHandle) : Prop :=
  exists rt h, p = live rt (Some h) /\
  match c with
  | FileRead _ len _ => short_op w h (OpRead len)
  | FilePread _ len offset _ => short_op w h (OpPread len offset)
  | _ => False
  end.

(** No call of the program is such a read, in the state it runs in. *)
Fixpoint no_short_call (cs : list HandleCall) (s : State) : Prop :=
  match cs with
  | [] => True
  | c :: cs => ~ short_call c s.1.2 s.1.1 /\ no_short_call cs (run_call c s).2
  end.

#[global] Instance short_call_dec c w p : Decision (short_call c w p).
Proof.
  destruct p as [[rt [[h|] [|]]]|]; try (right; by intros (? & ? & [=] & _)).
  set (P := match c with
            | FileRead _ len _ => short_op w h (OpRead len)
            | FilePread _ len offset _ => short_op w h (OpPread len offset)
            | _ => False
            end).
  assert (HP : Decision P) by (unfold P; destruct c; apply _).
  destruct HP as [HP|HP]; [left; by exists rt, h|right].
  intros (rt' & h' & [= <- <-] & Hs). by apply HP.
Defined.
#[global] Instance no_short_call_dec cs : forall s, Decision (no_short_call cs s).
Proof.
  induction cs as [|c cs IH]; intros s; cbn [no_short_call]; [left; exact I|].
  pose proof (IH (run_call c s).2). apply _.
Defined.

(** ** Status and message *)

Definition escaped (e : Error) : list byte :=
  replace_byte (bytes_of (display_error e)) x00 (bytes_of "\0").

Lemma replaced_not_in l b by_ : b ∉ by_ -> b ∉ replace_byte l b by_.
Proof.
  intros Hb. unfold replace_byte. rewrite list_elem_of_bind. intros (c & Hc & _).
  case_bool_decide; set_solver.
Qed.

Lemma escaped_no_nul e : x00 ∉ escaped e.
Proof. apply replaced_not_in. by apply (bool_decide_unpack _). Qed.

Lemma store_error_run e last :
  store_error e last = (Ok (error_code_i32 (code e)), escaped e).
Proof.
  unfold store_error, bind, lift, c_string. fold (escaped e).
  by rewrite bool_decide_false by apply escaped_no_nul.
Qed.

Lemma ffi_ok {S} (op : M Error S unit) s s' last :
  op s = (Ok tt, s') -> ffi_result op (s, last) = (Ok 0, (s', last)).
Proof. intros Hop. unfold ffi_result. by rewrite Hop. Qed.

Lemma ffi_err {S} (op : M Error S unit) s e s' last :
  op s = (Err e, s') ->
  ffi_result op (s, last) = (Ok (error_code_i32 (code e)), (s', escaped e)).
Proof.
  intros Hop. unfold ffi_result, on_snd. rewrite Hop. cbn [fst snd]. by rewrite store_error_run.
Qed.

Definition panic_error (payload : string) : Error :=
  invalid_argument unknown_location ("Rust panic while handling FFI call: " +:+ payload).

Lemma ffi_panic {S} (op : M Error S unit) s payload s' last :
  op s = (Panic payload, s') ->
  ffi_result op (s, last) = (Ok invalid_status, (s', escaped (panic_error payload))).
Proof.
  intros Hop. unfold ffi_result, on_snd. rewrite Hop. cbn [fst snd]. by rewrite store_error_run.
Qed.

(** ** The calls on an open handle *)

(** What a call of the handle returned is what the specification shows. *)
Definition agrees {A} (o : Op) (k : A -> Obs) (h : Handle) l (r : Result A) (h' : Handle) (w' : W)
    : Prop :=
  exists l',
  match r with
  | Ok a => (spec_step o (abs h l)).1 = k a
  | Err e => (spec_step o (abs h l)).1 = OError (code e)
  | Panic _ => False
  end /\
    (spec_step o (abs h l)).2 = abs h' l' /\ wf_handle w' h' /\ represents w' h' l' /\ up w'.

Lemma run_agrees {A} (o : Op) (k : A -> Obs) (m : M Error (Handle * W) A) h l w :
  (forall s, run_op o s = (let! a := m in ret (k a)) s) ->
  wf_handle w h -> represents w h l -> up w -> op_u64 o -> ~ short_op w h o ->
  exists r h' w', m (h, w) = (r, (h', w')) /\ (o <> OpSync -> stages w h w' h') /\
    agrees o k h l r h' w'.
Proof.
  intros Hk Hwf Hrep Hu Ho Hshort. destruct (m (h, w)) as [r [h' w']] eqn:Hm.
  exists r, h', w'. split; [done|].
  assert (Hrun : run_op o (h, w) = (let? a := r in Ok (k a), (h', w'))).
  { rewrite Hk. unfold bind. rewrite Hm. by destruct r. }
  split; [intros Hns; exact (op_stages_all _ _ _ _ _ _ _ Hwf Hrep Hu Ho Hns Hshort Hrun)|].
  destruct (step_refines _ _ _ _ _ _ _ Hwf Hrep Hu Ho Hshort Hrun)
    as (l' & Hobs & Habs & Hwf' & Hrep' & Hu' & _).
  exists l'. destruct r as [a|e|p]; cbn in Hobs; [|by injection Hobs as <-|done].
  injection Hobs as <-. done.
Qed.

(** An exclusive call on a live handle runs on the handle. *)
Lemma exclusive_live {S T} (op : Runtime -> M Error (Handle * S) T) rt h s r h' s' :
  op rt (h, s) = (r, (h', s')) -> is_panic r = false ->
  with_exclusive_file_handle op (live rt (Some h), s) = (r, (live rt (Some h'), s')).
Proof.
  intros Hop Hr. unfold with_exclusive_file_handle, live. cbn [handle new_lock guarded lock_poisoned].
  cbn. rewrite Hop. by rewrite Hr.
Qed.

Lemma exclusive_panics {S T} (op : Runtime -> M Error (Handle * S) T) rt h s p h' s' :
  op rt (h, s) = (Panic p, (h', s')) ->
  with_exclusive_file_handle op (live rt (Some h), s) =
    (Panic p, (poisoned_handle rt (Some h'), s')).
Proof. intros Hop. unfold with_exclusive_file_handle, live. cbn. by rewrite Hop. Qed.

Lemma shared_live {S T} (op : Runtime -> Handle -> M Error S T) rt h s :
  with_shared_file_handle op (live rt (Some h), s) =
    let '(r, s') := op rt h s in (r, (live rt (Some h), s')).
Proof. done. Qed.

(** The slice of a valid buffer, and the memory once the slice is overwritten. *)
Lemma read_buffer_valid memory len :
  valid_buffer memory len ->
  exists slice, read_buffer memory len = Ok slice /\ zlen slice = len /\
    slice = take (Z.to_nat len) (default [] memory) /\
    forall l, zlen l <= len ->
      (fun m => overwrite l slice ++ drop (Z.to_nat len) m) <$> memory = overwrite l <$> memory.
Proof.
  intros [[Hl _] Hm]. unfold read_buffer, buffer_slice. destruct memory as [m|]; cbn [default from_option id].
  - exists (take (Z.to_nat len) m). split_and!; [done|rewrite zlen_take; lia|done|].
    intros l Hll. cbn. f_equal. unfold overwrite, zlen in *. rewrite <-app_assoc. f_equal.
    rewrite <-(take_drop (Z.to_nat len) m) at 3. rewrite drop_app_le; [done|].
    rewrite length_take. lia.
  - subst len. exists []. done.
Qed.

Lemma write_buffer_valid buffer len :
  valid_buffer buffer len ->
  write_buffer buffer len = Ok (take (Z.to_nat len) (default [] buffer)).
Proof.
  intros [_ Hb]. unfold write_buffer, buffer_slice. destruct buffer; [done|]. by subst len.
Qed.

(** The body of a call that fills a buffer and reports a count. *)
Definition reading (len : Z)
    (operation : M Error (option FfiHandle * (list byte * W)) Z)
    : M Empty_set (option Z * (option FfiHandle * (option (list byte) * W)) * list byte) Z :=
  ffi_result (
    let! _ := on_fst (require_output "bytes read output") in
    let! _ := on_fst (assign 0) in
    let! n := on_snd (into_buffer len operation) in
    on_fst (assign n)).

Lemma reading_agrees op x memory len n p w last r p' slice' w' slice :
  read_buffer memory len = Ok slice -> zlen slice = len ->
  (forall l, zlen l <= len ->
    (fun m => overwrite l slice ++ drop (Z.to_nat len) m) <$> memory = overwrite l <$> memory) ->
  op (p, (slice, w)) = (r, (p', (slice', w'))) -> read_agrees x slice r slice' ->
  exists last', reading len op (Some n, (p, (memory, w)), last) =
    (reply_status (spec_read memory x),
     (reply_output (spec_read memory x), (p', (reply_memory (spec_read memory x), w')), last')).
Proof.
  intros Hs Hlen Hover Hop Hr.
  assert (Hbuf : into_buffer len op (p, (memory, w)) =
    (r, (p', ((fun m => slice' ++ drop (Z.to_nat len) m) <$> memory, w')))).
  { unfold into_buffer. by rewrite Hs, Hop. }
  unfold reading. destruct r as [k|e|q]; [| |done].
  - destruct Hr as (out & -> & -> & -> & Hb). exists last. rewrite Hlen in Hb.
    erewrite ffi_ok; [done|]. unfold bind, on_fst, on_snd. cbn -[into_buffer]. rewrite Hbuf. cbn.
    by rewrite Hover by done.
  - destruct Hr as (-> & ->). exists (escaped e).
    erewrite ffi_err; [done|]. unfold bind, on_fst, on_snd. cbn -[into_buffer]. rewrite Hbuf. cbn.
    do 4 f_equal. transitivity (overwrite [] <$> memory).
    + apply (Hover []). rewrite <-Hlen. apply zlen_nonneg.
    + by destruct memory.
Qed.

(** An exclusive call that reports nothing but its status. *)
Lemma exclusive_status o (m : M Error (Handle * W) unit) rt h l w last :
  (forall s, run_op o s = (let! _ := m in ret OUnit) s) ->
  wf_handle w h -> represents w h l -> up w -> op_u64 o -> ~ short_op w h o ->
  exists h' w' last',
    ffi_result (with_exclusive_file_handle (fun _ => m)) (live rt (Some h), w, last) =
      (Ok (obs_status (spec_step o (abs h l)).1), (live rt (Some h'), w', last')) /\
    denotes w' (live rt (Some h')) (Some (spec_step o (abs h l)).2) /\ up w' /\
    (o <> OpSync -> stages w h w' h') /\ exists r, m (h, w) = (r, (h', w')).
Proof.
  intros Hm Hwf Hrep Hu Ho Hs.
  destruct (run_agrees o (fun _ => OUnit) m h l w Hm Hwf Hrep Hu Ho Hs)
    as (r & h' & w' & Hrun & Hst & l' & Hr & Hf & Hwf' & Hrep' & Hu').
  assert (Hden : denotes w' (live rt (Some h')) (Some (spec_step o (abs h l)).2)).
  { exists rt, (Some h'). split; [done|]. by exists l'. }
  destruct r as [[]|e|p]; [| |done]; rewrite Hr.
  - exists h', w', last. split; [|split_and!; [done..|by exists (Ok tt)]].
    apply ffi_ok. by apply (exclusive_live (fun _ => m)).
  - exists h', w', (escaped e). split; [|split_and!; [done..|by exists (Err e)]].
    apply ffi_err. by apply (exclusive_live (fun _ => m)).
Qed.

(** A call that reports a number. *)
Definition numbering {S} (name : string) (operation : M Error S Z)
    : M Empty_set (option Z * S * list byte) Z :=
  ffi_result (
    let! _ := on_fst (require_output name) in
    let! _ := on_fst (assign 0) in
    let! n := on_snd operation in
    on_fst (assign n)).

Lemma numbering_run {S} name (op : M Error S Z) n s last r s' x :
  op s = (r, s') ->
  match r with Ok n => x = ONum n | Err e => x = OError (code e) | Panic _ => False end ->
  exists last', numbering name op (Some n, s, last) =
    (reply_status (spec_number x), (reply_output (spec_number x), s', last')).
Proof.
  intros Hop Hx. unfold numbering. destruct r as [k|e|p]; [| |done]; subst x.
  - exists last. erewrite ffi_ok; [done|]. unfold bind, on_fst, on_snd. cbn. by rewrite Hop.
  - exists (escaped e). erewrite ffi_err; [done|]. unfold bind, on_fst, on_snd. cbn.
    by rewrite Hop.
Qed.

(** ** The simulation *)

(** A call and its reply, unfolded. *)
Lemma run_read memory len output p w last :
  run_call (FileRead memory len output) (p, w, last) =
    let '(r, (output', (p', (memory', w')), last')) :=
      reading len (with_exclusive_file_handle (fun _ => FileHandle.read))
        (output, (p, (memory, w)), last) in
    ({| reply_status := r; reply_memory := memory'; reply_output := output' |}, (p', w', last')).
Proof. done. Qed.

Lemma run_pread memory len offset output p w last :
  run_call (FilePread memory len offset output) (p, w, last) =
    let '(r, (output', (p', (memory', w')), last')) :=
      reading len (with_shared_file_handle (fun _ file => pread file offset))
        (output, (p, (memory, w)), last) in
    ({| reply_status := r; reply_memory := memory'; reply_output := output' |}, (p', w', last')).
Proof. done. Qed.

(** What a call changes beside its reply: a sync and a close write the handle
    out, other calls stage. *)
Definition effect (c : HandleCall) (rt : Runtime) (h : option Handle) (w : W) (p' : option FfiHandle)
    (w' : W) : Prop :=
  match h with
  | None => p' = live rt None /\ w' = w
  | Some h => exists h',
      match c with
      | FileSync => p' = live rt (Some h') /\ sync (h, w) = (Ok tt, (h', w'))
      | FileClose => p' = live rt None /\ sync (h, w) = (Ok tt, (h', w'))
      | _ => p' = live rt (Some h') /\ stages w h w' h'
      end
  end.

(** A call on a handle simulates its specification. *)
Definition simulates (c : HandleCall) (f : option File) (rt : Runtime) (h : option Handle) (w : W)
    (last : list byte) : Prop :=
  exists p' w' last',
  run_call c (live rt h, w, last) = ((spec_call c f).1, (p', w', last')) /\
  denotes w' p' (spec_call c f).2 /\ up w' /\ effect c rt h w p' w'.

Lemma reply_eta (x : Reply) :
  {| reply_status := reply_status x; reply_memory := reply_memory x;
     reply_output := reply_output x |} = x.
Proof. by destruct x. Qed.

Lemma denotes_live rt h l w : wf_handle w h -> represents w h l ->
  denotes w (live rt (Some h)) (Some (abs h l)).
Proof. intros Hwf Hrep. exists rt, (Some h). split; [done|]. by exists l. Qed.
#[local] Hint Resolve denotes_live : core.

Lemma call_read memory len output rt h l w last :
  wf_handle w h -> represents w h l -> up w -> valid_call (FileRead memory len output) ->
  ~ short_op w h (OpRead len) ->
  simulates (FileRead memory len output) (Some (abs h l)) rt (Some h) w last.
Proof.
  intros Hwf Hrep Hu [Hb [n ->]] Hs.
  destruct (read_buffer_valid memory len Hb) as (slice & Hsl & Hlen & _ & Hover).
  destruct (read_any h l slice w) as (r & h' & buf' & w' & Hrun & Hr & Hf & Hwf' & Hrep' & Hu' & Hw);
    [done..|by rewrite Hlen|]. rewrite Hlen in Hr, Hf.
  assert (Hp : is_panic r = false) by (by destruct r).
  pose proof (exclusive_live (fun _ => FileHandle.read) rt h (slice, w) r h' (buf', w') Hrun Hp)
    as Hex.
  destruct (reading_agrees _ _ memory len n _ w last _ _ _ _ slice Hsl Hlen Hover Hex Hr)
    as (last' & Hcall).
  unfold simulates. rewrite run_read, Hcall, reply_eta. exists (live rt (Some h')), w', last'.
  unfold spec_call, spec_open_call. destruct (spec_step _ _) as [x f]. cbn in Hf. subst f.
  cbn [fst snd]. split_and!; [done|by apply denotes_live|done|]. exists h'. split; [done|].
  pose proof (read_same_handle h h' slice w r buf' w' (hw_size _ _ Hwf) (hw_position _ _ Hwf) Hrun).
  split_and!; [done..|]. apply same_contents_unstaged.
  exact (read_same_contents h h' slice w r buf' w' (hw_size _ _ Hwf) (hw_position _ _ Hwf) Hrun).
Qed.

Lemma call_pread memory len offset output rt h l w last :
  wf_handle w h -> represents w h l -> up w -> valid_call (FilePread memory len offset output) ->
  ~ short_op w h (OpPread len offset) ->
  simulates (FilePread memory len offset output) (Some (abs h l)) rt (Some h) w last.
Proof.
  intros Hwf Hrep Hu (Hb & Ho & [n ->]) Hs.
  destruct (read_buffer_valid memory len Hb) as (slice & Hsl & Hlen & _ & Hover).
  destruct (pread_any h l offset slice w) as (r & buf' & w' & Hrun & Hr & Hf & Hwf' & Hrep' & Hu' & Hw);
    [done..|by rewrite Hlen|]. rewrite Hlen in Hr, Hf.
  assert (Hex : with_shared_file_handle (fun _ : Runtime => fun file => pread file offset)
    (live rt (Some h), (slice, w)) = (r, (live rt (Some h), (buf', w')))).
  { rewrite shared_live. by rewrite Hrun. }
  destruct (reading_agrees _ _ memory len n _ w last _ _ _ _ slice Hsl Hlen Hover Hex Hr)
    as (last' & Hcall).
  unfold simulates. rewrite run_pread, Hcall, reply_eta. exists (live rt (Some h)), w', last'.
  unfold spec_call, spec_open_call. destruct (spec_step _ _) as [x f]. cbn in Hf. subst f.
  cbn [fst snd]. split_and!; [done|by apply denotes_live|done|]. exists h. split; [done|].
  split_and!; [done..|by apply same_contents_unstaged].
Qed.

Lemma run_write buffer len n data p w last :
  write_buffer buffer len = Ok data ->
  run_call (FileWrite buffer len (Some n)) (p, w, last) =
    let '(r, (output', (p', w'), last')) :=
      numbering "bytes written output" (with_exclusive_file_handle (fun _ => FileHandle.write data))
        (Some n, (p, w), last) in
    ({| reply_status := r; reply_memory := None; reply_output := output' |}, (p', w', last')).
Proof. intros Hb. unfold run_call, slatedb_file_write. by rewrite Hb. Qed.

Lemma call_write buffer len output rt h l w last :
  wf_handle w h -> represents w h l -> up w -> valid_call (FileWrite buffer len output) ->
  simulates (FileWrite buffer len output) (Some (abs h l)) rt (Some h) w last.
Proof.
  intros Hwf Hrep Hu [Hb [n ->]]. set (data := take (Z.to_nat len) (default [] buffer)).
  destruct (run_agrees (OpWrite data) ONum (FileHandle.write data) h l w)
    as (r & h' & w' & Hrun & Hst & l' & Hr & Hf & Hwf' & Hrep' & Hu'); [done..|by intros []|].
  assert (Hp : is_panic r = false) by (by destruct r).
  pose proof (exclusive_live (fun _ => FileHandle.write data) rt h w r h' w' Hrun Hp) as Hex.
  destruct (numbering_run "bytes written output" _ n _ last r _
    (spec_step (OpWrite data) (abs h l)).1 Hex Hr) as (last' & Hcall).
  unfold simulates. exists (live rt (Some h')), w', last'. unfold spec_call, spec_open_call.
  fold data. destruct (spec_step _ _) as [x f]. cbn [fst snd] in *. subst f.
  split; [|split_and!; [by apply denotes_live|done|exists h'; by auto]].
  rewrite (run_write _ _ _ _ _ _ _ (write_buffer_valid buffer len Hb)). fold data.
  by rewrite Hcall.
Qed.

Lemma call_size c rt h l w last :
  wf_handle w h -> represents w h l -> up w -> valid_call c ->
  match c with FileGetPosition _ | FileGetSize _ => True | _ => False end ->
  simulates c (Some (abs h l)) rt (Some h) w last.
Proof.
  intros Hwf Hrep Hu Hv Hc. exists (live rt (Some h)), w, last.
  assert (Hst : stages w h w h) by (split_and!; [done..|by apply same_contents_unstaged]).
  destruct c; try done; destruct Hv as [n ->]; cbn;
    (split; [|split_and!; [by apply denotes_live|done|by exists h]]); [done|].
  by rewrite (proj1 Hrep).
Qed.

Lemma call_seek p rt h l w last :
  wf_handle w h -> represents w h l -> up w -> is_u64 p ->
  simulates (FileSeek p) (Some (abs h l)) rt (Some h) w last.
Proof.
  intros Hwf Hrep Hu Hp. exists (live rt (Some (set_position h p))), w, last.
  cbn. split; [done|]. split_and!; [|done|].
  - apply (denotes_live rt (set_position h p) l); [by apply wf_set_position|done].
  - exists (set_position h p). split; [done|]. split_and!; [done..|by apply same_contents_unstaged].
Qed.

Lemma call_close rt h l w last :
  wf_handle w h -> represents w h l -> up w ->
  simulates FileClose (Some (abs h l)) rt (Some h) w last.
Proof.
  intros Hwf Hrep Hu. destruct (sync (h, w)) as [r [h' w']] eqn:Hs.
  destruct (sync_ok h l w r h' w' Hwf Hrep Hs) as (Hup & _). destruct (Hup Hu) as [-> Hu'].
  exists (live rt None), w', last. split; [|split_and!; [by exists rt, None|done|by exists h']].
  unfold run_call, slatedb_file_close. erewrite ffi_ok; [done|].
  unfold close_file, FileHandle.close, block_on, live. cbn -[sync]. by rewrite Hs.
Qed.

Lemma call_status c o m rt h l w last :
  (forall p w0 last0, run_call c (p, w0, last0) =
    let '(r, s') := ffi_result (with_exclusive_file_handle (fun _ => m)) (p, w0, last0) in
    ({| reply_status := r; reply_memory := None; reply_output := None |}, s')) ->
  (forall f, spec_open_call c f =
    (spec_status (obs_status (spec_step o f).1), Some (spec_step o f).2)) ->
  (forall s, run_op o s = (let! _ := m in ret OUnit) s) ->
  wf_handle w h -> represents w h l -> up w -> op_u64 o -> ~ short_op w h o ->
  o <> OpSync -> c <> FileSync -> c <> FileClose ->
  simulates c (Some (abs h l)) rt (Some h) w last.
Proof.
  intros Hc Hsp Hm Hwf Hrep Hu Ho Hs Hns Hcs Hcc.
  destruct (exclusive_status o m rt h l w last Hm Hwf Hrep Hu Ho Hs)
    as (h' & w' & last' & Hrun & Hden & Hu' & Hst & _).
  exists (live rt (Some h')), w', last'. rewrite Hc, Hrun. cbn [spec_call]. rewrite Hsp.
  split_and!; [done..|]. exists h'. specialize (Hst Hns). by destruct c.
Qed.

Lemma call_sync rt h l w last :
  wf_handle w h -> represents w h l -> up w ->
  simulates FileSync (Some (abs h l)) rt (Some h) w last.
Proof.
  intros Hwf Hrep Hu.
  destruct (exclusive_status OpSync sync rt h l w last) as (h' & w' & last' & Hrun & Hden & Hu' & _ & r & Hr);
    [done..|by intros []|].
  exists (live rt (Some h')), w', last'. split_and!; [|done|done|].
  - unfold run_call, slatedb_file_sync, block_on. by rewrite Hrun.
  - destruct (sync_ok h l w r h' w' Hwf Hrep Hr) as (Hup & _). destruct (Hup Hu) as [-> _]. by exists h'.
Qed.

(** A call through a handle that refuses the operation reports an error. *)
Lemma refused_call c (p : option FfiHandle) w last e :
  (forall S T (op : Runtime -> M Error (Handle * S) T) s,
    with_exclusive_file_handle op (p, s) = (Err e, (p, s))) ->
  (forall S T (op : Runtime -> Handle -> M Error S T) s,
    with_shared_file_handle op (p, s) = (Err e, (p, s))) ->
  code e = CodeInvalidArgument -> valid_call c -> c <> FileClose ->
  exists last', run_call c (p, w, last) = (spec_closed_call c, (p, w, last')).
Proof.
  intros Hex Hsh Hcode Hv Hne. exists (escaped e).
  assert (Hst : error_code_i32 (code e) = invalid_status) by (by rewrite Hcode).
  destruct c as [memory len output|memory len offset output|buffer len output|buffer len offset| |n|n|output|output|];
    [| | | | | | | | |done].
  1, 2: destruct Hv as [Hb Ho]; destruct (read_buffer_valid memory len Hb) as (slice & Hsl & _ & Hsd & _);
    assert (Hm : (fun m => slice ++ drop (Z.to_nat len) m) <$> memory = memory)
      by (subst slice; destruct memory; cbn; by rewrite ?take_drop).
  1: rewrite run_read; destruct Ho as [n ->].
  2: rewrite run_pread; destruct Ho as [? [n ->]].
  1, 2: unfold reading, bind, on_fst, on_snd; erewrite ffi_err;
    [|cbn -[into_buffer]; unfold into_buffer; rewrite Hsl, ?Hex, ?Hsh; cbn; rewrite Hm; reflexivity];
    cbn [spec_closed_call]; by rewrite Hst.
  all: unfold run_call, slatedb_file_write, slatedb_file_pwrite, slatedb_file_sync,
    slatedb_file_truncate, slatedb_file_seek, slatedb_file_get_position, slatedb_file_get_size,
    block_on, bind, on_fst, on_snd.
  1, 2: destruct Hv as [Hb Ho]; rewrite (write_buffer_valid buffer len Hb).
  1, 6, 7: destruct Hv as [? [n ->]] || destruct Hv as [n ->] || destruct Ho as [n ->].
  all: erewrite ffi_err; [|cbn -[with_exclusive_file_handle with_shared_file_handle];
    rewrite ?Hex, ?Hsh; cbn; reflexivity]; cbn [spec_closed_call spec_number spec_status];
    by rewrite Hst.
Qed.

Lemma step_call c p f w last :
  denotes w p f -> up w -> valid_call c -> ~ short_call c w p ->
  exists rt h, p = live rt h /\ simulates c f rt h w last.
Proof.
  intros (rt & h & -> & Hf) Hu Hv Hs. exists rt, h. split; [done|]. destruct h as [h|], f as [f|]; [|done|done|].
  - destruct Hf as (l & Hwf & Hrep & ->).
    assert (Hshort : forall o, match c with
                          | FileRead _ len _ => o = OpRead len
                          | FilePread _ len offset _ => o = OpPread len offset
                          | _ => False
                          end -> ~ short_op w h o).
    { intros o Ho Hop. apply Hs. exists rt, h. split; [done|]. destruct c; try done; by subst o. }
    destruct c as [memory len output|memory len offset output|buffer len output|buffer len offset| |n|n|output|output|].
    + apply call_read; auto.
    + apply call_pread; auto.
    + by apply call_write.
    + destruct Hv as [Hb Ho]. set (data := take (Z.to_nat len) (default [] buffer)).
      eapply (call_status _ (OpPwrite data offset) (FileHandle.pwrite data offset)); try done; [| |by intros []].
      * intros p w0 last0. unfold run_call, slatedb_file_pwrite.
        by rewrite (write_buffer_valid buffer len Hb).
      * intros g. unfold spec_open_call. fold data. by destruct (spec_step _ _).
    + by apply call_sync.
    + eapply (call_status _ (OpTruncate n) (FileHandle.truncate n)); try done; [|by intros []].
      intros g. unfold spec_open_call. by destruct (spec_step _ _).
    + by apply call_seek.
    + by apply call_size.
    + by apply call_size.
    + by apply call_close.
  - destruct (decide (c = FileClose)) as [->|Hne].
    { exists (live rt None), w, last. split_and!; [done|by exists rt, None|done..]. }
    destruct (refused_call c (live rt None) w last (arg_error "file handle is closed"))
      as (last' & Hrun); [done..|].
    exists (live rt None), w, last'. split_and!; [done|by exists rt, None|done..].
Qed.

(** ** Poisoned handles *)

Lemma poisoned_call c rt h w last :
  exists x last', run_call c (poisoned_handle rt h, w, last) = (x, (poisoned_handle rt h, w, last')) /\
    reply_status x = Ok invalid_status.
Proof.
  destruct c as [memory len output|memory len offset output|buffer len output|buffer len offset| |n|n|output|output|];
    try destruct memory as [memory|]; try destruct buffer as [buffer|]; try destruct output as [output|];
    unfold run_call, slatedb_file_read, slatedb_file_pread, slatedb_file_write, slatedb_file_pwrite,
      into_buffer, read_buffer, write_buffer, buffer_slice; try destruct (len =? 0);
    cbn -[store_error]; rewrite ?store_error_run; eexists _, _; split; reflexivity.
Qed.

Lemma poisoned_calls cs rt h w last :
  exists xs last', run_calls cs (poisoned_handle rt h, w, last) =
      (xs, (poisoned_handle rt h, w, last')) /\
    Forall (fun x => reply_status x = Ok invalid_status) xs /\ length xs = length cs.
Proof.
  revert last. induction cs as [|c cs IH]; intros last; [by exists [], last|].
  destruct (poisoned_call c rt h w last) as (x & last1 & Hc & Hx).
  destruct (IH last1) as (xs & last2 & Hcs & Hxs & Hlen). cbn [run_calls]. rewrite Hc, Hcs.
  exists (x :: xs), last2. split_and!; [done|by constructor|by cbn; rewrite Hlen].
Qed.

(** A read that panics, through the exclusive guard and through the shared one. *)
Lemma short_read_poisons rt h l memory len n w last :
  wf_handle w h -> represents w h l -> up w -> valid_buffer memory len ->
  short_op w h (OpRead len) ->
  exists x w' last', run_call (FileRead memory len (Some n)) (live rt (Some h), w, last) =
      (x, (poisoned_handle rt (Some h), w', last')) /\
    reply_status x = Ok invalid_status /\ reply_output x = Some 0 /\ w' ≡ w.
Proof.
  intros Hwf Hrep Hu Hb [Hread Hshort].
  destruct (read_buffer_valid memory len Hb) as (slice & Hsl & Hlen & _).
  destruct (read_at_len h w l len (position h)) as (_ & _ & Hk & _ & Hkk);
    [done|apply Hb|apply (hw_position _ _ Hwf)|].
  set (k := read_len h len (position h)) in *.
  assert (Hk0 : k <> 0) by (destruct Hshort; lia).
  destruct (pread_short h (position h) (take (Z.to_nat k) slice) w) as (b & w' & Hw & _ & Hrun);
    [done..|apply (hw_position _ _ Hwf)|done| |].
  { by rewrite zlen_take, Hlen, Z.min_l, Hkk by lia. }
  assert (Hr : FileHandle.read (h, (slice, w)) =
    (Panic "slice index out of range", (h, (b ++ drop (Z.to_nat k) slice, w')))).
  { rewrite (handle_read_run _ _ _ (hw_size _ _ Hwf) (hw_position _ _ Hwf)). cbn zeta. rewrite Hlen. fold k.
    destruct (Z.eqb_spec k 0); [done|]. by rewrite Hrun. }
  pose proof (exclusive_panics (fun _ => FileHandle.read) rt h _ _ _ _ Hr) as Hex.
  rewrite run_read. unfold reading, bind, on_fst, on_snd.
  erewrite ffi_panic; [|cbn -[into_buffer]; unfold into_buffer; rewrite Hsl, Hex; reflexivity].
  eexists _, w', _. split; [reflexivity|]. done.
Qed.

Lemma short_pread_keeps rt h memory len offset n w last :
  wf_handle w h -> up w -> valid_buffer memory len -> is_u64 offset ->
  short_op w h (OpPread len offset) ->
  exists x w' last', run_call (FilePread memory len offset (Some n)) (live rt (Some h), w, last) =
      (x, (live rt (Some h), w', last')) /\
    reply_status x = Ok invalid_status /\ reply_output x = Some 0 /\ w' ≡ w /\ up w'.
Proof.
  intros Hwf Hu Hb Ho [Hread Hshort].
  destruct (read_buffer_valid memory len Hb) as (slice & Hsl & Hlen & _).
  destruct (pread_short h offset slice w) as (b & w' & Hw & Hu' & Hrun); [done..|by rewrite Hlen|].
  rewrite run_pread. unfold reading, bind, on_fst, on_snd.
  erewrite ffi_panic;
    [|cbn -[into_buffer]; unfold into_buffer; rewrite Hsl, shared_live, Hrun; reflexivity].
  eexists _, w', _. split; [reflexivity|]. done.
Qed.
End program.
