(* ===== verification/FfiProps.v ===== *)
(** * The C ABI: properties

    What a C caller may rely on, whatever the pointers, the store and the
    operation do: statuses and messages, handles that simulate files, handles
    lost to a panic, and the filesystems the constructors accept. *)

From S2P Require Import Prelude RustStd Error SlateDb MemDb ChunkStore ChunkManager.
From S2P Require Import ChunkManagerSpec FileMetadata FileSpec FileHandle FileHandleSpec.
From S2P Require Import FileRefinement.
From S2P Require Import FileProps DatabaseMetadata Cache FileSystem FileSystemSpec MemFs.
From S2P Require Import IoMetrics.
From S2P Require Import FileSystemProps HandleReads Ffi FfiSpec.
From S2P Require Flags.

#[local] Open Scope string_scope.
#[local] Open Scope list_scope.
#[local] Open Scope Z_scope.

(** ** Statuses *)

(** C29: no entry point unwinds into C: whatever its operation does, the call
    returns 0 exactly if the operation succeeded, else the code of its error,
    or that of an invalid argument after a panic, between 1 and 7; a failure
    stores its message, escaped so that it is a C string, and a success keeps
    the message there was. *)
Theorem calls_report_status {S} (operation : M Error S unit) s last :
  exists status last',
    ffi_result operation (s, last) = (Ok status, ((operation s).2, last')) /\
    match (operation s).1 with
    | Ok _ => status = 0 /\ last' = last
    | Err e => status = error_code_i32 (code e) /\ last' = escaped e
    | Panic p => status = invalid_status /\ last' = escaped (panic_error p)
    end /\
    (status = 0 <-> (operation s).1 = Ok tt) /\
    0 <= status <= 7 /\ (status <> 0 -> x00 ∉ slatedb_fs_last_error_message last').
Proof.
  destruct (operation s) as [r s'] eqn:Hop. cbn [fst snd].
  destruct r as [[]|e|p].
  - exists 0, last. rewrite (ffi_ok operation s s' last Hop). split_and!; done.
  - exists (error_code_i32 (code e)), (escaped e). rewrite (ffi_err operation s e s' last Hop).
    pose proof (error_code_i32_range (code e)) as Hr.
    split_and!; [done..| |lia|lia|intros _; apply escaped_no_nul].
    split; [lia|done].
  - exists invalid_status, (escaped (panic_error p)).
    rewrite (ffi_panic operation s p s' last Hop).
    split_and!; [done..| |done|done|intros _; apply escaped_no_nul].
    done.
Qed.

(** ** Handles *)

Section handles.
Context {W Db Txn Reader Runtime : Type} `{World W} `{DbReadOps W Db} `{!DbReadLaws W Db}
  `{DbReadOps W Txn} `{!DbReadLaws W Txn} `{SlateDb W Db Txn} `{!SlateDbLaws W Db Txn}
  `{DbReadOps W Reader} `{!DbReadLaws W Reader} `{Clock W} `{!ClockLaws W}
  `{MetadataCodec} `{!MetadataCodecLaws}.
#[local] Abbreviation FfiHandle := (FfiFileHandle Runtime (SlateFileHandle Db Reader)).

(** C12: every sequence of C calls on a handle, opened or closed, behaves as on
    a plain file: the statuses, the counts and the bytes left in the caller's
    buffers are the specification's, as long as no call is a read that starts
    past the end of a short chunk. *)
Theorem c_calls_refine_file cs (p : option FfiHandle) f (w : W) last :
  denotes w p f -> up w -> Forall valid_call cs -> no_short_call cs (p, w, last) ->
  exists p' w' last', run_calls cs (p, w, last) = ((spec_calls cs f).1, (p', w', last')) /\
    denotes w' p' (spec_calls cs f).2 /\ up w'.
Proof.
  revert p f w last. induction cs as [|c cs IH]; intros p f w last Hden Hu Hv Hs.
  { by exists p, w, last. }
  apply Forall_cons in Hv as [Hv Hvs]. destruct Hs as [Hs Hss].
  destruct (step_call c p f w last Hden Hu Hv Hs)
    as (rt & h & -> & p1 & w1 & last1 & Hrun & Hden1 & Hu1 & _).
  rewrite Hrun in Hss. cbn [run_calls spec_calls]. rewrite Hrun.
  destruct (spec_call c f) as [x f1]. cbn [fst snd] in *.
  destruct (IH p1 f1 w1 last1 Hden1 Hu1 Hvs Hss) as (p2 & w2 & last2 & Hrun2 & Hden2 & Hu2).
  rewrite Hrun2. destruct (spec_calls cs f1) as [xs f2]. by exists p2, w2, last2.
Qed.

(** C23: a sequential read from the gap of a grown file costs the handle: the
    call reports an invalid argument, and so does every later call on that
    handle, syncs and closes included, so that what was staged can no longer
    reach the store; the same read with an offset keeps the handle usable. *)
Theorem short_read_poisons_handle rt (h : SlateFileHandle Db Reader) l memory len n (w : W) last :
  wf_handle w h -> represents w h l -> up w -> valid_buffer memory len ->
  short_op w h (OpRead len) ->
  exists x (p : option FfiHandle) w' last',
    run_call (FileRead memory len (Some n)) (live rt (Some h), w, last) = (x, (p, w', last')) /\
    reply_status x = Ok invalid_status /\ reply_output x = Some 0 /\ w' ≡ w /\
    (forall cs, exists xs last2, run_calls cs (p, w', last') = (xs, (p, w', last2)) /\
       length xs = length cs /\ Forall (fun x => reply_status x = Ok invalid_status) xs) /\
    (exists x2 w2 last2,
       run_call (FilePread memory len (position h) (Some n)) (live rt (Some h), w, last) =
         (x2, (live rt (Some h), w2, last2)) /\
       reply_status x2 = Ok invalid_status /\ w2 ≡ w /\ up w2).
Proof.
  intros Hwf Hrep Hu Hb Hs.
  destruct (short_read_poisons rt h l memory len n w last Hwf Hrep Hu Hb Hs)
    as (x & w' & last' & Hrun & Hst & Hout & Hw).
  exists x, (poisoned_handle rt (Some h)), w', last'. split_and!; [done..| |].
  - intros cs. destruct (poisoned_calls cs rt (Some h) w' last') as (xs & last2 & Hcs & Hxs & Hlen).
    by exists xs, last2.
  - destruct (short_pread_keeps rt h memory len (position h) n w last)
      as (x2 & w2 & last2 & Hrun2 & Hst2 & _ & Hw2 & Hu2); [done..|exact (hw_position _ _ Hwf)|done|].
    by exists x2, w2, last2.
Qed.
End handles.

(** ** Creating filesystems *)

Section creating.
Context {W Db Txn Reader Operator Store CacheT Recorder IoRef Runtime F : Type}.
Context `{SlateDb W Db Txn} `{DbReadOps W Db} `{DbReadOps W Txn} `{DbReadOps W Reader}.
Context `{SlateDbOpen W Db Reader Store CacheT Recorder} `{CacheLib CacheT}.
Context `{Opendal W Operator Store Recorder IoRef} `{FfiEnv W Runtime Recorder IoRef F}.
#[local] Abbreviation FS := (SlateDbFileSystem Db Reader Store CacheT Recorder IoRef).
#[local] Abbreviation FfiFs := (FfiFileSystem Runtime FS).

(** The three constructors. *)
Inductive Storage :=
  | MemoryStorage
  | LocalStorage (root : c_str)
  | S3Storage (config : option FfiS3Config).
Definition create_on (s : Storage) (cache : option FfiCacheConfig) (rt : option FfiRuntimeConfig)
    : M Empty_set (option (option FfiFs) * W * list byte) Z :=
  match s with
  | MemoryStorage => slatedb_fs_create_memory cache rt
  | LocalStorage root => slatedb_fs_create_local root cache rt
  | S3Storage config => slatedb_fs_create_s3 config cache rt
  end.

(** A persistent cache has room, in parts of whole KiB. *)
Definition sound_cache (config : CacheConfig) : Prop :=
  is_Some (Cache.persistent_cache_path config) ->
  Cache.persistent_cache_size_bytes config <> 0 /\
  Cache.persistent_cache_part_size_bytes config <> 0 /\
    (1024 | Cache.persistent_cache_part_size_bytes config) /\
  Cache.persistent_cache_path config <> Some [].

(** tokio panics on a thread count of zero. *)
Definition sound_builder (b : RuntimeBuilder) : Prop :=
  worker_threads b <> Some 0 /\ max_blocking_threads b <> Some 0 /\ all_enabled b = true.

Lemma parse_cache_config_sound config c : parse_cache_config config = Ok c -> sound_cache c.
Proof.
  unfold parse_cache_config, sound_cache. destruct config as [config|]; [|intros [= <-]; by intros []].
  destruct (optional_string _ _) as [path|e|m] eqn:Hpath; [|done..]. cbn [res_bind].
  destruct (usize_try_from _ _) as [size|e|m]; [|done..]. cbn [res_bind].
  destruct (usize_try_from _ _) as [part|e|m]; [|done..]. cbn [res_bind].
  assert (Hne : path <> Some []).
  { unfold optional_string in Hpath. destruct (persistent_cache_path config) as [p|]; [|congruence].
    destruct (negb _); [done|]. case_bool_decide; congruence. }
  case_bool_decide as Hp.
  - destruct (Z.eqb_spec size 0) as [|Hs]; [done|].
    destruct (Z.eqb_spec part 0) as [|Hpt]; [done|]. cbn [orb].
    destruct (Z.eqb_spec (part mod 1024) 0) as [Hm|]; [|done]. cbn [negb res_bind].
    destruct (if cache_shards config =? 0 then _ else _) as [sh|e|m]; [|done..]. intros [= <-] _.
    split_and!; [done|done|by apply Z.mod_divide|done].
  - cbn [res_bind]. destruct (if cache_shards config =? 0 then _ else _) as [sh|e|m]; [|done..].
    by intros [= <-].
Qed.

Lemma parse_runtime_config_sound config c :
  parse_runtime_config config = Ok c ->
  config_async_threads c <> Some 0 /\ config_blocking_threads c <> Some 0.
Proof.
  assert (Hopt : forall v n o, optional_thread_count v n = Ok o -> o <> Some 0).
  { intros v n o. unfold optional_thread_count, usize_try_from.
    destruct (Z.eqb_spec v 0); [by intros [= <-]|]. destruct (_ <=? _); [|done].
    intros [= <-]. congruence. }
  unfold parse_runtime_config. destruct config as [config|]; [|by intros [= <-]].
  destruct (optional_thread_count _ _) as [a|e|m] eqn:Ha; [|done..]. cbn [res_bind].
  destruct (optional_thread_count (blocking_threads config) _) as [b|e|m] eqn:Hb; [|done..].
  intros [= <-]. cbn. eauto.
Qed.

Lemma create_runtime_inv config (w : W) rt w' :
  config_async_threads config <> Some 0 -> config_blocking_threads config <> Some 0 ->
  create_runtime config w = (Ok rt, w') ->
  exists b, runtime_build b w = (Ok rt, w') /\ sound_builder b.
Proof.
  intros Ha Hb. unfold create_runtime. set (b := enable_all _). destruct (runtime_build b w) as [r w1] eqn:Hr.
  intros [= Hok <-]. apply try_from_ok in Hok as ->. exists b. split; [done|].
  subst b. by destruct (config_async_threads config), (config_blocking_threads config).
Qed.

Definition fresh_fs (config : CacheConfig) (f : FS) : Prop :=
  closed f = false /\ databases f = ∅ /\ database_path f = DATABASE_PATH /\ cache_config f = config.

Lemma open_with_cache_config_fresh operator config (w : W) f w' :
  open_with_cache_config DATABASE_PATH operator config w = (Ok f, w') -> fresh_fs config f.
Proof.
  unfold open_with_cache_config. rewrite bool_decide_false by done.
  destruct (new_metrics w) as [metrics w1]. destruct (new_recorder w1) as [recorder w2].
  by intros [= <- <-].
Qed.

(** What a constructor hands out, from the configurations it was given. *)
Definition handed_out (cache : option FfiCacheConfig) (w : W) (f : FfiFs) : Prop :=
  (exists c, parse_cache_config cache = Ok c /\ sound_cache c /\ fresh_fs c (fs f)) /\
  exists b w', runtime_build b w = (Ok (runtime f), w') /\ sound_builder b.

Definition creates (cache : option FfiCacheConfig) (w : W)
    (done : Result unit * (option (option FfiFs) * W)) : Prop :=
  match done with
  | (Ok _, (out, _)) => exists f, out = Some (Some f) /\ handed_out cache w f
  | (_, (out, _)) => out = Some None
  end.

Lemma creates_status cache w op s last :
  creates cache w (op s) ->
  exists status out w' last', ffi_result op (s, last) = (Ok status, (Some out, w', last')) /\
    match out with
    | Some f => status = 0 /\ last' = last /\ handed_out cache w f
    | None => 1 <= status <= 7
    end.
Proof.
  destruct (op s) as [r [out w']] eqn:Hop. intros Hc. cbn in Hc. destruct r as [[]|e|p].
  - destruct Hc as (f & -> & Hf). exists 0, (Some f), w', last.
    by rewrite (ffi_ok op s _ last Hop).
  - subst out. exists (error_code_i32 (code e)), None, w', (escaped e).
    rewrite (ffi_err op s e _ last Hop). split; [done|apply error_code_i32_range].
  - subst out. exists invalid_status, None, w', (escaped (panic_error p)).
    by rewrite (ffi_panic op s p _ last Hop).
Qed.

(** The end of each constructor: the runtime, then the filesystem. *)
Lemma creates_tail rt rtc cache c (opening : M Error W FS) (w : W) :
  parse_runtime_config rt = Ok rtc -> parse_cache_config cache = Ok c ->
  (forall w f w', opening w = (Ok f, w') -> fresh_fs c f) ->
  creates cache w
    ((let! runtime := on_snd (create_runtime rtc) in
      let! fs := on_snd (block_on runtime opening) in
      on_fst (assign (Some {| runtime := runtime; fs := fs |}))) (Some None, w)).
Proof.
  intros Hrt Hc Hopen. unfold bind, on_snd, on_fst, block_on. cbn [fst snd].
  destruct (create_runtime rtc w) as [[r|e|p] w1] eqn:Hrun; [|done..]. cbn [fst snd].
  destruct (opening w1) as [[f|e|p] w2] eqn:Ho; [|done..]. cbn.
  eexists. split; [done|]. split.
  - exists c. split_and!; [done|by eapply parse_cache_config_sound|by eapply Hopen].
  - apply parse_runtime_config_sound in Hrt as [Ha Hb].
    apply create_runtime_inv in Hrun as (b & Hb' & Hsound); [|done..]. by exists b, w1.
Qed.

Lemma s3_fresh config c (w : W) f w' :
  open_s3_with_cache_config DATABASE_PATH config c w = (Ok f, w') -> fresh_fs c f.
Proof.
  unfold open_s3_with_cache_config, bind, lift.
  destruct (build_s3_operator config); [|done..]. apply open_with_cache_config_fresh.
Qed.

Lemma memory_fresh c (w : W) f w' :
  open_in_memory_with_cache_config DATABASE_PATH c w = (Ok f, w') -> fresh_fs c f.
Proof.
  unfold open_in_memory_with_cache_config, bind, lift.
  destruct (new_operator _ _); [|done..]. by apply open_with_cache_config_fresh.
Qed.

Lemma local_fresh root c (w : W) f w' :
  open_local_with_cache_config DATABASE_PATH root c w = (Ok f, w') -> fresh_fs c f.
Proof.
  unfold open_local_with_cache_config, bind, lift.
  destruct (negb (utf8_valid root)); [done|].
  destruct (create_dir_all root w) as [r w1].
  destruct (try_from (from_io_error unknown_location) r); [|done..].
  destruct (negb (utf8_valid _)); [done|].
  destruct (new_operator _ _); [|done..]. by apply open_with_cache_config_fresh.
Qed.

(** C36: a constructor returns 0 exactly if it hands out a filesystem: an open
    one without databases, with the caches asked for; a persistent cache is
    only accepted with a size and with parts of whole KiB, and no runtime is
    built with zero threads; on a failure the output is null. *)
Theorem created_filesystem_is_sound s cache rt out (w : W) last :
  exists status out' w' last',
    create_on s cache rt (Some out, w, last) = (Ok status, (Some out', w', last')) /\
    match out' with
    | Some f => status = 0 /\ last' = last /\ handed_out cache w f
    | None => 1 <= status <= 7
    end.
Proof.
  destruct s as [|root|config]; apply (creates_status cache w);
    unfold bind at 1 2, on_fst at 1 2, require_output, assign, put_state; cbn [fst snd];
    unfold bind at 1, lift at 1; destruct (parse_runtime_config rt) as [rtc|e|p] eqn:Hrt;
    try done; unfold bind at 1, lift at 1.
  - destruct (parse_cache_config cache) as [c|e|p] eqn:Hc; try done.
    apply (creates_tail rt rtc cache c); [done..|]. apply memory_fresh.
  - destruct (require_path root "local root") as [r|e|p]; try done.
    case_bool_decide; [done|]. unfold bind at 1, lift at 1.
    destruct (parse_cache_config cache) as [c|e|p] eqn:Hc; try done.
    apply (creates_tail rt rtc cache c); [done..|]. apply local_fresh.
  - destruct (require_s3_config config) as [r|e|p]; try done. unfold bind at 1, lift at 1.
    destruct (parse_cache_config cache) as [c|e|p] eqn:Hc; try done.
    apply (creates_tail rt rtc cache c); [done..|]. apply s3_fresh.
Qed.
End creating.

(** ** At concrete inputs *)

Definition ex_ffi_program : list HandleCall :=
  [FileWrite (Some (bytes_of "hello world")) 11 (Some 7); FileSeek 4;
   FileRead (Some (zeros 16)) 16 (Some 0); FileSync; FileTruncate 5; FileGetSize (Some 0);
   FilePread (Some (bytes_of "....")) 3 1 (Some 0); FileClose; FileSeek 1; FileClose].

Lemma ex_ffi_denotes : denotes ex_file_world (live tt (Some ex_handle)) (Some (abs ex_handle [])).
Proof. destruct ex_represents. by apply denotes_live. Qed.

(** The four bytes ahead of the caller's own. *)
Lemma c_calls_refine_file_witness :
  exists s, run_calls ex_ffi_program (live tt (Some ex_handle), ex_file_world, []) =
      ((spec_calls ex_ffi_program (Some (abs ex_handle []))).1, s) /\
    nth_error (spec_calls ex_ffi_program (Some (abs ex_handle []))).1 6 =
      Some {| reply_status := Ok 0; reply_memory := Some (bytes_of "ell."); reply_output := Some 3 |}.
Proof.
  destruct (c_calls_refine_file ex_ffi_program (live tt (Some ex_handle)) (Some (abs ex_handle []))
    ex_file_world [] ex_ffi_denotes eq_refl) as (p & w & last & Hrun & _).
  - repeat constructor; by eexists || by vm_compute.
  - apply (bool_decide_unpack _). by vm_compute.
  - rewrite Hrun. eexists. split; [reflexivity|by vm_compute].
Defined.

(** "abc" staged in a file grown to eight bytes, positioned in the gap. *)
Definition ex_gap_ops : list Op := [OpWrite (bytes_of "abc"); OpTruncate 8; OpSeek 5].
Definition ex_gap : ExHandle * MemWorld := (run_ops ex_gap_ops ex_handle ex_file_world).2.

Lemma ex_gap_represents : exists l, wf_handle ex_gap.2 ex_gap.1 /\ represents ex_gap.2 ex_gap.1 l.
Proof.
  destruct ex_represents as [Hwf Hrep]. unfold ex_gap.
  destruct (run_ops _ _ _) as [xs [h w]] eqn:Hr. cbn [snd fst].
  assert (Hok : is_Some (run_ops ex_gap_ops ex_handle ex_file_world).1) by (vm_compute; eauto).
  rewrite Hr in Hok. destruct Hok as [ys Hys]. cbn [fst] in Hys. subst xs.
  destruct (run_refines ex_gap_ops ex_handle [] ex_file_world ys h w Hwf Hrep eq_refl
    ltac:(repeat constructor; by vm_compute) Hr) as (l & _ & _ & ? & ? & _).
  by exists l.
Qed.
Lemma ex_gap_up : up ex_gap.2.
Proof. by vm_compute. Qed.
Lemma ex_gap_short : short_op ex_gap.2 ex_gap.1 (OpRead 2).
Proof. apply (bool_decide_unpack _). by vm_compute. Qed.

(** The bytes "abc" are lost: the close that would have saved them is refused. *)
Lemma short_read_poisons_handle_witness :
  exists x (p : option (FfiFileHandle unit ExHandle)) w' last' xs s,
    run_call (FileRead (Some (zeros 2)) 2 (Some 0)) (live tt (Some ex_gap.1), ex_gap.2, []) =
      (x, (p, w', last')) /\
    run_calls [FileSync; FileClose] (p, w', last') = (xs, s) /\
    Forall (fun x => reply_status x = Ok invalid_status) xs.
Proof.
  destruct ex_gap_represents as (l & Hwf & Hrep).
  assert (Hb : valid_buffer (Some (zeros 2)) 2) by (split; by vm_compute).
  destruct (short_read_poisons_handle tt ex_gap.1 l (Some (zeros 2)) 2 0 ex_gap.2 [] Hwf Hrep
    ex_gap_up Hb ex_gap_short) as (x & p & w' & last' & Hrun & _ & _ & _ & Hlater & _).
  destruct (Hlater [FileSync; FileClose]) as (xs & last2 & Hcs & _ & Hall).
  exists x, p, w', last', xs, (p, w', last2).
  split; [exact Hrun|split; [exact Hcs|exact Hall]].
Defined.
