(* ===== verification/FfiVolume.v ===== *)
(** * C programs against a volume

    A C program opens files of one filesystem, calls functions on its handles,
    closes and frees them, and removes, moves and looks up paths.  Each
    [slatedb_*] call of rust/src/ffi.rs is specified on the volume of
    VolumeSpec.v: its status, its outputs and the volume afterwards. *)

From S2P Require Import Prelude RustStd Error Keys SlateDb ChunkStore ChunkLayout.
From S2P Require Import ChunkManager ChunkManagerSpec FileMetadata FileSpec FileHandle.
From S2P Require Import FileHandleSpec FileRefinement Transactions DatabaseMetadata Locality.
From S2P Require Import DatabaseSpec DatabaseOps Cache FileSystem VolumeSpec GroupSpec.
From S2P Require Import FileSystemSpec FileSystemOps GroupFrame VolumeRun VolumeSteps.
From S2P Require Import Ffi FfiSpec.
From S2P Require Flags.

#[local] Open Scope Z_scope.

(** The calls; [n] is the variable that holds the pointer of a handle. *)
Inductive FsCall :=
  | FsOpen (n : nat) (path : c_str) (options : option FfiOpenOptions)
  | FsExists (path : c_str)
  | FsRemove (path : c_str)
  | FsMove (source target : c_str)
  | FsHandle (n : nat) (c : HandleCall)
  | FsDestroy (n : nat).

(** ** The specification *)

(** The volume, and the handles that were closed but not freed. *)
Abbreviation SpecState := (Volume * gset nat)%type.

(** A call whose arguments do not parse returns the status of the error. *)
Definition with_args {A} (args : Result A) (output : option Z) (s : SpecState)
    (k : A -> Reply * SpecState) : Reply * SpecState :=
  match args with
  | Ok a => k a
  | Err e => ({| reply_status := Ok (error_code_i32 (code e)); reply_memory := None;
                 reply_output := output |}, s)
  | Panic _ => ({| reply_status := Ok invalid_status; reply_memory := None;
                   reply_output := output |}, s)
  end.

Definition open_args (path : c_str) (options : option FfiOpenOptions)
    : Result (list byte * Flags.FileOpenFlags) :=
  let? path := require_path path "file path" in
  let? flags := require_options options in
  let? _ := Flags.validate flags in
  Ok (path, flags).

Definition move_args (source target : c_str) : Result (list byte * list byte) :=
  let? source := require_path source "source path" in
  let? target := require_path target "target path" in
  Ok (source, target).

Definition path_arg (path : c_str) : Result (list byte) := require_path path "file path".

Definition with_file (e : OpenFile) (f : File) : OpenFile :=
  {| open_path := open_path e; open_file := f; open_early := open_early e |}.

(** A call on the handle [n], open on [e]. *)
Definition spec_on_handle (n : nat) (c : HandleCall) (e : OpenFile) (s : SpecState)
    : Reply * SpecState :=
  let '(v, ended) := s in
  match spec_open_call c (VolumeSpec.open_file e) with
  | (x, Some f) =>
      let v := set_handles v (<[n := with_file e f]> (handles v)) in
      (x, (if bool_decide (c = FileSync) then spec_sync e v else v, ended))
  | (x, None) => (x, ((spec_close n v).2, {[n]} ∪ ended))
  end.

Definition spec_fs_call (c : FsCall) (s : SpecState) : Reply * SpecState :=
  let '(v, ended) := s in
  let status (r : Obs * Volume) := (spec_status (obs_status r.1), (r.2, ended)) in
  match c with
  | FsOpen n path options =>
      with_args (open_args path options) None s
        (fun '(path, flags) => status (spec_open n path flags v))
  | FsExists path =>
      with_args (path_arg path) (Some 0) s
        (fun path => ({| reply_status := Ok 0; reply_memory := None;
                         reply_output := Some (Z.b2z (bool_decide (is_Some (files v !! path)))) |}, s))
  | FsRemove path => with_args (path_arg path) None s (fun path => status (spec_remove path v))
  | FsMove source target =>
      with_args (move_args source target) None s
        (fun '(source, target) => status (spec_move source target v))
  | FsHandle n c =>
      match handles v !! n with
      | Some e => spec_on_handle n c e s
      | None => (spec_closed_call c, s)
      end
  | FsDestroy n => (spec_status 0, ((spec_close n v).2, ended ∖ {[n]}))
  end.

Fixpoint spec_fs_calls (cs : list FsCall) (s : SpecState) : list Reply * SpecState :=
  match cs with
  | [] => ([], s)
  | c :: cs =>
      let '(x, s) := spec_fs_call c s in
      let '(xs, s) := spec_fs_calls cs s in
      (x :: xs, s)
  end.

(** The command of a call, where its arguments are valid. *)
Definition admissible_args {A} (args : Result A) (P : A -> Prop) : Prop :=
  match args with Ok a => P a | _ => True end.

Definition admissible_call (c : FsCall) (s : SpecState) : Prop :=
  let '(v, ended) := s in
  match c with
  | FsOpen n path options =>
      n ∉ ended /\ admissible_args (open_args path options)
                     (fun a => admissible (CmdOpen n a.1 a.2) v)
  | FsExists path => admissible_args (path_arg path) (fun path => path <> [])
  | FsRemove path => admissible_args (path_arg path) (fun path => admissible (CmdRemove path) v)
  | FsMove source target =>
      admissible_args (move_args source target) (fun a => admissible (CmdMove a.1 a.2) v)
  | FsHandle n c => valid_call c /\ (n ∈ ended \/ is_Some (handles v !! n))
  | FsDestroy n => True
  end.

Fixpoint admissible_calls (cs : list FsCall) (s : SpecState) : Prop :=
  match cs with
  | [] => True
  | c :: cs => admissible_call c s /\ admissible_calls cs (spec_fs_call c s).2
  end.

#[global] Instance admissible_args_dec {A} (args : Result A) P `{!forall a, Decision (P a)} :
  Decision (admissible_args args P).
Proof. destruct args; cbn; apply _. Defined.
#[global] Instance valid_call_dec c : Decision (valid_call c).
Proof.
  assert (Hb : forall m len, Decision (valid_buffer m len)).
  { intros [m|] len; unfold valid_buffer, is_u64; apply _. }
  destruct c; cbn; unfold is_u64; apply _.
Defined.
#[global] Instance admissible_call_dec c s : Decision (admissible_call c s).
Proof. destruct s as [v ended], c; cbn -[admissible]; apply _. Defined.
#[global] Instance admissible_calls_dec cs s : Decision (admissible_calls cs s).
Proof. revert s. induction cs as [|c cs IH]; intros s; cbn; apply _. Defined.

(** ** Programs *)

Section program.
Context {W Db Txn Reader Store CacheT Recorder Metrics Runtime : Type}.
Context `{SlateDb W Db Txn} `{DbReadOps W Db} `{DbReadOps W Txn} `{DbReadOps W Reader}.
Context `{SlateDbOpen W Db Reader Store CacheT Recorder} `{CacheLib CacheT}.
Context `{Clock W} `{MetadataCodec}.
#[local] Abbreviation FS := (SlateDbFileSystem Db Reader Store CacheT Recorder Metrics).
#[local] Abbreviation FfiHandle := (FfiFileHandle Runtime (SlateFileHandle Db Reader)).
#[local] Abbreviation FfiFs := (FfiFileSystem Runtime FS).

(** The program's handle pointers, its filesystem, the world and the thread's
    last message. *)
#[local] Abbreviation State := (gmap nat FfiHandle * (option FfiFs * W) * list byte)%type.

Definition run_fs_call (c : FsCall) : State -> Reply * State :=
  let status r output := {| reply_status := r; reply_memory := None; reply_output := output |} in
  fun '(t, (p, w), last) =>
    match c with
    | FsOpen n path options =>
        let '(r, (out, s', last')) := slatedb_fs_open_file path options (Some None, (p, w), last) in
        (status r None,
         (match out with Some (Some h) => <[n := h]> t | _ => t end, s', last'))
    | FsExists path =>
        let '(r, (out, s', last')) := slatedb_fs_file_exists path (Some 0, (p, w), last) in
        (status r out, (t, s', last'))
    | FsRemove path =>
        let '(r, (s', last')) := slatedb_fs_remove_file path (p, w, last) in
        (status r None, (t, s', last'))
    | FsMove source target =>
        let '(r, (s', last')) := slatedb_fs_move_file source target (p, w, last) in
        (status r None, (t, s', last'))
    | FsHandle n c =>
        let '(x, (h, w', last')) := run_call c (t !! n, w, last) in
        (x, (partial_alter (fun _ => h) n t, (p, w'), last'))
    | FsDestroy n =>
        let '(w', last') := slatedb_file_destroy (t !! n) w last in
        (status (Ok 0) None, (delete n t, (p, w'), last'))
    end.

Fixpoint run_fs_calls (cs : list FsCall) (s : State) : list Reply * State :=
  match cs with
  | [] => ([], s)
  | c :: cs =>
      let '(x, s) := run_fs_call c s in
      let '(xs, s) := run_fs_calls cs s in
      (x :: xs, s)
  end.
End program.

(** ** The relation *)

Section relation.
Context {W Db Txn Reader Store CacheT Recorder Metrics Runtime : Type} `{World W} `{DbReadOps W Db}
  `{!DbReadLaws W Db} `{DbReadOps W Reader} `{!DbReadLaws W Reader}
  `{DbReadOps W Txn} `{!DbReadLaws W Txn} `{SlateDb W Db Txn} `{!SlateDbLaws W Db Txn}
  `{!SlateDbLocal W Db Txn} `{Clock W} `{!ClockLaws W} `{MetadataCodec} `{!MetadataCodecLaws}
  `{SlateDbOpen W Db Reader Store CacheT Recorder} `{CacheLib CacheT}
  `{!SlateDbOpenLaws W Db Reader Store CacheT Recorder}
  `{!SlateDbApart W Db Txn Reader Store CacheT Recorder}.
#[local] Abbreviation FS := (SlateDbFileSystem Db Reader Store CacheT Recorder Metrics).
#[local] Abbreviation Handle := (SlateFileHandle Db Reader).
#[local] Abbreviation FfiHandle := (FfiFileHandle Runtime Handle).
#[local] Abbreviation FfiFs := (FfiFileSystem Runtime FS).
#[local] Abbreviation State := (gmap nat FfiHandle * (option FfiFs * W) * list byte)%type.

(** A pointer is to the open handle [h], or to a closed one. *)
Definition points (p : option FfiHandle) (h : option Handle) (ended : bool) : Prop :=
  match h with
  | Some h => ended = false /\ exists rt, p = live rt (Some h)
  | None => if ended then exists rt, p = live rt None else p = None
  end.

(** The handles, and the runtime and filesystem behind the pointer. *)
Record c_related (s : State) (hs : gmap nat Handle) (rt : Runtime) (fs : FS) (v : Volume)
    (ended : gset nat) : Prop := {
  cr_volume : related s.1.2.2 fs hs v;
  cr_fs : s.1.2.1 = Some {| runtime := rt; Ffi.fs := fs |};
  cr_handles n : points (s.1.1 !! n) (hs !! n) (bool_decide (n ∈ ended))
}.

(** A call and its specification from related states; what is left is related
    again. *)
Definition c_stepped (c : FsCall) (s : State) (fs : FS) (v : Volume) (ended : gset nat) : Prop :=
  exists s' hs' rt' fs',
  run_fs_call c s = ((spec_fs_call c (v, ended)).1, s') /\
  c_related s' hs' rt' fs' (spec_fs_call c (v, ended)).2.1 (spec_fs_call c (v, ended)).2.2 /\
  goes_on 1 s.1.2.2 fs s'.1.2.2 fs'.

(** The call is a read that panics. *)
Definition short_fs_call (c : FsCall) (s : State) : Prop :=
  match c with
  | FsHandle n c => short_call c s.1.2.2 (s.1.1 !! n)
  | _ => False
  end.

Fixpoint no_short_fs_call (cs : list FsCall) (s : State) : Prop :=
  match cs with
  | [] => True
  | c :: cs => ~ short_fs_call c s /\ no_short_fs_call cs (run_fs_call c s).2
  end.

#[global] Instance short_fs_call_dec c s : Decision (short_fs_call c s).
Proof. destruct c; cbn; apply _. Defined.
#[global] Instance no_short_fs_call_dec cs s : Decision (no_short_fs_call cs s).
Proof. revert s. induction cs as [|c cs IH]; intros s; cbn [no_short_fs_call]; apply _. Defined.

(** ** Calls on paths *)

(** The status of a call is that of what the command shows. *)
Lemma status_of_out {S} (op : M Error S unit) s r s' x last :
  op s = (r, s') -> out (let? _ := r in Ok (OutObs OUnit)) = Some (OutObs x) ->
  exists last', ffi_result op (s, last) = (Ok (obs_status x), (s', last')).
Proof.
  intros Hop Hx. destruct r as [[]|e|p]; cbn in Hx; simplify_eq.
  - exists last. by apply ffi_ok.
  - exists (escaped e). by apply ffi_err.
Qed.

Lemma require_path_inv path name p : require_path path name <> Panic p.
Proof. unfold require_path. destruct path as [l|]; [|done]. by destruct (utf8_valid l). Qed.

Lemma move_args_inv source target p : move_args source target <> Panic p.
Proof.
  unfold move_args. destruct (require_path source _) as [a|e|m] eqn:Hs; cbn; [|done|].
  - destruct (require_path target _) as [b|e|m] eqn:Ht; cbn; [done..|].
    by destruct (require_path_inv target "target path" m).
  - by destruct (require_path_inv source "source path" m).
Qed.

(** A call that parses its arguments and runs an update on the filesystem. *)
Lemma volume_call {A} (args : Result A) (op : A -> M Error (FS * W) unit) (cmd : A -> Cmd)
  (spec : A -> Obs * Volume) (k : A -> Reply * SpecState) (body : M Error (option FfiFs * W) unit) rt (fs : FS) w (hs : gmap nat Handle)
  v ended last :
  let ffs := {| runtime := rt; Ffi.fs := fs |} in
  related w fs hs v -> (forall g, next_id (view w fs g) < u64_max) -> (forall m, args <> Panic m) ->
  body (Some ffs, w) = (let! a := lift args in with_fs ffs (op a)) (Some ffs, w) ->
  (forall a, run_cmd (cmd a) = on_volume (op a)) -> (forall a, ~ short_cmd w hs (cmd a)) ->
  (forall a, spec_cmd (cmd a) v = (OutObs (spec a).1, (spec a).2)) ->
  (forall a, k a = (spec_status (obs_status (spec a).1), ((spec a).2, ended))) ->
  admissible_args args (fun a => admissible (cmd a) v) ->
  exists x v' fs' w' last',
  ffi_result body (Some ffs, w, last) =
    (Ok x, (Some {| runtime := rt; Ffi.fs := fs' |}, w', last')) /\
  with_args args None (v, ended) k = (spec_status x, (v', ended)) /\
  related w' fs' hs v' /\ goes_on 1 w fs w' fs'.
Proof.
  intros ffs Hrl Hb Hnp Hbody Hcmd Hns Hspec Hk Ha. destruct args as [a|e|m]; [| |by destruct (Hnp m)].
  - destruct (op a (fs, w)) as [r [fs' w']] eqn:Hr. cbn in Ha.
    destruct (step_cmd (cmd a) w fs hs v (let? _ := r in Ok (OutObs OUnit)) hs fs' w')
      as (Hout & Hrl' & Hgo); [done..| |].
    { rewrite Hcmd. unfold on_volume, bind, on_snd. cbn [fst snd]. rewrite Hr. by destruct r. }
    rewrite Hspec in Hout, Hrl'. cbn [fst snd] in Hout, Hrl'.
    destruct (status_of_out body (Some ffs, w) r (Some {| runtime := rt; Ffi.fs := fs' |}, w')
      (spec a).1 last) as [last' Hc]; [|done|].
    { rewrite Hbody. unfold bind, lift, with_fs. cbn. by rewrite Hr. }
    exists (obs_status (spec a).1), (spec a).2, fs', w', last'. cbn [with_args]. by rewrite Hk.
  - exists (error_code_i32 (code e)), v, fs, w, (escaped e).
    split_and!; [|done|done|by apply goes_on_refl]. apply ffi_err. by rewrite Hbody.
Qed.

Lemma step_fs_remove path (s : State) hs rt fs v ended :
  c_related s hs rt fs v ended -> (forall g, next_id (view s.1.2.2 fs g) < u64_max) ->
  admissible_call (FsRemove path) (v, ended) ->
  c_stepped (FsRemove path) s fs v ended.
Proof.
  destruct s as [[t [p w]] last]. intros [Hrl Hfs Hh] Hb Ha. cbn [fst snd] in *. subst p.
  set (k := fun path : list byte =>
    (spec_status (obs_status (spec_remove path v).1), ((spec_remove path v).2, ended))).
  destruct (volume_call (path_arg path) FileSystem.remove_file CmdRemove (fun path => spec_remove path v)
    k (let! self := on_fst require_fs in
       let! path := lift (require_path path "file path") in
       with_fs self (block_on (runtime self) (FileSystem.remove_file path)))
    rt fs w hs v ended last Hrl Hb (require_path_inv path "file path"))
    as (x & v' & fs' & w' & last' & Hc & Hs & Hrl' & Hgo); [done|done|by intros ? []| |done|exact Ha|].
  { intros q. cbn. by destruct (spec_remove q v). }
  exists (t, (Some {| runtime := rt; Ffi.fs := fs' |}, w'), last'), hs, rt, fs'.
  cbn [run_fs_call spec_fs_call fst snd]. change (with_args _ _ _ _) with (with_args (path_arg path) None (v, ended) k).
  rewrite Hs. unfold slatedb_fs_remove_file. rewrite Hc. by split_and!.
Qed.

Lemma step_fs_move source target (s : State) hs rt fs v ended :
  c_related s hs rt fs v ended -> (forall g, next_id (view s.1.2.2 fs g) < u64_max) ->
  admissible_call (FsMove source target) (v, ended) ->
  c_stepped (FsMove source target) s fs v ended.
Proof.
  destruct s as [[t [p w]] last]. intros [Hrl Hfs Hh] Hb Ha. cbn [fst snd] in *. subst p.
  destruct (volume_call (move_args source target) (fun a => FileSystem.move_file a.1 a.2)
    (fun a => CmdMove a.1 a.2) (fun a => spec_move a.1 a.2 v)
    (fun '(source, target) =>
       (spec_status (obs_status (spec_move source target v).1), ((spec_move source target v).2, ended)))
    (let! self := on_fst require_fs in
     let! source := lift (require_path source "source path") in
     let! target := lift (require_path target "target path") in
     with_fs self (block_on (runtime self) (FileSystem.move_file source target)))
    rt fs w hs v ended last Hrl Hb)
    as (x & v' & fs' & w' & last' & Hc & Hs & Hrl' & Hgo).
  { apply move_args_inv. }
  { unfold move_args, bind, on_fst, lift. cbn. destruct (require_path source _); [|done..].
    by destruct (require_path target _). }
  { done. }
  { by intros ? []. }
  { intros [a b]. cbn. by destruct (spec_move a b v). }
  { by intros [a b]. }
  { exact Ha. }
  exists (t, (Some {| runtime := rt; Ffi.fs := fs' |}, w'), last'), hs, rt, fs'.
  cbn [run_fs_call spec_fs_call fst snd]. rewrite Hs. unfold slatedb_fs_move_file. rewrite Hc.
  by split_and!.
Qed.

Lemma step_fs_exists path (s : State) hs rt fs v ended :
  c_related s hs rt fs v ended -> (forall g, next_id (view s.1.2.2 fs g) < u64_max) ->
  admissible_call (FsExists path) (v, ended) -> c_stepped (FsExists path) s fs v ended.
Proof.
  destruct s as [[t [p w]] last]. intros [Hrl Hfs Hh] Hb Ha. cbn [fst snd] in *. subst p.
  set (ffs := {| runtime := rt; Ffi.fs := fs |}). cbn in Ha. unfold c_stepped.
  cbn [run_fs_call spec_fs_call fst snd]. unfold slatedb_fs_file_exists, path_arg in *.
  destruct (require_path path "file path") as [q|e|m] eqn:Hq; [| |by destruct (require_path_inv path "file path" m)].
  - destruct (FileSystem.file_exists q (fs, w)) as [r [fs' w']] eqn:Hr.
    destruct (step_exists q w fs hs v (let? b := r in Ok (OutBool b)) hs fs' w') as (Hout & Hrl' & Hgo);
      [done..| |].
    { cbn [run_cmd]. unfold bind, on_snd. cbn [fst snd]. rewrite Hr. by destruct r. }
    destruct r as [b|e|m]; [|done..]. injection Hout as ->.
    erewrite ffi_ok; cycle 1.
    { unfold bind, on_fst, on_snd, lift, with_fs, block_on. cbn. rewrite Hr. done. }
    exists (t, (Some {| runtime := rt; Ffi.fs := fs' |}, w'), last), hs, rt, fs'. by split_and!.
  - erewrite ffi_err; cycle 1.
    { done. }
    exists (t, (Some ffs, w), escaped e), hs, rt, fs. split_and!; [done|done|by apply goes_on_refl].
Qed.

Lemma open_args_inv path options :
  match open_args path options with
  | Ok (q, flags) => require_path path "file path" = Ok q /\ require_options options = Ok flags
  | Err e => require_path path "file path" = Err e \/
      exists q, require_path path "file path" = Ok q /\ (require_options options = Err e \/
        exists flags, require_options options = Ok flags /\ Flags.validate flags = Err e)
  | Panic _ => False
  end.
Proof.
  unfold open_args. destruct (require_path path _) as [q|e|m] eqn:Hq; cbn [res_bind];
    [|by left|by destruct (require_path_inv path "file path" m)].
  destruct (require_options options) as [flags|e|m] eqn:Ho; cbn [res_bind].
  - destruct (Flags.validate_inv flags) as [->|(e & He & _)]; cbn [res_bind]; [done|].
    rewrite He. cbn [res_bind]. right. exists q. split; [done|]. right. by exists flags.
  - right. exists q. by auto.
  - by destruct options.
Qed.

(** The calls of an open, with arguments that parse and that do not. *)
Lemma fs_open_run path options n q flags (fs : FS) w (rt : Runtime) last r fs' w' :
  require_path path "file path" = Ok q -> require_options options = Ok flags ->
  FileSystem.open_file q flags (fs, w) = (r, (fs', w')) -> is_panic r = false ->
  exists last', slatedb_fs_open_file path options
    (Some n, (Some {| runtime := rt; Ffi.fs := fs |}, w), last) =
    (Ok (match r with Err e => error_code_i32 (code e) | _ => 0 end),
     (Some (match r with Ok h => live rt (Some h) | _ => None end),
      (Some {| runtime := rt; Ffi.fs := fs' |}, w'), last')).
Proof.
  intros Hq Ho Hr Hp. unfold slatedb_fs_open_file. destruct r as [h|e|m]; [| |done].
  - exists last. erewrite ffi_ok; [done|]. unfold bind, on_fst, on_snd, lift, with_fs, block_on.
    cbn -[FileSystem.open_file]. rewrite Hq, Ho. cbn -[FileSystem.open_file]. by rewrite Hr.
  - exists (escaped e). erewrite ffi_err; [done|]. unfold bind, on_fst, on_snd, lift, with_fs, block_on.
    cbn -[FileSystem.open_file]. rewrite Hq, Ho. cbn -[FileSystem.open_file]. by rewrite Hr.
Qed.

Lemma open_refused_run path options e n (fs : FS) w (rt : Runtime) last :
  open_args path options = Err e ->
  exists last', slatedb_fs_open_file path options
    (Some n, (Some {| runtime := rt; Ffi.fs := fs |}, w), last) =
    (Ok (error_code_i32 (code e)), (Some (None : option FfiHandle),
      (Some {| runtime := rt; Ffi.fs := fs |}, w), last')).
Proof.
  intros He. pose proof (open_args_inv path options) as Hinv. rewrite He in Hinv. exists (escaped e).
  unfold slatedb_fs_open_file. erewrite ffi_err; [done|].
  unfold bind, on_fst, on_snd, lift, with_fs, block_on. cbn.
  destruct Hinv as [->|(q & -> & [->|(flags & -> & Hf)])]; [done..|]. cbn.
  unfold FileSystem.open_file, bind, lift. by rewrite Hf.
Qed.

Lemma step_fs_open n path options (s : State) hs rt fs v ended :
  c_related s hs rt fs v ended -> (forall g, next_id (view s.1.2.2 fs g) < u64_max) ->
  admissible_call (FsOpen n path options) (v, ended) -> c_stepped (FsOpen n path options) s fs v ended.
Proof.
  destruct s as [[t [p w]] last]. intros [Hrl Hfs Hh] Hb [Hn Ha]. cbn [fst snd] in *. subst p.
  unfold c_stepped. cbn [run_fs_call spec_fs_call fst snd]. pose proof (open_args_inv path options) as Hinv.
  destruct (open_args path options) as [[q flags]|e|m] eqn:Harg; [| |done]; cbn [with_args].
  - destruct Hinv as [Hq Ho]. cbn [admissible_args fst snd] in Ha.
    destruct (FileSystem.open_file q flags (fs, w)) as [r [fs' w']] eqn:Hr.
    destruct (run_cmd (CmdOpen n q flags) (hs, (fs, w))) as [rc [hs' [fsc wc]]] eqn:Hrc.
    destruct (step_cmd (CmdOpen n q flags) w fs hs v rc hs' fsc wc) as (Hout & Hrl' & Hgo);
      [done|done|by intros []|done|done|].
    cbn [run_cmd] in Hrc. rewrite Hr in Hrc. cbn [spec_cmd] in Hout, Hrl'.
    destruct (spec_open n q flags v) as [x v']. cbn [fst snd] in *.
    destruct (fs_open_run path options None q flags fs w rt last r fs' w') as [last' Hc]; [done..| |].
    { destruct r; [done..|]. injection Hrc as <- <- <- <-. done. }
    rewrite Hc. destruct r as [h|e|m]; injection Hrc as <- <- <- <-; [| |done]; cbn in Hout;
      injection Hout as <-.
    + eexists (<[n := _]> t, (Some {| runtime := rt; Ffi.fs := fs' |}, w'), last'), _, rt, fs'.
      split_and!; [done| |done]. split; [done..|]. intros k. cbn [fst snd].
      destruct (decide (k = n)) as [->|Hne].
      * rewrite !lookup_insert_eq, bool_decide_false by done. split; [done|]. by exists rt.
      * by rewrite !lookup_insert_ne.
    + by exists (t, (Some {| runtime := rt; Ffi.fs := fs' |}, w'), last'), hs, rt, fs'.
  - destruct (open_refused_run path options e None fs w rt last Harg) as [last' Hc]. rewrite Hc.
    exists (t, (Some {| runtime := rt; Ffi.fs := fs |}, w), last'), hs, rt, fs.
    split_and!; [done|done|by apply goes_on_refl].
Qed.

(** ** Calls on handles *)

Lemma open_call_some c f : c <> FileClose -> exists x f', spec_open_call c f = (x, Some f').
Proof.
  intros Hc. destruct c; cbn [spec_open_call]; try done;
    try (match goal with |- context [spec_step ?o f] => destruct (spec_step o f) end); eauto.
Qed.

(** A call on handle [n] leaves the table [hs'], which differs at [n] only. *)
Definition on_handle (n : nat) (c : HandleCall) (p : option FfiHandle) (w : W) (last : list byte) (fs : FS)
    (hs : gmap nat Handle) (x : Reply) (s' : SpecState) : Prop :=
  exists p' w' last' hs',
  run_call c (p, w, last) = (x, (p', w', last')) /\ related w' fs hs' s'.1 /\
  points p' (hs' !! n) (bool_decide (n ∈ s'.2)) /\ (forall k, k <> n -> hs' !! k = hs !! k) /\
  goes_on 1 w fs w' fs.

Lemma on_closed n c rt w last (fs : FS) (hs : gmap nat Handle) v ended :
  related w fs hs v -> hs !! n = None -> n ∈ ended -> valid_call c ->
  on_handle n c (live rt None) w last fs hs (spec_closed_call c) (v, ended).
Proof.
  intros Hrl Hh Hn Hv.
  assert (Hden : denotes w (live rt None : option FfiHandle) None) by by exists rt, None.
  destruct (step_call c _ None w last Hden (rl_up _ _ _ _ Hrl) Hv)
    as (rt' & h & Heq & p' & w' & last' & Hrun & _ & _ & Heff).
  { by intros (? & ? & ? & _). }
  injection Heq as <- <-. destruct Heff as [-> ->].
  exists (live rt None), w, last', hs. split_and!; [exact Hrun|done| |done|by apply goes_on_refl].
  cbn [snd]. rewrite Hh, bool_decide_true by done. by exists rt.
Qed.

(** A call that stages. *)
Lemma on_staging n c rt w last (fs : FS) (hs : gmap nat Handle) v ended h e l :
  related w fs hs v -> hs !! n = Some h -> handles v !! n = Some e -> attached w fs h e l ->
  n ∉ ended -> c <> FileSync -> c <> FileClose ->
  simulates c (Some (abs h l)) rt (Some h) w last ->
  on_handle n c (live rt (Some h)) w last fs hs (spec_on_handle n c e (v, ended)).1
    (spec_on_handle n c e (v, ended)).2.
Proof.
  intros Hrl Hh He Hat Hn Hns Hnc (p' & w' & last' & Hrun & Hden & Hu' & Heff).
  assert (Hst : exists h', p' = live rt (Some h') /\ stages w h w' h') by (by destruct c).
  destruct Hst as (h' & -> & Hst). unfold spec_on_handle. rewrite (at_file _ _ _ _ _ Hat).
  cbn [spec_call] in Hrun, Hden. destruct (open_call_some c (abs h l) Hnc) as (x & f & Hs).
  rewrite Hs in Hrun, Hden |- *. rewrite bool_decide_false by done. cbn [fst snd] in *.
  destruct Hden as (rt' & h1 & [= <- <-] & l' & Hwf' & Hrep' & ->).
  destruct (staged_handle n w fs hs v h e l h' l' w') as [Hrl' Hgo]; [done..|].
  exists (live rt (Some h')), w', last', (<[n := h']> hs). split_and!; [done|done| | |done].
  - rewrite lookup_insert_eq, bool_decide_false by done. split; [done|]. by exists rt.
  - intros k Hk. by rewrite lookup_insert_ne.
Qed.

(** A sync, and a close. *)
Lemma on_writing n c rt w last (fs : FS) (hs : gmap nat Handle) v ended h e l :
  related w fs hs v -> hs !! n = Some h -> handles v !! n = Some e -> attached w fs h e l ->
  n ∉ ended -> c = FileSync \/ c = FileClose ->
  simulates c (Some (abs h l)) rt (Some h) w last ->
  on_handle n c (live rt (Some h)) w last fs hs (spec_on_handle n c e (v, ended)).1
    (spec_on_handle n c e (v, ended)).2.
Proof.
  intros Hrl Hh He Hat Hn Hc (p' & w' & last' & Hrun & _ & _ & Heff).
  assert (Hsync : exists h', sync (h, w) = (Ok tt, (h', w')) /\
    p' = live rt (if bool_decide (c = FileSync) then Some h' else None)).
  { destruct Hc as [->| ->]; destruct Heff as (h' & -> & Hs); by exists h'. }
  destruct Hsync as (h' & Hs & ->).
  destruct (sync_step w fs hs v n h e l _ h' w' Hrl Hh He Hat Hs) as (_ & Hrl' & Hgo).
  unfold spec_on_handle. rewrite (at_file _ _ _ _ _ Hat). destruct Hc as [->| ->]; cbn in Hrun |- *.
  - exists (live rt (Some h')), w', last', (<[n := h']> hs). split_and!; [exact Hrun| | | |done].
    + replace (with_file e (abs h l)) with e by (rewrite <-(at_file _ _ _ _ _ Hat); by destruct e).
      rewrite (insert_id (handles v)), bool_decide_true by done. by destruct v.
    + rewrite lookup_insert_eq, bool_decide_false by done. split; [done|]. by exists rt.
    + intros k Hk. by rewrite lookup_insert_ne.
  - exists (live rt None), w', last', (delete n hs). split_and!; [exact Hrun| | | |done].
    + unfold spec_close. rewrite He. apply (related_delete _ _ _ _ n) in Hrl'.
      by rewrite delete_insert_eq in Hrl'.
    + rewrite lookup_delete_eq, bool_decide_true by set_solver. by exists rt.
    + intros k Hk. by rewrite lookup_delete_ne.
Qed.

Lemma on_any_handle n c p w last (fs : FS) (hs : gmap nat Handle) v ended :
  related w fs hs v -> points p (hs !! n) (bool_decide (n ∈ ended)) -> valid_call c ->
  n ∈ ended \/ is_Some (handles v !! n) -> ~ short_call c w p ->
  on_handle n c p w last fs hs (spec_fs_call (FsHandle n c) (v, ended)).1
    (spec_fs_call (FsHandle n c) (v, ended)).2.
Proof.
  intros Hrl Hp Hv Hn Hs. cbn [spec_fs_call]. pose proof (rl_handles _ _ _ _ Hrl n) as Hslot.
  destruct (hs !! n) as [h|] eqn:Hh; cbn [points] in Hp.
  - destruct Hp as [Hne [rt ->]]. apply bool_decide_eq_false in Hne.
    destruct (handles v !! n) as [e|] eqn:He; [|done]. destruct Hslot as [l Hat].
    assert (Hden : denotes w (live rt (Some h) : option FfiHandle) (Some (abs h l))).
    { apply denotes_live; apply Hat. }
    destruct (step_call c _ _ w last Hden (rl_up _ _ _ _ Hrl) Hv Hs) as (rt' & h1 & Heq & Hsim).
    injection Heq as <- <-. destruct (decide (c = FileSync \/ c = FileClose)) as [Hc|Hc].
    + by eapply on_writing.
    + eapply on_staging; [done..| | |done]; intros ->; apply Hc; auto.
  - destruct (handles v !! n) as [e|] eqn:He; [done|].
    assert (Hin : n ∈ ended) by (by destruct Hn as [|[]]).
    rewrite bool_decide_true in Hp by done. destruct Hp as [rt ->]. by apply on_closed.
Qed.

Lemma step_fs_handle n c (s : State) hs rt fs v ended :
  c_related s hs rt fs v ended -> admissible_call (FsHandle n c) (v, ended) ->
  ~ short_fs_call (FsHandle n c) s -> c_stepped (FsHandle n c) s fs v ended.
Proof.
  destruct s as [[t [p w]] last]. intros [Hrl Hfs Hh] [Hv Hn] Hs. cbn [fst snd] in *. subst p.
  destruct (on_any_handle n c (t !! n) w last fs hs v ended Hrl (Hh n) Hv Hn Hs)
    as (p' & w' & last' & hs' & Hrun & Hrl' & Hp & Hoth & Hgo).
  eexists (_, (_, w'), last'), hs', rt, fs. split_and!; [|split; [exact Hrl'|reflexivity|]|exact Hgo].
  { cbn [run_fs_call]. by rewrite Hrun. }
  intros k. cbn [fst snd]. destruct (decide (k = n)) as [->|Hk].
  { by rewrite lookup_partial_alter_eq. }
  rewrite lookup_partial_alter_ne, Hoth by done. specialize (Hh k).
  assert (Hend : bool_decide (k ∈ (spec_fs_call (FsHandle n c) (v, ended)).2.2) = bool_decide (k ∈ ended)).
  { apply bool_decide_ext. cbn [spec_fs_call]. destruct (handles v !! n) as [e|]; [|done].
    unfold spec_on_handle. destruct (spec_open_call c _) as [x [f|]]; cbn [snd]; set_solver. }
  by rewrite Hend.
Qed.

(** Freeing a handle closes it. *)
Lemma destroy_run (p : option FfiHandle) w last x p' w' last' :
  is_Some p -> run_call FileClose (p, w, last) = (x, (p', w', last')) ->
  slatedb_file_destroy p w last = (w', last').
Proof.
  intros [h ->] Hrun. unfold slatedb_file_destroy. cbn [run_call] in Hrun.
  destruct (slatedb_file_close (Some h, w, last)) as [r [[p1 w1] last1]]. by simplify_eq.
Qed.

Lemma step_fs_destroy n (s : State) hs rt fs v ended :
  c_related s hs rt fs v ended -> c_stepped (FsDestroy n) s fs v ended.
Proof.
  destruct s as [[t [p w]] last]. intros [Hrl Hfs Hh]. cbn [fst snd] in *. subst p.
  pose proof (Hh n) as Hp. unfold c_stepped. cbn [run_fs_call spec_fs_call fst snd].
  assert (Hrest : forall k b, k <> n -> points (t !! k) (hs !! k) (bool_decide (k ∈ ended)) ->
    b = bool_decide (k ∈ ended ∖ {[n]}) -> points (delete n t !! k) (hs !! k) b).
  { intros k b Hk Hpk ->. rewrite lookup_delete_ne by done.
    by rewrite (bool_decide_ext (k ∈ ended ∖ {[n]}) (k ∈ ended)) by set_solver. }
  assert (Hend : bool_decide (n ∈ ended ∖ {[n]}) = false) by (apply bool_decide_eq_false; set_solver).
  destruct (t !! n) as [q|] eqn:Ht; cycle 1.
  { assert (Hhn : hs !! n = None).
    { destruct (hs !! n) as [h|]; [|done]. by destruct Hp as (_ & rt' & ?). }
    assert (He : handles v !! n = None).
    { pose proof (rl_handles _ _ _ _ Hrl n) as Hslot. rewrite Hhn in Hslot. by destruct (handles v !! n). }
    unfold spec_close. rewrite He. cbn [slatedb_file_destroy].
    exists (delete n t, (Some {| runtime := rt; Ffi.fs := fs |}, w), last), hs, rt, fs.
    split_and!; [done| |by apply goes_on_refl]. split; [done..|]. intros k. cbn [fst snd].
    destruct (decide (k = n)) as [->|Hk]; [by rewrite lookup_delete_eq, Hhn, Hend|by apply Hrest]. }
  destruct (on_any_handle n FileClose (Some q) w last fs hs v ended Hrl)
    as (p' & w' & last' & hs' & Hrun & Hrl' & Hp' & Hoth & Hgo); [done|exact I| | |].
  { destruct (decide (n ∈ ended)) as [|Hne]; [by left|right]. rewrite bool_decide_false in Hp by done.
    pose proof (rl_handles _ _ _ _ Hrl n) as Hslot. destruct (hs !! n) as [h|]; [|done].
    by destruct (handles v !! n). }
  { by intros (? & ? & _ & ?). }
  rewrite (destroy_run (Some q) w last _ _ _ _ ltac:(by eexists) Hrun).
  assert (Hcl : related w' fs hs' (spec_close n v).2 /\ hs' !! n = None).
  { cbn [spec_fs_call] in Hrl', Hp'. unfold spec_close in *. destruct (handles v !! n) as [e|] eqn:He;
      cbn [fst snd spec_on_handle spec_open_call] in Hrl', Hp'; unfold spec_close in Hrl'; rewrite ?He in Hrl';
      (split; [exact Hrl'|]).
    - rewrite bool_decide_true in Hp' by set_solver. destruct (hs' !! n); [|done]. by destruct Hp'.
    - pose proof (rl_handles _ _ _ _ Hrl' n) as Hslot. cbn [fst] in Hslot. rewrite He in Hslot.
      by destruct (hs' !! n). }
  destruct Hcl as [Hcl Hnone].
  exists (delete n t, (Some {| runtime := rt; Ffi.fs := fs |}, w'), last'), hs', rt, fs.
  split_and!; [done| |done]. split; [done..|]. intros k. cbn [fst snd].
  destruct (decide (k = n)) as [->|Hk]; [by rewrite lookup_delete_eq, Hnone, Hend|].
  rewrite Hoth by done. by apply Hrest.
Qed.

(** ** Programs of calls *)

Lemma step_fs_call c (s : State) hs rt fs v ended :
  c_related s hs rt fs v ended -> admissible_call c (v, ended) -> ~ short_fs_call c s ->
  (forall g, next_id (view s.1.2.2 fs g) < u64_max) -> c_stepped c s fs v ended.
Proof.
  intros Hc Ha Hs Hb. destruct c.
  - by eapply step_fs_open.
  - by eapply step_fs_exists.
  - by eapply step_fs_remove.
  - by eapply step_fs_move.
  - by eapply step_fs_handle.
  - by eapply step_fs_destroy.
Qed.

Lemma run_c_volume cs (s : State) hs rt fs v ended :
  c_related s hs rt fs v ended -> admissible_calls cs (v, ended) -> no_short_fs_call cs s ->
  (forall g, next_id (view s.1.2.2 fs g) + zlen cs <= u64_max) ->
  exists s' hs' rt' fs', run_fs_calls cs s = ((spec_fs_calls cs (v, ended)).1, s') /\
  c_related s' hs' rt' fs' (spec_fs_calls cs (v, ended)).2.1 (spec_fs_calls cs (v, ended)).2.2.
Proof.
  revert s hs rt fs v ended. induction cs as [|c cs IH]; intros s hs rt fs v ended Hc Ha Hs Hb.
  { by exists s, hs, rt, fs. }
  destruct Ha as [Ha Has], Hs as [Hs Hss]. pose proof (zlen_nonneg cs) as Hnn.
  assert (Hlen : zlen (c :: cs) = zlen cs + 1) by (unfold zlen; cbn; lia). rewrite Hlen in Hb.
  destruct (step_fs_call c s hs rt fs v ended) as (s1 & hs1 & rt1 & fs1 & Hrun & Hc1 & [Hnb _ _]);
    [done..| |].
  { intros g. specialize (Hb g). lia. }
  rewrite Hrun in Hss. cbn [run_fs_calls spec_fs_calls]. rewrite Hrun.
  destruct (spec_fs_call c (v, ended)) as [x [v1 ended1]]. cbn [fst snd] in *.
  destruct (IH s1 hs1 rt1 fs1 v1 ended1) as (s2 & hs2 & rt2 & fs2 & Hrun2 & Hc2); [done..| |].
  { intros g. specialize (Hb g). specialize (Hnb g). lia. }
  rewrite Hrun2. destruct (spec_fs_calls cs (v1, ended1)) as [xs [v2 ended2]].
  by exists s2, hs2, rt2, fs2.
Qed.
End relation.
