(* ===== verification/FfiVolumeProps.v ===== *)
(** * The contract of the C ABI

    A C program on a filesystem and any number of its handles gets the statuses,
    counts, bytes and answers of the volume of VolumeSpec.v. *)

From S2P Require Import Prelude RustStd Error SlateDb MemDb ChunkStore ChunkManager.
From S2P Require Import ChunkManagerSpec.
From S2P Require Import FileMetadata FileSpec FileHandle FileHandleSpec FileProps Transactions.
From S2P Require Import DatabaseMetadata Locality DatabaseSpec Cache FileSystem VolumeSpec.
From S2P Require Import FileSystemSpec FileSystemOps GroupFrame MemFs FileSystemProps VolumeRun.
From S2P Require Import VolumeSteps VolumeRefinement VolumeProps Ffi FfiSpec FfiVolume.

#[local] Open Scope string_scope.
#[local] Open Scope list_scope.
#[local] Open Scope Z_scope.

Section props.
Context {W Db Txn Reader Store CacheT Recorder Metrics Runtime : Type} `{World W} `{DbReadOps W Db}
  `{!DbReadLaws W Db} `{DbReadOps W Reader} `{!DbReadLaws W Reader}
  `{DbReadOps W Txn} `{!DbReadLaws W Txn} `{SlateDb W Db Txn} `{!SlateDbLaws W Db Txn}
  `{!SlateDbLocal W Db Txn} `{Clock W} `{!ClockLaws W} `{MetadataCodec} `{!MetadataCodecLaws}
  `{SlateDbOpen W Db Reader Store CacheT Recorder} `{CacheLib CacheT}
  `{!SlateDbOpenLaws W Db Reader Store CacheT Recorder}
  `{!SlateDbApart W Db Txn Reader Store CacheT Recorder}.
#[local] Abbreviation FS := (SlateDbFileSystem Db Reader Store CacheT Recorder Metrics).

(** C3: a C program sees a volume. Its calls open files, read and write them
    through several handles, close and free handles, remove, move and look up
    paths, with arguments that parse or that do not; every call returns the status
    the abstract volume gives and leaves its bytes and numbers in the outputs,
    and at the end the databases and the handles behind the pointers are the
    volume's, as long as no call is a read that starts past the end of a short
    chunk. *)
Theorem c_programs_refine_volume (cs : list FsCall) (rt : Runtime) (fs : FS) (w : W)
    (m : gmap (list byte) (list byte)) (last : list byte) :
  let p := Some {| runtime := rt; Ffi.fs := fs |} in
  starts w fs m -> admissible_calls cs (on_disk m, ∅) ->
  (forall g, next_id (default ∅ (stored_at w fs g)) + zlen cs <= u64_max) ->
  no_short_fs_call cs (∅, (p, w), last) ->
  exists s' hs' rt' fs',
    run_fs_calls cs (∅, (p, w), last) = ((spec_fs_calls cs (on_disk m, ∅)).1, s') /\
    c_related s' hs' rt' fs' (spec_fs_calls cs (on_disk m, ∅)).2.1 (spec_fs_calls cs (on_disk m, ∅)).2.2.
Proof.
  intros p Hs Ha Hb Hns. apply (run_c_volume cs _ ∅ rt fs); [|done|done|].
  - split; [by apply starts_related|done|]. intros n. cbn [fst snd].
    by rewrite !lookup_empty, bool_decide_false by set_solver.
  - intros g. cbn [fst snd]. rewrite (starts_view w fs m g Hs). apply Hb.
Qed.
End props.

(** ** At a concrete input *)

Definition ex_options (r w c : Z) : option FfiOpenOptions :=
  Some {| Ffi.read := r; Ffi.write := w; Ffi.create := c; Ffi.append := 0; Ffi.truncate_existing := 0 |}.

(** A file written through one handle, moved and read through another; a null
    path, a handle used after its close, and a file that is missing. *)
Definition ex_c_program : list FsCall :=
  let x := Some (bytes_of "x.db") in
  let wal := Some (bytes_of "x.db.wal") in
  [ FsExists x; FsOpen 0 x (ex_options 1 1 1);
    FsHandle 0 (FileWrite (Some (bytes_of "hello world")) 5 (Some 0)); FsOpen 1 None (ex_options 1 0 0);
    FsHandle 0 FileSync; FsHandle 0 FileClose; FsHandle 0 (FileGetSize (Some 7)); FsDestroy 0;
    FsMove x wal; FsExists x; FsOpen 1 wal (ex_options 1 0 0);
    FsHandle 1 (FileRead (Some (bytes_of "........")) 8 (Some 0)); FsHandle 1 (FileTruncate 1);
    FsDestroy 1; FsRemove wal; FsRemove wal ].

Definition ex_status (z : Z) : Reply := spec_status z.
Definition ex_number (z n : Z) : Reply :=
  {| reply_status := Ok z; reply_memory := None; reply_output := Some n |}.
Definition ex_replies : list Reply :=
  [ ex_number 0 0; ex_status 0; ex_number 0 5; ex_status 6; ex_status 0; ex_status 0; ex_number 6 0;
    ex_status 0; ex_status 0; ex_number 0 0; ex_status 0;
    {| reply_status := Ok 0; reply_memory := Some (bytes_of "hello..."); reply_output := Some 5 |};
    ex_status 4; ex_status 0; ex_status 0; ex_status 2 ].

Lemma ex_c_program_admissible : admissible_calls ex_c_program (on_disk ∅, ∅).
Proof. apply (bool_decide_unpack _). by vm_compute. Qed.

Lemma c_programs_refine_volume_witness :
  exists s, run_fs_calls ex_c_program (∅, (Some {| runtime := tt; Ffi.fs := ex_fs |}, ex_file_world), [])
    = (ex_replies, s).
Proof.
  destruct (c_programs_refine_volume ex_c_program tt ex_fs ex_file_world ∅ [] ex_starts
    ex_c_program_admissible ltac:(intros g; by vm_compute)) as (s & _ & _ & _ & Hrun & _).
  - apply (bool_decide_unpack _). by vm_compute.
  - exists s. rewrite Hrun. by vm_compute.
Defined.
