(* ===== verification/TestKit.v ===== *)
(** * The crate's tests, as programs

    The unit tests of rust/src are run on the model: a test is a program in the
    monad of the code, its assertions panic, and a lemma evaluates it in a
    memory world.  This file holds the assertions, the start of a test and
    the test doubles of chunk_store.rs. *)

From S2P Require Import Prelude RustStd Error Flags Keys SlateDb MemDb ChunkStore ChunkLayout.
From S2P Require Import ChunkManager.

(** ** Assertions *)

#[global] Instance error_code_eq_dec : EqDecision ErrorCode.
Proof. solve_decision. Defined.

Section asserts.
Context {S : Type}.

(** [assert!]. *)
Definition assert (b : bool) : M Error S unit :=
  if b then ret tt else lift (Panic "assertion failed").
(** [assert_eq!]. *)
Definition assert_eq {A} `{EqDecision A} (a b : A) : M Error S unit := assert (bool_decide (a = b)).
(** [unwrap] and [expect]. *)
Definition unwrap {A} (r : Result A) : M Error S A :=
  match r with
  | Ok a => ret a
  | Err _ => lift (Panic "called `Result::unwrap()` on an `Err` value")
  | Panic p => lift (Panic p)
  end.
(** [assert!(matches!(r, Err(Error::...)))]. *)
Definition assert_err {A} (c : ErrorCode) (r : Result A) : M Error S unit :=
  assert (match r with Err e => bool_decide (code e = c) | _ => false end).

(** The outcome of a call as a value. *)
Definition outcome {A} (m : M Error S A) : M Error S (Result A) :=
  fun s => let '(r, s') := m s in (Ok r, s').
(** [m.await.unwrap()]. *)
Definition unwrapped {A} (m : M Error S A) : M Error S A := let! r := outcome m in unwrap r.

(** A method of an object: its outcome and the object it leaves. *)
Definition on {O A} (o : O) (m : M Error (O * S) A) : M Error S (Result A * O) :=
  fun s => let '(r, (o', s')) := m (o, s) in (Ok (r, o'), s').
(** The same, unwrapped. *)
Definition on_ok {O A} (o : O) (m : M Error (O * S) A) : M Error S (A * O) :=
  let! (r, o) := on o m in let! a := unwrap r in ret (a, o).
End asserts.

(** The test runs to its end. *)
Definition passes {S} (test : M Error S unit) (s : S) : bool :=
  match (test s).1 with Ok _ => true | _ => false end.

(** A byte literal; [\0] is written as a zero byte by [zeros]. *)
Abbreviation b := bytes_of.

(** ** FaultyChunkStore: a real store that fails its next operation on demand *)

Record FaultyChunkStore (S : Type) := { inner : S }.
Arguments inner {S}.
Arguments Build_FaultyChunkStore {S}.

Definition injected_fault : slatedb_error :=
  {| slatedb_kind := KindUnavailable; slatedb_display := "injected store fault" |}.

(** [fail_next], an atomic the test shares with the store, is the first part of
    the state. *)
Section faulty.
Context {W S : Type} `{ChunkStore W S}.

Definition fail_next_operation : M Error (bool * W) unit := on_fst (put_state true).

Definition take_fault : M Error (bool * W) unit :=
  let! fail_next := on_fst (get_state (S:=bool)) in
  let! _ := on_fst (put_state false) in
  if fail_next then slate (lift (Err injected_fault)) else ret tt.

#[global] Instance faulty_chunk_store : ChunkStore (bool * W) (FaultyChunkStore S) := {|
    cs_get self key := let! _ := take_fault in on_snd (cs_get (inner self) key);
    cs_scan_inclusive self first last read_ahead_bytes :=
      let! _ := take_fault in on_snd (cs_scan_inclusive (inner self) first last read_ahead_bytes);
    cs_keys_with_prefix self prefix :=
      let! _ := take_fault in on_snd (cs_keys_with_prefix (inner self) prefix)
  |}.
End faulty.

(** ** A database in memory, as the tests open one *)

Definition test_db : MDb := {| mdb_path := bytes_of "test" |}.
Definition test_world : MemWorld := mem_world {[ bytes_of "test" := ∅ ]}.
(** [db.put(key, value)]. *)
Definition db_put (db : MDb) (k v : list byte) : M Error MemWorld unit := slate (db_write db [Put k v]).

(** [str::contains]. *)
Definition contains (s sub : string) : bool :=
  match String.index 0 sub s with Some _ => true | None => false end.
