(* ===== verification/ChunkTests.v ===== *)
(** * The tests of chunk_store.rs and chunk_manager.rs on the model *)

From S2P Require Import Prelude RustStd Error Keys SlateDb MemDb ChunkStore ChunkLayout.
From S2P Require Import ChunkManager.
From S2P Require Import TestKit.

(** ** chunk_store.rs *)

Definition scans_cover_both_ends_of_the_range : M Error MemWorld unit :=
  let db := test_db in
  let! _ := for_each [b "k/1"; b "k/2"; b "k/3"; b "k/4"] (fun key => db_put db key (b "v")) in
  let store := {| store_db := db |} in
  let! scanned := unwrapped (cs_scan_inclusive store (b "k/2") (b "k/3") 2) in
  let keys := scanned.*1 in
  let! _ := assert_eq keys [b "k/2"; b "k/3"] in
  let! v := unwrapped (cs_get store (b "k/1")) in
  let! _ := assert (bool_decide (is_Some v)) in
  let! v := unwrapped (cs_get store (b "k/9")) in
  let! _ := assert (bool_decide (v = None)) in
  let! keys := unwrapped (cs_keys_with_prefix store (b "k/")) in
  assert_eq (length keys) 4%nat.

Lemma scans_cover_both_ends_passes : passes scans_cover_both_ends_of_the_range test_world = true.
Proof. vm_compute. reflexivity. Qed.

Definition injected_fault_applies_once_to_whichever_operation_comes_next
    : M Error (bool * MemWorld) unit :=
  let db := test_db in
  let! _ := on_snd (db_put db (b "k/1") (b "v")) in
  let store := {| inner := {| store_db := db |} |} in
  let! _ := fail_next_operation in
  let! r := outcome (cs_get store (b "k/1")) in
  let! _ := assert_err CodeSlateDb r in
  let! v := unwrapped (cs_get store (b "k/1")) in
  let! _ := assert (bool_decide (is_Some v)) in
  let! _ := fail_next_operation in
  let! r := outcome (cs_keys_with_prefix store (b "k/")) in
  let! _ := assert_err CodeSlateDb r in
  let! keys := unwrapped (cs_keys_with_prefix store (b "k/")) in
  let! _ := assert_eq (length keys) 1%nat in
  let! _ := fail_next_operation in
  let! r := outcome (cs_scan_inclusive store (b "k/0") (b "k/9") 10) in
  let! _ := assert_err CodeSlateDb r in
  let! pairs := unwrapped (cs_scan_inclusive store (b "k/0") (b "k/9") 10) in
  assert_eq (length pairs) 1%nat.

Lemma injected_fault_passes :
  passes injected_fault_applies_once_to_whichever_operation_comes_next (false, test_world) = true.
Proof. vm_compute. reflexivity. Qed.

(** ** chunk_manager.rs *)

Definition SMALL_CHUNK : Z := 8.

Section fixture.
Context {W S : Type} `{ChunkStore W S}.

(** [write], [truncate] and [read] of a manager, unwrapped. *)
Definition write_ok (manager : ChunkManager S) (data : list byte) (offset : Z)
    : M Error W (ChunkManager S) :=
  let! (_, manager) := on_ok manager (ChunkManager.write data offset) in ret manager.
Definition truncate_ok (manager : ChunkManager S) (new_size : Z) : M Error W (ChunkManager S) :=
  let! (_, manager) := on_ok manager (ChunkManager.truncate new_size) in ret manager.

Definition read_to_vec (manager : ChunkManager S) (len offset : Z) : M Error W (list byte) :=
  let! (_, buf) := on_ok (zeros len) (ChunkManager.read manager offset) in ret buf.
End fixture.

Definition TestManager : Type := ChunkManager (SlateDbChunkStore MDb).
Definition manager (file_id : Z) : TestManager := new {| store_db := test_db |} file_id SMALL_CHUNK 0.

(** A manager whose store can be made to fail. *)
Definition faulty_manager (file_id : Z) : ChunkManager (FaultyChunkStore (SlateDbChunkStore MDb)) :=
  new {| inner := {| store_db := test_db |} |} file_id SMALL_CHUNK 0.

(** Persist the staged changes, the way a handle's sync does. *)
Definition flush (manager : TestManager) (db : MDb) : M Error MemWorld TestManager :=
  let batch := add_pending_to_batch manager [] in
  let! _ := unwrapped (slate (db_write db batch)) in
  ret (mark_flushed manager).

Definition coalescing_groups_only_adjacent_chunk_indices : M Error unit unit :=
  let! _ := assert_eq (coalesce_chunk_indices []) [] in
  let! _ := assert_eq (coalesce_chunk_indices [7]) [(7, 7)] in
  let! _ := assert_eq (coalesce_chunk_indices [0; 1; 2]) [(0, 2)] in
  let! _ := assert_eq (coalesce_chunk_indices [0; 1; 3; 6; 7]) [(0, 1); (3, 3); (6, 7)] in
  assert_eq (coalesce_chunk_indices [u64_max - 1; u64_max]) [(u64_max - 1, u64_max)].

Lemma coalescing_passes : passes coalescing_groups_only_adjacent_chunk_indices tt = true.
Proof. vm_compute. reflexivity. Qed.

Definition scan_read_ahead_tracks_span_and_caps_at_four_mib : M Error unit unit :=
  let! _ := assert_eq (scan_read_ahead_bytes 4 5 SMALL_CHUNK) (2 * SMALL_CHUNK) in
  assert_eq (scan_read_ahead_bytes 0 u64_max u64_max) MAX_SCAN_READ_AHEAD_BYTES.

Lemma scan_read_ahead_passes : passes scan_read_ahead_tracks_span_and_caps_at_four_mib tt = true.
Proof. vm_compute. reflexivity. Qed.

Definition base_offset_starts_full_chunks_after_it : M Error MemWorld unit :=
  let store := {| store_db := test_db |} in
  (* Chunk 0 is [0, 3), chunk 1 is [3, 11), chunk 2 is [11, 19). *)
  let manager := new store 9 SMALL_CHUNK 3 in
  let! block := unwrap (split_into_chunks manager SMALL_CHUNK 11) in
  let! _ := assert_eq (length block) 1%nat in
  let! _ := assert_eq ((fun s => (chunk_idx s, chunk_offset s)) <$> head block) (Some (2, 0)) in
  let! manager := write_ok manager (b "hdrABCDEFGHabcdefgh") 0 in
  let! manager := flush manager test_db in
  let! bytes := read_to_vec manager 4 9 in
  let! _ := assert_eq bytes (b "GHab") in
  let! manager := truncate_ok manager 5 in
  let! manager := flush manager test_db in
  let! bytes := read_to_vec manager 7 0 in
  assert_eq bytes (b "hdrAB" ++ zeros 2).

Lemma base_offset_passes : passes base_offset_starts_full_chunks_after_it test_world = true.
Proof. vm_compute. reflexivity. Qed.

Definition writes_spanning_chunks_read_back_whole : M Error MemWorld unit :=
  let manager := manager 1 in
  let! _ := assert (negb (has_pending_changes manager)) in
  let! manager := write_ok manager (b "abcdefghij") 0 in
  let! _ := assert (has_pending_changes manager) in
  (* Staged writes are visible before and after the flush. *)
  let! bytes := read_to_vec manager 10 0 in
  let! _ := assert_eq bytes (b "abcdefghij") in
  let! manager := flush manager test_db in
  let! _ := assert (negb (has_pending_changes manager)) in
  let! bytes := read_to_vec manager 4 6 in
  let! _ := assert_eq bytes (b "ghij") in
  (* A write straddling the chunk boundary keeps the untouched bytes. *)
  let! manager := write_ok manager (b "XY") (SMALL_CHUNK - 1) in
  let! bytes := read_to_vec manager 10 0 in
  assert_eq bytes (b "abcdefgXYj").

Lemma writes_spanning_chunks_passes : passes writes_spanning_chunks_read_back_whole test_world = true.
Proof. vm_compute. reflexivity. Qed.

Definition reads_past_the_last_chunk_are_zero : M Error MemWorld unit :=
  let manager := manager 2 in
  let! manager := write_ok manager (b "abc") 0 in
  let! manager := flush manager test_db in
  (* The manager has no notion of file length: uncovered bytes read as zero. *)
  let! bytes := read_to_vec manager 6 0 in
  let! _ := assert_eq bytes (b "abc" ++ zeros 3) in
  let! bytes := read_to_vec manager 4 64 in
  assert_eq bytes (zeros 4).

Lemma reads_past_the_last_chunk_passes : passes reads_past_the_last_chunk_are_zero test_world = true.
Proof. vm_compute. reflexivity. Qed.

(** The keys of a [BTreeMap], in order. *)
Definition keys {A} (m : gmap Z A) : list Z := (btree_entries m).*1.

Definition reads_coalesced_chunks_skip_absent_keys : M Error MemWorld unit :=
  let self := manager 7 in
  (* Chunks 0, 1 and 3 are persisted; chunk 2 is a hole. *)
  let! self := write_ok self (b "aaaaaaaabbbbbbbb") 0 in
  let! self := write_ok self (b "dddddddd") (3 * SMALL_CHUNK) in
  let! self := flush self test_db in
  (* The next file's chunks sort right after; a scan must stop before them. *)
  let other := manager 8 in
  let! other := write_ok other (b "xxxxxxxx") 0 in
  let! other := flush other test_db in
  let! chunks := unwrapped (read_chunks_from_store self [0; 1; 2; 3]) in
  let! _ := assert_eq (keys chunks) [0; 1; 3] in
  let! _ := assert_eq (chunks !! 0) (Some (b "aaaaaaaa")) in
  let! _ := assert_eq (chunks !! 3) (Some (b "dddddddd")) in
  (* A lone index is fetched with a point lookup rather than a scan. *)
  let! chunks := unwrapped (read_chunks_from_store self [3]) in
  let! _ := assert_eq (keys chunks) [3] in
  (* The hole between the two persisted ranges still reads as zeroes. *)
  let! bytes := read_to_vec self (4 * SMALL_CHUNK) 0 in
  assert_eq bytes (b "aaaaaaaabbbbbbbb" ++ zeros 8 ++ b "dddddddd").

Lemma reads_coalesced_chunks_passes : passes reads_coalesced_chunks_skip_absent_keys test_world = true.
Proof. vm_compute. reflexivity. Qed.

Definition truncate_shortens_the_last_chunk_and_deletes_the_rest : M Error MemWorld unit :=
  let manager := manager 3 in
  let! manager := write_ok manager (b "aaaaaaaabbbbbbbbcccccccc") 0 in
  let! manager := flush manager test_db in
  let! manager := truncate_ok manager (SMALL_CHUNK + 3) in
  let! _ := assert (has_pending_changes manager) in
  let! bytes := read_to_vec manager (3 * SMALL_CHUNK) 0 in
  let! _ := assert_eq bytes (b "aaaaaaaabbb" ++ zeros 13) in
  (* The deletes reach the store, so the dropped chunks stay gone. *)
  let! manager := flush manager test_db in
  let! chunks := unwrapped (read_chunks_from_store manager [0; 1; 2]) in
  let! _ := assert_eq (size chunks) 2%nat in
  let! manager := truncate_ok manager 0 in
  let! manager := flush manager test_db in
  let! chunks := unwrapped (read_chunks_from_store manager [0; 1; 2]) in
  assert (bool_decide (chunks = ∅)).

Lemma truncate_shortens_passes :
  passes truncate_shortens_the_last_chunk_and_deletes_the_rest test_world = true.
Proof. vm_compute. reflexivity. Qed.

Definition failed_truncate_keeps_staged_writes : M Error (bool * MemWorld) unit :=
  let manager := faulty_manager 4 in
  let! manager := write_ok manager (b "abcdefghij") 0 in
  let! _ := fail_next_operation in
  let! (r, manager) := on manager (ChunkManager.truncate 5) in
  let! _ := assert_err CodeSlateDb r in
  let! _ := fail_next_operation in
  let! (r, manager) := on manager (ChunkManager.truncate 0) in
  let! _ := assert_err CodeSlateDb r in
  let! bytes := read_to_vec manager 10 0 in
  assert_eq bytes (b "abcdefghij").

Lemma failed_truncate_passes : passes failed_truncate_keeps_staged_writes (false, test_world) = true.
Proof. vm_compute. reflexivity. Qed.
