(* ===== verification/DataTests.v ===== *)
(** * The tests of the errors, keys, metadata and catalog modules on the model

    The tests of error.rs, error_struct.rs, keys.rs, file_metadata.rs (with the
    codec of the examples for the generated one) and database_metadata.rs. *)

From S2P Require Import Prelude RustStd Error Keys SlateDb MemDb FileMetadata DatabaseMetadata.
From S2P Require Import TestKit.

#[local] Open Scope string_scope.
#[local] Open Scope list_scope.
#[local] Open Scope Z_scope.

(** ** error.rs *)

Definition decode_errors_are_permanent : M Error unit unit :=
  let! r := outcome (lift (try_from (A:=unit) (from_decode_error unknown_location)
                             (Err "invalid varint"))) in
  let! _ := assert_err CodeMetadataDecode r in
  match r with
  | Err error =>
      let! _ := assert_eq (error_status error) Permanent in
      assert (contains (display_error error) "metadata decode error")
  | _ => lift (Panic "truncated varint should not decode")
  end.

(** A SlateDB error of some kind, converted. *)
Definition from_slate (kind : SlateDbErrorKind) (text : string) : Result unit :=
  try_from (from_slatedb_error unknown_location) (Err {| slatedb_kind := kind; slatedb_display := text |}).
Definition status_of {A} (r : Result A) : option ErrorStatus :=
  match r with Err e => Some (error_status e) | _ => None end.

Definition unavailable_slatedb_errors_are_temporary : M Error unit unit :=
  let error := from_slate KindUnavailable "object store down" in
  let! _ := assert_err CodeSlateDb error in
  assert_eq (status_of error) (Some Temporary).

Definition invalid_slatedb_errors_are_permanent : M Error unit unit :=
  let error := from_slate OtherKind "bad argument" in
  assert_eq (status_of error) (Some Permanent).

Definition from_io (kind : io_error_kind) (text : string) : Result unit :=
  try_from (from_io_error unknown_location) (Err {| io_kind := kind; io_display := text |}).

Definition interrupted_io_errors_are_temporary : M Error unit unit :=
  let error := from_io Interrupted "try again" in
  let! _ := assert_err CodeIo error in
  let! _ := assert_eq (status_of error) (Some Temporary) in
  assert (match error with Err e => contains (display_error e) "io error" | _ => false end).

Definition not_found_io_errors_are_permanent : M Error unit unit :=
  let error := from_io OtherIo "missing" in
  let! _ := assert_err CodeIo error in
  assert_eq (status_of error) (Some Permanent).

(** ** error_struct.rs *)

Definition in_this_file : Location :=
  {| loc_file := "rust/src/error_struct.rs"; loc_line := 90; loc_column := 21 |}.

Definition display_includes_status_and_location : M Error unit unit :=
  let error := error_struct_new in_this_file "boom" Permanent in
  let rendered := display_error_struct error in
  let! _ := assert (starts_with (bytes_of rendered) (b "boom (permanent) at ")) in
  assert (contains rendered "error_struct.rs").

Definition display_includes_source : M Error unit unit :=
  match with_source (error_struct_new in_this_file "boom" Temporary) "disk on fire" with
  | Ok error => assert (contains (display_error_struct error) "caused by: disk on fire")
  | _ => lift (Panic "no source was set")
  end.

(** [#[should_panic(expected = "the source error has been set")]]. *)
Definition setting_the_source_twice_panics : M Error unit unit :=
  let error :=
    let? error := with_source (error_struct_new in_this_file "boom" Permanent) "first" in
    with_source error "second" in
  assert (match error with
          | Panic msg => contains msg "the source error has been set"
          | _ => false
          end).

Lemma error_tests_pass :
  Forall (fun test => passes test tt = true)
    [decode_errors_are_permanent; unavailable_slatedb_errors_are_temporary;
     invalid_slatedb_errors_are_permanent; interrupted_io_errors_are_temporary;
     not_found_io_errors_are_permanent; display_includes_status_and_location;
     display_includes_source; setting_the_source_twice_panics].
Proof. repeat constructor. Qed.

(** ** keys.rs *)

Definition chunk_key_is_zero_padded_hex : M Error unit unit :=
  assert_eq (chunk_key 1 0) (b "c/0000000000000001/0000000000000000").

Definition chunk_keys_sort_by_file_then_index : M Error unit unit :=
  let! _ := assert (bool_decide (bytes_lt (chunk_key 5 0) (chunk_key 5 1))) in
  assert (bool_decide (bytes_lt (chunk_key 1 100) (chunk_key 2 0))).

Definition chunk_prefix_matches_only_its_own_file : M Error unit unit :=
  let prefix := chunk_prefix 42 in
  let! _ := assert (starts_with (chunk_key 42 7) prefix) in
  assert (negb (starts_with (chunk_key 43 0) prefix)).

Definition metadata_key_is_zero_padded_hex : M Error unit unit :=
  assert_eq (metadata_key 1) (b "m/0000000000000001").

Definition key_families_are_disjoint : M Error unit unit :=
  let keys := [chunk_key 0 0; metadata_key 0] in
  (* Families are discriminated by their leading byte. *)
  let leading := remove_dups (omap head keys) in
  assert_eq (length leading) (length keys).

Lemma keys_tests_pass :
  Forall (fun test => passes test tt = true)
    [chunk_key_is_zero_padded_hex; chunk_keys_sort_by_file_then_index;
     chunk_prefix_matches_only_its_own_file; metadata_key_is_zero_padded_hex;
     key_families_are_disjoint].
Proof. repeat constructor. Qed.

(** ** file_metadata.rs *)

#[global] Instance file_metadata_eq_dec : EqDecision FileMetadata.
Proof. solve_decision. Defined.

Definition protobuf_roundtrip_preserves_metadata : M Error unit unit :=
  let metadata :=
    {| size := 8192; modified_at_ms := 1234567890; chunk_size := DEFAULT_CHUNK_SIZE;
       chunk_base_offset := DEFAULT_CHUNK_BASE_OFFSET |} in
  let! decoded := unwrap (decode_from_bytes (encode_to_bytes metadata)) in
  assert_eq decoded metadata.

Definition malformed_metadata_is_rejected : M Error unit unit :=
  let error := decode_from_bytes [byte_of 8; byte_of 128] in
  let! _ := assert_err CodeMetadataDecode error in
  assert_eq (status_of error) (Some Permanent).

Definition new_metadata_starts_empty_at_the_default_chunk_size : M Error MemWorld unit :=
  let! metadata := FileMetadata.new in
  let! _ := assert_eq (size metadata) 0 in
  let! _ := assert_eq (chunk_size metadata) DEFAULT_CHUNK_SIZE in
  let! _ := assert_eq (chunk_base_offset metadata) DEFAULT_CHUNK_BASE_OFFSET in
  let! _ := assert (0 <? modified_at_ms metadata) in
  let! validated := unwrap (validated_chunk_size metadata 7) in
  assert_eq validated DEFAULT_CHUNK_SIZE.

Definition zero_chunk_size_is_rejected : M Error unit unit :=
  let metadata := {| size := 0; modified_at_ms := 0; chunk_size := 0; chunk_base_offset := 0 |} in
  let error := validated_chunk_size metadata 7 in
  let! _ := assert_err CodeInvalidArgument error in
  assert (match error with
          | Err e => contains (display_error e) "file_id 7: must be non-zero"
          | _ => false
          end).

Definition oversized_chunk_base_offset_is_rejected : M Error MemWorld unit :=
  let! metadata := FileMetadata.new in
  let metadata := {| size := size metadata; modified_at_ms := modified_at_ms metadata;
                     chunk_size := chunk_size metadata; chunk_base_offset := chunk_size metadata |} in
  assert (match validated_chunk_size metadata 7 with Err _ => true | _ => false end).

(** The clock of a test stands at some time after the epoch. *)
Definition clock_world : MemWorld :=
  {| mw_dbs := ∅; mw_durable := ∅; mw_txns := ∅; mw_next := 0; mw_epochs := ∅;
     mw_fail_in := None; mw_clock := Some 1700000000000%N |}.

Lemma file_metadata_tests_pass :
  Forall (fun test => passes test tt = true)
    [protobuf_roundtrip_preserves_metadata; malformed_metadata_is_rejected;
     zero_chunk_size_is_rejected] /\
  Forall (fun test => passes test clock_world = true)
    [new_metadata_starts_empty_at_the_default_chunk_size; oversized_chunk_base_offset_is_rejected].
Proof. split; repeat constructor. Qed.

(** ** database_metadata.rs *)

Definition path_key_uses_database_metadata_prefix : M Error unit unit :=
  assert_eq (path_key (b "some/file.db")) (b "p/some/file.db").

Definition file_id_round_trips : M Error unit unit :=
  let! id := unwrap (decode_file_id (to_be_bytes 42) "file ID") in
  assert_eq id 42.

Definition malformed_file_id_is_rejected : M Error unit unit :=
  assert_err CodeMetadataDecode (decode_file_id [byte_of 1; byte_of 2; byte_of 3] "file ID").

Definition reserved_file_id_is_rejected : M Error unit unit :=
  assert_err CodeMetadataDecode (decode_file_id (to_be_bytes 0) "file ID").

Lemma database_metadata_tests_pass :
  Forall (fun test => passes test tt = true)
    [path_key_uses_database_metadata_prefix; file_id_round_trips; malformed_file_id_is_rejected;
     reserved_file_id_is_rejected].
Proof. repeat constructor. Qed.
