(* ===== verification/HandleTests.v ===== *)
(** * The tests of file_handle.rs on the model

    A dropped handle is one the test goes on without; [tokio::join!] of two
    reads runs them one after the other. *)

From S2P Require Import Prelude RustStd Error Flags Keys SlateDb MemDb ChunkStore ChunkManager.
From S2P Require Import FileMetadata FileHandle TestKit.

Definition SMALL_CHUNK : Z := 8.

Definition new_metadata : FileMetadata :=
  {| FileMetadata.size := 0; FileMetadata.modified_at_ms := 1;
     FileMetadata.chunk_size := SMALL_CHUNK; FileMetadata.chunk_base_offset := 0 |}.

Definition TestHandle : Type := SlateFileHandle MDb MReader.

(** ** The fixture *)

Definition handle (file_id : Z) (flags : FileOpenFlags) : M Error MemWorld TestHandle :=
  unwrap (FileHandle.new (ReadWrite test_db) file_id new_metadata flags).

Definition reopen (file_id : Z) (flags : FileOpenFlags) : M Error MemWorld TestHandle :=
  let! bytes := unwrapped (slate (db_get test_db (metadata_key file_id))) in
  let! bytes := lift (match bytes with Some bytes => Ok bytes | None => Panic "metadata" end) in
  let! metadata := unwrap (decode_from_bytes bytes) in
  unwrap (FileHandle.new (ReadWrite test_db) file_id metadata flags).

(** Calls on a handle, unwrapped. *)
Definition pwrite_ok (h : TestHandle) (data : list byte) (offset : Z) : M Error MemWorld TestHandle :=
  let! (_, h) := on_ok h (pwrite data offset) in ret h.
Definition truncate_ok (h : TestHandle) (n : Z) : M Error MemWorld TestHandle :=
  let! (_, h) := on_ok h (FileHandle.truncate n) in ret h.
Definition sync_ok (h : TestHandle) : M Error MemWorld TestHandle :=
  let! (_, h) := on_ok h sync in ret h.
Definition close_ok (h : TestHandle) : M Error MemWorld unit :=
  let! (_, h) := on_ok h close in ret tt.
Definition pread_ok (h : TestHandle) (buf : list byte) (offset : Z) : M Error MemWorld (Z * list byte) :=
  on_ok buf (pread h offset).
Definition read_ok (h : TestHandle) (buf : list byte) : M Error MemWorld (Z * TestHandle * list byte) :=
  fun w =>
    let '(r, (h, (buf, w))) := FileHandle.read (h, (buf, w)) in
    (let! n := unwrap r in ret (n, h, buf)) w.

(** The next call on the store fails. *)
Definition fail_next_operation : M Error MemWorld unit := modify (fun w => set_fault w (Some 0%nat)).

(** ** The tests *)

Definition sequential_io_tracks_position : M Error MemWorld unit :=
  let! h := handle 1 open_or_create in
  let! (n, h) := on_ok h (FileHandle.write (b "abcdef")) in
  let! _ := assert_eq n 6 in
  let! _ := assert_eq (seek_position h) 6 in
  let h := seek h 2 in
  let! (n, h, buf) := read_ok h (zeros 3) in
  let! _ := assert_eq n 3 in
  let! _ := assert_eq buf (b "cde") in
  let h := reset h in
  let! _ := assert_eq (seek_position h) 0 in
  close_ok h.

Definition positional_reads_can_share_a_handle : M Error MemWorld unit :=
  let! h := handle 11 open_or_create in
  let! h := pwrite_ok h (b "abcdefgh") 0 in
  let! h := sync_ok h in
  let! (first_read, first) := pread_ok h (zeros 4) 0 in
  let! (second_read, second) := pread_ok h (zeros 4) 4 in
  let! _ := assert_eq first_read (zlen first) in
  let! _ := assert_eq second_read (zlen second) in
  let! _ := assert_eq first (b "abcd") in
  let! _ := assert_eq second (b "efgh") in
  close_ok h.

Definition writes_persist_across_chunks_and_reopen : M Error MemWorld unit :=
  let! h := handle 2 open_or_create in
  let! h := pwrite_ok h (b "hello") 0 in
  let! h := pwrite_ok h (b "xyz") (SMALL_CHUNK - 1) in
  let! _ := assert_eq (file_size h) (SMALL_CHUNK + 2) in
  let! _ := close_ok h in
  let! reopened := reopen 2 read_only in
  let! (_, boundary) := pread_ok reopened (zeros 3) (SMALL_CHUNK - 1) in
  assert_eq boundary (b "xyz").

Definition append_writes_at_end_after_reopen : M Error MemWorld unit :=
  let! writer := handle 6 open_or_create in
  let! (_, writer) := on_ok writer (FileHandle.write (b "abc")) in
  let! _ := close_ok writer in
  let! appender := reopen 6 append_flags in
  let! _ := assert_eq (seek_position appender) 3 in
  let appender := seek appender 0 in
  let! (_, appender) := on_ok appender (FileHandle.write (b "def")) in
  let! _ := assert_eq (seek_position appender) 6 in
  let! _ := close_ok appender in
  let! reader := reopen 6 read_only in
  let! (n, reader, contents) := read_ok reader (zeros 6) in
  let! _ := assert_eq n (zlen contents) in
  assert_eq contents (b "abcdef").

Definition reads_stop_at_the_end_of_the_file : M Error MemWorld unit :=
  let! h := handle 10 open_or_create in
  let! h := pwrite_ok h (b "abc") 0 in
  (* The buffer outlives the file: only its own bytes are reported. *)
  let! (n, buf) := pread_ok h (b "??????") 0 in
  let! _ := assert_eq n 3 in
  let! _ := assert_eq buf (b "abc???") in
  let! (n, buf) := pread_ok h buf 3 in
  let! _ := assert_eq n 0 in
  close_ok h.

Definition reads_span_persisted_and_pending_chunks : M Error MemWorld unit :=
  let! writer := handle 8 open_or_create in
  let! writer := pwrite_ok writer (b "aaaaaaaabbbbbbbbccccccccdddddddd") 0 in
  let! _ := close_ok writer in
  (* Chunk 2 is only pending, so the chunks either side form two ranges. *)
  let! h := reopen 8 open_or_create in
  let! h := pwrite_ok h (b "CCCCCCCC") (2 * SMALL_CHUNK) in
  let! (n, buf) := pread_ok h (zeros (4 * SMALL_CHUNK)) 0 in
  let! _ := assert_eq n (zlen buf) in
  let! _ := assert_eq buf (b "aaaaaaaabbbbbbbbCCCCCCCCdddddddd") in
  close_ok h.

Definition truncate_hides_persisted_chunks_before_sync : M Error MemWorld unit :=
  let! h := handle 9 open_or_create in
  let! h := pwrite_ok h (b "aaaaaaaabbbbbbbbcccccccc") 0 in
  let! h := sync_ok h in
  (* Chunks 1 and 2 are persisted but pending deletion: a hole before flush. *)
  let! h := truncate_ok h SMALL_CHUNK in
  let! h := truncate_ok h (3 * SMALL_CHUNK) in
  let! (n, buf) := pread_ok h (zeros (3 * SMALL_CHUNK)) 0 in
  let! _ := assert_eq n (zlen buf) in
  let! _ := assert_eq (take 8 buf) (b "aaaaaaaa") in
  let! _ := assert (forallb (fun c => bool_decide (c = x00)) (drop 8 buf)) in
  (* Rewriting a chunk pending deletion replaces the delete. *)
  let! h := pwrite_ok h (b "ZZZZZZZZ") SMALL_CHUNK in
  let! _ := close_ok h in
  let! reopened := reopen 9 read_only in
  let! (n, buf) := pread_ok reopened buf 0 in
  let! _ := assert_eq n (zlen buf) in
  assert_eq buf (b "aaaaaaaaZZZZZZZZ" ++ zeros 8).

Definition truncate_then_sparse_write_reads_as_zero : M Error MemWorld unit :=
  let! h := handle 3 open_or_create in
  let! h := pwrite_ok h (b "abcdefghij") 0 in
  let! h := sync_ok h in
  let! h := truncate_ok h 5 in
  let! h := pwrite_ok h (b "Z") 8 in
  let! (_, buf) := pread_ok h (zeros 9) 0 in
  let! _ := assert_eq (take 5 buf) (b "abcde") in
  let! _ := assert_eq (take 3 (drop 5 buf)) (zeros 3) in
  let! _ := assert_eq (buf !! 8%nat) (head (b "Z")) in
  close_ok h.

Definition failed_truncate_preserves_unflushed_writes : M Error MemWorld unit :=
  let! h := handle 5 open_or_create in
  let! h := pwrite_ok h (b "abcdefghij") 0 in
  let! _ := assert_eq (file_size h) 10 in
  (* A truncation that cannot read the store changes nothing. *)
  let! _ := fail_next_operation in
  let! (r, h) := on h (FileHandle.truncate 5) in
  let! _ := assert_err CodeSlateDb r in
  let! _ := assert_eq (file_size h) 10 in
  let! _ := fail_next_operation in
  let! (r, h) := on h (FileHandle.truncate 0) in
  let! _ := assert_err CodeSlateDb r in
  let! _ := assert_eq (file_size h) 10 in
  let! (n, buf) := pread_ok h (zeros 10) 0 in
  let! _ := assert_eq n 10 in
  let! _ := assert_eq buf (b "abcdefghij") in
  close_ok h.

Definition read_only_handle_rejects_writes : M Error MemWorld unit :=
  let! writer := handle 4 open_or_create in
  let! writer := pwrite_ok writer (b "abc") 0 in
  let! _ := close_ok writer in
  let! read_only := reopen 4 read_only in
  let! (r, read_only) := on read_only (pwrite (b "z") 0) in
  let! _ := assert_err CodeReadOnlyViolation r in
  let! (r, read_only) := on read_only (FileHandle.truncate 0) in
  assert_err CodeReadOnlyViolation r.

Lemma file_handle_tests_pass :
  forallb (fun test => passes test test_world)
    [sequential_io_tracks_position; positional_reads_can_share_a_handle;
     writes_persist_across_chunks_and_reopen; append_writes_at_end_after_reopen;
     reads_stop_at_the_end_of_the_file; reads_span_persisted_and_pending_chunks;
     truncate_hides_persisted_chunks_before_sync; truncate_then_sparse_write_reads_as_zero;
     failed_truncate_preserves_unflushed_writes; read_only_handle_rejects_writes] = true.
Proof. vm_compute. reflexivity. Qed.
