(* ===== verification/FileSystemTests.v ===== *)
(** * The tests of fs.rs on the model

    Every test runs in its own memory world, which is its object store: the
    temporary directory of a test is the root of its local filesystems, and
    the fake S3 server of the crate's test another service over the same
    store.  The helpers are those of test_utils.rs. *)

From S2P Require Import Prelude RustStd Error Flags Keys SlateDb MemDb FileMetadata FileHandle.
From S2P Require Import DatabaseMetadata Cache FileSystem MemFs TestKit HandleTests.

#[local] Open Scope string_scope.
#[local] Open Scope list_scope.
#[local] Open Scope Z_scope.

Definition TestFs : Type := SlateDbFileSystem MDb MReader unit unit unit unit.

(** ** The services a test opens *)

#[local] Instance test_opendal : Opendal MemWorld Service unit unit unit := {|
    opendal_new s := Ok s;
    info_scheme s := match s with Memory => b "memory" | Fs _ _ => b "fs" | S3 _ => b "s3" end;
    info_name s := match s with S3 (S3Bucket bucket :: _) => bucket | _ => [] end;
    info_root s := match s with Fs root _ => root | _ => b "/" end;
    layered_store _ _ := tt;
    new_recorder w := (tt, w);
    new_metrics w := (tt, w);
    create_dir_all _ := ret tt
  |}.

Definition tempdir : list byte := b "/tmp/root".
Definition other_tempdir : list byte := b "/tmp/other".

(** ** test_utils.rs *)

Definition open_local_fs (database_path root : list byte) : M Error MemWorld TestFs :=
  unwrapped (open_local database_path root).

(** A call on a filesystem, unwrapped. *)
Definition fs_ok {A} (fs : TestFs) (m : M Error (TestFs * MemWorld) A) : M Error MemWorld (A * TestFs) :=
  on_ok fs m.
Definition open_ok (fs : TestFs) (path : list byte) (flags : FileOpenFlags)
    : M Error MemWorld (TestHandle * TestFs) :=
  fs_ok fs (FileSystem.open_file path flags).
Definition close_fs (fs : TestFs) : M Error MemWorld TestFs :=
  let! (_, fs) := fs_ok fs (FileSystem.close (fun m => (map_to_list m).*2)) in ret fs.

Definition write_file (fs : TestFs) (path contents : list byte) : M Error MemWorld TestFs :=
  let! (file, fs) := open_ok fs path open_or_create in
  let! file := pwrite_ok file contents 0 in
  let! _ := close_ok file in
  ret fs.

Definition read_file (fs : TestFs) (path : list byte) (len : Z) : M Error MemWorld (list byte * TestFs) :=
  let! (file, fs) := open_ok fs path read_only in
  let! (n, contents) := pread_ok file (zeros len) 0 in
  let! _ := assert_eq n len in
  let! _ := close_ok file in
  ret (contents, fs).

(** ** Fixtures of fs.rs *)

Definition S3_ACCESS_KEY : list byte := b "test-access-key".
Definition S3_BUCKET : list byte := b "test-bucket".
Definition S3_SECRET_KEY : list byte := b "test-secret-key".

Definition fake_s3_config (server : list byte) : S3StorageConfig :=
  {| bucket := S3_BUCKET;
     root := Some (b "slatedb-test");
     endpoint := Some server;
     region := Some (b "us-east-1");
     key_id := Some S3_ACCESS_KEY;
     secret := Some S3_SECRET_KEY;
     session_token := None;
     use_ssl := false;
     virtual_host_style := false |}.

Definition write_ok (h : TestHandle) (data : list byte) : M Error MemWorld TestHandle :=
  let! (_, h) := on_ok h (FileHandle.write data) in ret h.

(** The chunks of a file are gone: [scan_prefix(..).next()] is [None]. *)
Definition assert_no_chunks (db : MDb) (file_id : Z) : M Error MemWorld unit :=
  let! rows := unwrapped (slate (db_scan_prefix db (chunk_prefix file_id))) in
  let! row := unwrapped (with_local rows (slate iter_next)) in
  assert (match row with None => true | Some _ => false end).
Definition assert_no_metadata (db : MDb) (file_id : Z) : M Error MemWorld unit :=
  let! v := unwrapped (slate (db_get db (metadata_key file_id))) in
  assert (bool_decide (v = None)).

(** ** The tests *)

Definition creates_and_reopens_file_by_path : M Error MemWorld unit :=
  let! fs := unwrapped (open_in_memory (b "test-db")) in
  let! (created, fs) := open_ok fs (b "database.db") open_or_create in
  let! _ := assert_eq (file_id created) 1 in
  let! created := write_ok created (b "database contents") in
  let! _ := close_ok created in
  let! (other, fs) := open_ok fs (b "other.db") open_or_create in
  (* Another database has its own SlateDB and file ids. *)
  let! _ := assert_eq (file_id other) 1 in
  let! _ := close_ok other in
  let! (reopened, fs) := open_ok fs (b "database.db") read_only in
  let! _ := assert_eq (file_id reopened) 1 in
  let! (n, reopened, contents) := read_ok reopened (zeros 17) in
  let! _ := assert_eq n (zlen contents) in
  let! _ := assert_eq contents (b "database contents") in
  let! _ := close_ok reopened in
  let! _ := close_fs fs in ret tt.

Definition close_is_idempotent : M Error MemWorld unit :=
  let! fs := unwrapped (open_in_memory (b "test-db")) in
  let! fs := write_file fs (b "database.db") (b "contents") in
  let! fs := close_fs fs in
  let! _ := close_fs fs in ret tt.

Definition reader_remains_usable_after_opening_writer : M Error MemWorld unit :=
  let! seed := open_local_fs (b "test-db") tempdir in
  let! seed := write_file seed (b "database.db") (b "contents") in
  let! _ := close_fs seed in
  let! fs := open_local_fs (b "test-db") tempdir in
  let! (reader, fs) := open_ok fs (b "database.db") read_only in
  let! (writer, fs) := open_ok fs (b "database.db") Flags.read_write in
  let! (n, contents) := pread_ok reader (zeros 8) 0 in
  let! _ := assert_eq n 8 in
  let! _ := assert_eq contents (b "contents") in
  let! _ := close_fs fs in ret tt.

Definition local_database_persists_across_reopen : M Error MemWorld unit :=
  let! first := open_local_fs (b "persistent-db") tempdir in
  let! (created, first) := open_ok first (b "database.db") open_or_create in
  let! created := write_ok created (b "persisted") in
  let! _ := close_ok created in
  let! _ := close_fs first in
  let! second := open_local_fs (b "persistent-db") tempdir in
  let! (reopened, second) := open_ok second (b "database.db") read_only in
  let! (n, reopened, contents) := read_ok reopened (zeros 9) in
  let! _ := assert_eq n (zlen contents) in
  let! _ := assert_eq contents (b "persisted") in
  let! _ := close_ok reopened in
  let! _ := close_fs second in ret tt.

Definition check_s3_database_persists_across_reopen : M Error MemWorld unit :=
  let server := b "http://127.0.0.1:9000" in
  let! first := unwrapped (open_s3 (b "s3-persistent-db") (fake_s3_config server)) in
  let! (created, first) := open_ok first (b "database.db") open_or_create in
  let! created := write_ok created (b "persisted through S3") in
  let! _ := close_ok created in
  let! _ := close_fs first in
  let! second := unwrapped (open_s3 (b "s3-persistent-db") (fake_s3_config server)) in
  let! (exists_, second) := fs_ok second (FileSystem.file_exists (b "database.db")) in
  let! _ := assert exists_ in
  let! (reopened, second) := open_ok second (b "database.db") read_only in
  let! (n, reopened, contents) := read_ok reopened (zeros 20) in
  let! _ := assert_eq n (zlen contents) in
  let! _ := assert_eq contents (b "persisted through S3") in
  let! _ := close_ok reopened in
  let! (checkpoint_wal, second) := open_ok second (b "database.db.wal.checkpoint") open_or_create in
  let! _ := close_ok checkpoint_wal in
  let! (_, second) := fs_ok second
    (FileSystem.move_file (b "database.db.wal.checkpoint") (b "database.db.wal")) in
  let! (exists_, second) := fs_ok second (FileSystem.file_exists (b "database.db.wal.checkpoint")) in
  let! _ := assert (negb exists_) in
  let! (exists_, second) := fs_ok second (FileSystem.file_exists (b "database.db.wal")) in
  let! _ := assert exists_ in
  let! (_, second) := fs_ok second (FileSystem.remove_file (b "database.db.wal")) in
  let! (exists_, second) := fs_ok second (FileSystem.file_exists (b "database.db.wal")) in
  let! _ := assert (negb exists_) in
  let! _ := close_fs second in ret tt.

Definition reads_do_not_fence_active_writer : M Error MemWorld unit :=
  let! writer := open_local_fs (b "shared-db") tempdir in
  let! (created, writer) := open_ok writer (b "database.db") open_or_create in
  let! created := write_ok created (b "before") in
  let! _ := close_ok created in
  let! reader := open_local_fs (b "shared-db") tempdir in
  let! (exists_, reader) := fs_ok reader (FileSystem.file_exists (b "database.db")) in
  let! _ := assert exists_ in
  let! (read_handle, reader) := open_ok reader (b "database.db") read_only in
  let! (n, read_handle, contents) := read_ok read_handle (zeros 6) in
  let! _ := assert_eq n (zlen contents) in
  let! _ := assert_eq contents (b "before") in
  let! _ := close_ok read_handle in
  let! (writable, writer) := open_ok writer (b "database.db") Flags.read_write in
  let! writable := pwrite_ok writable (b "after") 0 in
  let! _ := close_ok writable in
  let! _ := close_fs reader in
  let! _ := close_fs writer in ret tt.

Definition opening_missing_file_without_create_fails : M Error MemWorld unit :=
  let! fs := unwrapped (open_in_memory (b "test-db")) in
  let! (r, fs) := on fs (FileSystem.open_file (b "missing.db") read_only) in
  let! _ := assert_err CodeFileNotFound r in
  let! _ := close_fs fs in ret tt.

Definition create_or_truncate_clears_an_existing_file : M Error MemWorld unit :=
  let! fs := unwrapped (open_in_memory (b "test-db")) in
  let! (original, fs) := open_ok fs (b "recovery.wal") open_or_create in
  let file_id := file_id original in
  let! original := write_ok original (b "stale wal contents") in
  let! _ := close_ok original in
  let! (replaced, fs) := open_ok fs (b "recovery.wal") create_or_truncate in
  let! _ := assert_eq (FileHandle.file_id replaced) file_id in
  let! _ := assert_eq (file_size replaced) 0 in
  let! (db, fs) := fs_ok fs (write_db (b "recovery.wal") false) in
  let! _ := assert_no_chunks db file_id in
  let! replaced := write_ok replaced (b "new wal") in
  let! _ := close_ok replaced in
  let! (reopened, fs) := open_ok fs (b "recovery.wal") read_only in
  let! (n, reopened, contents) := read_ok reopened (zeros 7) in
  let! _ := assert_eq n (zlen contents) in
  let! _ := assert_eq contents (b "new wal") in
  let! _ := close_ok reopened in
  let! _ := close_fs fs in ret tt.

Definition file_exists_uses_path_mapping_only : M Error MemWorld unit :=
  let! fs := unwrapped (open_in_memory (b "test-db")) in
  let! (exists_, fs) := fs_ok fs (FileSystem.file_exists (b "database.db")) in
  let! _ := assert (negb exists_) in
  let! (file, fs) := open_ok fs (b "database.db") open_or_create in
  let file_id := file_id file in
  let! _ := close_ok file in
  let! (exists_, fs) := fs_ok fs (FileSystem.file_exists (b "database.db")) in
  let! _ := assert exists_ in
  let batch := [Delete (metadata_key file_id)] in
  let! (db, fs) := fs_ok fs (write_db (b "database.db") false) in
  let! _ := unwrapped (slate (db_write db batch)) in
  let! (exists_, fs) := fs_ok fs (FileSystem.file_exists (b "database.db")) in
  let! _ := assert exists_ in
  let! _ := close_fs fs in ret tt.

Definition remove_file_deletes_catalog_metadata_and_chunks : M Error MemWorld unit :=
  let! fs := unwrapped (open_in_memory (b "test-db")) in
  let! (file, fs) := open_ok fs (b "database.db") open_or_create in
  let file_id := file_id file in
  let! file := write_ok file (b "contents") in
  let! _ := close_ok file in
  let! (_, fs) := fs_ok fs (FileSystem.remove_file (b "database.db")) in
  let! (exists_, fs) := fs_ok fs (FileSystem.file_exists (b "database.db")) in
  let! _ := assert (negb exists_) in
  let! (db, fs) := fs_ok fs (write_db (b "database.db") false) in
  let! _ := assert_no_metadata db file_id in
  let! _ := assert_no_chunks db file_id in
  let! (r, fs) := on fs (FileSystem.remove_file (b "database.db")) in
  let! _ := assert_err CodeFileNotFound r in
  let! _ := close_fs fs in ret tt.

Definition move_file_preserves_source_and_replaces_destination : M Error MemWorld unit :=
  let! fs := unwrapped (open_in_memory (b "test-db")) in
  let! (source, fs) := open_ok fs (b "database.db.wal.checkpoint") open_or_create in
  let source_file_id := file_id source in
  let! source := write_ok source (b "source") in
  let! _ := close_ok source in
  let! (target, fs) := open_ok fs (b "database.db.wal") open_or_create in
  let replaced_file_id := file_id target in
  let! target := write_ok target (b "target") in
  let! _ := close_ok target in
  let! (_, fs) := fs_ok fs
    (FileSystem.move_file (b "database.db.wal.checkpoint") (b "database.db.wal")) in
  let! (exists_, fs) := fs_ok fs (FileSystem.file_exists (b "database.db.wal.checkpoint")) in
  let! _ := assert (negb exists_) in
  let! (moved, fs) := open_ok fs (b "database.db.wal") read_only in
  let! _ := assert_eq (file_id moved) source_file_id in
  let! (n, moved, contents) := read_ok moved (zeros 6) in
  let! _ := assert_eq n (zlen contents) in
  let! _ := assert_eq contents (b "source") in
  let! _ := close_ok moved in
  let! (db, fs) := fs_ok fs (write_db (b "database.db") false) in
  let! _ := assert_no_metadata db replaced_file_id in
  let! _ := assert_no_chunks db replaced_file_id in
  let! _ := close_fs fs in ret tt.

Definition database_group_keeps_companion_files_with_their_database : M Error MemWorld unit :=
  for_each
    [(b "database.db", b "database.db");
     (b "database.db.wal", b "database.db");
     (b "database.db.wal.checkpoint", b "database.db");
     (b "database.db.wal.recovery", b "database.db");
     (b "dir/database.db.wal", b "dir/database.db");
     (b "database", b "database");
     (b "database.wal", b "database");
     (b "data.csv.wal", b "data.csv");
     (b "tmp_data.csv", b "tmp_data.csv");
     (b "dir/tmp_data.csv", b "dir/tmp_data.csv");
     (b ".wal", b ".wal");
     (b "dir/.wal", b "dir/.wal");
     (b "tmp_", b "tmp_");
     (b "dir/tmp_", b "dir/tmp_")]
    (fun '(path, group) => assert_eq (database_group path) group).

Definition move_file_rejects_moves_between_databases : M Error MemWorld unit :=
  let! fs := unwrapped (open_in_memory (b "test-db")) in
  let! (source, fs) := open_ok fs (b "source.db") open_or_create in
  let! _ := close_ok source in
  let! (r, fs) := on fs (FileSystem.move_file (b "source.db") (b "target.db")) in
  let! _ := assert_err CodeInvalidArgument r in
  let! (exists_, fs) := fs_ok fs (FileSystem.file_exists (b "source.db")) in
  let! _ := assert exists_ in
  let! _ := close_fs fs in ret tt.

Definition db_cache_ids_are_stable_and_scoped_per_database : M Error MemWorld unit :=
  let! _ := assert_eq (stable_hash []) 0xcbf29ce484222325 in
  let! _ := assert_eq (stable_hash (b "a")) 0xaf63dc4c8601ec8c in
  let! first := open_local_fs (b "cache-id") tempdir in
  let! reopened := open_local_fs (b "cache-id") tempdir in
  let! elsewhere := open_local_fs (b "cache-id") other_tempdir in
  let! _ := assert_eq (db_cache_id first (b "a.db")) (db_cache_id reopened (b "a.db")) in
  let! _ := assert (negb (db_cache_id first (b "a.db") =? db_cache_id first (b "b.db"))) in
  let! _ := assert (negb (db_cache_id first (b "a.db") =? db_cache_id elsewhere (b "a.db"))) in
  let! _ := close_fs first in
  let! _ := close_fs reopened in
  let! _ := close_fs elsewhere in ret tt.

Definition writers_of_different_databases_share_a_root : M Error MemWorld unit :=
  let! first := open_local_fs (b "shared-root") tempdir in
  let! second := open_local_fs (b "shared-root") tempdir in
  let! first := write_file first (b "a.db") (b "a1") in
  let! second := write_file second (b "b.db") (b "b1") in
  let! first := write_file first (b "a.db") (b "a2") in
  let! first := write_file first (b "a.db.wal") (b "wal") in
  let! second := write_file second (b "b.db") (b "b2") in
  let! _ := close_fs first in
  let! _ := close_fs second in
  let! reopened := open_local_fs (b "shared-root") tempdir in
  let! (contents, reopened) := read_file reopened (b "a.db") 2 in
  let! _ := assert_eq contents (b "a2") in
  let! (contents, reopened) := read_file reopened (b "a.db.wal") 3 in
  let! _ := assert_eq contents (b "wal") in
  let! (contents, reopened) := read_file reopened (b "b.db") 2 in
  let! _ := assert_eq contents (b "b2") in
  let! _ := close_fs reopened in ret tt.

Definition reads_on_a_writable_filesystem_do_not_fence_the_writer : M Error MemWorld unit :=
  let! writer := open_local_fs (b "shared-root") tempdir in
  let! reader := open_local_fs (b "shared-root") tempdir in
  let! writer := write_file writer (b "a.db") (b "before") in
  let! (exists_, reader) := fs_ok reader (FileSystem.file_exists (b "a.db")) in
  let! _ := assert exists_ in
  let! (exists_, reader) := fs_ok reader (FileSystem.file_exists (b "a.db.wal")) in
  let! _ := assert (negb exists_) in
  let! (contents, reader) := read_file reader (b "a.db") 6 in
  let! _ := assert_eq contents (b "before") in
  let! writer := write_file writer (b "a.db") (b "after!") in
  let! _ := close_fs reader in
  let! _ := close_fs writer in ret tt.

Definition claims_slatedb_urls : M Error MemWorld unit :=
  let! fs := unwrapped (open_in_memory (b "test-db")) in
  let! _ := assert (can_handle fs (b "duckdb_objfs://bucket/key")) in
  let! _ := assert (can_handle fs (b "duckdb_objfs:/bucket/key")) in
  let! _ := assert (negb (can_handle fs (b "s3://bucket/key"))) in
  let! _ := assert (negb (can_handle fs (b "/tmp/foo"))) in
  let! _ := assert_eq (name fs) NAME in
  let! _ := close_fs fs in ret tt.

Lemma filesystem_tests_pass :
  forallb (fun test => passes test (mem_world ∅))
    [creates_and_reopens_file_by_path; close_is_idempotent;
     reader_remains_usable_after_opening_writer; local_database_persists_across_reopen;
     check_s3_database_persists_across_reopen; reads_do_not_fence_active_writer;
     opening_missing_file_without_create_fails; create_or_truncate_clears_an_existing_file;
     file_exists_uses_path_mapping_only; remove_file_deletes_catalog_metadata_and_chunks;
     move_file_preserves_source_and_replaces_destination;
     database_group_keeps_companion_files_with_their_database;
     move_file_rejects_moves_between_databases; db_cache_ids_are_stable_and_scoped_per_database;
     writers_of_different_databases_share_a_root;
     reads_on_a_writable_filesystem_do_not_fence_the_writer; claims_slatedb_urls] = true.
Proof. vm_compute. reflexivity. Qed.
