(* ===== verification/FfiTests.v ===== *)
(** * The tests of ffi.rs on the model

    A C caller: its state is the world and the message of the last error.  A
    pointer the caller holds is passed to a call and comes back with the
    object as the call left it. *)

From S2P Require Import Prelude RustStd Error SlateDb MemDb FileMetadata FileHandle.
From S2P Require Import DatabaseMetadata.
From S2P Require Import Cache FileSystem MemFs IoMetrics Ffi TestKit HandleTests FileSystemTests.
From S2P Require Flags.

#[local] Open Scope string_scope.
#[local] Open Scope list_scope.
#[local] Open Scope Z_scope.

Definition CState : Type := MemWorld * list byte.
Definition c_start : CState := (mem_world ∅, []).
Definition TestFfiFs : Type := FfiFileSystem unit TestFs.
Definition TestFfiHandle : Type := FfiFileHandle unit TestHandle.

#[local] Existing Instance test_opendal.
#[local] Instance test_env : FfiEnv MemWorld unit unit unit f64 := {|
    runtime_build _ := ret tt;
    recorded_metrics _ _ _ _ := None;
    recorded_io _ _ := default_metrics
  |}.

(** ** Calls: on an object, with an output, with an output and a buffer *)

Definition c_status {S} (r : res Empty_set Z) : M Error S Z :=
  match r with
  | Ok status => ret status
  | Err v => match v with end
  | Panic p => lift (Panic p)
  end.

Definition call {P} (c : M Empty_set (P * MemWorld * list byte) Z) (p : P) : M Error CState (Z * P) :=
  fun '(w, last) =>
    let '(r, (p, w, last)) := c (p, w, last) in
    (let! status := c_status r in ret (status, p)) (w, last).

Definition call_out {T P} (c : M Empty_set (option T * (P * MemWorld) * list byte) Z) (out : T) (p : P)
    : M Error CState (Z * T * P) :=
  fun '(w, last) =>
    let '(r, (out', (p, w), last)) := c (Some out, (p, w), last) in
    (let! status := c_status r in ret (status, default out out', p)) (w, last).

Definition call_buffer {P}
    (c : M Empty_set (option Z * (P * (option (list byte) * MemWorld)) * list byte) Z)
    (out : Z) (p : P) (buffer : list byte) : M Error CState (Z * Z * P * list byte) :=
  fun '(w, last) =>
    let '(r, (out', (p, (buffer', w)), last)) := c (Some out, (p, (Some buffer, w)), last) in
    (let! status := c_status r in ret (status, default out out', p, default buffer buffer')) (w, last).

Definition last_message : M Error CState (list byte) :=
  fun '(w, last) => (Ok (slatedb_fs_last_error_message last), (w, last)).
Definition destroy_handle (p : option TestFfiHandle) : M Error CState unit :=
  fun '(w, last) => (Ok tt, slatedb_file_destroy p w last).
Definition destroy_fs (p : option TestFfiFs) : M Error CState unit :=
  fun '(w, last) => (Ok tt, (slatedb_fs_destroy (fun m => (map_to_list m).*2) p w, last)).

(** ** The helpers of the tests *)

Definition read_write_options : FfiOpenOptions :=
  {| read := 1; write := 1; create := 1; append := 0; truncate_existing := 0 |}.
Definition read_only_options : FfiOpenOptions :=
  {| read := 1; write := 0; create := 0; append := 0; truncate_existing := 0 |}.

Definition expect_ok (code : Z) : M Error CState unit := assert (code =? 0).

(** A constructor, with the output pointer at null. *)
Definition construct (c : M Empty_set (option (option TestFfiFs) * MemWorld * list byte) Z)
    : M Error CState (Z * option TestFfiFs) :=
  let! (status, out) := call c (Some None) in ret (status, default None out).

Definition create_local (root : list byte) : M Error CState (option TestFfiFs) :=
  let! (status, fs) := construct (slatedb_fs_create_local (Some root) None None) in
  let! _ := expect_ok status in
  ret fs.

Definition create_fs : M Error CState (option TestFfiFs) :=
  let! (status, fs) := construct (slatedb_fs_create_memory None None) in
  let! _ := expect_ok status in
  let! _ := assert (bool_decide (is_Some fs)) in
  ret fs.

Definition open_file (fs : option TestFfiFs) (path : list byte) (options : FfiOpenOptions)
    : M Error CState (option TestFfiHandle * option TestFfiFs) :=
  let! (status, handle, fs) := call_out (slatedb_fs_open_file (Some path) (Some options)) None fs in
  let! _ := expect_ok status in
  let! _ := assert (bool_decide (is_Some handle)) in
  ret (handle, fs).

Definition file_exists (fs : option TestFfiFs) (path : list byte)
    : M Error CState (bool * option TestFfiFs) :=
  let! (status, exists_, fs) := call_out (slatedb_fs_file_exists (Some path)) 0 fs in
  let! _ := expect_ok status in
  ret (negb (exists_ =? 0), fs).

(** A call on a handle that must succeed. *)
Definition call_ok {P} (c : M Empty_set (P * MemWorld * list byte) Z) (p : P) : M Error CState P :=
  let! (status, p) := call c p in let! _ := expect_ok status in ret p.
Definition call_out_ok {T P} (c : M Empty_set (option T * (P * MemWorld) * list byte) Z) (out : T) (p : P)
    : M Error CState (T * P) :=
  let! (status, out, p) := call_out c out p in let! _ := expect_ok status in ret (out, p).
Definition read_into (handle : option TestFfiHandle) (buffer : list byte)
    : M Error CState (Z * option TestFfiHandle * list byte) :=
  let! (status, n, handle, buffer) := call_buffer (slatedb_file_read (zlen buffer)) 0 handle buffer in
  let! _ := expect_ok status in
  ret (n, handle, buffer).

(** ** The tests *)

Definition ffi_s3_constructor_validates_config : M Error CState unit :=
  let config :=
    {| bucket := Some []; root := None; endpoint := None; region := None; key_id := None;
       secret := None; session_token := None; use_ssl := 1; virtual_host_style := 0 |} in
  let! (status, fs) := construct (slatedb_fs_create_s3 (Some config) None None) in
  let! _ := assert_eq status (error_code_i32 CodeInvalidArgument) in
  let! _ := assert (match fs with None => true | Some _ => false end) in
  let! message := last_message in
  assert (FileSystem.contains message (b "S3 bucket must not be empty")).

Definition ffi_local_constructor_validates_and_opens_root : M Error CState unit :=
  let! (status, fs) := construct (slatedb_fs_create_local (Some []) None None) in
  let! _ := assert_eq status (error_code_i32 CodeInvalidArgument) in
  let! _ := assert (match fs with None => true | Some _ => false end) in
  let! fs := create_local tempdir in
  let! _ := assert (bool_decide (is_Some fs)) in
  destroy_fs fs.

Definition ffi_local_client_reopens_writer_data : M Error CState unit :=
  let path := b "database.db" in
  let! writer := create_local tempdir in
  let! (handle, writer) := open_file writer path read_write_options in
  let! (_, handle) := call_out_ok (slatedb_file_write (Some (b "contents")) 8) 0 handle in
  let! handle := call_ok slatedb_file_sync handle in
  let! _ := destroy_handle handle in
  let! _ := destroy_fs writer in
  let! reader := create_local tempdir in
  let! (exists_, reader) := file_exists reader path in
  let! _ := assert exists_ in
  let! (handle, reader) := open_file reader path read_only_options in
  let! (_, handle, contents) := read_into handle (zeros 8) in
  let! _ := assert_eq contents (b "contents") in
  let! _ := destroy_handle handle in
  destroy_fs reader.

Definition ffi_open_close_lifecycle : M Error CState unit :=
  let! fs := create_fs in
  let! (handle, fs) := open_file fs (b "database.db") read_write_options in
  let! handle := call_ok slatedb_file_close handle in
  let! _ := destroy_handle handle in
  let! (error, missing_handle, fs) :=
    call_out (slatedb_fs_open_file (Some (b "missing.db")) (Some read_only_options)) None fs in
  let! _ := assert_eq error (error_code_i32 CodeFileNotFound) in
  let! _ := assert (match missing_handle with None => true | Some _ => false end) in
  destroy_fs fs.

Definition ffi_read_write_sync_and_truncate : M Error CState unit :=
  let! fs := create_fs in
  let path := b "database.db" in
  let! (handle, fs) := open_file fs path read_write_options in
  let! (bytes_written, handle) := call_out_ok (slatedb_file_write (Some (b "abcdef")) 6) 0 handle in
  let! _ := assert_eq bytes_written 6 in
  let! handle := call_ok (slatedb_file_pwrite (Some (b "XY")) 2 2) handle in
  let! handle := call_ok (slatedb_file_truncate 4) handle in
  let! handle := call_ok slatedb_file_sync handle in
  let! (size, handle) := call_out_ok slatedb_file_get_size 0 handle in
  let! _ := assert_eq size 4 in
  let! _ := destroy_handle handle in
  let! (handle, fs) := open_file fs path read_only_options in
  let! (bytes_read, handle, contents) := read_into handle (zeros 4) in
  let! _ := assert_eq bytes_read (zlen contents) in
  let! _ := assert_eq contents (b "abXY") in
  let! (status, bytes_read, handle, middle) :=
    call_buffer (slatedb_file_pread 2 2) bytes_read handle (zeros 2) in
  let! _ := expect_ok status in
  let! _ := assert_eq middle (b "XY") in
  let! _ := destroy_handle handle in
  destroy_fs fs.

Definition ffi_seek_and_get_position : M Error CState unit :=
  let! fs := create_fs in
  let! (handle, fs) := open_file fs (b "database.db") read_write_options in
  let! (_, handle) := call_out_ok (slatedb_file_write (Some (b "abc")) 3) 0 handle in
  let! handle := call_ok (slatedb_file_seek 1) handle in
  let! (position, handle) := call_out_ok slatedb_file_get_position 0 handle in
  let! _ := assert_eq position 1 in
  let! (_, handle, byte) := read_into handle (zeros 1) in
  let! _ := assert_eq byte (b "b") in
  let! (position, handle) := call_out_ok slatedb_file_get_position position handle in
  let! _ := assert_eq position 2 in
  let! _ := destroy_handle handle in
  destroy_fs fs.

Definition ffi_file_exists_move_and_remove : M Error CState unit :=
  let! fs := create_fs in
  let source := b "database.db.wal.checkpoint" in
  let target := b "database.db.wal" in
  let! (handle, fs) := open_file fs source read_write_options in
  let! _ := destroy_handle handle in
  let! (exists_, fs) := file_exists fs source in
  let! _ := assert exists_ in
  let! (exists_, fs) := file_exists fs target in
  let! _ := assert (negb exists_) in
  let! fs := call_ok (slatedb_fs_move_file (Some source) (Some target)) fs in
  let! (exists_, fs) := file_exists fs source in
  let! _ := assert (negb exists_) in
  let! (exists_, fs) := file_exists fs target in
  let! _ := assert exists_ in
  let! fs := call_ok (slatedb_fs_remove_file (Some target)) fs in
  let! (exists_, fs) := file_exists fs target in
  let! _ := assert (negb exists_) in
  destroy_fs fs.

Lemma ffi_tests_pass :
  forallb (fun test => passes test c_start)
    [ffi_s3_constructor_validates_config; ffi_local_constructor_validates_and_opens_root;
     ffi_local_client_reopens_writer_data; ffi_open_close_lifecycle;
     ffi_read_write_sync_and_truncate; ffi_seek_and_get_position;
     ffi_file_exists_move_and_remove] = true.
Proof. vm_compute. reflexivity. Qed.
