(* ===== verification/MetricsTests.v ===== *)
(** * The tests of io_metrics.rs and slatedb_object_store.rs on the model *)

From S2P Require Import Prelude RustStd Error IoMetrics TestKit.
From S2P Require ObjectStore.

#[local] Open Scope string_scope.
#[local] Open Scope list_scope.
#[local] Open Scope Z_scope.

(** ** io_metrics.rs, on binary64 *)

#[global] Instance duration_eq_dec : EqDecision Duration.
Proof. solve_decision. Defined.

Definition duration_from_secs (n : Z) : Duration := {| secs := n; nanos := 0 |}.

Definition calculates_population_average_and_standard_deviation : M Error unit unit :=
  let stats := default_stats (F:=f64) in
  let stats := record stats (duration_from_secs 1) 5 in
  let stats := record stats (duration_from_secs 3) 7 in
  let! snapshot := unwrap (snapshot_stats stats) in
  let! _ := assert_eq (request_count snapshot) 2 in
  let! _ := assert_eq (stats_bytes snapshot) 12 in
  let! _ := assert_eq (average_latency snapshot) (duration_from_secs 2) in
  assert_eq (stddev_latency snapshot) (duration_from_secs 1).

Lemma io_metrics_test_passes : passes calculates_population_average_and_standard_deviation tt = true.
Proof. vm_compute. reflexivity. Qed.

(** ** slatedb_object_store.rs *)

Definition precondition_error : res ObjectStore.ObjectStoreError unit :=
  Err (ObjectStore.Precondition "conditional-get" "condition failed").

Definition conditional_get_errors_follow_object_store_semantics : M Error unit unit :=
  let error := ObjectStore.map_conditional_get_result precondition_error true in
  let! _ := assert (match error with Err (ObjectStore.NotModified _ _) => true | _ => false end) in
  let error := ObjectStore.map_conditional_get_result precondition_error false in
  assert (match error with Err (ObjectStore.Precondition _ _) => true | _ => false end).

Lemma object_store_test_passes : passes conditional_get_errors_follow_object_store_semantics tt = true.
Proof. vm_compute. reflexivity. Qed.
